(* ===== verification/_CoqProject ===== *)
-Q . S2P
Prelude.v
Bytes.v
Checksum.v
IcmpTypes.v
Mpls.v
Iface.v
Ident.v
Extension.v
Multipart.v
Bodies.v
IpHeaders.v
Message.v
Typing.v
Platforms.v
Listen.v
GoTime.v
Pinger.v
Acks.v
Session.v
PlainCodec.v
Handshake.v
IPText.v
System.v
Exchange.v
History.v
Ntp.v
Clock.v
Prom.v
Statements.v
SharedInv.v
Locking.v
Safety.v
Races.v
Interleaving.v
Cadence.v
Pps.v
Daemon.v
