(* ===== verification/Prelude.v ===== *)
(** * sping: a verification of the split-latency ping daemon and its ICMP codec

    sping measures the latency of each direction between two hosts with synchronised
    clocks. This library models the daemon (src/main.go, sessionhandle.go, ntp.go,
    timecorrection.go, prom.go), the ICMP package it ships (src/icmp) and the ICMP
    timestamp pinger built on that package (src/icmp-timestap-pinger), by a shallow
    embedding: Go functions are Rocq functions, fallible ones return a [result] whose
    constructors tell a returned error from a run-time panic and from a loop that
    does not end, and the goroutines are a transition system over a world with a heap.

    ** The program

    A host invites a peer over TCP: the responder draws a session number, stores a
    session under it and answers the number; the initiator stores a session under the
    same number. The initiator then sends UDP handshakes until one comes back; the
    responder activates its session and echoes the datagram. Each end then sends one
    ping per second of its corrected clock. A ping carries the time it was sent and
    the last 32 pings its sender received, so that each end can compute both latencies
    and both losses. A collector removes silent sessions, and a scrape exports the
    figures. The clock is corrected by the median of NTP answers.

    ** Files

    Foundations.
    - Prelude: outcomes of Go code, fixed-width integers as [Z] with their wrap-around,
      arithmetic and list lemmas, the hint databases [orderly] and [ints], the rewrite
      base [len] with the tactic of the same name.
    - Bytes: byte slices with run-time checked indexing and slicing, [copy], big-endian
      reads and writes; the hint database [bytes].
    - GoTime: instants with wall and monotonic readings, saturating durations.

    The package icmp.
    - Checksum (message.go: checksum).
    - IcmpTypes (errors, message types, and the class [ExtObject] with its laws
      [ExtObjectLaws]: what an extension object promises to the encoder and decoder of
      the extension structure).
    - Mpls, Iface, Ident (mpls.go, interface.go): the three objects, each an instance.
    - Extension (extension.go), Multipart (multipart.go): the extension structure of
      RFC 4884 and the bodies that carry it, proved against the class.
    - Bodies (echo.go, timestamp.go, dstunreach.go, timeexceeded.go, paramprob.go,
      packettoobig.go, messagebody.go), Message (message.go), IpHeaders (ipv4.go, ipv6.go).
    - Typing: the types of what the parsers return, from the message down to the fields
      of the extension objects.
    - Platforms (listen_posix.go: the constants; listen_stub.go; sys_freebsd.go).
    - Listen (listen_posix.go, helper_posix.go, endpoint.go): opening an endpoint, with
      the set of open descriptors, and the guarded methods of the endpoint.
    - Pinger (icmp-timestap-pinger/main.go): one ping from opening the endpoint to the
      printed line, and [main] over all hosts; it composes Listen and Message.

    The daemon.
    - Acks (main.go: pingInfo, pingStruct, getNextAckSlot, getLoss, getStats).
    - Session (main.go and sessionhandle.go): the session record, the world (heap of
      sessions, table of pointers, global socket, goroutines, datagrams sent) and one
      definition per handler or loop iteration. The class [Codec] with [CodecLaws] is
      what the handlers use of the vendored msgpack: decoding an encoded well-formed
      value gives it back without monotonic readings; PlainCodec is a concrete
      instance, by which every theorem that assumes the laws has a witness.
    - Handshake (sessionhandle.go): the TCP exchange, with the decimal printing and
      parsing of the session number.
    - IPText: the parsing and printing of addresses (package net) that -peers, the host
      labels and the dialled addresses go through.
    - System: the step relation at the grain of handlers. An event names a goroutine or
      an input; [exec] runs the handler of the event to its end; [reachable] is the
      reflexive transitive closure from the empty world; [Inv] is the invariant,
      preserved by every step. What it says of one handler holds of the program as long
      as the handlers on one session do not overlap.
    - Exchange: the two ends of a session together.
    - History: the abstract specification of a session's timing data, the list of all
      pings it received, with the refinement that every step of System implements it,
      and the statistics expressed on that list.
    - Ntp (ntp.go), Clock (timecorrection.go and the loops of main.go), Prom (prom.go).
    - Statements: the step relation at the grain of statements. A goroutine is a program
      counter [pc], its next statement with its local variables; a step of [tstep] makes
      at most one access to the session table, to [sessionLock] or to a field of a
      session object; [lexec] adds the goroutines that start and the events of System that
      are one statement; [l_reachable] is the closure, [lrun] runs a schedule.
    - SharedInv: what holds between any two of these statements ([WInv]), and what each
      goroutine may rely on at its next one ([pc_ok]).
    - Locking: mutual exclusion, and the length of the critical sections.
    - Safety: which statements fail, and in which states.
    - Races: echoes, ping loops and the slot of the ring when handlers overlap, and when
      they do not.
    - Interleaving: the simulation of System by Statements.
    - Cadence (main.go: sendPackets): the iterations of a send loop at the readings of
      the clock it makes, composed with the rings of two ends.
    - Pps (pps.go, pps_linux.go, pps_other.go): the pulse device.
    - Daemon (main.go: main, listenAndRoute; sessionhandle.go: newSessionID; prom.go:
      handlePrometheus): what is started for given flags, the receive loop, the web server.

    A definition has the name of its Go function; a method of type T is [T_method] where
    the name alone would be ambiguous. Parts of a long function that are definitions of
    their own say which part they are.

    ** What the theorems show

    - Sessions, handler by handler: the table is consistent, and a session never pings
      before its handshake; the collector keeps exactly the sessions heard in the last
      minute.
    - Sessions, statement by statement, at every interleaving: the same facts but for
      those that overlapping handlers break; a statement returns, with exactly five
      exceptions; at most one ping loop per invite; no new echo once a session is
      activated. While the handlers on each session do not overlap: one echo, one ping
      loop, and the slot inside the ring.
    - The lock excludes, is always released, and leaves exactly the reads without it to
      race with the writes; the coarse model is refined by the fine one; a session that is
      gone is started again.
    - Protocol: both ends get the same session number, the handshake completes from the
      waiting states, and a ping of one end is recorded by the other as it was sent.
    - Statistics: a session is explained by the list of pings it received, which each
      step keeps or extends by one; the ring is the last 32 pings, the losses are the
      numbers of lost seconds of the window in both directions, the send latency is that
      of the newest acknowledged ping, and the exported gauges are those figures. With the
      loops of both ends in time, the losses are the pings that were sent and not
      delivered and the seconds in which nothing was sent.
    - Clock: the loops wake on whole corrected seconds and send once in each; the
      calibration stays within any majority of three of the five nearest servers; the
      cache and the guard.
    - ICMP: encoding then decoding gives the same message, with a checksum that verifies
      and that a change of one byte breaks; every decoder returns on every input, with
      the errors characterised, and what it returns is typed; the endpoint and the pinger
      leak no descriptor, and the pinger's line splits the round trip.
    - Start: what [main] starts for its flags, with the texts of addresses read back.
    - Behaviour the code probably does not mean, as theorems or lemmas: the lost wake-up,
      two overlapping pings that index outside the ring, two overlapping handshakes that
      are both echoed, the abort of a read of the table during a write, the crash by an
      early collection and by an echo reply, the truncated session number, the calibration
      without answers, the one-sided guard, the pulses without a channel, the collection
      of a session just heard, repeated identifiers, stale and shared gauges, session
      numbers that are in use, the loss search that does not end before 1970.

    ** Bounds and fuel

    - [parse_objects] has fuel for one round per byte; an object takes at least four
      ([parse_objects_orderly]). [attr_fuel] is the number of attribute bits, as each
      round clears one ([info_parse_loop_orderly]). [loss_fuel] is 32: the search makes
      at most 31 counted rounds ([getLoss_spec]). [decimal] has fuel 10, the digits of a
      uint32. [parse6_loop] and [print_loop] have fuel 8, the groups of an address, as each
      round takes one; [longest_run] has the number of groups; [hex_from] starts at digit
      7 of a uint32. No theorem about these functions is conditional on enough fuel.
    - Checksums are stated up to 131074 bytes, where the 32-bit sum cannot overflow; the
      longest IP datagram has 65535.
    - Times are between 1970 and 2200 where a difference must fit an int64 ([in_era]).

    ** What is not modelled

    - In Statements the accesses to fields happen one after the other, and a field is read
      or written at once: the reorderings and torn values that the Go memory model allows
      to a racy program are outside the model. The scrape of one session, which reads its
      ring several times and writes only gauges, is one step.
    - An event of System has the corrected time its handler got; that a call of
      [timeNowCorrected] can end the process is in the handlers' definitions (their
      argument is a [corrected]) and in Statements.
    - Sockets and the network are events and arguments, and so are the answers of the rate
      limiter, of the pulse device and of the TCP peers. NTP queries, the sorting
      algorithm (a class with its contract), msgpack, the limiter and Prometheus are
      vendored or library code. Floating point is avoided: gauges hold the integers that
      are converted.
    - Of the web server, the registration of the routes and the index page; not the
      matching of requests by the standard mux and not the metrics page, which the
      vendored library writes. [Describe] and [Collect] only pass the gauges to it.
    - Logging, the debug flags, and the flags that only name an address or a device.

    ** Continuation

    The histories of History at the grain of statements, with the scrape as its single
    reads; the ordering of accesses by the Go memory model; a bound on the
    datagrams the receive loop passes under a limiter with a stated contract, and the
    dispatch of web requests are the parts this library can grow by. *)

From Stdlib Require Export ZArith Lia.
From stdpp Require Export base tactics list list_numbers numbers option.

Declare Scope go_scope.
Delimit Scope go_scope with go.

(** ** Outcomes of Go code

    [Ok] is a normal return, [Err] a returned error value, [Panic] a run-time
    panic (index out of range, nil dereference, failed type assertion), and
    [Diverge] a loop that outlives the fuel of its model. *)
Inductive result (E A : Type) : Type :=
  | Ok (a : A)
  | Err (e : E)
  | Panic
  | Diverge.
Arguments Ok {_ _} _.
Arguments Err {_ _} _.
Arguments Panic {_ _}.
Arguments Diverge {_ _}.

#[export] Instance result_ret {E} : MRet (result E) := fun A => @Ok E A.

#[export] Instance result_bind {E} : MBind (result E) := fun A B f m =>
  match m with
  | Ok a => f a
  | Err e => Err e
  | Panic => Panic
  | Diverge => Diverge
  end.

#[export] Instance result_fmap {E} : FMap (result E) := fun A B f m =>
  match m with
  | Ok a => Ok (f a)
  | Err e => Err e
  | Panic => Panic
  | Diverge => Diverge
  end.

#[export] Instance result_eq_dec {E A} `{EqDecision E, EqDecision A} :
  EqDecision (result E A).
Proof. solve_decision. Defined.

(** A run of Go code that ends in an orderly way: a value or an error. *)
Definition orderly {E A} (m : result E A) : Prop :=
  match m with Ok _ | Err _ => True | Panic | Diverge => False end.

(** What a run that returns a value satisfies; a run that does not return
    normally satisfies nothing, so [returns] also states termination. *)
Definition returns {E A} (m : result E A) (P : A -> Prop) : Prop :=
  match m with Ok a => P a | _ => False end.

Lemma Ok_inj {E A} (a b : A) : (Ok a : result E A) = Ok b -> a = b.
Proof. by injection 1. Qed.

Lemma bind_Ok {E A B} (f : A -> result E B) (a : A) : (Ok a ≫= f) = f a.
Proof. reflexivity. Qed.

Lemma bind_Ok_inv {E A B} (m : result E A) (f : A -> result E B) (b : B) :
  m ≫= f = Ok b -> exists a, m = Ok a /\ f a = Ok b.
Proof. destruct m; simpl; intros H; try discriminate H; eauto. Qed.

Lemma orderly_bind {E A B} (m : result E A) (f : A -> result E B) :
  orderly m -> (forall a, m = Ok a -> orderly (f a)) -> orderly (m ≫= f).
Proof. destruct m; simpl; eauto. Qed.

Lemma orderly_ret {E A} (a : A) : orderly (Ok a : result E A).
Proof. exact I. Qed.

Lemma orderly_err {E A} (e : E) : orderly (Err e : result E A).
Proof. exact I. Qed.

Create HintDb orderly.
#[export] Hint Resolve orderly_ret orderly_err : orderly.

(** Splits an orderliness goal along the binds and the tests of the code. *)
Ltac orderly_step :=
  match goal with
  | |- orderly (_ ≫= _) => apply orderly_bind; [|intros ? ?]
  | |- orderly (if _ then _ else _) => case_match
  | |- orderly (match _ with _ => _ end) => case_match
  end.
Ltac solve_orderly := repeat orderly_step; eauto with orderly.

(** Inverts the hypotheses that say that a sequence of steps returned. *)
Ltac inv_result :=
  repeat match goal with
  | H : Ok _ = Ok _ |- _ => injection H as H; try subst
  | H : Err _ = Ok _ |- _ => discriminate H
  | H : Panic = Ok _ |- _ => discriminate H
  | H : Diverge = Ok _ |- _ => discriminate H
  | H : _ ≫= _ = Ok _ |- _ =>
      apply bind_Ok_inv in H; destruct H as (? & ? & H)
  end.

(** Linear arithmetic after unfolding the divisions and remainders by constants. *)
Ltac zdiv := Z.div_mod_to_equations; lia.

(** ** Machine integers *)

(** The value an unsigned [w]-bit conversion keeps. *)
Definition wrap (w z : Z) : Z := Z.modulo z (2 ^ w).
Definition u8 (z : Z) : Z := Z.modulo z 256.
Definition u16 (z : Z) : Z := Z.modulo z 65536.
Definition u32 (z : Z) : Z := Z.modulo z 4294967296.

Definition is_u8 (z : Z) : Prop := (0 <= z < 256)%Z.
Definition is_u16 (z : Z) : Prop := (0 <= z < 65536)%Z.
Definition is_u32 (z : Z) : Prop := (0 <= z < 4294967296)%Z.

Lemma u8_range z : is_u8 (u8 z).
Proof. apply Z.mod_pos_bound; lia. Qed.
Lemma u16_range z : is_u16 (u16 z).
Proof. apply Z.mod_pos_bound; lia. Qed.
Lemma u32_range z : is_u32 (u32 z).
Proof. apply Z.mod_pos_bound; lia. Qed.
Lemma u8_small z : is_u8 z -> u8 z = z.
Proof. apply Z.mod_small. Qed.
Lemma u16_small z : is_u16 z -> u16 z = z.
Proof. apply Z.mod_small. Qed.
Lemma u32_small z : is_u32 z -> u32 z = z.
Proof. apply Z.mod_small. Qed.

Create HintDb ints.
#[export] Hint Resolve u8_range u16_range u32_range : ints.

Lemma land_shiftl_disjoint (a b n : Z) :
  (0 <= n)%Z -> (0 <= a < 2 ^ n)%Z -> Z.land a (Z.shiftl b n) = 0%Z.
Proof.
  intros Hn Ha. apply Z.bits_inj'. intros i Hi. rewrite Z.land_spec, Z.bits_0.
  destruct (Z.lt_ge_cases i n).
  - rewrite (Z.shiftl_spec_low b n i) by lia. apply andb_false_r.
  - rewrite <- (Z.mod_small a (2 ^ n)) by lia.
    rewrite Z.mod_pow2_bits_high by lia. done.
Qed.

(** Disjoint bits: an or with a shifted value is a sum. *)
Lemma lor_shiftl_add (a b n : Z) :
  (0 <= n)%Z -> (0 <= a < 2 ^ n)%Z -> Z.lor a (Z.shiftl b n) = (a + b * 2 ^ n)%Z.
Proof.
  intros Hn Ha. pose proof (land_shiftl_disjoint a b n Hn Ha) as H0.
  rewrite <- Z.lxor_lor, <- Z.add_nocarry_lxor by done.
  by rewrite Z.shiftl_mul_pow2.
Qed.

Lemma lor_shiftl_add' (a b n : Z) :
  (0 <= n)%Z -> (0 <= a < 2 ^ n)%Z -> Z.lor (Z.shiftl b n) a = (b * 2 ^ n + a)%Z.
Proof. intros. rewrite Z.lor_comm, lor_shiftl_add by done. lia. Qed.

Lemma shiftr_div (a n : Z) : (0 <= n)%Z -> Z.shiftr a n = (a / 2 ^ n)%Z.
Proof. apply Z.shiftr_div_pow2. Qed.

Lemma land_ones_mod (a m n : Z) :
  (0 <= n)%Z -> m = Z.ones n -> Z.land a m = (a mod 2 ^ n)%Z.
Proof. intros Hn ->. by apply Z.land_ones. Qed.

(** ** Lists *)

Lemma take_app_exact {A} (l k : list A) n : n = length l -> take n (l ++ k) = l.
Proof. intros ->. apply take_app_length. Qed.

Lemma drop_app_exact {A} (l k : list A) n : n = length l -> drop n (l ++ k) = k.
Proof. intros ->. apply drop_app_length. Qed.

(** How many elements satisfy a test. *)
Fixpoint count {A} (p : A -> bool) (l : list A) : nat :=
  match l with
  | [] => 0
  | x :: l => (if p x then 1 else 0) + count p l
  end.

Lemma count_app {A} (p : A -> bool) (l k : list A) : count p (l ++ k) = (count p l + count p k)%nat.
Proof. induction l as [|x l IH]; simpl; [done|]. rewrite IH. lia. Qed.

(** Replacing an element by one that tests alike keeps the count. *)
Lemma count_insert {A} (p : A -> bool) (l : list A) i x y :
  l !! i = Some x -> p y = p x -> count p (<[i := y]> l) = count p l.
Proof.
  revert i. induction l as [|z l IH]; intros [|i] Hi Hp; simplify_eq/=; [by rewrite Hp|].
  by rewrite (IH i).
Qed.

(** Replacing an element that fails the test counts the new one. *)
Lemma count_insert_new {A} (p : A -> bool) (l : list A) i x y :
  l !! i = Some x -> p x = false ->
  count p (<[i := y]> l) = (count p l + if p y then 1 else 0)%nat.
Proof.
  revert i. induction l as [|z l IH]; intros [|i] Hi Hp; simplify_eq/=.
  - rewrite Hp. lia.
  - rewrite (IH i) by done. lia.
Qed.

Lemma count_insert_drop {A} (p : A -> bool) (l : list A) i x y :
  l !! i = Some x -> p x = true -> p y = false ->
  count p l = S (count p (<[i := y]> l)).
Proof.
  revert i. induction l as [|z l IH]; intros [|i] Hi Hx Hy; simplify_eq/=.
  - by rewrite Hx, Hy.
  - rewrite (IH i) by done. lia.
Qed.

(** What replacing an element does to a count. *)
Lemma count_replace {A} (p : A -> bool) (l : list A) i x y :
  l !! i = Some x ->
  (count p (<[i := y]> l) + (if p x then 1 else 0) = count p l + if p y then 1 else 0)%nat.
Proof.
  revert i. induction l as [|z l IH]; intros [|i] Hi; simplify_eq/=; [lia|].
  specialize (IH i Hi). lia.
Qed.

Lemma count_ext {A} (p q : A -> bool) (l : list A) :
  (forall x, x ∈ l -> p x = q x) -> count p l = count q l.
Proof.
  induction l as [|x l IH]; intros H; simpl; [done|].
  rewrite H by (apply elem_of_cons; by left). rewrite IH; [done|].
  intros y Hy. apply H, elem_of_cons. by right.
Qed.

Lemma count_zero {A} (p : A -> bool) (l : list A) :
  count p l = 0%nat <-> forall x, x ∈ l -> p x = false.
Proof.
  induction l as [|x l IH]; simpl.
  - split; [|done]. intros _ x Hx. by apply elem_of_nil in Hx.
  - split.
    + intros H y Hy. apply elem_of_cons in Hy as [-> |Hy]; [destruct (p x); (done || lia)|].
      apply IH; [lia|done].
    + intros H. rewrite (H x) by (apply elem_of_cons; by left).
      apply IH. intros y Hy. apply H, elem_of_cons. by right.
Qed.

Create Rewrite HintDb len.
#[export] Hint Rewrite @length_app @length_replicate @length_take @length_drop
  @length_fmap @length_cons @length_nil @length_insert : len.
Ltac simpl_len := autorewrite with len in *.
Ltac len := simpl_len; first [lia | simpl in *; lia].
