(* ===== verification/Bytes.v ===== *)
(** * Byte slices

    Go byte slices as lists of integers in [0, 256), with the run-time checks of
    indexing and slicing, the in-place writes of [copy] and of
    [binary.BigEndian.PutUint16]/[PutUint32], and the big-endian readers.
    A slice expression is checked against the length of the slice; Go checks it
    against the capacity, so a run that is free of panics here is free of panics
    in Go. *)

From Stdlib Require Ascii String.
From S2P Require Import Prelude.
Local Open Scope Z_scope.

Abbreviation bytes := (list Z).

Definition is_bytes (b : bytes) : Prop := Forall is_u8 b.

(** The bytes of a string literal. *)
Fixpoint str (s : String.string) : bytes :=
  match s with
  | String.EmptyString => []
  | String.String c s => Z.of_N (Ascii.N_of_ascii c) :: str s
  end.

Section Slices.
Context {E : Type}.

(** [b[i]] *)
Definition at_ (b : bytes) (i : nat) : result E Z :=
  match b !! i with Some x => Ok x | None => Panic end.

(** [b[n:]] *)
Definition slice_from (b : bytes) (n : nat) : result E bytes :=
  if decide (n <= length b)%nat then Ok (drop n b) else Panic.

(** [b[:n]] *)
Definition slice_to (b : bytes) (n : nat) : result E bytes :=
  if decide (n <= length b)%nat then Ok (take n b) else Panic.

(** [b[lo:hi]] *)
Definition slice (b : bytes) (lo hi : nat) : result E bytes :=
  if decide (lo <= hi <= length b)%nat then Ok (drop lo (take hi b)) else Panic.

(** Overwrites the bytes from [off] on: [copy(b[off:], src)] where the write
    must fit, as in [PutUint16(b[off:off+2], v)] and in [b[off] = v]. *)
Definition put (b : bytes) (off : nat) (src : bytes) : result E bytes :=
  if decide (off + length src <= length b)%nat
  then Ok (take off b ++ src ++ drop (off + length src) b)
  else Panic.

(** [binary.BigEndian.Uint16(b)] *)
Definition uint16 (b : bytes) : result E Z :=
  match b with
  | x :: y :: _ => Ok (Z.lor y (Z.shiftl x 8))
  | _ => Panic
  end.

(** [binary.BigEndian.Uint32(b)] *)
Definition uint32 (b : bytes) : result E Z :=
  match b with
  | x :: y :: z :: t :: _ =>
      Ok (Z.lor (Z.lor (Z.lor t (Z.shiftl z 8)) (Z.shiftl y 16)) (Z.shiftl x 24))
  | _ => Panic
  end.
End Slices.

(** [copy(dst, src)]: as many bytes as both slices have. *)
Definition copy (dst src : bytes) : bytes :=
  take (length dst) src ++ drop (length src) dst.

(** The bytes [PutUint16] and [PutUint32] store. *)
Definition be16 (v : Z) : bytes := [u8 (Z.shiftr v 8); u8 v].
Definition be32 (v : Z) : bytes :=
  [u8 (Z.shiftr v 24); u8 (Z.shiftr v 16); u8 (Z.shiftr v 8); u8 v].

(** [make([]byte, n)] *)
Definition zeros (n : nat) : bytes := replicate n 0.
Arguments zeros : simpl never.
Arguments slice_from : simpl never.
Arguments slice_to : simpl never.
Arguments slice : simpl never.
Arguments put : simpl never.

(** Applies an in-place write to the sub-slice [b[off:]]. *)
Definition on_suffix {E} (off : nat) (f : bytes -> result E bytes) (b : bytes)
    : result E bytes :=
  t ← slice_from b off; t' ← f t; Ok (take off b ++ t').

(** ** Well-formed bytes *)

Lemma is_bytes_app b c : is_bytes (b ++ c) <-> is_bytes b /\ is_bytes c.
Proof. apply Forall_app. Qed.

Lemma is_bytes_take n b : is_bytes b -> is_bytes (take n b).
Proof. apply Forall_take. Qed.

Lemma is_bytes_drop n b : is_bytes b -> is_bytes (drop n b).
Proof. apply Forall_drop. Qed.

Lemma is_bytes_zeros n : is_bytes (zeros n).
Proof. apply Forall_replicate. unfold is_u8; lia. Qed.

Lemma is_bytes_be16 v : is_bytes (be16 v).
Proof. repeat constructor; apply u8_range. Qed.

Lemma is_bytes_be32 v : is_bytes (be32 v).
Proof. repeat constructor; apply u8_range. Qed.

Lemma is_bytes_lookup b i x : is_bytes b -> b !! i = Some x -> is_u8 x.
Proof. intros Hb Hi. by eapply Forall_lookup_1 in Hb. Qed.

Create HintDb bytes.
#[export] Hint Resolve is_bytes_take is_bytes_drop is_bytes_zeros is_bytes_be16
  is_bytes_be32 : bytes.

Lemma length_zeros n : length (zeros n) = n.
Proof. apply length_replicate. Qed.
Lemma length_be16 v : length (be16 v) = 2%nat.
Proof. done. Qed.
Lemma length_be32 v : length (be32 v) = 4%nat.
Proof. done. Qed.
Lemma length_copy dst src : length (copy dst src) = length dst.
Proof. unfold copy. rewrite length_app, length_take, length_drop. lia. Qed.
#[export] Hint Rewrite length_zeros length_be16 length_be32 length_copy : len.

Lemma zeros_app n m : zeros (n + m) = zeros n ++ zeros m.
Proof. apply replicate_add. Qed.

Lemma drop_zeros n m : drop n (zeros m) = zeros (m - n).
Proof. apply drop_replicate. Qed.

Lemma take_zeros n m : (n <= m)%nat -> take n (zeros m) = zeros n.
Proof. intros. unfold zeros. rewrite take_replicate. f_equal; lia. Qed.

Lemma copy_fits dst src :
  (length src <= length dst)%nat -> copy dst src = src ++ drop (length src) dst.
Proof. intros. unfold copy. rewrite take_ge; [done | lia]. Qed.

Lemma copy_app dst src rest :
  length dst = length src -> copy (dst ++ rest) src = src ++ rest.
Proof.
  intros Hl. rewrite copy_fits by len. f_equal. by apply drop_app_exact.
Qed.

Lemma copy_all n (b : bytes) : n = length b -> copy (zeros n) b = b.
Proof.
  intros ->. unfold copy. rewrite length_zeros, take_ge, drop_ge by len. apply app_nil_r.
Qed.

(** ** Accesses that succeed *)

(** The two readers as sums. *)
Lemma lor2_sum x y : is_u8 y -> Z.lor y (Z.shiftl x 8) = y + x * 256.
Proof. intros. by rewrite lor_shiftl_add. Qed.

Lemma lor4_sum x y z t :
  is_u8 y -> is_u8 z -> is_u8 t ->
  Z.lor (Z.lor (Z.lor t (Z.shiftl z 8)) (Z.shiftl y 16)) (Z.shiftl x 24)
    = t + z * 256 + y * 65536 + x * 16777216.
Proof.
  unfold is_u8. intros. rewrite (lor_shiftl_add t z) by lia.
  rewrite (lor_shiftl_add (t + z * 2 ^ 8) y) by lia.
  by rewrite lor_shiftl_add by lia.
Qed.

Section SliceLemmas.
Context {E : Type}.

Lemma at_ok (b : bytes) i x : b !! i = Some x -> at_ b i = (Ok x : result E Z).
Proof. unfold at_. by intros ->. Qed.

Lemma at_returns (b : bytes) i :
  (i < length b)%nat -> exists x, b !! i = Some x /\ at_ b i = (Ok x : result E Z).
Proof.
  intros Hi. destruct (lookup_lt_is_Some_2 b i Hi) as [x Hx].
  exists x. by rewrite (at_ok _ _ _ Hx).
Qed.

Lemma slice_from_ok (b : bytes) n :
  (n <= length b)%nat -> slice_from b n = (Ok (drop n b) : result E bytes).
Proof. intros. unfold slice_from. by rewrite decide_True. Qed.

Lemma slice_from_app (a b : bytes) n :
  n = length a -> slice_from (a ++ b) n = (Ok b : result E bytes).
Proof.
  intros ->. rewrite slice_from_ok by len. by rewrite drop_app_length.
Qed.

Lemma slice_to_ok (b : bytes) n :
  (n <= length b)%nat -> slice_to b n = (Ok (take n b) : result E bytes).
Proof. intros. unfold slice_to. by rewrite decide_True. Qed.

Lemma slice_ok (b : bytes) lo hi :
  (lo <= hi <= length b)%nat ->
  slice b lo hi = (Ok (drop lo (take hi b)) : result E bytes).
Proof. intros. unfold slice. by rewrite decide_True. Qed.

Lemma slice_to_app (a b : bytes) n :
  n = length a -> slice_to (a ++ b) n = (Ok a : result E bytes).
Proof. intros ->. rewrite slice_to_ok by len. by rewrite take_app_length. Qed.

Lemma slice_mid (a b c : bytes) lo hi :
  lo = length a -> hi = (length a + length b)%nat ->
  slice (a ++ b ++ c) lo hi = (Ok b : result E bytes).
Proof.
  intros -> ->. rewrite slice_ok by len. f_equal.
  rewrite (app_assoc a), take_app_exact by len. apply drop_app_length.
Qed.

Lemma put_ok (b : bytes) off src :
  (off + length src <= length b)%nat ->
  put b off src =
    (Ok (take off b ++ src ++ drop (off + length src) b) : result E bytes).
Proof. intros. unfold put. by rewrite decide_True. Qed.

Lemma put_app (a old c src : bytes) off :
  off = length a -> length src = length old ->
  put (a ++ old ++ c) off src = (Ok (a ++ src ++ c) : result E bytes).
Proof.
  intros -> Hl. rewrite put_ok by len. f_equal. rewrite take_app_length. do 2 f_equal.
  rewrite Hl, drop_app_add. by apply drop_app_exact.
Qed.

Lemma put_head (old c src : bytes) :
  length src = length old -> put (old ++ c) 0 src = (Ok (src ++ c) : result E bytes).
Proof. by apply (put_app []). Qed.

Lemma put_length (b : bytes) off src b' :
  put b off src = (Ok b' : result E bytes) -> length b' = length b.
Proof. unfold put. case_decide; intros ?; inv_result. len. Qed.

Lemma uint16_be16 v rest :
  uint16 (be16 v ++ rest) = (Ok (u16 v) : result E Z).
Proof.
  simpl. rewrite lor2_sum by apply u8_range.
  rewrite shiftr_div by lia. unfold u8, u16. f_equal. change (2 ^ 8) with 256. zdiv.
Qed.

Lemma uint32_be32 v rest :
  uint32 (be32 v ++ rest) = (Ok (u32 v) : result E Z).
Proof.
  simpl. rewrite lor4_sum by apply u8_range. rewrite !shiftr_div by lia.
  unfold u8, u32. f_equal. change (2 ^ 8) with 256. change (2 ^ 16) with 65536.
  change (2 ^ 24) with 16777216. zdiv.
Qed.

Lemma uint16_be16_small v : is_u16 v -> uint16 (be16 v) = (Ok v : result E Z).
Proof. intros. rewrite <- (app_nil_r (be16 v)), uint16_be16. by rewrite u16_small. Qed.

Lemma uint32_be32_small v : is_u32 v -> uint32 (be32 v) = (Ok v : result E Z).
Proof. intros. rewrite <- (app_nil_r (be32 v)), uint32_be32. by rewrite u32_small. Qed.

Lemma uint16_returns (b : bytes) :
  is_bytes b -> (2 <= length b)%nat ->
  exists v, uint16 b = (Ok v : result E Z) /\ is_u16 v.
Proof.
  intros Hb Hl. destruct b as [|x [|y b]]; simpl in Hl; try lia.
  apply Forall_cons_1 in Hb as [Hx Hb]. apply Forall_cons_1 in Hb as [Hy _].
  eexists; split; [reflexivity|].
  pose proof (lor2_sum x y Hy) as ->. unfold is_u8, is_u16 in *. lia.
Qed.

Lemma uint32_returns (b : bytes) :
  is_bytes b -> (4 <= length b)%nat ->
  exists v, uint32 b = (Ok v : result E Z) /\ is_u32 v.
Proof.
  intros Hb Hl. destruct b as [|x [|y [|z [|t b]]]]; simpl in Hl; try lia.
  apply Forall_cons_1 in Hb as [Hx Hb]. apply Forall_cons_1 in Hb as [Hy Hb].
  apply Forall_cons_1 in Hb as [Hz Hb]. apply Forall_cons_1 in Hb as [Ht _].
  eexists; split; [reflexivity|].
  pose proof (lor4_sum x y z t Hy Hz Ht) as ->. unfold is_u8, is_u32 in *. lia.
Qed.
End SliceLemmas.

(** The inverse direction: two or four bytes are those of the number they encode. *)
Lemma be16_uint16 (x y : Z) :
  is_u8 x -> is_u8 y -> be16 (Z.lor y (Z.shiftl x 8)) = [x; y].
Proof.
  intros Hx Hy. rewrite lor2_sum by done. unfold is_u8 in *. unfold be16.
  rewrite shiftr_div by lia. unfold u8. change (2 ^ 8) with 256.
  f_equal; [|f_equal]; zdiv.
Qed.

Lemma be32_uint32 (x y z t : Z) :
  is_u8 x -> is_u8 y -> is_u8 z -> is_u8 t ->
  be32 (Z.lor (Z.lor (Z.lor t (Z.shiftl z 8)) (Z.shiftl y 16)) (Z.shiftl x 24))
    = [x; y; z; t].
Proof.
  intros. rewrite lor4_sum by done. unfold is_u8 in *. unfold be32, u8.
  rewrite !shiftr_div by lia.
  change (2 ^ 8) with 256. change (2 ^ 16) with 65536. change (2 ^ 24) with 16777216.
  do 3 (f_equal; [zdiv|]). f_equal; zdiv.
Qed.
