(* ===== verification/Checksum.v ===== *)
(** * The Internet checksum (icmp/message.go, [checksum])

    The 32-bit accumulator, its wrap-around and the two folds of the code, the
    ones' complement sum it computes on any message shorter than 2^17 + 3 bytes,
    and what the checksum field of a message guarantees: a message whose field
    holds the computed value verifies, and changing one byte of a message that
    verifies makes it fail. *)

From S2P Require Import Prelude Bytes.
Local Open Scope Z_scope.

(** ** The code *)

(** The loop over 16-bit words, first byte in the low half, and the odd byte that
    may be left. Every addition is on uint32. *)
Fixpoint checksum_loop (s : Z) (b : bytes) : Z :=
  match b with
  | x :: y :: b' => checksum_loop (u32 (s + Z.lor (Z.shiftl y 8) x)) b'
  | [x] => u32 (s + x)
  | [] => s
  end.

(** [func checksum(b []byte) uint16] *)
Definition checksum (b : bytes) : Z :=
  let s := checksum_loop 0 b in
  let s := u32 (Z.shiftr s 16 + Z.land s 65535) in
  let s := u32 (s + Z.shiftr s 16) in
  Z.lxor (u16 s) 65535.

(** ** Specification: the ones' complement sum *)

(** The sum of the 16-bit words, in unbounded arithmetic. *)
Fixpoint word_sum (b : bytes) : Z :=
  match b with
  | x :: y :: b' => x + 256 * y + word_sum b'
  | [x] => x
  | [] => 0
  end.

(** The ones' complement representative of a sum: 0 for 0 and otherwise the
    residue modulo 65535 in 1..65535. *)
Definition ones_sum (w : Z) : Z := if decide (w = 0) then 0 else (w - 1) mod 65535 + 1.

(** A message no longer than this never overflows the 32-bit accumulator. *)
Definition max_checked_len : nat := Z.to_nat 131074.

Lemma max_checked_len_eq : Z.of_nat max_checked_len = 131074.
Proof. unfold max_checked_len. lia. Qed.

Lemma le_max_checked n : Z.of_nat n <= 131074 -> (n <= max_checked_len)%nat.
Proof. pose proof max_checked_len_eq. lia. Qed.

(** Two-step induction on byte lists, following the word loop. *)
Lemma bytes_word_ind (P : bytes -> Prop) :
  P [] -> (forall x, P [x]) -> (forall x y b, P b -> P (x :: y :: b)) ->
  forall b, P b.
Proof.
  intros H0 H1 H2. fix IH 1. intros [|x [|y b]]; [apply H0 | apply H1 | apply H2, IH].
Qed.

Lemma word_sum_bound b :
  is_bytes b -> 0 <= word_sum b <= 65535 * ((Z.of_nat (length b) + 1) / 2).
Proof.
  unfold is_bytes. induction b as [|x|x y b IH] using bytes_word_ind; intros Hb;
    cbn [word_sum length].
  - done.
  - apply Forall_cons_1 in Hb as [Hx _]. unfold is_u8 in Hx.
    change ((Z.of_nat 1 + 1) / 2) with 1. lia.
  - apply Forall_cons_1 in Hb as [Hx Hb]. apply Forall_cons_1 in Hb as [Hy Hb].
    unfold is_u8 in *. specialize (IH Hb). rewrite !Nat2Z.inj_succ. zdiv.
Qed.

Lemma word_sum_bound32 b :
  is_bytes b -> (length b <= max_checked_len)%nat -> 0 <= word_sum b < 2 ^ 32.
Proof.
  intros Hb Hl. pose proof (word_sum_bound b Hb) as Hw.
  pose proof max_checked_len_eq. change (2 ^ 32) with 4294967296. zdiv.
Qed.

Lemma word_sum_app b c :
  Nat.Even (length b) -> word_sum (b ++ c) = word_sum b + word_sum c.
Proof.
  induction b as [|x|x y b IH] using bytes_word_ind; intros [k Hk]; simpl in *.
  - done.
  - lia.
  - rewrite IH; [lia|]. exists (k - 1)%nat. lia.
Qed.

Lemma checksum_loop_sum b s :
  is_bytes b -> 0 <= s -> s + word_sum b < 2 ^ 32 ->
  checksum_loop s b = s + word_sum b.
Proof.
  unfold is_bytes. change (2 ^ 32) with 4294967296. revert s.
  induction b as [|x|x y b IH] using bytes_word_ind; intros s Hb Hs Hw; simpl in *.
  - lia.
  - apply Forall_cons_1 in Hb as [Hx _]. unfold is_u8 in *. apply u32_small.
    unfold is_u32. lia.
  - apply Forall_cons_1 in Hb as [Hx Hb]. apply Forall_cons_1 in Hb as [Hy Hb].
    rewrite Z.lor_comm, lor2_sum by done. unfold is_u8 in *.
    pose proof (word_sum_bound b Hb).
    rewrite u32_small by (unfold is_u32; zdiv). rewrite IH; [lia|done|lia|lia].
Qed.

Lemma lxor_65535 z : is_u16 z -> Z.lxor z 65535 = 65535 - z.
Proof.
  unfold is_u16. intros Hz.
  assert (Hb : Z.lxor z 65535 = Z.ldiff 65535 z).
  { apply Z.bits_inj'. intros i Hi. rewrite Z.lxor_spec, Z.ldiff_spec.
    change 65535 with (Z.ones 16). destruct (Z.lt_ge_cases i 16).
    - rewrite Z.ones_spec_low by lia. by destruct (Z.testbit z i).
    - rewrite Z.ones_spec_high by lia. rewrite <- (Z.mod_small z (2 ^ 16)) by lia.
      by rewrite Z.mod_pow2_bits_high by lia. }
  rewrite Hb. symmetry. apply Z.sub_nocarry_ldiff.
  apply Z.bits_inj'. intros i Hi. rewrite Z.ldiff_spec, Z.bits_0.
  change 65535 with (Z.ones 16). destruct (Z.lt_ge_cases i 16).
  - rewrite Z.ones_spec_low by lia. apply andb_false_r.
  - rewrite <- (Z.mod_small z (2 ^ 16)) by lia.
    by rewrite Z.mod_pow2_bits_high by lia.
Qed.

(** The two folds of the code reduce a 32-bit sum to its ones' complement value. *)
Lemma fold_ones_sum w :
  0 <= w < 2 ^ 32 ->
  u16 (u32 (u32 (Z.shiftr w 16 + Z.land w 65535)
            + Z.shiftr (u32 (Z.shiftr w 16 + Z.land w 65535)) 16)) = ones_sum w.
Proof.
  change (2 ^ 32) with 4294967296. intros Hw.
  rewrite (land_ones_mod w 65535 16) by done. rewrite !shiftr_div by lia.
  change (2 ^ 16) with 65536. unfold ones_sum, u16.
  rewrite (u32_small (w / 65536 + _)) by (unfold is_u32; zdiv).
  rewrite u32_small by (unfold is_u32; zdiv).
  case_decide; [by subst|]. zdiv.
Qed.

(** [checksum] is the complement of the ones' complement sum. *)
Lemma checksum_spec b :
  is_bytes b -> (length b <= max_checked_len)%nat ->
  checksum b = 65535 - ones_sum (word_sum b).
Proof.
  intros Hb Hl. pose proof (word_sum_bound32 b Hb Hl) as Hw.
  unfold checksum. rewrite checksum_loop_sum by (done || lia).
  rewrite Z.add_0_l, lxor_65535 by apply u16_range. by rewrite fold_ones_sum.
Qed.

Lemma ones_sum_range w : 0 <= ones_sum w <= 65535.
Proof. unfold ones_sum. case_decide; [lia|zdiv]. Qed.

Lemma checksum_range b : is_u16 (checksum b).
Proof.
  unfold checksum, is_u16. rewrite lxor_65535 by apply u16_range.
  pose proof (u16_range) as H. unfold is_u16 in H.
  match goal with |- context [u16 ?z] => specialize (H z) end. lia.
Qed.

(** A message verifies when its sum, the checksum field included, is all ones. *)
Lemma checksum_zero_iff b :
  is_bytes b -> (length b <= max_checked_len)%nat ->
  checksum b = 0 <-> 0 < word_sum b /\ word_sum b mod 65535 = 0.
Proof.
  intros Hb Hl. rewrite checksum_spec by done. pose proof (word_sum_bound b Hb).
  unfold ones_sum. case_decide as Hw; [lia|]. split; [intros; split; zdiv|].
  intros [_ Hm]. zdiv.
Qed.

(** ** The checksum field *)

(** The two bytes the code stores: low byte first, xor-ed on zero bytes. *)
Definition csum_bytes (s : Z) : bytes := [u8 s; u8 (Z.shiftr s 8)].

Lemma is_bytes_csum s : is_bytes (csum_bytes s).
Proof. repeat constructor; apply u8_range. Qed.

Lemma word_sum_csum s c :
  is_u16 s -> word_sum (csum_bytes s ++ c) = s + word_sum c.
Proof.
  unfold is_u16. intros. simpl. rewrite shiftr_div by lia. unfold u8.
  change (2 ^ 8) with 256. zdiv.
Qed.

Lemma word_sum_hole p q s :
  Nat.Even (length p) -> is_u16 s ->
  word_sum (p ++ csum_bytes s ++ q) = word_sum (p ++ [0; 0] ++ q) + s.
Proof.
  intros He Hs. rewrite 2!(word_sum_app p), word_sum_csum by done. cbn [word_sum app]. lia.
Qed.

(** Storing the checksum of a message in its zeroed field makes it verify. *)
Lemma checksum_fill p q :
  Nat.Even (length p) -> is_bytes p -> is_bytes q ->
  (length p + 2 + length q <= max_checked_len)%nat ->
  checksum (p ++ csum_bytes (checksum (p ++ [0; 0] ++ q)) ++ q) = 0.
Proof.
  intros He Hp Hq Hl.
  assert (Hb : is_bytes (p ++ [0; 0] ++ q)).
  { rewrite !is_bytes_app. split_and!; [done| |done].
    repeat constructor; unfold is_u8; lia. }
  pose proof (checksum_range (p ++ [0; 0] ++ q)) as Hs.
  apply checksum_zero_iff.
  - rewrite !is_bytes_app. split_and!; try done. apply is_bytes_csum.
  - len.
  - rewrite word_sum_hole by done. rewrite checksum_spec by (done || len).
    pose proof (word_sum_bound _ Hb). unfold ones_sum. case_decide as Hw.
    + rewrite Hw. split; [lia|done].
    + split; zdiv.
Qed.

Lemma word_sum_set b i x y :
  b !! i = Some x ->
  word_sum (<[i:=y]> b) = word_sum b + (y - x) * (if Nat.even i then 1 else 256).
Proof.
  revert i. induction b as [|z|z t b IH] using bytes_word_ind; intros i Hi.
  - done.
  - destruct i as [|i]; simplify_eq/=; lia.
  - destruct i as [|[|i]]; simplify_eq/=; [lia|lia|].
    rewrite (IH i) by done. lia.
Qed.

(** ** Properties *)

(** C32: on every message of at most 131074 bytes (the longest IP datagram has
    65535) the 32-bit accumulator of [checksum] does not wrap, and the result is
    the complement of the 16-bit ones' complement sum of the message. *)
Theorem checksum_is_ones_complement b :
  is_bytes b -> (length b <= max_checked_len)%nat ->
  checksum b = 65535 - ones_sum (word_sum b).
Proof. apply checksum_spec. Qed.

Lemma checksum_is_ones_complement_witness :
  is_bytes [69; 0; 1; 200; 7] /\
  checksum [69; 0; 1; 200; 7] = 65535 - ones_sum (word_sum [69; 0; 1; 200; 7]).
Proof.
  assert (Hb : is_bytes [69; 0; 1; 200; 7]).
  { repeat constructor; unfold is_u8; lia. }
  split; [exact Hb|]. apply checksum_is_ones_complement; [exact Hb|].
  apply Nat2Z.inj_le. rewrite max_checked_len_eq. simpl. lia.
Defined.

(** C33: changing any single byte of a message that verifies (checksum 0) makes the
    verification fail. *)
Theorem checksum_detects_byte_change b i x y :
  is_bytes b -> (length b <= max_checked_len)%nat -> checksum b = 0 ->
  b !! i = Some x -> is_u8 y -> y <> x ->
  checksum (<[i:=y]> b) <> 0.
Proof.
  intros Hb Hl Hc Hi Hy Hne.
  apply checksum_zero_iff in Hc as [Hpos Hmod]; [|done..].
  intros Hc'. apply checksum_zero_iff in Hc' as [_ Hmod'].
  - rewrite (word_sum_set _ _ _ _ Hi) in Hmod'.
    pose proof (is_bytes_lookup _ _ _ Hb Hi) as Hx. unfold is_u8 in *.
    destruct (Nat.even i); zdiv.
  - by apply Forall_insert.
  - by rewrite length_insert.
Qed.

Lemma checksum_detects_byte_change_witness :
  checksum [8; 0; 247; 255] = 0 /\ checksum (<[1%nat:=3]> [8; 0; 247; 255]) <> 0.
Proof.
  split; [reflexivity|].
  apply checksum_detects_byte_change with (x := 0).
  - repeat constructor; unfold is_u8; lia.
  - apply Nat2Z.inj_le. rewrite max_checked_len_eq. simpl. lia.
  - reflexivity.
  - reflexivity.
  - unfold is_u8; lia.
  - lia.
Defined.
