(* ===== verification/IcmpTypes.v ===== *)
(** * Shared vocabulary of the icmp package

    The error values of icmp/message.go, the message types of the vendored
    golang.org/x/net ipv4 and ipv6 packages, and the interface [ExtObject] that
    an ICMP extension object offers to the multipart encoder: the methods of the
    Go interface [Extension], with the laws a client may rely on. *)

From S2P Require Import Prelude Bytes.
Local Open Scope Z_scope.

(** The package's error variables, and the errors of other packages. *)
Inductive icmp_error : Type :=
  | errInvalidConn
  | errInvalidProtocol
  | errMessageTooShort
  | errHeaderTooShort
  | errBufferTooShort
  | errInvalidBody
  | errNoExtension
  | errInvalidExtension
  | errNotImplemented
  | errExternal (code : Z).

#[export] Instance icmp_error_eq_dec : EqDecision icmp_error.
Proof. solve_decision. Defined.

Abbreviation icmp := (result icmp_error).

(** [Type]: an ipv4.ICMPType, an ipv6.ICMPType, or anything else a caller may store
    in the interface (nil included), which the encoder rejects. *)
Inductive MsgType : Type :=
  | V4 (typ : Z)
  | V6 (typ : Z)
  | OtherType.

#[export] Instance MsgType_eq_dec : EqDecision MsgType.
Proof. solve_decision. Defined.

Definition ProtocolICMP : Z := 1.
Definition ProtocolIPv6ICMP : Z := 58.

Module ipv4.
Definition ICMPTypeEchoReply : Z := 0.
Definition ICMPTypeDestinationUnreachable : Z := 3.
Definition ICMPTypeEcho : Z := 8.
Definition ICMPTypeTimeExceeded : Z := 11.
Definition ICMPTypeParameterProblem : Z := 12.
Definition ICMPTypeTimestamp : Z := 13.
Definition ICMPTypeTimestampReply : Z := 14.
Definition ICMPTypeExtendedEchoRequest : Z := 42.
Definition ICMPTypeExtendedEchoReply : Z := 43.
End ipv4.

Module ipv6.
Definition ICMPTypeDestinationUnreachable : Z := 1.
Definition ICMPTypePacketTooBig : Z := 2.
Definition ICMPTypeTimeExceeded : Z := 3.
Definition ICMPTypeParameterProblem : Z := 4.
Definition ICMPTypeEchoRequest : Z := 128.
Definition ICMPTypeEchoReply : Z := 129.
Definition ICMPTypeExtendedEchoRequest : Z := 160.
Definition ICMPTypeExtendedEchoReply : Z := 161.
End ipv6.

(** The two protocols of the package. *)
Definition known_proto (proto : Z) : Prop := proto = 1 \/ proto = 58.

(** [b[i] |= x] *)
Definition or_at (b : bytes) (i : nat) (x : Z) : icmp bytes :=
  y ← at_ b i; put b i [Z.lor y x].

(** [b[i] ^= x] *)
Definition xor_at (b : bytes) (i : nat) (x : Z) : icmp bytes :=
  y ← at_ b i; put b i [Z.lxor y x].

(** Updates of the byte that follows a known prefix. *)
Lemma or_at_app a y c x i :
  i = length a -> or_at (a ++ y :: c) i x = Ok (a ++ Z.lor y x :: c).
Proof.
  intros Hi. unfold or_at. rewrite (at_ok _ _ y).
  - rewrite bind_Ok. by apply (put_app a [y] c [Z.lor y x]).
  - subst i. apply list_lookup_middle. done.
Qed.

Lemma xor_at_app a y c x i :
  i = length a -> xor_at (a ++ y :: c) i x = Ok (a ++ Z.lxor y x :: c).
Proof.
  intros Hi. unfold xor_at. rewrite (at_ok _ _ y).
  - rewrite bind_Ok. by apply (put_app a [y] c [Z.lxor y x]).
  - subst i. apply list_lookup_middle. done.
Qed.

(** ** The interface of an extension object

    [ext_Len] and [ext_marshal] are the methods of the Go interface [Extension],
    the second in its in-place form on [b[off:]]; [ext_parse] is the parser the
    decoder selects by [ext_class]. *)
Class ExtObject (T : Type) := {
  ext_class : T -> Z;
  ext_Len : Z -> T -> nat;
  ext_marshal : Z -> T -> bytes -> icmp bytes;
  ext_parse : bytes -> icmp T;
}.

(** What a well-formed object promises: its wire form starts with its length and
    its class; encoding it at the start of a zeroed buffer writes exactly the wire
    form and nothing after it; decoding the wire form gives the object back. *)
Class ExtObjectLaws (T : Type) `{ExtObject T} (wf : Z -> T -> Prop) := {
  ext_wire : Z -> T -> bytes;
  ext_wire_length proto x :
    wf proto x -> length (ext_wire proto x) = ext_Len proto x;
  ext_wire_bytes proto x : wf proto x -> is_bytes (ext_wire proto x);
  ext_wire_header proto x : wf proto x ->
    Z.of_nat (ext_Len proto x) < 65536 /\
    exists typ payload,
      ext_wire proto x
        = be16 (Z.of_nat (ext_Len proto x)) ++ ext_class x :: typ :: payload;
  ext_marshal_frame proto x rest : wf proto x ->
    ext_marshal proto x (zeros (ext_Len proto x) ++ rest)
      = Ok (ext_wire proto x ++ rest);
  ext_parse_wire proto x : wf proto x -> ext_parse (ext_wire proto x) = Ok x;
}.

Lemma ext_wire_min {T} `{ExtObjectLaws T wf} proto x :
  wf proto x -> (4 <= ext_Len proto x)%nat.
Proof.
  intros Hwf. destruct (ext_wire_header proto x Hwf) as (_ & typ & payload & Hw).
  rewrite <- (ext_wire_length proto x Hwf), Hw. simpl. lia.
Qed.
