(* ===== verification/Mpls.v ===== *)
(** * MPLS label stacks (icmp/mpls.go)

    The RFC 4950 extension object: 20-bit labels, 3-bit traffic classes and the
    bottom-of-stack bit packed into 32-bit entries. *)

From S2P Require Import Prelude Bytes IcmpTypes.
Local Open Scope Z_scope.

Record MPLSLabel := mkMPLSLabel {
  ll_Label : Z;
  ll_TC : Z;
  ll_S : bool;
  ll_TTL : Z;
}.

Record MPLSLabelStack := mkMPLSLabelStack {
  ls_Class : Z;
  ls_Type : Z;
  ls_Labels : list MPLSLabel;
}.

Definition classMPLSLabelStack : Z := 1.
Definition typeIncomingMPLSLabelStack : Z := 1.

#[export] Instance MPLSLabel_eq_dec : EqDecision MPLSLabel.
Proof. solve_decision. Defined.
#[export] Instance MPLSLabelStack_eq_dec : EqDecision MPLSLabelStack.
Proof. solve_decision. Defined.

(** [func (ls *MPLSLabelStack) Len(proto int) int] *)
Definition MPLSLabelStack_Len (proto : Z) (ls : MPLSLabelStack) : nat :=
  4 + 4 * length (ls_Labels ls).

(** One iteration of the loop of [marshal], at offset [off]. *)
Definition mpls_marshal_label (b : bytes) (off : nat) (ll : MPLSLabel) : icmp bytes :=
  b ← put b off [u8 (Z.shiftr (ll_Label ll) 12);
                 u8 (Z.land (Z.shiftr (ll_Label ll) 4) 255);
                 u8 (Z.land (Z.shiftl (ll_Label ll) 4) 240)];
  b ← or_at b (off + 2) (u8 (Z.land (Z.shiftl (ll_TC ll) 1) 14));
  b ← (if ll_S ll then or_at b (off + 2) 1 else Ok b);
  put b (off + 3) [u8 (ll_TTL ll)].

Fixpoint mpls_marshal_labels (b : bytes) (off : nat) (lls : list MPLSLabel)
    : icmp bytes :=
  match lls with
  | [] => Ok b
  | ll :: lls =>
      b ← mpls_marshal_label b off ll;
      mpls_marshal_labels b (off + 4) lls
  end.

(** [func (ls *MPLSLabelStack) marshal(proto int, b []byte) error] *)
Definition MPLSLabelStack_marshal (proto : Z) (ls : MPLSLabelStack) (b : bytes)
    : icmp bytes :=
  let l := MPLSLabelStack_Len proto ls in
  b ← put b 0 (be16 (Z.of_nat l));
  b ← put b 2 [classMPLSLabelStack; typeIncomingMPLSLabelStack];
  mpls_marshal_labels b 4 (ls_Labels ls).

(** [func (ls *MPLSLabelStack) Marshal(proto int) ([]byte, error)] *)
Definition MPLSLabelStack_Marshal (proto : Z) (ls : MPLSLabelStack) : icmp bytes :=
  MPLSLabelStack_marshal proto ls (zeros (MPLSLabelStack_Len proto ls)).

(** The loop of [parseMPLSLabelStack]: one label per four bytes, a shorter tail is
    ignored. *)
Fixpoint mpls_parse_labels (b : bytes) : list MPLSLabel :=
  match b with
  | b0 :: b1 :: b2 :: b3 :: b' =>
      mkMPLSLabel
        (Z.lor (Z.lor (Z.shiftl b0 12) (Z.shiftl b1 4)) (Z.shiftr b2 4))
        (Z.shiftr (Z.land b2 14) 1)
        (negb (Z.eqb (Z.land b2 1) 0))
        b3 :: mpls_parse_labels b'
  | _ => []
  end.

(** [func parseMPLSLabelStack(b []byte) (Extension, error)] *)
Definition parseMPLSLabelStack (b : bytes) : icmp MPLSLabelStack :=
  cls ← at_ b 2;
  typ ← at_ b 3;
  b ← slice_from b 4;
  Ok (mkMPLSLabelStack cls typ (mpls_parse_labels b)).

#[export] Instance MPLSLabelStack_ExtObject : ExtObject MPLSLabelStack := {
  ext_class := ls_Class;
  ext_Len := MPLSLabelStack_Len;
  ext_marshal := MPLSLabelStack_marshal;
  ext_parse := parseMPLSLabelStack;
}.

(** ** Well-formed stacks and their wire form *)

Definition wf_label (ll : MPLSLabel) : Prop :=
  0 <= ll_Label ll < 2 ^ 20 /\ 0 <= ll_TC ll < 8 /\ is_u8 (ll_TTL ll).

(** The fields fit their wire widths and the object length fits 16 bits. *)
Definition wf_mpls (proto : Z) (ls : MPLSLabelStack) : Prop :=
  ls_Class ls = 1 /\ ls_Type ls = 1 /\ Forall wf_label (ls_Labels ls) /\
  Z.of_nat (MPLSLabelStack_Len proto ls) < 65536.

Definition label_wire (ll : MPLSLabel) : bytes :=
  [ll_Label ll / 4096; (ll_Label ll / 16) mod 256;
   (ll_Label ll mod 16) * 16 + ll_TC ll * 2 + (if ll_S ll then 1 else 0);
   ll_TTL ll].

Definition mpls_wire (proto : Z) (ls : MPLSLabelStack) : bytes :=
  be16 (Z.of_nat (MPLSLabelStack_Len proto ls)) ++ [1; 1]
    ++ (ls_Labels ls ≫= label_wire).

Lemma length_label_wires lls : length (lls ≫= label_wire) = (4 * length lls)%nat.
Proof. induction lls; csimpl; [done|]. lia. Qed.

Lemma length_mpls_wire proto ls :
  length (mpls_wire proto ls) = MPLSLabelStack_Len proto ls.
Proof.
  unfold mpls_wire, MPLSLabelStack_Len. rewrite !length_app, length_label_wires.
  simpl. lia.
Qed.

Lemma label_wire_bytes ll : wf_label ll -> is_bytes (label_wire ll).
Proof.
  destruct ll as [lab tc s ttl]. unfold wf_label. simpl.
  change (2 ^ 20) with 1048576. intros (Hl & Ht & Httl).
  repeat constructor; simpl; unfold is_u8 in *; try lia; destruct s; zdiv.
Qed.

Lemma mpls_wire_bytes proto ls : wf_mpls proto ls -> is_bytes (mpls_wire proto ls).
Proof.
  intros (_ & _ & Hl & _). unfold mpls_wire. rewrite !is_bytes_app. split_and!.
  - apply is_bytes_be16.
  - repeat constructor; unfold is_u8; lia.
  - apply Forall_bind. eapply Forall_impl; [|exact Hl]. apply label_wire_bytes.
Qed.

(** The packing of one label, in arithmetic. *)
Lemma label_low_bits lab :
  0 <= lab -> u8 (Z.land (Z.shiftl lab 4) 240) = (lab mod 16) * 16.
Proof.
  intros. change 240 with (Z.shiftl 15 4). rewrite <- Z.shiftl_land.
  rewrite (land_ones_mod lab 15 4), Z.shiftl_mul_pow2 by done.
  change (2 ^ 4) with 16. apply u8_small. unfold is_u8. zdiv.
Qed.

Lemma tc_bits tc : 0 <= tc < 8 -> u8 (Z.land (Z.shiftl tc 1) 14) = tc * 2.
Proof.
  intros. change 14 with (Z.shiftl 7 1). rewrite <- Z.shiftl_land.
  rewrite (land_ones_mod tc 7 3), Z.shiftl_mul_pow2 by done.
  change (2 ^ 3) with 8. change (2 ^ 1) with 2. rewrite Z.mod_small by lia. apply u8_small. unfold is_u8. zdiv.
Qed.

Lemma or_label_tc r tc : 0 <= tc < 8 -> Z.lor (r * 16) (tc * 2) = r * 16 + tc * 2.
Proof.
  intros. pose proof (lor_shiftl_add' (tc * 2) r 4) as H4.
  rewrite Z.shiftl_mul_pow2 in H4 by lia. change (2 ^ 4) with 16 in H4.
  apply H4; lia.
Qed.

Lemma or_low_bit z : z mod 2 = 0 -> Z.lor z 1 = z + 1.
Proof.
  intros. pose proof (lor_shiftl_add' 1 (z / 2) 1) as H1.
  rewrite Z.shiftl_mul_pow2 in H1 by lia. change (2 ^ 1) with 2 in H1.
  replace (z / 2 * 2) with z in H1 by zdiv. apply H1; lia.
Qed.

Lemma mpls_marshal_label_frame a rest ll off :
  wf_label ll -> off = length a ->
  mpls_marshal_label (a ++ zeros 4 ++ rest) off ll = Ok (a ++ label_wire ll ++ rest).
Proof.
  destruct ll as [lab tc s ttl]. unfold wf_label; simpl.
  change (2 ^ 20) with 1048576. intros (Hl & Ht & Httl) Hoff.
  unfold mpls_marshal_label; simpl.
  rewrite label_low_bits, tc_bits by lia.
  rewrite (land_ones_mod _ 255 8) by done.
  rewrite !shiftr_div by lia. change (2 ^ 8) with 256. change (2 ^ 12) with 4096.
  change (2 ^ 4) with 16.
  rewrite (u8_small (lab / 4096)) by (unfold is_u8; zdiv).
  rewrite (u8_small (lab / 16 mod 256)) by (unfold is_u8; zdiv).
  rewrite (u8_small ttl) by done.
  rewrite (put_app a (zeros 3) (0 :: rest)) by done. rewrite bind_Ok. simpl.
  set (x := lab / 4096). set (y := lab / 16 mod 256). set (r := lab mod 16).
  change (a ++ x :: y :: r * 16 :: 0 :: rest)
    with (a ++ [x; y] ++ (r * 16) :: 0 :: rest).
  rewrite app_assoc, (or_at_app (a ++ [x; y])) by len. rewrite bind_Ok.
  rewrite or_label_tc by done.
  assert (Hs : (if s then or_at ((a ++ [x; y]) ++ (r * 16 + tc * 2) :: 0 :: rest)
                           (off + 2) 1
                else Ok ((a ++ [x; y]) ++ (r * 16 + tc * 2) :: 0 :: rest))
               = Ok ((a ++ [x; y; r * 16 + tc * 2 + (if s then 1 else 0)])
                       ++ [0] ++ rest)).
  { destruct s.
    - rewrite or_at_app by len. rewrite or_low_bit by zdiv. by rewrite <- !app_assoc.
    - rewrite Z.add_0_r. by rewrite <- !app_assoc. }
  rewrite Hs, bind_Ok. rewrite put_app by len. by rewrite <- !app_assoc.
Qed.

Lemma mpls_marshal_labels_frame a rest lls off :
  Forall wf_label lls -> off = length a ->
  mpls_marshal_labels (a ++ zeros (4 * length lls) ++ rest) off lls
    = Ok (a ++ (lls ≫= label_wire) ++ rest).
Proof.
  intros Hwf. revert a off. induction Hwf as [|ll lls Hll _ IH]; intros a off Hoff.
  - done.
  - rewrite bind_cons. cbn [mpls_marshal_labels length].
    replace (4 * S (length lls))%nat with (4 + 4 * length lls)%nat by lia.
    rewrite (zeros_app 4), <- app_assoc, mpls_marshal_label_frame by done.
    rewrite bind_Ok, app_assoc, IH by len. by rewrite <- !app_assoc.
Qed.

Lemma mpls_marshal_frame proto ls rest :
  wf_mpls proto ls ->
  MPLSLabelStack_marshal proto ls (zeros (MPLSLabelStack_Len proto ls) ++ rest)
    = Ok (mpls_wire proto ls ++ rest).
Proof.
  intros (Hc & Ht & Hl & Hlen). unfold MPLSLabelStack_marshal.
  set (l := Z.of_nat (MPLSLabelStack_Len proto ls)).
  unfold MPLSLabelStack_Len.
  replace (4 + 4 * length (ls_Labels ls))%nat
    with (2 + (2 + 4 * length (ls_Labels ls)))%nat by lia.
  rewrite zeros_app, <- app_assoc.
  rewrite (put_head (zeros 2)) by done. rewrite bind_Ok, zeros_app, <- app_assoc.
  rewrite (put_app (be16 l) (zeros 2)) by done. rewrite bind_Ok, app_assoc.
  rewrite mpls_marshal_labels_frame by done. by rewrite <- !app_assoc.
Qed.

Lemma label_parse_wire ll :
  wf_label ll -> mpls_parse_labels (label_wire ll) = [ll].
Proof.
  destruct ll as [lab tc s ttl]. unfold wf_label; simpl.
  change (2 ^ 20) with 1048576. intros (Hl & Ht & Httl).
  set (z := lab mod 16 * 16 + tc * 2 + (if s then 1 else 0)).
  assert (Hz : z = lab mod 16 * 16 + tc * 2 + (if s then 1 else 0)) by done.
  rewrite (shiftr_div z) by lia. change (2 ^ 4) with 16.
  assert (Hlab : Z.lor (Z.lor (Z.shiftl (lab / 4096) 12)
                   (Z.shiftl ((lab / 16) mod 256) 4)) (z / 16) = lab).
  { rewrite <- Z.lor_assoc.
    rewrite (lor_shiftl_add' (z / 16) _ 4) by (destruct s; zdiv).
    change (2 ^ 4) with 16. rewrite lor_shiftl_add' by (destruct s; zdiv).
    change (2 ^ 12) with 4096. destruct s; zdiv. }
  assert (Htc : Z.shiftr (Z.land z 14) 1 = tc).
  { rewrite Z.shiftr_land. change (Z.shiftr 14 1) with 7.
    rewrite (land_ones_mod _ 7 3), shiftr_div by done.
    change (2 ^ 1) with 2. change (2 ^ 3) with 8. destruct s; zdiv. }
  assert (Hs : negb (Z.land z 1 =? 0) = s).
  { rewrite (land_ones_mod _ 1 1) by done. change (2 ^ 1) with 2.
    destruct s; [apply negb_true_iff, Z.eqb_neq | apply negb_false_iff, Z.eqb_eq]; zdiv. }
  by rewrite Hlab, Htc, Hs.
Qed.

Lemma mpls_parse_labels_app ll b :
  mpls_parse_labels (label_wire ll ++ b)
    = mpls_parse_labels (label_wire ll) ++ mpls_parse_labels b.
Proof. done. Qed.

Lemma mpls_parse_wires lls :
  Forall wf_label lls -> mpls_parse_labels (lls ≫= label_wire) = lls.
Proof.
  induction 1 as [|ll lls Hll _ IH]; [done|]. rewrite bind_cons.
  by rewrite mpls_parse_labels_app, label_parse_wire, IH.
Qed.

#[export] Instance MPLSLabelStack_laws : ExtObjectLaws MPLSLabelStack wf_mpls.
Proof.
  refine {| ext_wire := mpls_wire |}.
  - intros proto x _. apply length_mpls_wire.
  - apply mpls_wire_bytes.
  - intros proto x (Hc & _ & _ & Hlen). split; [done|].
    exists 1, (ls_Labels x ≫= label_wire). unfold mpls_wire. simpl. by rewrite Hc.
  - apply mpls_marshal_frame.
  - intros proto [cls typ lls] (Hc & Ht & Hl & _). simpl in *. subst.
    unfold parseMPLSLabelStack, mpls_wire. simpl.
    by rewrite drop_0, mpls_parse_wires.
Defined.

(** The parser never panics on an object of at least four bytes. *)
Lemma parseMPLSLabelStack_orderly b :
  (4 <= length b)%nat -> orderly (parseMPLSLabelStack b).
Proof.
  intros Hl. unfold parseMPLSLabelStack.
  destruct (at_returns (E:=icmp_error) b 2) as (? & _ & ->); [lia|].
  destruct (at_returns (E:=icmp_error) b 3) as (? & _ & ->); [lia|].
  by rewrite !bind_Ok, slice_from_ok.
Qed.
