(* ===== verification/Iface.v ===== *)
(** * Interface objects (icmp/interface.go)

    The RFC 5837 interface information object and the RFC 8335 interface
    identification object: their lengths, in-place encoders, parsers and wire
    forms. A Go string is its list of bytes. *)

From S2P Require Import Prelude Bytes IcmpTypes.
Local Open Scope Z_scope.

(** ** What the code uses of net and strings *)

(** [net.Interface] *)
Record net_Interface := mkInterface {
  if_Index : Z;
  if_MTU : Z;
  if_Name : bytes;
  if_HardwareAddr : bytes;
  if_Flags : Z;
}.

(** [net.IPAddr] *)
Record net_IPAddr := mkIPAddr {
  ip_IP : bytes;
  ip_Zone : bytes;
}.

#[export] Instance net_Interface_eq_dec : EqDecision net_Interface.
Proof. solve_decision. Defined.
#[export] Instance net_IPAddr_eq_dec : EqDecision net_IPAddr.
Proof. solve_decision. Defined.

Definition zero_Interface : net_Interface := mkInterface 0 0 [] [] 0.
Definition zero_IPAddr : net_IPAddr := mkIPAddr [] [].

(** The prefix of an IPv4-mapped IPv6 address. *)
Definition v4InV6Prefix : bytes := zeros 10 ++ [255; 255].

(** [net.IP.To4]; [None] is nil. *)
Definition To4 (ip : bytes) : option bytes :=
  if decide (length ip = 4%nat) then Some ip
  else if decide (length ip = 16%nat /\ take 12 ip = v4InV6Prefix)
  then Some (drop 12 ip) else None.

(** [net.IP.To16]; [None] is nil. *)
Definition To16 (ip : bytes) : option bytes :=
  if decide (length ip = 4%nat) then Some (v4InV6Prefix ++ ip)
  else if decide (length ip = 16%nat) then Some ip else None.

(** [strings.Trim(s, "\x00")] *)
Fixpoint trim_left (s : bytes) : bytes :=
  match s with
  | 0 :: s' => trim_left s'
  | _ => s
  end.
Definition Trim0 (s : bytes) : bytes := reverse (trim_left (reverse (trim_left s))).

(** [n &^ 3] *)
Definition and_not3 (n : nat) : nat := Z.to_nat (Z.ldiff (Z.of_nat n) 3).

Lemma and_not3_div n : Z.of_nat (and_not3 n) = 4 * (Z.of_nat n / 4).
Proof.
  unfold and_not3. change 3 with (Z.ones 2). rewrite Z.ldiff_ones_r by lia.
  rewrite Z.shiftr_div_pow2, Z.shiftl_mul_pow2 by lia. change (2 ^ 2) with 4. zdiv.
Qed.

Lemma trim_left_zeros n s : trim_left (zeros n ++ s) = trim_left s.
Proof. induction n; [done|]. exact IHn. Qed.

(** Either everything is trimmed, or trimming stops inside the first part. *)
Lemma trim_left_app s t :
  (trim_left s = [] /\ trim_left (s ++ t) = trim_left t) \/
  (trim_left s <> [] /\ trim_left (s ++ t) = trim_left s ++ t).
Proof.
  induction s as [|x s IH]; simpl; [by left|].
  destruct x; [exact IH|right..]; done.
Qed.

Lemma reverse_zeros n : reverse (zeros n) = zeros n.
Proof. apply reverse_replicate. Qed.

Lemma Trim0_pad s n : Trim0 (s ++ zeros n) = Trim0 s.
Proof.
  unfold Trim0. destruct (trim_left_app s (zeros n)) as [[H1 H2]|[H1 H2]].
  - rewrite H1, H2. rewrite <- (app_nil_r (zeros n)), trim_left_zeros. done.
  - rewrite H2, reverse_app, reverse_zeros, trim_left_zeros. done.
Qed.

(** ** InterfaceInfo *)

Definition classInterfaceInfo : Z := 2.
Definition attrMTU : Z := 1.
Definition attrName : Z := 2.
Definition attrIPAddr : Z := 4.
Definition attrIfIndex : Z := 8.

Record InterfaceInfo := mkInterfaceInfo {
  ifi_Class : Z;
  ifi_Type : Z;
  ifi_Interface : option net_Interface;
  ifi_Addr : option net_IPAddr;
}.

#[export] Instance InterfaceInfo_eq_dec : EqDecision InterfaceInfo.
Proof. solve_decision. Defined.

(** [func (ifi *InterfaceInfo) nameLen() int], on the interface it reads. *)
Definition nameLen (i : net_Interface) : nat :=
  if decide (63 < length (if_Name i))%nat then 64
  else and_not3 (1 + length (if_Name i) + 3).

(** The part of [attrsAndLen] about the interface. *)
Definition interface_attrs (i : option net_Interface) : Z * nat :=
  match i with
  | Some i =>
      if decide (0 < if_Index i) then
        let '(attrs, l) := (attrIfIndex, 4%nat) in
        let '(attrs, l) :=
          if decide (0 < length (if_Name i))%nat
          then (Z.lor attrs attrName, (l + nameLen i)%nat) else (attrs, l) in
        if decide (0 < if_MTU i) then (Z.lor attrs attrMTU, (l + 4)%nat) else (attrs, l)
      else (0, 0%nat)
  | None => (0, 0%nat)
  end.

(** The part of [attrsAndLen] about the address. *)
Definition address_attrs (proto : Z) (a : option net_IPAddr) : Z * nat :=
  match a with
  | Some a =>
      if decide (proto = 1) then
        match To4 (ip_IP a) with Some _ => (attrIPAddr, 8%nat) | None => (0, 0%nat) end
      else if decide (proto = 58) then
        match To16 (ip_IP a), To4 (ip_IP a) with
        | Some _, None => (attrIPAddr, 20%nat)
        | _, _ => (0, 0%nat)
        end
      else (0, 0%nat)
  | None => (0, 0%nat)
  end.

(** [func (ifi *InterfaceInfo) attrsAndLen(proto int) (attrs, l int)] *)
Definition attrsAndLen (proto : Z) (ifi : InterfaceInfo) : Z * nat :=
  let '(a1, l1) := interface_attrs (ifi_Interface ifi) in
  let '(a2, l2) := address_attrs proto (ifi_Addr ifi) in
  (Z.lor a1 a2, (4 + l1 + l2)%nat).

(** [func (ifi *InterfaceInfo) Len(proto int) int] *)
Definition InterfaceInfo_Len (proto : Z) (ifi : InterfaceInfo) : nat :=
  snd (attrsAndLen proto ifi).

(** The attribute encoders write at the start of a slice and return the slice
    after the attribute; the model returns the bytes passed over as well. *)
Definition advance (b : bytes) (n : nat) : icmp (bytes * bytes) :=
  t ← slice_from b n; Ok (take n b, t).

Definition marshalIfIndex (ifi : InterfaceInfo) (b : bytes) : icmp (bytes * bytes) :=
  match ifi_Interface ifi with
  | Some i => b ← put b 0 (be32 (if_Index i)); advance b 4
  | None => Panic
  end.

Definition marshalIPAddr (proto : Z) (ifi : InterfaceInfo) (b : bytes)
    : icmp (bytes * bytes) :=
  match ifi_Addr ifi with
  | None => Panic
  | Some a =>
      if decide (proto = 1) then
        b ← put b 0 (be16 1);
        dst ← slice b 4 8;
        b ← put b 4 (copy dst (default [] (To4 (ip_IP a))));
        advance b 8
      else if decide (proto = 58) then
        b ← put b 0 (be16 2);
        dst ← slice b 4 20;
        b ← put b 4 (copy dst (default [] (To16 (ip_IP a))));
        advance b 20
      else Ok ([], b)
  end.

Definition marshalName (ifi : InterfaceInfo) (b : bytes) : icmp (bytes * bytes) :=
  match ifi_Interface ifi with
  | Some i =>
      let l := u8 (Z.of_nat (nameLen i)) in
      b ← put b 0 [l];
      b ← on_suffix 1 (fun t => Ok (copy t (if_Name i))) b;
      advance b (Z.to_nat l)
  | None => Panic
  end.

Definition marshalMTU (ifi : InterfaceInfo) (b : bytes) : icmp (bytes * bytes) :=
  match ifi_Interface ifi with
  | Some i => b ← put b 0 (be32 (if_MTU i)); advance b 4
  | None => Panic
  end.

Definition has_attr (attrs a : Z) : bool := negb (Z.land attrs a =? 0).

(** The attribute loop of [marshal]. Every iteration that encodes an attribute
    clears its bit; an iteration that matches no case would repeat for ever. *)
Fixpoint info_marshal_loop (fuel : nat) (proto : Z) (ifi : InterfaceInfo)
    (attrs : Z) (b : bytes) : icmp bytes :=
  if (length b =? 0)%nat || (attrs =? 0) then Ok b else
  match fuel with
  | O => Diverge
  | S fuel =>
      if has_attr attrs attrIfIndex then
        '(w, b) ← marshalIfIndex ifi b;
        t ← info_marshal_loop fuel proto ifi (Z.ldiff attrs attrIfIndex) b; Ok (w ++ t)
      else if has_attr attrs attrIPAddr then
        '(w, b) ← marshalIPAddr proto ifi b;
        t ← info_marshal_loop fuel proto ifi (Z.ldiff attrs attrIPAddr) b; Ok (w ++ t)
      else if has_attr attrs attrName then
        '(w, b) ← marshalName ifi b;
        t ← info_marshal_loop fuel proto ifi (Z.ldiff attrs attrName) b; Ok (w ++ t)
      else if has_attr attrs attrMTU then
        '(w, b) ← marshalMTU ifi b;
        t ← info_marshal_loop fuel proto ifi (Z.ldiff attrs attrMTU) b; Ok (w ++ t)
      else info_marshal_loop fuel proto ifi attrs b
  end.

(** One round per attribute bit. *)
Definition attr_fuel : nat := 4.

(** [func (ifi *InterfaceInfo) marshal(proto int, b []byte, attrs, l int) error] *)
Definition info_marshal (proto : Z) (ifi : InterfaceInfo) (b : bytes)
    (attrs : Z) (l : nat) : icmp bytes :=
  b ← put b 0 (be16 (Z.of_nat l));
  b ← put b 2 [classInterfaceInfo; u8 (ifi_Type ifi)];
  on_suffix 4 (info_marshal_loop attr_fuel proto ifi attrs) b.

(** The in-place form, as [marshalMultipartMessageBody] calls it. *)
Definition InterfaceInfo_marshal (proto : Z) (ifi : InterfaceInfo) (b : bytes)
    : icmp bytes :=
  let '(attrs, l) := attrsAndLen proto ifi in info_marshal proto ifi b attrs l.

(** [func (ifi *InterfaceInfo) Marshal(proto int) ([]byte, error)] *)
Definition InterfaceInfo_Marshal (proto : Z) (ifi : InterfaceInfo) : icmp bytes :=
  let '(attrs, l) := attrsAndLen proto ifi in
  info_marshal proto ifi (zeros l) attrs l.

(** *** Parsing *)

Definition parseIfIndex (ifi : InterfaceInfo) (b : bytes)
    : icmp (InterfaceInfo * bytes) :=
  if decide (length b < 4)%nat then Err errMessageTooShort else
  w ← slice_to b 4; v ← uint32 w;
  match ifi_Interface ifi with
  | Some i =>
      t ← slice_from b 4;
      Ok (mkInterfaceInfo (ifi_Class ifi) (ifi_Type ifi)
            (Some (mkInterface v (if_MTU i) (if_Name i) (if_HardwareAddr i) (if_Flags i)))
            (ifi_Addr ifi), t)
  | None => Panic
  end.

Definition set_ip (ifi : InterfaceInfo) (ip : bytes) : icmp InterfaceInfo :=
  match ifi_Addr ifi with
  | Some a => Ok (mkInterfaceInfo (ifi_Class ifi) (ifi_Type ifi) (ifi_Interface ifi)
                    (Some (mkIPAddr ip (ip_Zone a))))
  | None => Panic
  end.

Definition parseIPAddr (ifi : InterfaceInfo) (b : bytes)
    : icmp (InterfaceInfo * bytes) :=
  if decide (length b < 4)%nat then Err errMessageTooShort else
  w ← slice_to b 2; afi ← uint16 w;
  b ← slice_from b 4;
  if decide (afi = 1) then
    if decide (length b < 4)%nat then Err errMessageTooShort else
    ip ← slice_to b 4; ifi ← set_ip ifi ip; b ← slice_from b 4; Ok (ifi, b)
  else if decide (afi = 2) then
    if decide (length b < 16)%nat then Err errMessageTooShort else
    ip ← slice_to b 16; ifi ← set_ip ifi ip; b ← slice_from b 16; Ok (ifi, b)
  else Ok (ifi, b).

Definition parseName (ifi : InterfaceInfo) (b : bytes)
    : icmp (InterfaceInfo * bytes) :=
  if decide (length b < 4)%nat then Err errMessageTooShort else
  l ← at_ b 0;
  if decide (Z.of_nat (length b) < l) then Err errMessageTooShort else
  if decide (Z.rem l 4 <> 0 \/ 4 > l \/ l > 64) then Err errInvalidExtension else
  src ← slice b 1 (Z.to_nat l);
  let name := copy (zeros 63) src in
  match ifi_Interface ifi with
  | Some i =>
      t ← slice_from b (Z.to_nat l);
      Ok (mkInterfaceInfo (ifi_Class ifi) (ifi_Type ifi)
            (Some (mkInterface (if_Index i) (if_MTU i) (Trim0 name)
                     (if_HardwareAddr i) (if_Flags i)))
            (ifi_Addr ifi), t)
  | None => Panic
  end.

Definition parseMTU (ifi : InterfaceInfo) (b : bytes)
    : icmp (InterfaceInfo * bytes) :=
  if decide (length b < 4)%nat then Err errMessageTooShort else
  w ← slice_to b 4; v ← uint32 w;
  match ifi_Interface ifi with
  | Some i =>
      t ← slice_from b 4;
      Ok (mkInterfaceInfo (ifi_Class ifi) (ifi_Type ifi)
            (Some (mkInterface (if_Index i) v (if_Name i) (if_HardwareAddr i) (if_Flags i)))
            (ifi_Addr ifi), t)
  | None => Panic
  end.

(** The attribute loop of [parseInterfaceInfo]. *)
Fixpoint info_parse_loop (fuel : nat) (attrs : Z) (ifi : InterfaceInfo) (b : bytes)
    : icmp InterfaceInfo :=
  if (length b =? 0)%nat || (attrs =? 0) then Ok ifi else
  match fuel with
  | O => Diverge
  | S fuel =>
      if has_attr attrs attrIfIndex then
        '(ifi, b) ← parseIfIndex ifi b;
        info_parse_loop fuel (Z.ldiff attrs attrIfIndex) ifi b
      else if has_attr attrs attrIPAddr then
        '(ifi, b) ← parseIPAddr ifi b;
        info_parse_loop fuel (Z.ldiff attrs attrIPAddr) ifi b
      else if has_attr attrs attrName then
        '(ifi, b) ← parseName ifi b;
        info_parse_loop fuel (Z.ldiff attrs attrName) ifi b
      else if has_attr attrs attrMTU then
        '(ifi, b) ← parseMTU ifi b;
        info_parse_loop fuel (Z.ldiff attrs attrMTU) ifi b
      else info_parse_loop fuel attrs ifi b
  end.

(** The assignment of the zone after the loop. *)
Definition info_set_zone (ifi : InterfaceInfo) : InterfaceInfo :=
  match ifi_Interface ifi, ifi_Addr ifi with
  | Some i, Some a =>
      if decide (if_Name i <> [] /\ To16 (ip_IP a) <> None /\ To4 (ip_IP a) = None)
      then mkInterfaceInfo (ifi_Class ifi) (ifi_Type ifi) (Some i)
             (Some (mkIPAddr (ip_IP a) (if_Name i)))
      else ifi
  | _, _ => ifi
  end.

(** The value the parser starts from: the structures its type bits announce. *)
Definition info_start (cls typ : Z) : InterfaceInfo :=
  mkInterfaceInfo cls typ
    (if negb (Z.land typ (Z.lor (Z.lor attrIfIndex attrName) attrMTU) =? 0)
     then Some zero_Interface else None)
    (if has_attr typ attrIPAddr then Some zero_IPAddr else None).

(** [func parseInterfaceInfo(b []byte) (Extension, error)] *)
Definition parseInterfaceInfo (b : bytes) : icmp InterfaceInfo :=
  cls ← at_ b 2;
  typ ← at_ b 3;
  let attrs := Z.land typ
    (Z.lor (Z.lor (Z.lor attrIfIndex attrIPAddr) attrName) attrMTU) in
  b ← slice_from b 4;
  ifi ← info_parse_loop attr_fuel attrs (info_start cls typ) b;
  Ok (info_set_zone ifi).

#[export] Instance InterfaceInfo_ExtObject : ExtObject InterfaceInfo := {
  ext_class := ifi_Class;
  ext_Len := InterfaceInfo_Len;
  ext_marshal := InterfaceInfo_marshal;
  ext_parse := parseInterfaceInfo;
}.

(** *** Well-formed interface information *)

Definition info_index (ifi : InterfaceInfo) : Z :=
  match ifi_Interface ifi with Some i => if_Index i | None => 0 end.
Definition info_name (ifi : InterfaceInfo) : bytes :=
  match ifi_Interface ifi with Some i => if_Name i | None => [] end.
Definition info_mtu (ifi : InterfaceInfo) : Z :=
  match ifi_Interface ifi with Some i => if_MTU i | None => 0 end.

Definition wf_name (s : bytes) : Prop :=
  is_bytes s /\ (length s <= 63)%nat /\ Trim0 s = s.

Definition wf_interface (i : net_Interface) : Prop :=
  0 < if_Index i < 4294967296 /\ is_u32 (if_MTU i) /\ wf_name (if_Name i) /\
  if_HardwareAddr i = [] /\ if_Flags i = 0.

(** An address of the message's family, with the zone the parser fills in. *)
Definition wf_address (proto : Z) (name : bytes) (a : net_IPAddr) : Prop :=
  is_bytes (ip_IP a) /\
  ((proto = 1 /\ length (ip_IP a) = 4%nat /\ ip_Zone a = []) \/
   (proto = 58 /\ length (ip_IP a) = 16%nat /\ To4 (ip_IP a) = None /\
    ip_Zone a = name)).

(** The type byte announces exactly the attributes that are present. *)
Definition wf_info (proto : Z) (ifi : InterfaceInfo) : Prop :=
  ifi_Class ifi = 2 /\ is_u8 (ifi_Type ifi) /\
  Z.land (ifi_Type ifi) 15 = fst (attrsAndLen proto ifi) /\
  match ifi_Interface ifi with Some i => wf_interface i | None => True end /\
  match ifi_Addr ifi with
  | Some a => wf_address proto (info_name ifi) a
  | None => True
  end.

(** Which attributes are present. *)
Definition pI (ifi : InterfaceInfo) : bool :=
  match ifi_Interface ifi with Some _ => true | None => false end.
Definition pA (ifi : InterfaceInfo) : bool :=
  match ifi_Addr ifi with Some _ => true | None => false end.
Definition pN (ifi : InterfaceInfo) : bool :=
  match info_name ifi with [] => false | _ => true end.
Definition pM (ifi : InterfaceInfo) : bool := 0 <? info_mtu ifi.

Definition flags (i a n m : bool) : Z :=
  (if i then 8 else 0) + (if a then 4 else 0) + (if n then 2 else 0)
    + (if m then 1 else 0).

(** The wire form of each attribute. *)
Definition index_wire (ifi : InterfaceInfo) : bytes :=
  if pI ifi then be32 (info_index ifi) else [].
Definition addr_wire (proto : Z) (ifi : InterfaceInfo) : bytes :=
  match ifi_Addr ifi with
  | Some a => be16 (if decide (proto = 1) then 1 else 2) ++ zeros 2 ++ ip_IP a
  | None => []
  end.
Definition name_field (s : bytes) : bytes :=
  let l := and_not3 (4 + length s) in
  Z.of_nat l :: s ++ zeros (l - 1 - length s).
Definition name_wire (ifi : InterfaceInfo) : bytes :=
  if pN ifi then name_field (info_name ifi) else [].
Definition mtu_wire (ifi : InterfaceInfo) : bytes :=
  if pM ifi then be32 (info_mtu ifi) else [].

Definition info_wire (proto : Z) (ifi : InterfaceInfo) : bytes :=
  be16 (Z.of_nat (InterfaceInfo_Len proto ifi)) ++ [2; ifi_Type ifi]
    ++ index_wire ifi ++ addr_wire proto ifi ++ name_wire ifi ++ mtu_wire ifi.

Lemma nameLen_field i :
  wf_name (if_Name i) -> nameLen i = and_not3 (4 + length (if_Name i)).
Proof.
  intros (_ & Hl & _). unfold nameLen. rewrite decide_False by lia.
  f_equal. lia.
Qed.

Lemma and_not3_bounds n :
  (n < and_not3 (4 + n) <= n + 4)%nat /\ (n <= 63 -> and_not3 (4 + n) <= 64)%nat.
Proof. pose proof (and_not3_div (4 + n)). zdiv. Qed.

Lemma length_name_field s : length (name_field s) = and_not3 (4 + length s).
Proof.
  unfold name_field. pose proof (and_not3_bounds (length s)). simpl. len.
Qed.

Lemma To4_len4 ip : length ip = 4%nat -> To4 ip = Some ip.
Proof. intros. unfold To4. by rewrite decide_True. Qed.

Lemma To16_len16 ip : length ip = 16%nat -> To16 ip = Some ip.
Proof. intros. unfold To16. by rewrite decide_False, decide_True by lia. Qed.

Lemma attrs_present proto ifi :
  wf_info proto ifi ->
  attrsAndLen proto ifi
    = (flags (pI ifi) (pA ifi) (pN ifi) (pM ifi),
       (4 + length (index_wire ifi) + length (addr_wire proto ifi)
        + length (name_wire ifi) + length (mtu_wire ifi))%nat).
Proof.
  intros (_ & _ & _ & Hi & Ha).
  assert (HI : interface_attrs (ifi_Interface ifi) =
    (flags (pI ifi) false (pN ifi) (pM ifi),
     (length (index_wire ifi) + length (name_wire ifi) + length (mtu_wire ifi))%nat)).
  { clear Ha. unfold index_wire, name_wire, mtu_wire, pI, pN, pM, info_mtu, info_name.
    destruct (ifi_Interface ifi) as [i|]; [|done].
    destruct Hi as (Hidx & Hmtu & Hn & _). unfold interface_attrs.
    rewrite decide_True by lia. rewrite nameLen_field by done.
    rewrite <- length_name_field.
    destruct (Z.ltb_spec 0 (if_MTU i)), (if_Name i) as [|x s]; simpl.
    all: repeat case_decide; try lia; f_equal. all: len. }
  assert (HA : address_attrs proto (ifi_Addr ifi) =
    (flags false (pA ifi) false false, length (addr_wire proto ifi))).
  { clear Hi HI. unfold addr_wire, pA. destruct (ifi_Addr ifi) as [a|]; [|done].
    destruct Ha as (_ & [(-> & Hl & _)|(-> & Hl & H4 & _)]); unfold address_attrs.
    - rewrite decide_True, To4_len4 by done. rewrite !length_app, Hl. done.
    - rewrite decide_False, decide_True, To16_len16, H4 by done.
      rewrite !length_app, Hl. done. }
  unfold attrsAndLen. rewrite HI, HA. f_equal; [|lia].
  by destruct (pI ifi), (pA ifi), (pN ifi), (pM ifi).
Qed.

(** *** Encoding writes the wire form *)

Lemma advance_app w t n : n = length w -> advance (w ++ t) n = Ok (w, t).
Proof.
  intros ->. unfold advance. rewrite slice_from_app, bind_Ok by done.
  by rewrite take_app_length.
Qed.

Section InfoMarshal.
Context (proto : Z) (ifi : InterfaceInfo) (Hwf : wf_info proto ifi).

Lemma marshalIfIndex_frame rest :
  pI ifi = true ->
  marshalIfIndex ifi (zeros (length (index_wire ifi)) ++ rest)
    = Ok (index_wire ifi, rest).
Proof.
  unfold marshalIfIndex, index_wire, info_index, pI.
  destruct (ifi_Interface ifi) as [i|]; [intros _|done].
  rewrite put_head by done. rewrite bind_Ok. by apply advance_app.
Qed.

Lemma pN_interface : pN ifi = true -> exists i, ifi_Interface ifi = Some i.
Proof. unfold pN, info_name. destruct (ifi_Interface ifi); [eauto|done]. Qed.

Lemma pM_interface : pM ifi = true -> exists i, ifi_Interface ifi = Some i.
Proof. unfold pM, info_mtu. destruct (ifi_Interface ifi); [eauto|done]. Qed.

Lemma marshalMTU_frame rest :
  pM ifi = true ->
  marshalMTU ifi (zeros (length (mtu_wire ifi)) ++ rest) = Ok (mtu_wire ifi, rest).
Proof.
  intros HM. destruct (pM_interface HM) as [i Hi].
  unfold marshalMTU, mtu_wire. rewrite HM. unfold info_mtu. rewrite Hi.
  rewrite put_head by done. rewrite bind_Ok. by apply advance_app.
Qed.

Lemma marshalName_frame rest :
  pN ifi = true ->
  marshalName ifi (zeros (length (name_wire ifi)) ++ rest) = Ok (name_wire ifi, rest).
Proof.
  intros HN. destruct (pN_interface HN) as [i Hi].
  destruct Hwf as (_ & _ & _ & Hif & _). rewrite Hi in Hif.
  destruct Hif as (_ & _ & Hn & _).
  unfold marshalName, name_wire. rewrite HN. unfold info_name. rewrite Hi.
  rewrite length_name_field, nameLen_field by done.
  pose proof (and_not3_bounds (length (if_Name i))) as [Hb1 Hb2].
  destruct Hn as (_ & Hlen & _). specialize (Hb2 Hlen).
  rewrite u8_small by (unfold is_u8; lia). rewrite Nat2Z.id.
  unfold name_field. set (l := and_not3 (4 + length (if_Name i))) in *.
  replace l with (1 + (l - 1))%nat at 1 by lia.
  rewrite zeros_app, <- app_assoc, put_head by done. rewrite bind_Ok.
  unfold on_suffix. rewrite slice_from_app by done. rewrite !bind_Ok.
  rewrite take_app_length' by done.
  replace (l - 1)%nat with (length (if_Name i) + (l - 1 - length (if_Name i)))%nat
    at 1 by lia.
  rewrite zeros_app, <- app_assoc, copy_app by len.
  rewrite (app_assoc (if_Name i)), app_assoc. apply advance_app. len.
Qed.

(** Both families write the family identifier, skip two bytes and store the
    address. *)
Lemma marshal_address_frame afi ip n rest :
  length ip = n ->
  (b ← put (zeros (2 + (2 + n)) ++ rest) 0 (be16 afi);
   dst ← slice b 4 (4 + n);
   b ← put b 4 (copy dst ip);
   advance b (4 + n)) = Ok (be16 afi ++ zeros 2 ++ ip, rest) :> icmp (bytes * bytes).
Proof.
  intros Hl. rewrite (zeros_app 2), <- app_assoc, put_head by done. rewrite bind_Ok.
  rewrite (zeros_app 2), <- app_assoc.
  rewrite slice_ok by len. rewrite bind_Ok.
  rewrite (copy_fits _ ip), (drop_ge (drop 4 _)), app_nil_r
    by (rewrite length_drop, length_take; len).
  rewrite app_assoc, put_app by len. rewrite bind_Ok.
  rewrite (app_assoc _ ip), advance_app by len. by rewrite <- app_assoc.
Qed.

Lemma marshalIPAddr_frame rest :
  pA ifi = true ->
  marshalIPAddr proto ifi (zeros (length (addr_wire proto ifi)) ++ rest)
    = Ok (addr_wire proto ifi, rest).
Proof.
  unfold pA, marshalIPAddr, addr_wire. destruct Hwf as (_ & _ & _ & _ & Ha).
  destruct (ifi_Addr ifi) as [a|]; [intros _|done].
  destruct Ha as (_ & [(-> & Hl & _)|(-> & Hl & H4 & _)]).
  - rewrite !decide_True by done. rewrite !length_app, Hl, To4_len4 by done.
    by apply (marshal_address_frame 1 (ip_IP a) 4).
  - rewrite !(decide_False (P := 58 = 1)), (decide_True (P := 58 = 58)) by done.
    rewrite !length_app, Hl, To16_len16 by done.
    by apply (marshal_address_frame 2 (ip_IP a) 16).
Qed.
End InfoMarshal.

(** One round of the encoding loop, for each attribute. *)
Lemma has_attr_nonzero attrs a : has_attr attrs a = true -> (attrs =? 0) = false.
Proof.
  unfold has_attr. intros H. apply Z.eqb_neq. intros ->. done.
Qed.

Lemma nonempty_neqb (b : bytes) : (0 < length b)%nat -> (length b =? 0)%nat = false.
Proof. intros. apply Nat.eqb_neq. lia. Qed.

(** The encoder of the attribute a round selects. *)
Definition marshal_attr (proto : Z) (ifi : InterfaceInfo) (a : Z) (b : bytes)
    : icmp (bytes * bytes) :=
  if decide (a = attrIfIndex) then marshalIfIndex ifi b
  else if decide (a = attrIPAddr) then marshalIPAddr proto ifi b
  else if decide (a = attrName) then marshalName ifi b
  else marshalMTU ifi b.

(** The first bit set in the order the code tests them. *)
Definition first_attr (attrs : Z) : Z :=
  if has_attr attrs attrIfIndex then attrIfIndex
  else if has_attr attrs attrIPAddr then attrIPAddr
  else if has_attr attrs attrName then attrName
  else attrMTU.

Lemma info_marshal_round fuel proto ifi attrs a b w t :
  (0 < length b)%nat -> first_attr attrs = a -> has_attr attrs a = true ->
  marshal_attr proto ifi a b = Ok (w, t) ->
  info_marshal_loop (S fuel) proto ifi attrs b
    = (x ← info_marshal_loop fuel proto ifi (Z.ldiff attrs a) t; Ok (w ++ x)).
Proof.
  intros Hb Hfirst Ha Hm. unfold info_marshal_loop at 1; fold info_marshal_loop.
  rewrite (has_attr_nonzero _ _ Ha), nonempty_neqb by done. cbn [orb].
  unfold first_attr in Hfirst. unfold marshal_attr in Hm.
  destruct (has_attr attrs attrIfIndex) eqn:H8;
    [subst a; change (marshalIfIndex ifi b = Ok (w, t)) in Hm; by rewrite Hm|].
  destruct (has_attr attrs attrIPAddr) eqn:H4;
    [subst a; change (marshalIPAddr proto ifi b = Ok (w, t)) in Hm; by rewrite Hm|].
  destruct (has_attr attrs attrName) eqn:H2;
    [subst a; change (marshalName ifi b = Ok (w, t)) in Hm; by rewrite Hm|].
  subst a. rewrite Ha. change (marshalMTU ifi b = Ok (w, t)) in Hm. by rewrite Hm.
Qed.

(** The loop, one attribute after the other; each stage needs one more round. *)
Section InfoMarshalLoop.
Context (proto : Z) (ifi : InterfaceInfo) (Hwf : wf_info proto ifi).

Lemma info_marshal_loop_done fuel b : info_marshal_loop fuel proto ifi 0 b = Ok b.
Proof. destruct fuel; simpl; by rewrite orb_true_r. Qed.

Lemma stage_mtu fuel rest :
  (1 <= fuel)%nat ->
  info_marshal_loop fuel proto ifi (flags false false false (pM ifi))
    (zeros (length (mtu_wire ifi)) ++ rest) = Ok (mtu_wire ifi ++ rest).
Proof.
  intros Hf. pose proof (marshalMTU_frame ifi rest) as Hm. unfold mtu_wire in *.
  destruct (pM ifi); [|apply info_marshal_loop_done].
  destruct fuel as [|fuel]; [lia|].
  rewrite (info_marshal_round _ _ _ _ attrMTU _ (be32 (info_mtu ifi)) rest)
    by (done || (by apply Hm) || len).
  change (Z.ldiff (flags false false false true) attrMTU) with 0.
  by rewrite info_marshal_loop_done.
Qed.

Lemma stage_name fuel rest :
  (2 <= fuel)%nat ->
  info_marshal_loop fuel proto ifi (flags false false (pN ifi) (pM ifi))
    (zeros (length (name_wire ifi)) ++ zeros (length (mtu_wire ifi)) ++ rest)
    = Ok (name_wire ifi ++ mtu_wire ifi ++ rest).
Proof.
  intros Hf. pose proof (stage_mtu (pred fuel) rest ltac:(lia)) as IH.
  destruct (pN ifi) eqn:HN; [|unfold name_wire; rewrite HN; apply stage_mtu; lia].
  pose proof (marshalName_frame proto ifi Hwf
      (zeros (length (mtu_wire ifi)) ++ rest) HN) as Hm.
  assert (Hl : (0 < length (name_wire ifi))%nat).
  { unfold name_wire. rewrite HN, length_name_field.
    pose proof (and_not3_bounds (length (info_name ifi))). lia. }
  destruct fuel as [|fuel]; [lia|]. cbn [Init.Nat.pred] in IH.
  erewrite (info_marshal_round _ _ _ _ attrName); [| len | by destruct (pM ifi)
    | by destruct (pM ifi) | exact Hm].
  replace (Z.ldiff (flags false false true (pM ifi)) attrName)
    with (flags false false false (pM ifi)) by (by destruct (pM ifi)).
  by rewrite IH.
Qed.

Lemma stage_addr fuel rest :
  (3 <= fuel)%nat ->
  info_marshal_loop fuel proto ifi (flags false (pA ifi) (pN ifi) (pM ifi))
    (zeros (length (addr_wire proto ifi)) ++ zeros (length (name_wire ifi))
       ++ zeros (length (mtu_wire ifi)) ++ rest)
    = Ok (addr_wire proto ifi ++ name_wire ifi ++ mtu_wire ifi ++ rest).
Proof.
  intros Hf. pose proof (stage_name (pred fuel) rest ltac:(lia)) as IH.
  destruct (pA ifi) eqn:HA.
  - pose proof (marshalIPAddr_frame proto ifi Hwf
      (zeros (length (name_wire ifi)) ++ zeros (length (mtu_wire ifi)) ++ rest) HA)
      as Hm.
    destruct fuel as [|fuel]; [lia|]. cbn [Init.Nat.pred] in IH.
    erewrite (info_marshal_round _ _ _ _ attrIPAddr); [| |
      by destruct (pN ifi), (pM ifi) | by destruct (pN ifi), (pM ifi) | exact Hm].
    2: { unfold addr_wire. unfold pA in HA. destruct (ifi_Addr ifi); [len|done]. }
    replace (Z.ldiff (flags false true (pN ifi) (pM ifi)) attrIPAddr)
      with (flags false false (pN ifi) (pM ifi)) by (by destruct (pN ifi), (pM ifi)).
    by rewrite IH.
  - unfold addr_wire. unfold pA in HA. destruct (ifi_Addr ifi); [done|].
    apply stage_name. lia.
Qed.

Lemma stage_index fuel rest :
  (4 <= fuel)%nat ->
  info_marshal_loop fuel proto ifi (flags (pI ifi) (pA ifi) (pN ifi) (pM ifi))
    (zeros (length (index_wire ifi)) ++ zeros (length (addr_wire proto ifi))
       ++ zeros (length (name_wire ifi)) ++ zeros (length (mtu_wire ifi)) ++ rest)
    = Ok (index_wire ifi ++ addr_wire proto ifi ++ name_wire ifi ++ mtu_wire ifi
            ++ rest).
Proof.
  intros Hf. pose proof (stage_addr (pred fuel) rest ltac:(lia)) as IH.
  pose proof (marshalIfIndex_frame ifi
      (zeros (length (addr_wire proto ifi)) ++ zeros (length (name_wire ifi))
         ++ zeros (length (mtu_wire ifi)) ++ rest)) as Hm.
  unfold index_wire in *. destruct (pI ifi); [|apply stage_addr; lia].
  destruct fuel as [|fuel]; [lia|]. cbn [Init.Nat.pred] in IH.
  erewrite (info_marshal_round _ _ _ _ attrIfIndex _ (be32 (info_index ifi))); [|
    len | by destruct (pA ifi), (pN ifi), (pM ifi)
    | by destruct (pA ifi), (pN ifi), (pM ifi) | by apply Hm].
  replace (Z.ldiff (flags true (pA ifi) (pN ifi) (pM ifi)) attrIfIndex)
    with (flags false (pA ifi) (pN ifi) (pM ifi))
    by (by destruct (pA ifi), (pN ifi), (pM ifi)).
  by rewrite IH.
Qed.

Lemma length_info_wire :
  length (info_wire proto ifi) = InterfaceInfo_Len proto ifi.
Proof.
  unfold info_wire, InterfaceInfo_Len. rewrite attrs_present by done.
  rewrite !length_app. simpl. lia.
Qed.

Lemma info_marshal_frame rest :
  InterfaceInfo_marshal proto ifi (zeros (InterfaceInfo_Len proto ifi) ++ rest)
    = Ok (info_wire proto ifi ++ rest).
Proof.
  unfold InterfaceInfo_marshal, info_wire, InterfaceInfo_Len.
  rewrite attrs_present by done. cbn [snd].
  set (l := (4 + _ + _ + _ + _)%nat). unfold l at 1.
  destruct Hwf as (_ & Ht & _). unfold info_marshal.
  rewrite (u8_small (ifi_Type ifi)) by done.
  rewrite !zeros_app, <- !app_assoc. change (zeros 4) with (zeros 2 ++ zeros 2).
  rewrite <- app_assoc, put_head by done. rewrite bind_Ok.
  rewrite put_app by done. rewrite bind_Ok.
  unfold on_suffix. rewrite (app_assoc (be16 _)), slice_from_app by done.
  rewrite bind_Ok, stage_index by (unfold attr_fuel; lia).
  rewrite bind_Ok, take_app_length' by done. by rewrite <- !app_assoc.
Qed.
End InfoMarshalLoop.

(** *** Parsing reads the wire form back *)

Definition parse_attr (a : Z) (ifi : InterfaceInfo) (b : bytes)
    : icmp (InterfaceInfo * bytes) :=
  if decide (a = attrIfIndex) then parseIfIndex ifi b
  else if decide (a = attrIPAddr) then parseIPAddr ifi b
  else if decide (a = attrName) then parseName ifi b
  else parseMTU ifi b.

Lemma info_parse_step fuel attrs a ifi b :
  (0 < length b)%nat -> first_attr attrs = a -> has_attr attrs a = true ->
  info_parse_loop (S fuel) attrs ifi b
    = ('(ifi', t) ← parse_attr a ifi b; info_parse_loop fuel (Z.ldiff attrs a) ifi' t).
Proof.
  intros Hb Hfirst Ha. unfold info_parse_loop at 1; fold info_parse_loop.
  rewrite (has_attr_nonzero _ _ Ha), nonempty_neqb by done. cbn [orb].
  unfold first_attr in Hfirst.
  destruct (has_attr attrs attrIfIndex) eqn:H8; [by subst a|].
  destruct (has_attr attrs attrIPAddr) eqn:H4; [by subst a|].
  destruct (has_attr attrs attrName) eqn:H2; [by subst a|].
  subst a. by rewrite Ha.
Qed.

Lemma info_parse_round fuel attrs a ifi b ifi' t :
  (0 < length b)%nat -> first_attr attrs = a -> has_attr attrs a = true ->
  parse_attr a ifi b = Ok (ifi', t) ->
  info_parse_loop (S fuel) attrs ifi b = info_parse_loop fuel (Z.ldiff attrs a) ifi' t.
Proof. intros Hb Hf Ha Hp. rewrite (info_parse_step _ _ a) by done. by rewrite Hp. Qed.

(** Updates of a value under construction. *)
Definition upd_interface (f : net_Interface -> net_Interface) (ifi : InterfaceInfo)
    : InterfaceInfo :=
  mkInterfaceInfo (ifi_Class ifi) (ifi_Type ifi) (f <$> ifi_Interface ifi) (ifi_Addr ifi).
Definition upd_ip (ip : bytes) (ifi : InterfaceInfo) : InterfaceInfo :=
  mkInterfaceInfo (ifi_Class ifi) (ifi_Type ifi) (ifi_Interface ifi)
    ((fun a => mkIPAddr ip (ip_Zone a)) <$> ifi_Addr ifi).
Definition with_index (v : Z) (i : net_Interface) : net_Interface :=
  mkInterface v (if_MTU i) (if_Name i) (if_HardwareAddr i) (if_Flags i).
Definition with_mtu (v : Z) (i : net_Interface) : net_Interface :=
  mkInterface (if_Index i) v (if_Name i) (if_HardwareAddr i) (if_Flags i).
Definition with_name (s : bytes) (i : net_Interface) : net_Interface :=
  mkInterface (if_Index i) (if_MTU i) s (if_HardwareAddr i) (if_Flags i).

Lemma parseIfIndex_wire ifi v rest :
  is_Some (ifi_Interface ifi) -> is_u32 v ->
  parseIfIndex ifi (be32 v ++ rest) = Ok (upd_interface (with_index v) ifi, rest).
Proof.
  intros [i Hi] Hv. unfold parseIfIndex, upd_interface. rewrite Hi.
  rewrite decide_False by len. rewrite slice_to_ok, bind_Ok, take_app_length' by len.
  rewrite <- (app_nil_r (be32 v)), uint32_be32, bind_Ok, u32_small by done.
  by rewrite app_nil_r, slice_from_app.
Qed.

Lemma parseMTU_wire ifi v rest :
  is_Some (ifi_Interface ifi) -> is_u32 v ->
  parseMTU ifi (be32 v ++ rest) = Ok (upd_interface (with_mtu v) ifi, rest).
Proof.
  intros [i Hi] Hv. unfold parseMTU, upd_interface. rewrite Hi.
  rewrite decide_False by len. rewrite slice_to_ok, bind_Ok, take_app_length' by len.
  rewrite <- (app_nil_r (be32 v)), uint32_be32, bind_Ok, u32_small by done.
  by rewrite app_nil_r, slice_from_app.
Qed.

Lemma parseName_wire ifi s rest :
  is_Some (ifi_Interface ifi) -> wf_name s ->
  parseName ifi (name_field s ++ rest) = Ok (upd_interface (with_name s) ifi, rest).
Proof.
  intros [i Hi] (Hb & Hl & Htrim). unfold parseName, upd_interface. rewrite Hi.
  pose proof (and_not3_bounds (length s)) as [Hlo Hhi]. specialize (Hhi Hl).
  pose proof (and_not3_div (4 + length s)) as Hdiv.
  pose proof (length_name_field s) as Hlen.
  rewrite decide_False by (rewrite length_app, Hlen; lia).
  assert (Hat : (name_field s ++ rest) !! 0%nat = Some (Z.of_nat (and_not3 (4 + length s))))
    by done.
  rewrite (at_ok _ _ _ Hat), bind_Ok.
  rewrite decide_False by (rewrite length_app, Hlen; lia).
  rewrite decide_False by (rewrite Z.rem_mod_nonneg by lia; zdiv).
  rewrite Nat2Z.id, slice_ok by (rewrite length_app, Hlen; lia).
  rewrite bind_Ok, take_app_length' by done.
  rewrite slice_from_app, bind_Ok by done. cbn [fmap option_fmap option_map].
  replace (Trim0 (copy (zeros 63) (drop 1 (name_field s)))) with s; [done|].
  unfold name_field. cbn [drop].
  set (n := (and_not3 (4 + length s) - 1 - length s)%nat).
  rewrite copy_fits by len. rewrite drop_0, drop_zeros, <- app_assoc, <- zeros_app.
  by rewrite Trim0_pad.
Qed.

Lemma parseIPAddr_wire ifi proto a name rest :
  is_Some (ifi_Addr ifi) -> wf_address proto name a ->
  parseIPAddr ifi
    (be16 (if decide (proto = 1) then 1 else 2) ++ zeros 2 ++ ip_IP a ++ rest)
    = Ok (upd_ip (ip_IP a) ifi, rest).
Proof.
  intros [a0 Ha0] (_ & Hwf). unfold parseIPAddr, upd_ip, set_ip. rewrite Ha0.
  rewrite decide_False by len. rewrite slice_to_ok, bind_Ok, take_app_length' by len.
  rewrite <- (app_nil_r (be16 _)) at 1. rewrite uint16_be16, bind_Ok.
  rewrite slice_from_ok, bind_Ok by len.
  destruct Hwf as [(-> & Hl & _)|(-> & Hl & _)].
  - rewrite (decide_True (P := u16 _ = 1)) by done.
    change (drop 4 (be16 _ ++ zeros 2 ++ ip_IP a ++ rest)) with (drop 0 (ip_IP a ++ rest)).
    rewrite drop_0, decide_False, slice_to_ok, bind_Ok by len.
    rewrite take_app_length', bind_Ok by done. by rewrite slice_from_app.
  - rewrite (decide_False (P := u16 _ = 1)) by done.
    rewrite (decide_True (P := u16 _ = 2)) by done.
    change (drop 4 (be16 _ ++ zeros 2 ++ ip_IP a ++ rest)) with (drop 0 (ip_IP a ++ rest)).
    rewrite drop_0, decide_False, slice_to_ok, bind_Ok by len.
    rewrite take_app_length', bind_Ok by done. by rewrite slice_from_app.
Qed.

Lemma info_set_zone_eq cls typ i ip :
  info_set_zone (mkInterfaceInfo cls typ (Some i) (Some (mkIPAddr ip [])))
    = mkInterfaceInfo cls typ (Some i) (Some (mkIPAddr ip
        (if decide (if_Name i <> [] /\ To16 ip <> None /\ To4 ip = None)
         then if_Name i else []))).
Proof. unfold info_set_zone. cbn -[To16 To4]. by case_decide. Qed.

Section InfoParse.
Context (proto : Z) (ifi : InterfaceInfo) (Hwf : wf_info proto ifi).

(** The value after each attribute, given that it was present. *)
Definition got_mtu (cur : InterfaceInfo) : InterfaceInfo :=
  if pM ifi then upd_interface (with_mtu (info_mtu ifi)) cur else cur.
Definition got_name (cur : InterfaceInfo) : InterfaceInfo :=
  if pN ifi then upd_interface (with_name (info_name ifi)) cur else cur.
Definition got_addr (cur : InterfaceInfo) : InterfaceInfo :=
  match ifi_Addr ifi with Some a => upd_ip (ip_IP a) cur | None => cur end.
Definition got_index (cur : InterfaceInfo) : InterfaceInfo :=
  if pI ifi then upd_interface (with_index (info_index ifi)) cur else cur.

(** The structures a present attribute writes into exist. *)
Definition ready (cur : InterfaceInfo) : Prop :=
  (pI ifi = true -> is_Some (ifi_Interface cur)) /\
  (pA ifi = true -> is_Some (ifi_Addr cur)).

Lemma ready_upd_interface f cur : ready cur -> ready (upd_interface f cur).
Proof. intros [H1 H2]. split; [intros H; apply fmap_is_Some, H1, H | exact H2]. Qed.
Lemma ready_upd_ip ip cur : ready cur -> ready (upd_ip ip cur).
Proof. intros [H1 H2]. split; [exact H1 | intros H; apply fmap_is_Some, H2, H]. Qed.

Lemma present_interface : pN ifi = true \/ pM ifi = true -> pI ifi = true.
Proof.
  unfold pI. intros [H|H];
    [destruct (pN_interface _ H) as [? ->] | destruct (pM_interface _ H) as [? ->]]; done.
Qed.

Lemma info_parse_loop_done fuel cur b : info_parse_loop fuel 0 cur b = Ok cur.
Proof. destruct fuel; simpl; by rewrite orb_true_r. Qed.

Lemma wf_info_values :
  is_u32 (info_index ifi) /\ is_u32 (info_mtu ifi) /\ wf_name (info_name ifi).
Proof.
  destruct Hwf as (_ & _ & _ & Hi & _). unfold info_index, info_mtu, info_name.
  destruct (ifi_Interface ifi) as [i|].
  - destruct Hi as (? & ? & ? & _). split_and!; try done. unfold is_u32; lia.
  - unfold is_u32, wf_name. split_and!; [lia..|constructor|simpl; lia|done].
Qed.

Lemma parse_stage_mtu fuel cur :
  (1 <= fuel)%nat -> ready cur ->
  info_parse_loop fuel (flags false false false (pM ifi)) cur (mtu_wire ifi)
    = Ok (got_mtu cur).
Proof.
  intros Hf [Hr _]. pose proof present_interface as Hp.
  unfold got_mtu, mtu_wire. destruct (pM ifi); [|apply info_parse_loop_done].
  destruct fuel as [|fuel]; [lia|].
  erewrite (info_parse_round _ _ attrMTU); [|len|done|done|].
  2: { rewrite <- (app_nil_r (be32 _)).
       apply parseMTU_wire; [by apply Hr, Hp; right | by apply wf_info_values]. }
  apply info_parse_loop_done.
Qed.

Lemma parse_stage_name fuel cur :
  (2 <= fuel)%nat -> ready cur ->
  info_parse_loop fuel (flags false false (pN ifi) (pM ifi)) cur
    (name_wire ifi ++ mtu_wire ifi) = Ok (got_mtu (got_name cur)).
Proof.
  intros Hf Hr. pose proof present_interface as Hp.
  unfold got_name, name_wire. destruct (pN ifi); [|apply parse_stage_mtu; [lia|done]].
  destruct fuel as [|fuel]; [lia|].
  erewrite (info_parse_round _ _ attrName).
  - replace (Z.ldiff (flags false false true (pM ifi)) attrName)
      with (flags false false false (pM ifi)) by (by destruct (pM ifi)).
    apply parse_stage_mtu; [lia | by apply ready_upd_interface].
  - rewrite length_app, length_name_field.
    pose proof (and_not3_bounds (length (info_name ifi))). lia.
  - by destruct (pM ifi).
  - by destruct (pM ifi).
  - apply parseName_wire; [apply Hr, Hp; by left | apply wf_info_values].
Qed.

Lemma parse_stage_addr fuel cur :
  (3 <= fuel)%nat -> ready cur ->
  info_parse_loop fuel (flags false (pA ifi) (pN ifi) (pM ifi)) cur
    (addr_wire proto ifi ++ name_wire ifi ++ mtu_wire ifi)
    = Ok (got_mtu (got_name (got_addr cur))).
Proof.
  intros Hf Hr. unfold got_addr, addr_wire.
  destruct Hwf as (_ & _ & _ & _ & Ha). destruct Hr as [Hr1 Hr2].
  unfold pA in *. destruct (ifi_Addr ifi) as [a|] eqn:Hifi;
    [|apply parse_stage_name; [lia|]; unfold ready, pA; by rewrite Hifi].
  destruct fuel as [|fuel]; [lia|].
  erewrite (info_parse_round _ _ attrIPAddr).
  - replace (Z.ldiff (flags false true (pN ifi) (pM ifi)) attrIPAddr)
      with (flags false false (pN ifi) (pM ifi)) by (by destruct (pN ifi), (pM ifi)).
    apply parse_stage_name; [lia|]. apply ready_upd_ip.
    unfold ready, pA. by rewrite Hifi.
  - len.
  - by destruct (pN ifi), (pM ifi).
  - by destruct (pN ifi), (pM ifi).
  - rewrite <- !app_assoc. apply (parseIPAddr_wire _ proto a (info_name ifi)); [|done].
    by apply Hr2.
Qed.

Lemma parse_stage_index fuel cur :
  (4 <= fuel)%nat -> ready cur ->
  info_parse_loop fuel (flags (pI ifi) (pA ifi) (pN ifi) (pM ifi)) cur
    (index_wire ifi ++ addr_wire proto ifi ++ name_wire ifi ++ mtu_wire ifi)
    = Ok (got_mtu (got_name (got_addr (got_index cur)))).
Proof.
  intros Hf Hr. unfold got_index, index_wire. destruct Hr as [Hr1 Hr2].
  destruct (pI ifi) eqn:HI;
    [|apply parse_stage_addr; [lia|]; unfold ready; by rewrite HI].
  destruct fuel as [|fuel]; [lia|].
  erewrite (info_parse_round _ _ attrIfIndex).
  - replace (Z.ldiff (flags true (pA ifi) (pN ifi) (pM ifi)) attrIfIndex)
      with (flags false (pA ifi) (pN ifi) (pM ifi))
      by (by destruct (pA ifi), (pN ifi), (pM ifi)).
    apply parse_stage_addr; [lia|]. apply ready_upd_interface.
    unfold ready. by rewrite HI.
  - len.
  - by destruct (pA ifi), (pN ifi), (pM ifi).
  - by destruct (pA ifi), (pN ifi), (pM ifi).
  - apply parseIfIndex_wire; [by apply Hr1 | apply wf_info_values].
Qed.

(** The attribute bits of the type byte. *)
Lemma type_bits :
  Z.land (ifi_Type ifi) 15 = flags (pI ifi) (pA ifi) (pN ifi) (pM ifi).
Proof.
  destruct Hwf as (_ & _ & Ht & _). rewrite Ht. by rewrite attrs_present.
Qed.

Lemma info_start_present :
  info_start (ifi_Class ifi) (ifi_Type ifi)
    = mkInterfaceInfo (ifi_Class ifi) (ifi_Type ifi)
        (if pI ifi then Some zero_Interface else None)
        (if pA ifi then Some zero_IPAddr else None).
Proof.
  assert (Hsub : forall m, Z.land 15 m = m ->
    Z.land (ifi_Type ifi) m = Z.land (flags (pI ifi) (pA ifi) (pN ifi) (pM ifi)) m).
  { intros m Hm. rewrite <- type_bits, <- Z.land_assoc. by rewrite Hm. }
  unfold info_start, has_attr. rewrite !Hsub by done.
  pose proof present_interface as Hp.
  destruct (pI ifi); [by destruct (pA ifi), (pN ifi), (pM ifi)|].
  destruct (pN ifi); [discriminate (Hp (or_introl eq_refl))|].
  destruct (pM ifi); [discriminate (Hp (or_intror eq_refl))|]. by destruct (pA ifi).
Qed.

(** Everything read, the zone assigned: the value itself. *)
Lemma info_rebuilt :
  info_set_zone (got_mtu (got_name (got_addr (got_index
    (mkInterfaceInfo (ifi_Class ifi) (ifi_Type ifi)
      (if pI ifi then Some zero_Interface else None)
      (if pA ifi then Some zero_IPAddr else None)))))) = ifi.
Proof.
  destruct Hwf as (_ & _ & _ & Hi & Ha). clear Hwf.
  unfold got_mtu, got_name, got_addr, got_index, pI, pA, pN, pM, info_mtu, info_name,
    info_index in *.
  destruct ifi as [cls typ oi oa]. cbn [ifi_Class ifi_Type ifi_Interface ifi_Addr] in *.
  assert (Hzone : forall n a, wf_address proto n a ->
    mkIPAddr (ip_IP a)
      (if decide (n <> [] /\ To16 (ip_IP a) <> None /\ To4 (ip_IP a) = None)
       then n else []) = a).
  { intros n [ip z] (_ & [(-> & Hl & Hz)|(-> & Hl & H4 & Hz)]); simpl in *.
    - rewrite decide_False; [by subst|]. rewrite To4_len4 by done.
      intros (_ & _ & Hn); discriminate Hn.
    - subst z. case_decide as Hd; [done|]. f_equal.
      destruct n; [done|]. exfalso. apply Hd. split_and!; [done| |done].
      by rewrite (To16_len16 ip Hl). }
  destruct oi as [[idx mtu name hw fl]|].
  - destruct Hi as (Hidx & Hmtu & Hn & Hhw & Hfl). simpl in *. subst.
    assert (Hm : (0 <? mtu) = false -> mtu = 0)
      by (intros Hz%Z.ltb_ge; unfold is_u32 in *; lia).
    destruct oa as [a|].
    + specialize (Hzone name a Ha).
      destruct name as [|x name], (0 <? mtu); rewrite ?Hm by done;
        (etrans; [apply (info_set_zone_eq _ _ (mkInterface idx _ _ [] 0))|]);
        cbn [if_Name]; do 2 f_equal; exact Hzone.
    + destruct name as [|x name], (0 <? mtu); rewrite ?Hm by done; done.
  - destruct oa as [a|]; [|done]. specialize (Hzone [] a Ha).
    unfold info_set_zone, upd_ip; cbn. rewrite decide_False in Hzone by (intros [Hn _]; by apply Hn).
    by rewrite <- Hzone at 2.
Qed.

Lemma parse_info_wire : parseInterfaceInfo (info_wire proto ifi) = Ok ifi.
Proof.
  unfold parseInterfaceInfo, info_wire. destruct Hwf as (Hc & Ht & _).
  set (body := index_wire ifi ++ _).
  assert (H2 : (be16 (Z.of_nat (InterfaceInfo_Len proto ifi))
                 ++ [2; ifi_Type ifi] ++ body) !! 2%nat = Some 2) by done.
  assert (H3 : (be16 (Z.of_nat (InterfaceInfo_Len proto ifi))
                 ++ [2; ifi_Type ifi] ++ body) !! 3%nat = Some (ifi_Type ifi)) by done.
  rewrite (at_ok _ _ _ H2), bind_Ok, (at_ok _ _ _ H3), bind_Ok.
  rewrite app_assoc, slice_from_app, bind_Ok by done.
  change (Z.lor (Z.lor (Z.lor attrIfIndex attrIPAddr) attrName) attrMTU) with 15.
  rewrite type_bits. rewrite <- Hc. rewrite info_start_present.
  unfold body. rewrite parse_stage_index.
  - rewrite bind_Ok. by rewrite info_rebuilt.
  - unfold attr_fuel; lia.
  - split; intros ->; simpl; eauto.
Qed.
End InfoParse.

Lemma length_addr_wire proto ifi :
  wf_info proto ifi -> (length (addr_wire proto ifi) <= 20)%nat.
Proof.
  intros (_ & _ & _ & _ & Ha). unfold addr_wire. destruct (ifi_Addr ifi) as [a|]; [|simpl; lia].
  destruct Ha as (_ & [(_ & Hl & _)|(_ & Hl & _)]); rewrite !length_app, Hl; simpl; lia.
Qed.

Lemma length_name_wire proto ifi :
  wf_info proto ifi -> (length (name_wire ifi) <= 64)%nat.
Proof.
  intros Hwf. pose proof (wf_info_values _ _ Hwf) as (_ & _ & _ & Hl & _).
  unfold name_wire. destruct (pN ifi); [|simpl; lia]. rewrite length_name_field.
  by apply and_not3_bounds.
Qed.

Lemma info_Len_bound proto ifi :
  wf_info proto ifi -> (InterfaceInfo_Len proto ifi <= 96)%nat.
Proof.
  intros Hwf. unfold InterfaceInfo_Len. rewrite attrs_present by done.
  pose proof (length_addr_wire _ _ Hwf). pose proof (length_name_wire _ _ Hwf). cbn [snd].
  unfold index_wire, mtu_wire. destruct (pI ifi), (pM ifi); simpl; lia.
Qed.

Lemma name_field_bytes s : wf_name s -> is_bytes (name_field s).
Proof.
  intros (Hb & Hl & _). unfold name_field. apply Forall_cons_2.
  - pose proof (and_not3_bounds (length s)). unfold is_u8. lia.
  - apply is_bytes_app. split; [done|apply is_bytes_zeros].
Qed.

Lemma info_wire_bytes proto ifi : wf_info proto ifi -> is_bytes (info_wire proto ifi).
Proof.
  intros Hwf. pose proof (wf_info_values _ _ Hwf) as (_ & _ & Hn).
  destruct Hwf as (_ & Ht & _ & _ & Ha). unfold info_wire.
  rewrite !is_bytes_app. split_and!.
  - apply is_bytes_be16.
  - repeat constructor; [unfold is_u8; lia | apply Ht..].
  - unfold index_wire. destruct (pI ifi); [apply is_bytes_be32 | constructor].
  - unfold addr_wire. destruct (ifi_Addr ifi); [|constructor].
    rewrite !is_bytes_app. split_and!; [apply is_bytes_be16|apply is_bytes_zeros|apply Ha].
  - unfold name_wire. destruct (pN ifi); [by apply name_field_bytes | constructor].
  - unfold mtu_wire. destruct (pM ifi); [apply is_bytes_be32 | constructor].
Qed.

#[export] Instance InterfaceInfo_laws : ExtObjectLaws InterfaceInfo wf_info.
Proof.
  refine {| ext_wire := info_wire |}.
  - intros. by apply length_info_wire.
  - apply info_wire_bytes.
  - intros proto x Hwf. pose proof (info_Len_bound _ _ Hwf). split; [simpl; lia|].
    eexists _, _. unfold info_wire. simpl. destruct Hwf as (-> & _). reflexivity.
  - intros. by apply info_marshal_frame.
  - intros. by apply parse_info_wire.
Defined.

(** *** Parsing arbitrary bytes *)

Lemma parse_attr_orderly a ifi b :
  is_bytes b ->
  (a <> attrIPAddr -> is_Some (ifi_Interface ifi)) ->
  (a = attrIPAddr -> is_Some (ifi_Addr ifi)) ->
  orderly (parse_attr a ifi b) /\
  forall ifi' t, parse_attr a ifi b = Ok (ifi', t) ->
    is_bytes t /\ (is_Some (ifi_Interface ifi) -> is_Some (ifi_Interface ifi')) /\
    (is_Some (ifi_Addr ifi) -> is_Some (ifi_Addr ifi')).
Proof.
  intros Hb HI HA. unfold parse_attr.
  case_decide as H8; [|case_decide as H4; [|case_decide as H2]].
  - destruct HI as [i Hi]; [by rewrite H8|]. unfold parseIfIndex.
    case_decide; [done|]. rewrite slice_to_ok, bind_Ok by lia.
    destruct (uint32_returns (E:=icmp_error) (take 4 b)) as (v & -> & _);
      [by apply is_bytes_take|len|]. rewrite bind_Ok, Hi, slice_from_ok, bind_Ok by lia.
    split; [done|]. intros ? ? [= <- <-]. split; [by apply is_bytes_drop|]. simpl; eauto.
  - destruct HA as [a0 Ha]; [done|]. unfold parseIPAddr, set_ip.
    case_decide; [done|]. rewrite slice_to_ok, bind_Ok by lia.
    destruct (uint16_returns (E:=icmp_error) (take 2 b)) as (v & -> & _);
      [by apply is_bytes_take|len|]. rewrite bind_Ok, slice_from_ok, bind_Ok by lia.
    assert (Hd : is_bytes (drop 4 b)) by (by apply is_bytes_drop).
    repeat case_decide; try done.
    + rewrite slice_to_ok, bind_Ok, Ha, bind_Ok, slice_from_ok, bind_Ok by lia.
      split; [done|]. intros ? ? [= <- <-]. split; [by apply is_bytes_drop|]. simpl; eauto.
    + rewrite slice_to_ok, bind_Ok, Ha, bind_Ok, slice_from_ok, bind_Ok by lia.
      split; [done|]. intros ? ? [= <- <-]. split; [by apply is_bytes_drop|]. simpl; eauto.
    + split; [done|]. intros ? ? [= <- <-]. split; [done|]. eauto.
  - destruct HI as [i Hi]; [by rewrite H2|]. unfold parseName.
    case_decide; [done|].
    destruct (at_returns (E:=icmp_error) b 0) as (l & Hl & ->); [lia|]. rewrite bind_Ok.
    pose proof (is_bytes_lookup _ _ _ Hb Hl) as Hu. unfold is_u8 in Hu.
    case_decide; [done|]. case_decide; [done|].
    rewrite slice_ok, bind_Ok, Hi, slice_from_ok, bind_Ok by lia.
    split; [done|]. intros ? ? [= <- <-]. split; [by apply is_bytes_drop|]. simpl; eauto.
  - destruct HI as [i Hi]; [done|]. unfold parseMTU.
    case_decide; [done|]. rewrite slice_to_ok, bind_Ok by lia.
    destruct (uint32_returns (E:=icmp_error) (take 4 b)) as (v & -> & _);
      [by apply is_bytes_take|len|]. rewrite bind_Ok, Hi, slice_from_ok, bind_Ok by lia.
    split; [done|]. intros ? ? [= <- <-]. split; [by apply is_bytes_drop|]. simpl; eauto.
Qed.

(** Every set of attribute bits in selection order: at most one round per bit. *)
Lemma info_parse_loop_orderly fuel (i a n m : bool) ifi b :
  is_bytes b ->
  ((if i then 1 else 0) + (if a then 1 else 0) + (if n then 1 else 0)
     + (if m then 1 else 0) <= fuel)%nat ->
  (i || n || m = true -> is_Some (ifi_Interface ifi)) ->
  (a = true -> is_Some (ifi_Addr ifi)) ->
  orderly (info_parse_loop fuel (flags i a n m) ifi b).
Proof.
  revert i a n m ifi b. induction fuel as [|fuel IH]; intros i a n m ifi b Hb Hf HI HA.
  { destruct i, a, n, m; simpl in Hf; try lia. rewrite info_parse_loop_done. done. }
  destruct (decide (length b = 0%nat)) as [H0|H0].
  { simpl. by rewrite H0. }
  assert (Hround : forall x (i' a' n' m' : bool),
    first_attr (flags i a n m) = x -> has_attr (flags i a n m) x = true ->
    Z.ldiff (flags i a n m) x = flags i' a' n' m' ->
    ((if i' then 1 else 0) + (if a' then 1 else 0) + (if n' then 1 else 0)
       + (if m' then 1 else 0) <= fuel)%nat ->
    (i' || n' || m' = true -> i || n || m = true) -> (a' = true -> a = true) ->
    (x <> attrIPAddr -> i || n || m = true) -> (x = attrIPAddr -> a = true) ->
    orderly (info_parse_loop (S fuel) (flags i a n m) ifi b)).
  { intros x i' a' n' m' Hx Hhas Hld Hf' HI' HA' HxI HxA.
    destruct (parse_attr_orderly x ifi b) as [Ho Hnext]; [done|auto..|].
    rewrite (info_parse_step _ _ x) by (done || lia). apply orderly_bind; [done|].
    intros [ifi' t] Hp. destruct (Hnext ifi' t) as (Ht & HtI & HtA); [done|].
    rewrite Hld. apply IH; auto. }
  destruct i; [by apply (Hround attrIfIndex false a n m); destruct a, n, m; simpl in *; (done || lia)|].
  destruct a; [by apply (Hround attrIPAddr false false n m); destruct n, m; simpl in *; (done || lia)|].
  destruct n; [by apply (Hround attrName false false false m); destruct m; simpl in *; (done || lia)|].
  destruct m; [by apply (Hround attrMTU false false false false); simpl in *; (done || lia)|].
  rewrite info_parse_loop_done. done.
Qed.

Lemma land15_flags t :
  exists i a n m, Z.land t 15 = flags i a n m /\
    i = has_attr t attrIfIndex /\ a = has_attr t attrIPAddr /\
    n = has_attr t attrName /\ m = has_attr t attrMTU.
Proof.
  assert (Hsub : forall k, Z.land 15 k = k -> Z.land t k = Z.land (Z.land t 15) k).
  { intros k Hk. by rewrite <- Z.land_assoc, Hk. }
  unfold has_attr. rewrite (Hsub attrIfIndex), (Hsub attrIPAddr), (Hsub attrName), (Hsub attrMTU) by done.
  assert (Hr : 0 <= Z.land t 15 < 16).
  { rewrite (land_ones_mod t 15 4) by done. apply Z.mod_pos_bound. lia. }
  generalize dependent (Z.land t 15). intros z _ Hz.
  assert (Hc : z = 0 \/ z = 1 \/ z = 2 \/ z = 3 \/ z = 4 \/ z = 5 \/ z = 6 \/ z = 7 \/
    z = 8 \/ z = 9 \/ z = 10 \/ z = 11 \/ z = 12 \/ z = 13 \/ z = 14 \/ z = 15) by lia.
  repeat destruct Hc as [->|Hc]; try subst z; by repeat eexists.
Qed.

Lemma parseInterfaceInfo_orderly b :
  is_bytes b -> (4 <= length b)%nat -> orderly (parseInterfaceInfo b).
Proof.
  intros Hb Hl. unfold parseInterfaceInfo.
  destruct (at_returns (E:=icmp_error) b 2) as (cls & _ & ->); [lia|].
  destruct (at_returns (E:=icmp_error) b 3) as (typ & _ & ->); [lia|].
  rewrite !bind_Ok, slice_from_ok, bind_Ok by lia.
  change (Z.lor (Z.lor (Z.lor attrIfIndex attrIPAddr) attrName) attrMTU) with 15.
  destruct (land15_flags typ) as (i & a & n & m & Hf & Hi & Ha & Hn & Hm).
  apply orderly_bind; [|done]. rewrite Hf. apply info_parse_loop_orderly.
  - by apply is_bytes_drop.
  - unfold attr_fuel. destruct i, a, n, m; simpl; lia.
  - intros Hor. unfold info_start. simpl.
    assert (Hbits : Z.land typ (Z.lor (Z.lor attrIfIndex attrName) attrMTU)
      = Z.land (flags i a n m) 11) by (rewrite <- Hf, <- Z.land_assoc; done).
    rewrite Hbits. destruct i, n, m, a; simpl in *; eauto; done.
  - intros ->. unfold info_start. simpl. rewrite <- Ha. simpl; eauto.
Qed.
