(* ===== verification/Ident.v ===== *)
(** * Interface identification objects (icmp/interface.go)

    The RFC 8335 object that names an interface by name, by index or by address,
    as the request of the extended echo exchange carries it. *)

From S2P Require Import Prelude Bytes IcmpTypes Iface.
Local Open Scope Z_scope.

Definition classInterfaceIdent : Z := 3.
Definition typeInterfaceByName : Z := 1.
Definition typeInterfaceByIndex : Z := 2.
Definition typeInterfaceByAddress : Z := 3.

Record InterfaceIdent := mkInterfaceIdent {
  id_Class : Z;
  id_Type : Z;
  id_Name : bytes;
  id_Index : Z;
  id_AFI : Z;
  id_Addr : bytes;
}.

#[export] Instance InterfaceIdent_eq_dec : EqDecision InterfaceIdent.
Proof. solve_decision. Defined.

(** [func (ifi *InterfaceIdent) Len(_ int) int] *)
Definition InterfaceIdent_Len (proto : Z) (ifi : InterfaceIdent) : nat :=
  if decide (id_Type ifi = typeInterfaceByName) then
    let l := length (id_Name ifi) in
    let l := if decide (255 < l)%nat then 255%nat else l in
    4 + and_not3 (l + 3)
  else if decide (id_Type ifi = typeInterfaceByIndex) then 4 + 4
  else if decide (id_Type ifi = typeInterfaceByAddress)
  then 4 + 4 + and_not3 (length (id_Addr ifi) + 3)
  else 4.

(** [func (ifi *InterfaceIdent) marshal(proto int, b []byte) error] *)
Definition InterfaceIdent_marshal (proto : Z) (ifi : InterfaceIdent) (b : bytes)
    : icmp bytes :=
  let l := InterfaceIdent_Len proto ifi in
  b ← put b 0 (be16 (Z.of_nat l));
  b ← put b 2 [classInterfaceIdent; u8 (id_Type ifi)];
  if decide (id_Type ifi = typeInterfaceByName) then
    on_suffix 4 (fun t => Ok (copy t (id_Name ifi))) b
  else if decide (id_Type ifi = typeInterfaceByIndex) then
    put b 4 (be32 (id_Index ifi))
  else if decide (id_Type ifi = typeInterfaceByAddress) then
    b ← put b 4 (be16 (id_AFI ifi));
    b ← put b 6 [u8 (Z.of_nat (length (id_Addr ifi)))];
    on_suffix 8 (fun t => Ok (copy t (id_Addr ifi))) b
  else Ok b.

(** [func (ifi *InterfaceIdent) Marshal(proto int) ([]byte, error)] *)
Definition InterfaceIdent_Marshal (proto : Z) (ifi : InterfaceIdent) : icmp bytes :=
  InterfaceIdent_marshal proto ifi (zeros (InterfaceIdent_Len proto ifi)).

(** [func parseInterfaceIdent(b []byte) (Extension, error)] *)
Definition parseInterfaceIdent (b : bytes) : icmp InterfaceIdent :=
  cls ← at_ b 2;
  typ ← at_ b 3;
  if decide (typ = typeInterfaceByName) then
    t ← slice_from b 4;
    Ok (mkInterfaceIdent cls typ (Trim0 t) 0 0 [])
  else if decide (typ = typeInterfaceByIndex) then
    t ← slice_from b 4;
    if decide (length t < 4)%nat then Err errInvalidExtension else
    w ← slice b 4 8; v ← uint32 w;
    Ok (mkInterfaceIdent cls typ [] v 0 [])
  else if decide (typ = typeInterfaceByAddress) then
    t ← slice_from b 4;
    if decide (length t < 4)%nat then Err errInvalidExtension else
    w ← slice b 4 6; afi ← uint16 w;
    l ← at_ b 6;
    t ← slice_from b 8;
    if decide (Z.of_nat (length t) < l) then Err errInvalidExtension else
    Ok (mkInterfaceIdent cls typ [] 0 afi (copy (zeros (Z.to_nat l)) t))
  else Ok (mkInterfaceIdent cls typ [] 0 0 []).

#[export] Instance InterfaceIdent_ExtObject : ExtObject InterfaceIdent := {
  ext_class := id_Class;
  ext_Len := InterfaceIdent_Len;
  ext_marshal := InterfaceIdent_marshal;
  ext_parse := parseInterfaceIdent;
}.

(** ** Well-formed identifications and their wire form *)

(** Only the fields of the object's type are set, and they fit the wire. *)
Definition wf_ident (proto : Z) (ifi : InterfaceIdent) : Prop :=
  id_Class ifi = 3 /\ is_u8 (id_Type ifi) /\
  if decide (id_Type ifi = 1) then
    is_bytes (id_Name ifi) /\ (length (id_Name ifi) <= 255)%nat /\
    Trim0 (id_Name ifi) = id_Name ifi /\
    id_Index ifi = 0 /\ id_AFI ifi = 0 /\ id_Addr ifi = []
  else if decide (id_Type ifi = 2) then
    is_u32 (id_Index ifi) /\ id_Name ifi = [] /\ id_AFI ifi = 0 /\ id_Addr ifi = []
  else if decide (id_Type ifi = 3) then
    is_u16 (id_AFI ifi) /\ is_bytes (id_Addr ifi) /\ (length (id_Addr ifi) <= 255)%nat /\
    id_Name ifi = [] /\ id_Index ifi = 0
  else id_Name ifi = [] /\ id_Index ifi = 0 /\ id_AFI ifi = 0 /\ id_Addr ifi = [].

(** The zero padding to a multiple of four. *)
Definition pad4 (n : nat) : bytes := zeros (and_not3 (n + 3) - n).

Definition ident_body (ifi : InterfaceIdent) : bytes :=
  if decide (id_Type ifi = 1) then id_Name ifi ++ pad4 (length (id_Name ifi))
  else if decide (id_Type ifi = 2) then be32 (id_Index ifi)
  else if decide (id_Type ifi = 3) then
    be16 (id_AFI ifi) ++ [Z.of_nat (length (id_Addr ifi)); 0]
      ++ id_Addr ifi ++ pad4 (length (id_Addr ifi))
  else [].

Definition ident_wire (proto : Z) (ifi : InterfaceIdent) : bytes :=
  be16 (Z.of_nat (InterfaceIdent_Len proto ifi)) ++ [3; id_Type ifi] ++ ident_body ifi.

Lemma and_not3_up n : (n <= and_not3 (n + 3) < n + 4)%nat.
Proof. pose proof (and_not3_div (n + 3)). zdiv. Qed.

Lemma length_pad4 n : (n + length (pad4 n) = and_not3 (n + 3))%nat.
Proof. unfold pad4. pose proof (and_not3_up n). len. Qed.

Lemma ident_Len_body proto ifi :
  wf_ident proto ifi -> InterfaceIdent_Len proto ifi = (4 + length (ident_body ifi))%nat.
Proof.
  intros (_ & _ & Hwf). unfold InterfaceIdent_Len, ident_body.
  unfold typeInterfaceByName, typeInterfaceByIndex, typeInterfaceByAddress.
  repeat case_decide; rewrite ?length_app, ?length_pad4; try lia; done.
Qed.

Lemma length_ident_wire proto ifi :
  wf_ident proto ifi -> length (ident_wire proto ifi) = InterfaceIdent_Len proto ifi.
Proof.
  intros Hwf. unfold ident_wire. rewrite !length_app, ident_Len_body by done. simpl. lia.
Qed.

Lemma ident_Len_bound proto ifi :
  wf_ident proto ifi -> (InterfaceIdent_Len proto ifi <= 264)%nat.
Proof.
  intros (_ & _ & Hwf). unfold InterfaceIdent_Len.
  unfold typeInterfaceByName, typeInterfaceByIndex, typeInterfaceByAddress.
  pose proof (and_not3_div (length (id_Name ifi) + 3)).
  pose proof (and_not3_div (length (id_Addr ifi) + 3)).
  repeat case_decide; try lia; zdiv.
Qed.

Lemma ident_body_bytes proto ifi : wf_ident proto ifi -> is_bytes (ident_body ifi).
Proof.
  intros (_ & _ & Hwf). unfold ident_body, pad4. repeat case_decide.
  - apply is_bytes_app. split; [apply Hwf | apply is_bytes_zeros].
  - apply is_bytes_be32.
  - destruct Hwf as (_ & Ha & Hl & _). rewrite !is_bytes_app. split_and!.
    + apply is_bytes_be16.
    + repeat constructor; unfold is_u8; lia.
    + done.
    + apply is_bytes_zeros.
  - constructor.
Qed.

(** Storing a short text into a zeroed area leaves it padded. *)
Lemma copy_padded s n rest :
  (length s <= n)%nat ->
  copy (zeros n ++ rest) s = s ++ zeros (n - length s) ++ rest.
Proof.
  intros Hl. replace n with (length s + (n - length s))%nat at 1 by lia.
  rewrite zeros_app, <- app_assoc. apply copy_app. len.
Qed.

Lemma padded_length (s : bytes) n : (length (s ++ zeros n) - length s)%nat = n.
Proof. len. Qed.

Lemma ident_marshal_frame proto ifi rest :
  wf_ident proto ifi ->
  InterfaceIdent_marshal proto ifi (zeros (InterfaceIdent_Len proto ifi) ++ rest)
    = Ok (ident_wire proto ifi ++ rest).
Proof.
  intros Hwf. unfold InterfaceIdent_marshal, ident_wire.
  set (l := Z.of_nat (InterfaceIdent_Len proto ifi)). rewrite (ident_Len_body _ _ Hwf).
  destruct Hwf as (_ & Ht & Hwf). rewrite (u8_small (id_Type ifi)) by done.
  unfold ident_body, typeInterfaceByName, typeInterfaceByIndex, typeInterfaceByAddress,
    pad4, on_suffix in *.
  rewrite zeros_app, <- !app_assoc. change (zeros 4) with (zeros 2 ++ zeros 2).
  rewrite <- app_assoc, put_head by done. rewrite bind_Ok, put_app by done.
  rewrite bind_Ok. repeat case_decide.
  - rewrite app_assoc, slice_from_app, bind_Ok by done. rewrite bind_Ok.
    pose proof (and_not3_up (length (id_Name ifi))).
    rewrite copy_padded by len. rewrite take_app_length' by done.
    rewrite (padded_length (id_Name ifi)). by rewrite <- !app_assoc.
  - rewrite app_assoc, put_app by done. by rewrite <- !app_assoc.
  - destruct Hwf as (_ & _ & Hl & _). rewrite u8_small by (unfold is_u8; lia).
    pose proof (and_not3_up (length (id_Addr ifi))).
    set (n := length (id_Addr ifi ++ zeros (and_not3 (length (id_Addr ifi) + 3)
                                              - length (id_Addr ifi)))).
    match goal with |- context [zeros (length ?x)] =>
      change (zeros (length x)) with (zeros 2 ++ zeros 1 ++ zeros 1 ++ zeros n) end.
    rewrite <- !(app_assoc (zeros _)).
    rewrite app_assoc, put_app by done. rewrite bind_Ok, (app_assoc _ (be16 (id_AFI ifi))).
    rewrite put_app by done. rewrite bind_Ok. rewrite (app_assoc _ [_] (zeros 1 ++ _)).
    rewrite (app_assoc _ (zeros 1)), slice_from_app by done. rewrite bind_Ok, bind_Ok.
    unfold n. rewrite copy_padded by len. rewrite take_app_length' by done.
    rewrite (padded_length (id_Addr ifi)). by rewrite <- !app_assoc.
  - done.
Qed.

Lemma parse_ident_wire proto ifi :
  wf_ident proto ifi -> parseInterfaceIdent (ident_wire proto ifi) = Ok ifi.
Proof.
  intros (Hc & Ht & Hwf). unfold parseInterfaceIdent, ident_wire.
  set (l := Z.of_nat (InterfaceIdent_Len proto ifi)).
  assert (H2 : (be16 l ++ [3; id_Type ifi] ++ ident_body ifi) !! 2%nat = Some 3) by done.
  assert (H3 : (be16 l ++ [3; id_Type ifi] ++ ident_body ifi) !! 3%nat
    = Some (id_Type ifi)) by done.
  rewrite (at_ok _ _ _ H2), bind_Ok, (at_ok _ _ _ H3), bind_Ok. clear H2 H3.
  unfold ident_body, typeInterfaceByName, typeInterfaceByIndex, typeInterfaceByAddress.
  destruct ifi as [cls typ name idx afi addr]. simpl in Hc, Ht, Hwf.
  cbn [id_Type id_Name id_Index id_AFI id_Addr]. repeat case_decide.
  - destruct Hwf as (_ & _ & Htr & -> & -> & ->).
    rewrite app_assoc, slice_from_app, bind_Ok by done. unfold pad4.
    by rewrite Trim0_pad, Htr, Hc.
  - destruct Hwf as (Hi & -> & -> & ->).
    rewrite app_assoc, slice_from_app, bind_Ok by done. rewrite decide_False by len.
    change (slice ((be16 l ++ [3; typ]) ++ be32 idx) 4 8) with (Ok (be32 idx) : icmp bytes).
    rewrite bind_Ok, <- (app_nil_r (be32 idx)), uint32_be32, bind_Ok.
    by rewrite u32_small, Hc.
  - destruct Hwf as (Hafi & Ha & Hl & -> & ->).
    rewrite app_assoc, (slice_from_app _ _ 4), bind_Ok by done.
    rewrite decide_False by len. set (tail := addr ++ pad4 (length addr)).
    assert (Hs : slice ((be16 l ++ [3; typ]) ++ be16 afi ++ [Z.of_nat (length addr); 0]
      ++ tail) 4 6 = Ok (be16 afi) :> icmp bytes).
    { rewrite slice_ok by len. done. }
    rewrite Hs, bind_Ok, <- (app_nil_r (be16 afi)) at 1.
    rewrite uint16_be16, bind_Ok, u16_small by done.
    assert (H6 : ((be16 l ++ [3; typ]) ++ be16 afi ++ [Z.of_nat (length addr); 0] ++ tail)
      !! 6%nat = Some (Z.of_nat (length addr))) by done.
    rewrite (at_ok _ _ _ H6), bind_Ok.
    rewrite !app_assoc, slice_from_app, bind_Ok by done.
    unfold tail. rewrite decide_False by len. rewrite Nat2Z.id, Hc.
    do 2 f_equal. unfold copy. rewrite length_zeros, take_app_length, drop_zeros.
    rewrite length_app, (proj2 (Nat.sub_0_le _ _)) by lia. apply app_nil_r.
  - destruct Hwf as (-> & -> & -> & ->). by rewrite Hc.
Qed.

#[export] Instance InterfaceIdent_laws : ExtObjectLaws InterfaceIdent wf_ident.
Proof.
  refine {| ext_wire := ident_wire |}.
  - intros. by apply length_ident_wire.
  - intros proto x Hwf. pose proof (ident_body_bytes _ _ Hwf). destruct Hwf as (_ & Ht & _).
    unfold ident_wire. rewrite !is_bytes_app. split_and!; [apply is_bytes_be16| |done].
    repeat constructor; [unfold is_u8; lia | apply Ht..].
  - intros proto x Hwf. pose proof (ident_Len_bound _ _ Hwf). split; [simpl; lia|].
    eexists _, _. unfold ident_wire. simpl. destruct Hwf as (-> & _). reflexivity.
  - intros. by apply ident_marshal_frame.
  - intros. by apply parse_ident_wire.
Defined.

Lemma parseInterfaceIdent_orderly b :
  is_bytes b -> (4 <= length b)%nat -> orderly (parseInterfaceIdent b).
Proof.
  intros Hb Hl. unfold parseInterfaceIdent.
  destruct (at_returns (E:=icmp_error) b 2) as (cls & _ & ->); [lia|].
  destruct (at_returns (E:=icmp_error) b 3) as (typ & _ & ->); [lia|].
  rewrite !bind_Ok, (slice_from_ok b 4), !bind_Ok by lia.
  case_decide; [done|]. case_decide; [|case_decide; [|done]].
  - case_decide as H4; [done|]. rewrite length_drop in H4.
    rewrite slice_ok, bind_Ok by lia.
    destruct (uint32_returns (E:=icmp_error) (drop 4 (take 8 b))) as (v & -> & _);
      [auto with bytes | len | done].
  - case_decide as H4; [done|]. rewrite length_drop in H4.
    rewrite slice_ok, bind_Ok by lia.
    destruct (uint16_returns (E:=icmp_error) (drop 4 (take 6 b))) as (v & -> & _);
      [auto with bytes | len |]. rewrite bind_Ok.
    destruct (at_returns (E:=icmp_error) b 6) as (l & _ & ->); [lia|].
    rewrite bind_Ok, slice_from_ok, bind_Ok by lia. by case_decide.
Qed.
