(* ===== verification/Extension.v ===== *)
(** * ICMP extensions (icmp/extension.go)

    The extension structure of RFC 4884: the version-2 header with its own
    checksum, followed by extension objects; the decoder with its fallbacks for
    non-compliant senders; the encoder's check of which objects a message may
    carry. *)

From S2P Require Import Prelude Bytes Checksum IcmpTypes Mpls Iface Ident.
Local Open Scope Z_scope.

(** The implementations of the Go interface [Extension] in the package. A
    [RawExtension] may be a nil pointer. *)
Inductive Extension : Type :=
  | ExtMPLSLabelStack (ls : MPLSLabelStack)
  | ExtInterfaceInfo (ifi : InterfaceInfo)
  | ExtInterfaceIdent (ifi : InterfaceIdent)
  | ExtRawExtension (p : option bytes).

#[export] Instance Extension_eq_dec : EqDecision Extension.
Proof. solve_decision. Defined.

Definition extensionVersion : Z := 2.

(** [func (p *RawExtension) Len(proto int) int] *)
Definition RawExtension_Len (proto : Z) (p : option bytes) : nat :=
  match p with None => 0 | Some data => length data end.

(** [func (p *RawExtension) Marshal(proto int) ([]byte, error)] *)
Definition RawExtension_Marshal (proto : Z) (p : option bytes) : icmp bytes :=
  match p with None => Panic | Some data => Ok data end.

(** The dynamic dispatch of [ext.Len(proto)]. *)
Definition Extension_Len (proto : Z) (e : Extension) : nat :=
  match e with
  | ExtMPLSLabelStack ls => MPLSLabelStack_Len proto ls
  | ExtInterfaceInfo ifi => InterfaceInfo_Len proto ifi
  | ExtInterfaceIdent ifi => InterfaceIdent_Len proto ifi
  | ExtRawExtension p => RawExtension_Len proto p
  end.

(** The dynamic dispatch of [ext.Marshal(proto)]. *)
Definition Extension_Marshal (proto : Z) (e : Extension) : icmp bytes :=
  match e with
  | ExtMPLSLabelStack ls => MPLSLabelStack_Marshal proto ls
  | ExtInterfaceInfo ifi => InterfaceInfo_Marshal proto ifi
  | ExtInterfaceIdent ifi => InterfaceIdent_Marshal proto ifi
  | ExtRawExtension p => RawExtension_Marshal proto p
  end.

(** [func validExtensionHeader(b []byte) bool] *)
Definition validExtensionHeader (b : bytes) : icmp bool :=
  b0 ← at_ b 0;
  let v := Z.shiftr (Z.land b0 240) 4 in
  w ← slice b 2 4; s ← uint16 w;
  let s := if decide (s <> 0) then checksum b else s in
  Ok (if decide (v <> extensionVersion \/ s <> 0) then false else true).

(** The body of the object loop: the parser the class byte selects. *)
Definition parse_object (cls : Z) (obj : bytes) : icmp Extension :=
  if decide (cls = classMPLSLabelStack) then
    ls ← parseMPLSLabelStack obj; Ok (ExtMPLSLabelStack ls)
  else if decide (cls = classInterfaceInfo) then
    ifi ← parseInterfaceInfo obj; Ok (ExtInterfaceInfo ifi)
  else if decide (cls = classInterfaceIdent) then
    ifi ← parseInterfaceIdent obj; Ok (ExtInterfaceIdent ifi)
  else Ok (ExtRawExtension (Some (copy (zeros (length obj)) obj))).

(** The object loop of [parseExtensions]. *)
Fixpoint parse_objects (fuel : nat) (b : bytes) : icmp (list Extension) :=
  if decide (length b < 4)%nat then Ok [] else
  match fuel with
  | O => Diverge
  | S fuel =>
      w ← slice_to b 2; ol ← uint16 w;
      if decide (4 > ol \/ ol > Z.of_nat (length b)) then Ok [] else
      obj ← slice_to b (Z.to_nat ol);
      cls ← at_ b 2;
      ext ← parse_object cls obj;
      t ← slice_from b (Z.to_nat ol);
      exts ← parse_objects fuel t;
      Ok (ext :: exts)
  end.

Definition is_extended_echo_request (typ : MsgType) : bool :=
  bool_decide (typ = V4 ipv4.ICMPTypeExtendedEchoRequest \/
               typ = V6 ipv6.ICMPTypeExtendedEchoRequest).

(** The choice of where the extension structure starts, given the length attribute. *)
Definition extensions_offset (typ : MsgType) (b : bytes) (l : nat) : icmp nat :=
  if is_extended_echo_request typ then
    if decide (length b < 8)%nat then Err errNoExtension else
    ok ← validExtensionHeader b;
    if negb ok then Err errNoExtension else Ok 0%nat
  else
    let l := if decide (l < 128 \/ length b < l + 8)%nat then 128%nat else l in
    if decide (length b < l + 8)%nat then Err errNoExtension else
    t ← slice_from b l;
    ok ← validExtensionHeader t;
    if negb ok then
      if decide (l = 128%nat) then Err errNoExtension else
      t ← slice_from b 128;
      ok ← validExtensionHeader t;
      if negb ok then Err errNoExtension else Ok 128%nat
    else Ok l.

(** [func parseExtensions(typ Type, b []byte, l int) ([]Extension, int, error)] *)
Definition parseExtensions (typ : MsgType) (b : bytes) (l : nat)
    : icmp (list Extension * nat) :=
  l ← extensions_offset typ b l;
  t ← slice_from b (l + 4);
  exts ← parse_objects (length t) t;
  Ok (exts, l).

(** The type case [*InterfaceIdent]. *)
Definition is_InterfaceIdent (e : Extension) : bool :=
  match e with ExtInterfaceIdent _ => true | _ => false end.

(** [func validExtensions(typ Type, exts []Extension) bool] *)
Definition validExtensions (typ : MsgType) (exts : list Extension) : bool :=
  if bool_decide (typ = V4 ipv4.ICMPTypeDestinationUnreachable \/
                  typ = V4 ipv4.ICMPTypeTimeExceeded \/
                  typ = V4 ipv4.ICMPTypeParameterProblem \/
                  typ = V6 ipv6.ICMPTypeDestinationUnreachable \/
                  typ = V6 ipv6.ICMPTypeTimeExceeded)
  then
    forallb (fun e => match e with
                      | ExtMPLSLabelStack _ | ExtInterfaceInfo _ | ExtRawExtension _ => true
                      | ExtInterfaceIdent _ => false
                      end) exts
  else if is_extended_echo_request typ then
    let n := length (filter (fun e => is_InterfaceIdent e = true) exts) in
    forallb (fun e => match e with
                      | ExtInterfaceIdent _ | ExtRawExtension _ => true
                      | _ => false
                      end) exts
    && negb ((n =? 1)%nat && (1 <? length exts)%nat)
  else false.

(** ** Well-formed extensions *)

(** A raw object carries its own header: its length, and a class no parser claims. *)
Definition wf_raw (data : bytes) : Prop :=
  is_bytes data /\ Z.of_nat (length data) < 65536 /\
  exists cls typ payload,
    data = be16 (Z.of_nat (length data)) ++ cls :: typ :: payload /\
    cls <> 1 /\ cls <> 2 /\ cls <> 3.

Definition wf_ext (proto : Z) (e : Extension) : Prop :=
  match e with
  | ExtMPLSLabelStack ls => wf_mpls proto ls
  | ExtInterfaceInfo ifi => wf_info proto ifi
  | ExtInterfaceIdent ifi => wf_ident proto ifi
  | ExtRawExtension None => False
  | ExtRawExtension (Some data) => wf_raw data
  end.

Definition obj_wire (proto : Z) (e : Extension) : bytes :=
  match e with
  | ExtMPLSLabelStack ls => ext_wire proto ls
  | ExtInterfaceInfo ifi => ext_wire proto ifi
  | ExtInterfaceIdent ifi => ext_wire proto ifi
  | ExtRawExtension p => default [] p
  end.

Lemma wf_class_mpls proto ls : wf_mpls proto ls -> ext_class ls = 1.
Proof. by intros (? & _). Qed.
Lemma wf_class_info proto ifi : wf_info proto ifi -> ext_class ifi = 2.
Proof. by intros (? & _). Qed.
Lemma wf_class_ident proto ifi : wf_ident proto ifi -> ext_class ifi = 3.
Proof. by intros (? & _). Qed.

Lemma obj_wire_length proto e :
  wf_ext proto e -> length (obj_wire proto e) = Extension_Len proto e.
Proof.
  destruct e as [x|x|x|[data|]]; intros Hwf;
    [exact (ext_wire_length proto x Hwf)..|done|done].
Qed.

Lemma obj_wire_bytes proto e : wf_ext proto e -> is_bytes (obj_wire proto e).
Proof.
  destruct e as [x|x|x|[data|]]; intros Hwf;
    [exact (ext_wire_bytes proto x Hwf).. | apply Hwf | done].
Qed.

(** Every well-formed object starts with its length and the class that selects its
    parser, and that parser reads it back. *)
Lemma obj_wire_header proto e :
  wf_ext proto e ->
  Z.of_nat (length (obj_wire proto e)) < 65536 /\
  exists cls typ payload,
    obj_wire proto e = be16 (Z.of_nat (length (obj_wire proto e)))
                         ++ cls :: typ :: payload /\
    parse_object cls (obj_wire proto e) = Ok e.
Proof.
  intros Hwf. rewrite obj_wire_length by done.
  destruct e as [ls|ifi|ifi|[data|]]; cbn [wf_ext obj_wire Extension_Len] in *.
  - destruct (ext_wire_header proto ls Hwf) as (Hl & typ & payload & Hw).
    split; [done|]. exists (ext_class ls), typ, payload. split; [done|].
    rewrite (wf_class_mpls _ _ Hwf). pose proof (ext_parse_wire proto ls Hwf) as Hp.
    cbn [ext_parse MPLSLabelStack_ExtObject] in Hp. unfold parse_object.
    rewrite decide_True by done. by rewrite Hp.
  - destruct (ext_wire_header proto ifi Hwf) as (Hl & typ & payload & Hw).
    split; [done|]. exists (ext_class ifi), typ, payload. split; [done|].
    rewrite (wf_class_info _ _ Hwf). pose proof (ext_parse_wire proto ifi Hwf) as Hp.
    cbn [ext_parse InterfaceInfo_ExtObject] in Hp. unfold parse_object.
    rewrite decide_False, decide_True by done. by rewrite Hp.
  - destruct (ext_wire_header proto ifi Hwf) as (Hl & typ & payload & Hw).
    split; [done|]. exists (ext_class ifi), typ, payload. split; [done|].
    rewrite (wf_class_ident _ _ Hwf). pose proof (ext_parse_wire proto ifi Hwf) as Hp.
    cbn [ext_parse InterfaceIdent_ExtObject] in Hp. unfold parse_object.
    rewrite decide_False, decide_False, decide_True by done. by rewrite Hp.
  - destruct Hwf as (Hb & Hl & cls & typ & payload & Hd & H1 & H2 & H3).
    split; [done|]. exists cls, typ, payload. split; [done|]. unfold parse_object.
    rewrite !decide_False by done. rewrite copy_fits by len.
    rewrite drop_ge by len. by rewrite app_nil_r.
  - done.
Qed.

Lemma obj_wire_min proto e :
  wf_ext proto e -> (4 <= length (obj_wire proto e))%nat.
Proof.
  intros Hwf. destruct (obj_wire_header _ _ Hwf) as (_ & cls & typ & payload & -> & _).
  len.
Qed.

Definition objs_wire (proto : Z) (exts : list Extension) : bytes :=
  exts ≫= obj_wire proto.

Lemma objs_wire_bytes proto exts :
  Forall (wf_ext proto) exts -> is_bytes (objs_wire proto exts).
Proof.
  intros Hwf. apply Forall_bind. eapply Forall_impl; [|exact Hwf].
  intros e. apply obj_wire_bytes.
Qed.

(** Decoding the concatenation of the wire forms gives the objects back. *)
Lemma parse_objects_wire proto exts fuel :
  Forall (wf_ext proto) exts -> (length (objs_wire proto exts) <= fuel)%nat ->
  parse_objects fuel (objs_wire proto exts) = Ok exts.
Proof.
  intros Hwf. revert fuel. induction Hwf as [|e exts He Hwf IH]; intros fuel Hf.
  { destruct fuel; done. }
  unfold objs_wire in *. rewrite bind_cons in *.
  pose proof (obj_wire_min _ _ He) as Hmin.
  destruct (obj_wire_header _ _ He) as (Hl & cls & typ & payload & Hw & Hp).
  rewrite length_app in Hf. destruct fuel as [|fuel]; [lia|].
  set (rest := exts ≫= obj_wire proto) in *.
  set (w := obj_wire proto e) in *. cbn [parse_objects].
  rewrite decide_False by len. rewrite slice_to_ok, bind_Ok by len.
  assert (Ht2 : take 2 (w ++ rest) = be16 (Z.of_nat (length w)) ++ []).
  { rewrite Hw at 1. by rewrite <- app_assoc, take_app_length' by done. }
  rewrite Ht2, uint16_be16, bind_Ok, u16_small by (unfold is_u16; lia).
  rewrite decide_False by len. rewrite Nat2Z.id.
  rewrite slice_to_ok, bind_Ok, take_app_length by len.
  assert (Hcls : (w ++ rest) !! 2%nat = Some cls) by (rewrite Hw; done).
  rewrite (at_ok _ _ _ Hcls), bind_Ok, Hp, bind_Ok.
  rewrite slice_from_app, bind_Ok by done. by rewrite IH by lia.
Qed.

(** ** Decoding arbitrary bytes *)

Lemma validExtensionHeader_returns b :
  is_bytes b -> (4 <= length b)%nat -> exists v, validExtensionHeader b = Ok v.
Proof.
  intros Hb Hl. unfold validExtensionHeader.
  destruct (at_returns (E:=icmp_error) b 0) as (b0 & _ & ->); [lia|].
  rewrite bind_Ok, slice_ok, bind_Ok by lia.
  destruct (uint16_returns (E:=icmp_error) (drop 2 (take 4 b))) as (s & -> & _).
  - apply is_bytes_drop, is_bytes_take, Hb.
  - len.
  - eauto.
Qed.

Lemma parse_object_orderly cls b :
  is_bytes b -> (4 <= length b)%nat -> orderly (parse_object cls b).
Proof.
  intros Hb Hl. unfold parse_object.
  repeat case_decide; try apply orderly_bind; try done.
  - by apply parseMPLSLabelStack_orderly.
  - by apply parseInterfaceInfo_orderly.
  - by apply parseInterfaceIdent_orderly.
Qed.

(** Fuel for one round per byte is enough: each object takes at least four. *)
Lemma parse_objects_orderly fuel b :
  is_bytes b -> (length b <= fuel)%nat -> orderly (parse_objects fuel b).
Proof.
  revert b. induction fuel as [|fuel IH]; intros b Hb Hf; cbn [parse_objects].
  { by rewrite decide_True by lia. }
  case_decide; [done|]. rewrite slice_to_ok, bind_Ok by lia.
  destruct (uint16_returns (E:=icmp_error) (take 2 b)) as (ol & -> & _);
    [by apply is_bytes_take|len|].
  rewrite bind_Ok. case_decide as Hol; [done|].
  rewrite slice_to_ok, bind_Ok by lia.
  destruct (at_returns (E:=icmp_error) b 2) as (cls & _ & ->); [lia|]. rewrite bind_Ok.
  apply orderly_bind; [|intros ext _].
  { apply parse_object_orderly; [by apply is_bytes_take | len]. }
  rewrite slice_from_ok, bind_Ok by lia. apply orderly_bind; [|done].
  apply IH; [by apply is_bytes_drop | len].
Qed.

Lemma extensions_offset_cases typ b l :
  is_bytes b ->
  extensions_offset typ b l = Err errNoExtension \/
  exists l', extensions_offset typ b l = Ok l' /\ (l' + 8 <= length b)%nat /\
    (l' = 0 <-> is_extended_echo_request typ = true)%nat /\
    validExtensionHeader (drop l' b) = Ok true.
Proof.
  intros Hb. unfold extensions_offset.
  assert (Hv : forall n, (n + 8 <= length b)%nat ->
    slice_from b n = (Ok (drop n b) : icmp bytes) /\
    exists v, validExtensionHeader (drop n b) = Ok v).
  { intros n Hn. split; [apply slice_from_ok; lia|].
    apply validExtensionHeader_returns; [by apply is_bytes_drop | len]. }
  destruct (is_extended_echo_request typ).
  - case_decide; [by left|]. destruct (Hv 0%nat) as (_ & v & Hv0); [lia|].
    rewrite drop_0 in Hv0. rewrite Hv0, bind_Ok.
    destruct v; [right; exists 0%nat; rewrite drop_0 | left]; (done || split_and!; lia || done).
  - set (l0 := if decide _ then 128%nat else l).
    assert (128 <= l0)%nat by (unfold l0; case_decide; lia). cbn zeta.
    case_decide; [by left|]. destruct (Hv l0) as (-> & v & Hv0); [lia|].
    rewrite bind_Ok, Hv0, bind_Ok. destruct v; cbn [negb].
    { right. exists l0. split_and!; (done || lia). }
    case_decide; [by left|]. destruct (Hv 128%nat) as (-> & v & Hv1); [lia|].
    rewrite bind_Ok, Hv1, bind_Ok. destruct v; [|by left].
    right. exists 128%nat. split_and!; (done || lia).
Qed.

(** The decoder ends in an orderly way on any bytes, and the offset it reports
    leaves room for a header and an object. *)
Lemma parseExtensions_orderly typ b l :
  is_bytes b ->
  orderly (parseExtensions typ b l) /\
  forall exts l', parseExtensions typ b l = Ok (exts, l') -> (l' + 8 <= length b)%nat.
Proof.
  intros Hb. unfold parseExtensions.
  destruct (extensions_offset_cases typ b l Hb) as [->|(l' & -> & Hl & _)]; [done|].
  rewrite bind_Ok, slice_from_ok, bind_Ok by lia. split.
  - apply orderly_bind; [|done]. apply parse_objects_orderly; [by apply is_bytes_drop | done].
  - intros exts l'' H. by inv_result.
Qed.

(** ** Encoding one object *)

Lemma Marshal_obj_wire proto e :
  wf_ext proto e -> Extension_Marshal proto e = Ok (obj_wire proto e).
Proof.
  destruct e as [x|x|x|[data|]]; intros Hwf; cbn [Extension_Marshal obj_wire]; try done.
  all: pose proof (ext_marshal_frame proto x [] Hwf) as H; rewrite !app_nil_r in H.
  - exact H.
  - rewrite <- H. unfold InterfaceInfo_Marshal. cbn [ext_marshal ext_Len InterfaceInfo_ExtObject].
    unfold InterfaceInfo_marshal, InterfaceInfo_Len. by destruct (attrsAndLen proto x).
  - exact H.
Qed.

(** ** Properties *)

(** C31: an extension object of any class (an MPLS label stack, interface information, an
    interface identification or a raw object) whose fields fit the wire is encoded to
    [Len] bytes that start with that length, and the parser selected by the class byte
    of the encoding reads back the same object. *)
Theorem extension_object_round_trip proto e :
  wf_ext proto e ->
  exists b, Extension_Marshal proto e = Ok b /\ length b = Extension_Len proto e /\
    is_bytes b /\ take 2 b = be16 (Z.of_nat (length b)) /\
    exists cls, b !! 2%nat = Some cls /\ parse_object cls b = Ok e.
Proof.
  intros Hwf. exists (obj_wire proto e). rewrite Marshal_obj_wire by done.
  destruct (obj_wire_header _ _ Hwf) as (_ & cls & typ & payload & Hw & Hp).
  split_and!; [done|by apply obj_wire_length|by apply obj_wire_bytes| |].
  - rewrite Hw at 1. by apply take_app_length'.
  - exists cls. split; [|done]. rewrite Hw. done.
Qed.

(** Interface information with every attribute: index 15, address 2001:db8::1, name en101,
    MTU 8192. *)
Definition example_info : InterfaceInfo :=
  mkInterfaceInfo 2 15
    (Some (mkInterface 15 8192 [101; 110; 49; 48; 49] [] 0))
    (Some (mkIPAddr ([32; 1; 13; 184] ++ replicate 11 0 ++ [1]) [101; 110; 49; 48; 49])).

Lemma extension_object_round_trip_witness :
  wf_ext 58 (ExtInterfaceInfo example_info) /\
  exists b, Extension_Marshal 58 (ExtInterfaceInfo example_info) = Ok b /\
    length b = Extension_Len 58 (ExtInterfaceInfo example_info).
Proof.
  assert (Hwf : wf_ext 58 (ExtInterfaceInfo example_info)).
  { split; [done|]. split; [unfold is_u8; cbn; lia|]. split; [reflexivity|].
    split.
    - split; [cbn; lia|]. split; [unfold is_u32; cbn; lia|]. split; [|done].
      split; [repeat constructor; unfold is_u8; lia|]. split; [cbn; lia|reflexivity].
    - split; [repeat constructor; unfold is_u8; lia|]. right. done. }
  split; [exact Hwf|].
  destruct (extension_object_round_trip 58 _ Hwf) as (b & Hm & Hl & _).
  exists b. split; [exact Hm|exact Hl].
Defined.

(** The decoder of the extension structure returns on every byte string and every length
    attribute, with no panic and no endless loop. The offset it reports leaves room for a
    header and an object; it is 0 for the extended echo request and otherwise positive;
    and the header found there carries version 2 and a checksum that is zero or right. *)
Lemma parseExtensions_total typ b l :
  is_bytes b ->
  match parseExtensions typ b l with
  | Ok (_, l') => (l' + 8 <= length b)%nat /\
      (l' = 0%nat <-> is_extended_echo_request typ = true) /\
      validExtensionHeader (drop l' b) = Ok true
  | Err _ => True
  | _ => False
  end.
Proof.
  intros Hb. destruct (parseExtensions_orderly typ b l Hb) as [Ho _].
  destruct (parseExtensions typ b l) as [[exts l']|e| |] eqn:Hp; try done.
  unfold parseExtensions in Hp.
  destruct (extensions_offset_cases typ b l Hb) as [Hn|(l0 & Hl0 & Hr)].
  - rewrite Hn in Hp. discriminate Hp.
  - rewrite Hl0, bind_Ok in Hp. by inv_result.
Qed.

Lemma parseExtensions_total_witness :
  exists l', parseExtensions (V4 ipv4.ICMPTypeTimeExceeded)
    (replicate 128 0 ++ [32; 0; 0; 0; 0; 4; 9; 9]) 0
      = Ok ([ExtRawExtension (Some [0; 4; 9; 9])], l') /\ (l' + 8 <= 136)%nat.
Proof.
  exists 128%nat. split; [reflexivity|].
  pose proof (parseExtensions_total (V4 ipv4.ICMPTypeTimeExceeded)
    (replicate 128 0 ++ [32; 0; 0; 0; 0; 4; 9; 9]) 0) as H.
  destruct H as [H _]; [repeat constructor; unfold is_u8; lia|exact H].
Defined.
