(* ===== verification/Multipart.v ===== *)
(** * Multipart message bodies (icmp/multipart.go)

    Layout of an RFC 4884 message body: four leading octets with the length
    attribute, the original datagram padded to a multiple of the word of the
    protocol and to 128 bytes, the extension header with its checksum, and the
    extension objects; encoding, decoding, and the round trip. *)

From S2P Require Import Prelude Bytes Checksum IcmpTypes Mpls Iface Ident Extension.
Local Open Scope Z_scope.

(** The type assertion [ext.( *RawExtension)]. *)
Definition is_RawExtension (e : Extension) : bool :=
  match e with ExtRawExtension _ => true | _ => false end.

(** The local function [roundup] of [multipartMessageOrigDatagramLen]. *)
Definition roundup (n : nat) (align : Z) : nat :=
  if decide (n < 128)%nat then 128%nat
  else Z.to_nat (Z.ldiff (Z.of_nat n + align - 1) (align - 1)).

(** [func multipartMessageOrigDatagramLen(proto int, b []byte) int] *)
Definition multipartMessageOrigDatagramLen (proto : Z) (b : bytes) : nat :=
  if decide (proto = 1) then roundup (length b) 4
  else if decide (proto = 58) then roundup (length b) 8
  else length b.

(** The sum of the object lengths. *)
Definition exts_len (proto : Z) (exts : list Extension) : nat :=
  foldr (fun e n => Extension_Len proto e + n)%nat 0%nat exts.

(** [func multipartMessageBodyDataLen(...) (bodyLen, dataLen int)] *)
Definition multipartMessageBodyDataLen (proto : Z) (withOrigDgram : bool) (b : bytes)
    (exts : list Extension) : nat * nat :=
  let extLen := exts_len proto exts in
  let rawExt := existsb is_RawExtension exts in
  let dataLen :=
    if bool_decide (0 < extLen)%nat && withOrigDgram
    then multipartMessageOrigDatagramLen proto b else length b in
  let bodyLen := if bool_decide (0 < extLen)%nat || rawExt then 8%nat else 4%nat in
  ((bodyLen + (dataLen + extLen))%nat, dataLen).

(** The type switch of the object loop: each case writes at the start of [b[off:]]. *)
Definition marshal_ext (proto : Z) (e : Extension) (t : bytes) : icmp bytes :=
  match e with
  | ExtMPLSLabelStack ls => ext_marshal proto ls t
  | ExtInterfaceInfo ifi => ext_marshal proto ifi t
  | ExtInterfaceIdent ifi => ext_marshal proto ifi t
  | ExtRawExtension None => Panic
  | ExtRawExtension (Some data) => Ok (copy t data)
  end.

(** The object loop of [marshalMultipartMessageBody]. *)
Fixpoint marshal_exts (proto : Z) (exts : list Extension) (off : nat) (b : bytes)
    : icmp bytes :=
  match exts with
  | [] => Ok b
  | e :: exts =>
      b ← on_suffix off (marshal_ext proto e) b;
      marshal_exts proto exts (off + Extension_Len proto e) b
  end.

(** The length attribute the encoder stores. *)
Definition put_length_attr (proto : Z) (withOrigDgram : bool) (dataLen : nat) (b : bytes)
    : icmp bytes :=
  if negb withOrigDgram then Ok b
  else if decide (proto = 1) then put b 1 [u8 (Z.of_nat dataLen / 4)]
  else if decide (proto = 58) then put b 0 [u8 (Z.of_nat dataLen / 8)]
  else Ok b.

(** [func marshalMultipartMessageBody(...) ([]byte, error)] *)
Definition marshalMultipartMessageBody (proto : Z) (withOrigDgram : bool) (data : bytes)
    (exts : list Extension) : icmp bytes :=
  let '(bodyLen, dataLen) :=
    multipartMessageBodyDataLen proto withOrigDgram data exts in
  b ← on_suffix 4 (fun t => Ok (copy t data)) (zeros bodyLen);
  match exts with
  | [] => Ok b
  | _ =>
      b ← put b (4 + dataLen) [u8 (Z.shiftl extensionVersion 4)];
      b ← marshal_exts proto exts (4 + dataLen + 4) b;
      t ← slice_from b (4 + dataLen);
      let s := checksum t in
      b ← xor_at b (4 + dataLen + 2) (u8 s);
      b ← xor_at b (4 + dataLen + 3) (u8 (Z.shiftr s 8));
      put_length_attr proto withOrigDgram dataLen b
  end.

(** The length attribute the decoder reads, in bytes. *)
Definition length_attr (proto : Z) (b : bytes) : icmp nat :=
  if decide (proto = 1) then x ← at_ b 1; Ok (4 * Z.to_nat x)%nat
  else if decide (proto = 58) then x ← at_ b 0; Ok (8 * Z.to_nat x)%nat
  else Ok 0%nat.

(** [func parseMultipartMessageBody(...) ([]byte, []Extension, error)]; the third
    result is always nil. *)
Definition parseMultipartMessageBody (proto : Z) (typ : MsgType) (b : bytes)
    : icmp (bytes * list Extension) :=
  l ← length_attr proto b;
  if decide (length b = 4)%nat then Ok ([], []) else
  t ← slice_from b 4;
  '(exts, l) ←
    match parseExtensions typ t l with
    | Err _ => Ok ([], (length b - 4)%nat)
    | m => m
    end;
  if decide (0 < l)%nat then Ok (copy (zeros l) t, exts) else Ok ([], exts).

(** ** Layout *)

(** The unit of the length attribute, a word of the protocol. *)
Definition word_of (proto : Z) : nat := if proto =? 1 then 4%nat else 8%nat.

Lemma roundup_spec n k :
  (k = 2 \/ k = 3) ->
  roundup n (2 ^ k)
    = if decide (n < 128)%nat then 128%nat
      else Z.to_nat ((Z.of_nat n + 2 ^ k - 1) / 2 ^ k * 2 ^ k).
Proof.
  intros Hk. unfold roundup. case_decide; [done|]. f_equal.
  replace (2 ^ k - 1) with (Z.ones k) by (destruct Hk as [-> | ->]; done).
  rewrite Z.ldiff_ones_r, Z.shiftr_div_pow2, Z.shiftl_mul_pow2 by lia. done.
Qed.

(** The padded length: at least 128, enough for the datagram, a multiple of the word
    of the protocol, and less than a word longer than needed. *)
Lemma OrigDatagramLen_spec proto b :
  known_proto proto ->
  let n := multipartMessageOrigDatagramLen proto b in
  (128 <= n)%nat /\ (length b <= n)%nat /\
  Z.of_nat n mod Z.of_nat (word_of proto) = 0 /\
  (n < Nat.max 129 (length b + word_of proto))%nat.
Proof.
  unfold multipartMessageOrigDatagramLen. intros [-> | ->]; cbn [word_of Z.eqb Pos.eqb].
  - rewrite !decide_True by done. pose proof (roundup_spec (length b) 2) as E.
    change (2 ^ 2) with 4 in E. change (word_of 1) with 4%nat. rewrite E by lia. cbn zeta.
    case_decide; [split_and!; done || lia|]. split_and!; zdiv.
  - rewrite !decide_False, !decide_True by done. pose proof (roundup_spec (length b) 3) as E.
    change (2 ^ 3) with 8 in E. change (word_of 58) with 8%nat. rewrite E by lia. cbn zeta.
    case_decide; [split_and!; done || lia|]. split_and!; zdiv.
Qed.

Lemma exts_len_wire proto exts :
  Forall (wf_ext proto) exts -> length (objs_wire proto exts) = exts_len proto exts.
Proof.
  induction 1 as [|e exts He _ IH]; [done|].
  unfold objs_wire in *. rewrite bind_cons, length_app, IH, obj_wire_length by done. done.
Qed.

(** ** Encoding *)

(** Each object is written over zeroed bytes, in place, one after the other. *)
Lemma marshal_ext_frame proto e rest :
  wf_ext proto e ->
  marshal_ext proto e (zeros (Extension_Len proto e) ++ rest)
    = Ok (obj_wire proto e ++ rest).
Proof.
  destruct e as [x|x|x|[data|]]; intros Hwf;
    cbn [marshal_ext obj_wire Extension_Len RawExtension_Len].
  - exact (ext_marshal_frame proto x rest Hwf).
  - exact (ext_marshal_frame proto x rest Hwf).
  - exact (ext_marshal_frame proto x rest Hwf).
  - by rewrite copy_app by len.
  - done.
Qed.

Lemma marshal_exts_frame proto exts off a rest :
  Forall (wf_ext proto) exts -> off = length a ->
  marshal_exts proto exts off (a ++ zeros (exts_len proto exts) ++ rest)
    = Ok (a ++ objs_wire proto exts ++ rest).
Proof.
  intros Hwf. revert off a. induction Hwf as [|e exts He _ IH]; intros off a Hoff.
  { done. }
  cbn [marshal_exts exts_len foldr]. fold (exts_len proto exts).
  unfold objs_wire in *. rewrite bind_cons, zeros_app, <- !app_assoc.
  unfold on_suffix at 1. rewrite (slice_from_app a _ off), bind_Ok by done.
  rewrite marshal_ext_frame, !bind_Ok by done. rewrite take_app_exact by done.
  rewrite (app_assoc a). rewrite (IH (off + Extension_Len proto e)%nat (a ++ obj_wire proto e)).
  - by rewrite <- !app_assoc.
  - rewrite length_app, obj_wire_length by done. lia.
Qed.

(** The extension structure on the wire: header, checksum, objects. *)
Definition ext_section (proto : Z) (exts : list Extension) : bytes :=
  let objs := objs_wire proto exts in
  [32; 0] ++ csum_bytes (checksum ([32; 0; 0; 0] ++ objs)) ++ objs.

(** The datagram padded to the length the message announces. *)
Definition padded (proto : Z) (withOrigDgram : bool) (data : bytes) : bytes :=
  if withOrigDgram
  then data ++ zeros (multipartMessageOrigDatagramLen proto data - length data)
  else data.

(** The four leading octets as the encoder leaves them. *)
Definition leading (proto : Z) (withOrigDgram : bool) (dataLen : nat) : bytes :=
  if withOrigDgram then
    if proto =? 1 then [0; u8 (Z.of_nat dataLen / 4); 0; 0]
    else [u8 (Z.of_nat dataLen / 8); 0; 0; 0]
  else [0; 0; 0; 0].

Lemma length_padded proto w data :
  known_proto proto ->
  length (padded proto w data)
    = if w then multipartMessageOrigDatagramLen proto data else length data.
Proof.
  intros Hp. unfold padded. destruct w; [|done]. rewrite length_app, length_zeros.
  destruct (OrigDatagramLen_spec proto data Hp) as (_ & Hl & _). lia.
Qed.

Lemma exts_len_pos proto e exts :
  Forall (wf_ext proto) (e :: exts) -> (0 < exts_len proto (e :: exts))%nat.
Proof.
  intros Hwf. pose proof Hwf as Hwf'. rewrite <- exts_len_wire by done.
  unfold objs_wire. rewrite bind_cons, length_app.
  apply Forall_cons_1 in Hwf as [He _]. pose proof (obj_wire_min _ _ He). lia.
Qed.

Lemma BodyDataLen_exts proto w data e exts :
  known_proto proto -> Forall (wf_ext proto) (e :: exts) ->
  multipartMessageBodyDataLen proto w data (e :: exts)
    = let n := length (padded proto w data) in
      ((8 + (n + exts_len proto (e :: exts)))%nat, n).
Proof.
  intros Hp Hwf. unfold multipartMessageBodyDataLen.
  rewrite bool_decide_eq_true_2 by (by apply exts_len_pos).
  cbn [andb orb]. rewrite length_padded by done. by destruct w.
Qed.

Lemma put_length_attr_app proto w n rest :
  known_proto proto ->
  put_length_attr proto w n (zeros 4 ++ rest) = Ok (leading proto w n ++ rest).
Proof.
  intros Hp. unfold put_length_attr, leading. destruct w; [|done]. cbn [negb].
  change (zeros 4) with [0; 0; 0; 0]. destruct Hp as [-> | ->].
  - rewrite decide_True by done. by apply (put_app [0] [0] (0 :: 0 :: rest)).
  - rewrite decide_False, decide_True by done. by apply (put_app [] [0] (0 :: 0 :: 0 :: rest)).
Qed.

Lemma lxor_0_u8 x : Z.lxor 0 x = x.
Proof. apply Z.lxor_0_l. Qed.

(** The bytes the encoder produces. *)
Lemma marshal_multipart_exts proto w data exts :
  known_proto proto -> exts <> [] -> Forall (wf_ext proto) exts ->
  marshalMultipartMessageBody proto w data exts
    = Ok (leading proto w (length (padded proto w data))
            ++ padded proto w data ++ ext_section proto exts).
Proof.
  intros Hp Hne Hwf. destruct exts as [|e exts']; [done|].
  unfold marshalMultipartMessageBody. rewrite BodyDataLen_exts by done. cbn zeta.
  remember (e :: exts') as exts eqn:He. rewrite He at 2.
  set (pd := padded proto w data). set (n := length pd).
  assert (Hpd : exists k, pd = data ++ zeros k).
  { unfold pd, padded. destruct w; [by eexists|]. exists 0%nat. by rewrite app_nil_r. }
  assert (Hbuf : on_suffix 4 (fun t => Ok (copy t data) : icmp bytes)
      (zeros (8 + (n + exts_len proto exts)))
    = Ok (zeros 4 ++ pd ++ zeros 4 ++ zeros (exts_len proto exts))).
  { destruct Hpd as [k Hk]. unfold on_suffix.
    replace (8 + (n + exts_len proto exts))%nat
      with (4 + (length data + (k + (4 + exts_len proto exts))))%nat
      by (unfold n; rewrite Hk; len).
    rewrite (zeros_app 4), (slice_from_app (zeros 4) _ 4), !bind_Ok by len.
    rewrite take_app_exact by len. rewrite (zeros_app (length data)), copy_app by len.
    rewrite (zeros_app k), (zeros_app 4 (exts_len proto exts)), Hk. by rewrite <- app_assoc. }
  rewrite Hbuf, bind_Ok. clear Hbuf.
  change (zeros 4 ++ zeros (exts_len proto exts))
    with ([0] ++ [0; 0; 0] ++ zeros (exts_len proto exts)).
  rewrite app_assoc, (put_app (zeros 4 ++ pd)), bind_Ok by len.
  change (u8 (extensionVersion ≪ 4)) with 32.
  replace ((zeros 4 ++ pd) ++ [32] ++ [0; 0; 0] ++ zeros (exts_len proto exts))
    with ((zeros 4 ++ pd ++ [32; 0; 0; 0]) ++ zeros (exts_len proto exts) ++ [])
    by (rewrite <- !app_assoc, app_nil_r; done).
  rewrite marshal_exts_frame, bind_Ok, app_nil_r by (done || len).
  rewrite <- !app_assoc, (app_assoc (zeros 4)).
  rewrite (slice_from_app (zeros 4 ++ pd) _ (4 + n)), bind_Ok by len.
  set (s := checksum _).
  change ([32; 0; 0; 0] ++ objs_wire proto exts)
    with ([32; 0] ++ [0] ++ [0] ++ objs_wire proto exts).
  rewrite (app_assoc (zeros 4 ++ pd) [32; 0]). cbn [app].
  rewrite (xor_at_app _ 0), bind_Ok, lxor_0_u8 by len.
  change (u8 s :: 0 :: objs_wire proto exts) with ([u8 s] ++ 0 :: objs_wire proto exts).
  rewrite (app_assoc _ [u8 s]), (xor_at_app _ 0), bind_Ok, lxor_0_u8 by len.
  rewrite <- !app_assoc, put_length_attr_app by done. subst exts. done.
Qed.

Lemma marshal_multipart_nil proto w data :
  marshalMultipartMessageBody proto w data [] = Ok (zeros 4 ++ data).
Proof.
  unfold marshalMultipartMessageBody, multipartMessageBodyDataLen, on_suffix.
  cbn [exts_len foldr existsb]. rewrite bool_decide_eq_false_2 by lia. cbn [andb orb].
  rewrite (zeros_app 4 (length data + 0)), (slice_from_app (zeros 4) _ 4), !bind_Ok by len.
  rewrite take_app_exact by len. rewrite Nat.add_0_r.
  rewrite <- (app_nil_r (zeros (length data))), copy_app, app_nil_r by len. done.
Qed.

(** ** Decoding *)

Lemma length_ext_section proto exts :
  length (ext_section proto exts) = (4 + length (objs_wire proto exts))%nat.
Proof. unfold ext_section. cbn zeta. rewrite !length_app. done. Qed.

(** The header the encoder writes is one the decoder accepts. *)
Lemma ext_section_valid proto exts :
  Forall (wf_ext proto) exts ->
  (length (ext_section proto exts) <= max_checked_len)%nat ->
  validExtensionHeader (ext_section proto exts) = Ok true.
Proof.
  intros Hwf Hl. rewrite length_ext_section in Hl.
  pose proof (objs_wire_bytes proto exts Hwf) as Hb.
  assert (Hc : checksum (ext_section proto exts) = 0).
  { unfold ext_section. cbn zeta.
    apply (checksum_fill [32; 0] (objs_wire proto exts)); [by exists 1%nat| |done|simpl; lia].
    repeat constructor; unfold is_u8; lia. }
  unfold validExtensionHeader. rewrite (at_ok _ _ 32), bind_Ok by done.
  rewrite slice_ok, bind_Ok by (rewrite length_ext_section; lia).
  destruct (uint16_returns (E:=icmp_error) (drop 2 (take 4 (ext_section proto exts))))
    as (v & -> & _).
  - unfold ext_section, csum_bytes. cbn zeta. cbn.
    repeat constructor; apply u8_range.
  - rewrite length_drop, length_take, length_ext_section. lia.
  - rewrite bind_Ok, Hc. change (Z.land 32 240 ≫ 4) with extensionVersion. f_equal.
    case_decide as Hd; [|done]. destruct Hd as [Hd|Hd]; [done|]. case_decide; lia.
Qed.

Lemma word_of_pos proto : (0 < word_of proto)%nat.
Proof. unfold word_of. case_match; lia. Qed.

Lemma length_attr_leading proto n rest :
  known_proto proto -> Z.of_nat n mod Z.of_nat (word_of proto) = 0 ->
  (n <= 255 * word_of proto)%nat ->
  length_attr proto (leading proto true n ++ rest) = Ok n.
Proof.
  intros Hp Hm Hn. unfold length_attr, leading.
  destruct Hp as [-> | ->]; cbn [Z.eqb Pos.eqb] in *.
  - change (word_of 1) with 4%nat in *. change (Z.of_nat 4) with 4 in Hm.
    rewrite decide_True by done. cbn. rewrite u8_small by (unfold is_u8; zdiv).
    f_equal. zdiv.
  - change (word_of 58) with 8%nat in *. change (Z.of_nat 8) with 8 in Hm.
    rewrite decide_False, decide_True by done. cbn.
    rewrite u8_small by (unfold is_u8; zdiv). f_equal. zdiv.
Qed.

Lemma length_leading proto w n : length (leading proto w n) = 4%nat.
Proof. unfold leading. by repeat case_match. Qed.

Lemma length_attr_returns proto b :
  is_bytes b -> (4 <= length b)%nat -> exists n, length_attr proto b = Ok n.
Proof.
  intros Hb Hl. unfold length_attr. repeat case_decide; [| |eauto].
  - destruct (at_returns (E:=icmp_error) b 1) as (x & _ & ->); [lia|]. eauto.
  - destruct (at_returns (E:=icmp_error) b 0) as (x & _ & ->); [lia|]. eauto.
Qed.

(** Objects after an accepted header are read back. *)
Lemma parseExtensions_section proto typ pd exts l :
  Forall (wf_ext proto) exts ->
  extensions_offset typ (pd ++ ext_section proto exts) l = Ok (length pd) ->
  parseExtensions typ (pd ++ ext_section proto exts) l = Ok (exts, length pd).
Proof.
  intros Hwf Ho. unfold parseExtensions. rewrite Ho, bind_Ok.
  unfold ext_section. cbn zeta.
  set (s := csum_bytes _). assert (Hs : length s = 2%nat) by done.
  replace (pd ++ [32; 0] ++ s ++ objs_wire proto exts)
    with ((pd ++ [32; 0] ++ s) ++ objs_wire proto exts) by (by rewrite <- !app_assoc).
  rewrite slice_from_app, bind_Ok by len. by rewrite parse_objects_wire.
Qed.

Lemma section_offset proto typ pd exts :
  known_proto proto -> exts <> [] -> Forall (wf_ext proto) exts ->
  (length (ext_section proto exts) <= max_checked_len)%nat ->
  (if is_extended_echo_request typ then pd = [] else (128 <= length pd)%nat) ->
  extensions_offset typ (pd ++ ext_section proto exts) (length pd) = Ok (length pd).
Proof.
  intros Hp Hne Hwf Hl Hpd. pose proof (ext_section_valid _ _ Hwf Hl) as Hv.
  assert (H8 : (8 <= length (ext_section proto exts))%nat).
  { rewrite length_ext_section, exts_len_wire by done.
    destruct exts as [|e exts]; [done|]. pose proof (Forall_cons_1 _ _ _ Hwf) as [He _].
    pose proof (obj_wire_min _ _ He). rewrite obj_wire_length in * by done.
    cbn [exts_len foldr]. lia. }
  unfold extensions_offset. destruct (is_extended_echo_request typ).
  - subst pd. cbn [app length]. rewrite decide_False, Hv by lia. done.
  - rewrite (decide_False (P := (length pd < 128 \/ _)%nat)) by len.
    rewrite (decide_False (P := (_ < length pd + 8)%nat)) by len.
    rewrite (slice_from_app pd _ (length pd)) by done. by rewrite bind_Ok, Hv.
Qed.

(** Decoding what the encoder produced, given the offset it stored or implied. *)
Lemma parse_multipart_section proto typ lead pd exts l :
  length lead = 4%nat -> length_attr proto (lead ++ pd ++ ext_section proto exts) = Ok l ->
  parseExtensions typ (pd ++ ext_section proto exts) l = Ok (exts, length pd) ->
  parseMultipartMessageBody proto typ (lead ++ pd ++ ext_section proto exts)
    = Ok (pd, exts).
Proof.
  intros Hlead Hl Hp. unfold parseMultipartMessageBody. rewrite Hl, bind_Ok.
  rewrite decide_False by (rewrite !length_app, length_ext_section; lia).
  rewrite (slice_from_app lead _ 4), bind_Ok, Hp by done. cbn.
  case_decide as Hpos.
  - do 2 f_equal. unfold copy. rewrite length_zeros, take_app_length.
    rewrite drop_ge; [apply app_nil_r | len].
  - by destruct pd; [|simpl in Hpos; lia].
Qed.

(** The extended echo request has no datagram: the structure follows whatever leading
    octets the message has, and no length attribute is consulted. *)
Lemma parse_multipart_echo proto typ lead exts :
  known_proto proto -> is_extended_echo_request typ = true -> exts <> [] ->
  Forall (wf_ext proto) exts ->
  (length (ext_section proto exts) <= max_checked_len)%nat ->
  is_bytes lead -> length lead = 4%nat ->
  parseMultipartMessageBody proto typ (lead ++ ext_section proto exts) = Ok ([], exts).
Proof.
  intros Hp Htyp Hne Hwf Hl Hb Hlead.
  assert (Hla : exists l, length_attr proto (lead ++ ext_section proto exts) = Ok l).
  { unfold length_attr. destruct lead as [|? [|? lead]]; try done.
    destruct Hp as [-> | ->]; by eexists. }
  destruct Hla as [l Hla].
  apply (parse_multipart_section _ _ _ [] _ l); [done..|].
  apply (parseExtensions_section _ _ []); [done|].
  assert (Hind : forall l', extensions_offset typ ([] ++ ext_section proto exts) l
    = extensions_offset typ ([] ++ ext_section proto exts) l').
  { intros l'. unfold extensions_offset. by rewrite Htyp. }
  rewrite (Hind 0%nat). apply (section_offset _ _ []); try done. by rewrite Htyp.
Qed.

(** Encoding then decoding gives the padded datagram and the objects back. *)
Lemma multipart_exts_inverse proto typ (w : bool) data exts :
  known_proto proto -> exts <> [] -> Forall (wf_ext proto) exts ->
  (if w then is_extended_echo_request typ = false /\
             (multipartMessageOrigDatagramLen proto data <= 255 * word_of proto)%nat
   else is_extended_echo_request typ = true /\ data = []) ->
  (length (ext_section proto exts) <= max_checked_len)%nat ->
  exists b, marshalMultipartMessageBody proto w data exts = Ok b /\
    parseMultipartMessageBody proto typ b = Ok (padded proto w data, exts).
Proof.
  intros Hp Hne Hwf Hw Hl. rewrite marshal_multipart_exts by done.
  eexists; split; [reflexivity|]. pose proof (length_padded proto w data Hp) as Hpd.
  set (pd := padded proto w data) in *. destruct w; destruct Hw as [Htyp Hw].
  - destruct (OrigDatagramLen_spec proto data Hp) as (Hmin & _ & Hmod & _).
    apply (parse_multipart_section _ _ _ _ _ (length pd)).
    + apply length_leading.
    + apply length_attr_leading; rewrite ?Hpd; done.
    + apply parseExtensions_section; [done|]. apply section_offset; try done.
      rewrite Htyp, Hpd. done.
  - assert (Hnil : pd = []) by (by unfold pd; subst data).
    apply (parse_multipart_section _ _ _ _ _ 0).
    + apply length_leading.
    + destruct Hp as [-> | ->]; done.
    + apply parseExtensions_section; [done|]. rewrite Hnil.
      apply (section_offset _ _ []); try done. by rewrite Htyp.
Qed.

Lemma is_bytes_leading proto w n : is_bytes (leading proto w n).
Proof.
  unfold leading. repeat case_match; repeat constructor;
    (apply u8_range || (unfold is_u8; lia)).
Qed.

Lemma is_bytes_section proto exts :
  Forall (wf_ext proto) exts -> is_bytes (ext_section proto exts).
Proof.
  intros Hwf. unfold ext_section. cbn zeta. rewrite !is_bytes_app. split_and!.
  - repeat constructor; unfold is_u8; lia.
  - apply is_bytes_csum.
  - by apply objs_wire_bytes.
Qed.

Lemma is_bytes_padded proto w data : is_bytes data -> is_bytes (padded proto w data).
Proof.
  intros. unfold padded. destruct w; [|done]. apply is_bytes_app. eauto with bytes.
Qed.
#[export] Hint Resolve is_bytes_leading is_bytes_section is_bytes_padded : bytes.

(** [Len] answers the length of the encoding. *)
Lemma marshal_multipart_length proto (w : bool) data exts b :
  known_proto proto -> Forall (wf_ext proto) exts ->
  marshalMultipartMessageBody proto w data exts = Ok b ->
  length b = fst (multipartMessageBodyDataLen proto w data exts).
Proof.
  intros Hp Hwf. destruct exts as [|e exts].
  - rewrite marshal_multipart_nil. intros; inv_result.
    unfold multipartMessageBodyDataLen. cbn [exts_len foldr existsb].
    rewrite bool_decide_eq_false_2 by lia. cbn [andb orb fst]. len.
  - rewrite marshal_multipart_exts by done. intros; inv_result.
    rewrite BodyDataLen_exts by done. cbn [fst].
    rewrite !length_app, length_leading, length_ext_section, exts_len_wire by done. lia.
Qed.

(** Without objects, a datagram too short to hide an extension header comes back as
    it was sent. *)
Lemma multipart_nil_inverse proto typ w data :
  known_proto proto ->
  (if is_extended_echo_request typ then data = [] else (length data < 136)%nat) ->
  parseMultipartMessageBody proto typ (zeros 4 ++ data) = Ok (data, []) /\
  marshalMultipartMessageBody proto w data [] = Ok (zeros 4 ++ data).
Proof.
  intros Hp Hd. split; [|apply marshal_multipart_nil].
  unfold parseMultipartMessageBody.
  assert (Hla : length_attr proto (zeros 4 ++ data) = Ok 0%nat)
    by (destruct Hp as [-> | ->]; done).
  rewrite Hla, bind_Ok. case_decide as H4.
  { by destruct data; [|simpl in H4; lia]. }
  rewrite slice_from_app, bind_Ok by len. unfold parseExtensions, extensions_offset.
  destruct (is_extended_echo_request typ); [by subst data|].
  rewrite (decide_True (P := (0 < 128 \/ _)%nat)) by lia.
  rewrite decide_True by lia. cbn.
  case_decide; [|destruct data; [done | len]].
  do 2 f_equal. unfold copy. rewrite length_zeros, take_ge, drop_ge by len.
  apply app_nil_r.
Qed.

(** The decoder returns on every body of at least four bytes; the datagram it
    delivers is a prefix of what follows the leading octets. *)
Lemma parse_multipart_returns proto typ b :
  is_bytes b -> (4 <= length b)%nat ->
  exists data exts, parseMultipartMessageBody proto typ b = Ok (data, exts) /\
    data `prefix_of` drop 4 b.
Proof.
  intros Hb Hl. unfold parseMultipartMessageBody.
  destruct (length_attr_returns proto b Hb Hl) as [l ->]. rewrite bind_Ok.
  case_decide. { eexists [], []. split; [done|]. apply prefix_nil. }
  rewrite slice_from_ok, bind_Ok by done.
  destruct (parseExtensions_orderly typ (drop 4 b) l (is_bytes_drop 4 b Hb)) as [Ho Hr].
  assert (Hcopy : forall n, (n <= length (drop 4 b))%nat ->
    copy (zeros n) (drop 4 b) `prefix_of` drop 4 b).
  { intros n Hn. unfold copy. rewrite length_zeros, (drop_ge (zeros n)) by len.
    rewrite app_nil_r. exists (drop n (drop 4 b)). by rewrite take_drop. }
  assert (Hdone : forall exts n, (n <= length (drop 4 b))%nat ->
    exists data exts0,
      (if decide (0 < n)%nat then Ok (copy (zeros n) (drop 4 b), exts) else Ok ([], exts))
        = (Ok (data, exts0) : icmp (bytes * list Extension)) /\
      data `prefix_of` drop 4 b).
  { intros exts n Hn. case_decide; eexists _, _; (split; [reflexivity|]).
    - by apply Hcopy.
    - apply prefix_nil. }
  destruct (parseExtensions typ (drop 4 b) l) as [[exts n]|e| |] eqn:Hpe;
    [|clear Hr; cbn|done..].
  - apply Hdone. specialize (Hr _ _ eq_refl). lia.
  - apply Hdone. rewrite length_drop. lia.
Qed.

(** ** Properties *)

(** The original datagram of a multipart message is padded to at least 128 bytes and to
    the next multiple of the word the length attribute counts in (4 bytes in ICMPv4, 8 in
    ICMPv6), never cut, and by less than a word when it is longer than 128. *)
Lemma original_datagram_padding proto b :
  known_proto proto ->
  let n := multipartMessageOrigDatagramLen proto b in
  (128 <= n)%nat /\ (length b <= n)%nat /\
  Z.of_nat n mod Z.of_nat (word_of proto) = 0 /\
  (n < Nat.max 129 (length b + word_of proto))%nat.
Proof. apply OrigDatagramLen_spec. Qed.

Lemma original_datagram_padding_witness :
  multipartMessageOrigDatagramLen 58 (replicate 130 7) = 136%nat /\
  (130 <= multipartMessageOrigDatagramLen 58 (replicate 130 7%Z))%nat.
Proof.
  split; [reflexivity|].
  destruct (original_datagram_padding 58 (replicate 130 7)) as (_ & H & _); [by right|exact H].
Defined.

(** C30: encoding an original datagram with extension objects and decoding the result gives
    the padded datagram and the same objects, in order; the encoding has the announced
    length. It holds as long as the padded datagram has at most 255 words, which is what
    the length attribute can say; an extended echo request carries the objects alone. *)
Theorem multipart_round_trip proto typ (w : bool) data exts :
  known_proto proto -> exts <> [] -> Forall (wf_ext proto) exts ->
  (if w then is_extended_echo_request typ = false /\
             (multipartMessageOrigDatagramLen proto data <= 255 * word_of proto)%nat
   else is_extended_echo_request typ = true /\ data = []) ->
  (length (ext_section proto exts) <= max_checked_len)%nat ->
  exists b data', marshalMultipartMessageBody proto w data exts = Ok b /\
    length b = fst (multipartMessageBodyDataLen proto w data exts) /\
    parseMultipartMessageBody proto typ b = Ok (data', exts) /\
    data `prefix_of` data' /\ drop (length data) data' = zeros (length data' - length data).
Proof.
  intros Hp Hne Hwf Hw Hl.
  destruct (multipart_exts_inverse proto typ w data exts) as (b & Hm & Hparse); [done..|].
  exists b, (padded proto w data). split_and!; [done| |done| |].
  - by eapply marshal_multipart_length.
  - unfold padded. destruct w; [by eexists|done].
  - unfold padded. destruct w.
    + by rewrite drop_app_length, length_app, length_zeros, Nat.add_comm, Nat.add_sub.
    + by rewrite drop_all, Nat.sub_diag.
Qed.

(** A label stack of one label, and the unknown object of RFC 4884. *)
Definition example_exts : list Extension :=
  [ExtMPLSLabelStack (mkMPLSLabelStack 1 1 [mkMPLSLabel 16014 4 true 255]);
   ExtRawExtension (Some [0; 6; 9; 9; 1; 2])].

Lemma example_exts_wf : Forall (wf_ext 1) example_exts.
Proof.
  constructor; [|constructor; [|done]].
  - split_and!; [done|done| |cbn; lia]. repeat constructor; cbn; unfold is_u8; lia.
  - split_and!; [repeat constructor; unfold is_u8; lia|cbn; lia|].
    by exists 9, 9, [1; 2].
Qed.

Lemma multipart_round_trip_witness :
  exists b data', marshalMultipartMessageBody 1 true [69; 0; 0; 20] example_exts = Ok b /\
    parseMultipartMessageBody 1 (V4 ipv4.ICMPTypeTimeExceeded) b = Ok (data', example_exts) /\
    [69; 0; 0; 20] `prefix_of` data'.
Proof.
  destruct (multipart_round_trip 1 (V4 ipv4.ICMPTypeTimeExceeded) true [69; 0; 0; 20]
    example_exts) as (b & data' & Hm & _ & Hp & Hpre & _).
  - by left.
  - discriminate.
  - exact example_exts_wf.
  - split; [reflexivity|]. apply Nat.leb_le. reflexivity.
  - apply le_max_checked. by vm_compute.
  - exists b, data'. split; [exact Hm|]. split; [exact Hp|exact Hpre].
Defined.

(** The decoder of a multipart body returns on every body of at least four bytes,
    however inconsistent its length attribute is with its size, and the datagram it
    delivers is a prefix of the bytes after the leading octets: nothing is made up. *)
Lemma parse_multipart_total proto typ b :
  is_bytes b -> (4 <= length b)%nat ->
  exists data exts, parseMultipartMessageBody proto typ b = Ok (data, exts) /\
    data `prefix_of` drop 4 b.
Proof. apply parse_multipart_returns. Qed.

Lemma parse_multipart_total_witness :
  exists data exts, parseMultipartMessageBody 1 (V4 ipv4.ICMPTypeTimeExceeded)
      [0; 255; 0; 0; 1; 2; 3] = Ok (data, exts) /\ data `prefix_of` [1; 2; 3].
Proof.
  apply (parse_multipart_total 1 (V4 ipv4.ICMPTypeTimeExceeded) [0; 255; 0; 0; 1; 2; 3]).
  - repeat constructor; unfold is_u8; lia.
  - cbn. lia.
Defined.
