(* ===== verification/Bodies.v ===== *)
(** * Message bodies (icmp/messagebody.go, echo.go, timestamp.go, dstunreach.go,
    timeexceeded.go, paramprob.go, packettoobig.go)

    One record per body type, its [Len], its [Marshal] and its parser. The methods
    have pointer receivers, so a body is an option: [None] is the nil pointer, for
    which [Len] answers 0 and [Marshal] dereferences nil. *)

From S2P Require Import Prelude Bytes Checksum IcmpTypes Extension Multipart.
Local Open Scope Z_scope.

(** ** Data *)

Record RawBody := mkRawBody { raw_Data : bytes }.

Record Echo := mkEcho { echo_ID : Z; echo_Seq : Z; echo_Data : bytes }.

Record ExtendedEchoRequest := mkExtendedEchoRequest {
  xreq_ID : Z;
  xreq_Seq : Z;
  xreq_Local : bool;
  xreq_Extensions : list Extension;
}.

Record ExtendedEchoReply := mkExtendedEchoReply {
  xrep_ID : Z;
  xrep_Seq : Z;
  xrep_State : Z;
  xrep_Active : bool;
  xrep_IPv4 : bool;
  xrep_IPv6 : bool;
}.

Record Timestamp := mkTimestamp {
  ts_ID : Z;
  ts_Seq : Z;
  ts_Originate : Z;
  ts_Receive : Z;
  ts_Transmit : Z;
}.

Record DstUnreach := mkDstUnreach { du_Data : bytes; du_Extensions : list Extension }.

Record TimeExceeded := mkTimeExceeded { te_Data : bytes; te_Extensions : list Extension }.

Record ParamProb := mkParamProb {
  pp_Pointer : Z;
  pp_Data : bytes;
  pp_Extensions : list Extension;
}.

Record PacketTooBig := mkPacketTooBig { ptb_MTU : Z; ptb_Data : bytes }.

(** ** RawBody *)

Definition RawBody_Len (proto : Z) (p : option RawBody) : nat :=
  match p with None => 0 | Some p => length (raw_Data p) end.

Definition RawBody_Marshal (proto : Z) (p : option RawBody) : icmp bytes :=
  match p with None => Panic | Some p => Ok (raw_Data p) end.

Definition parseRawBody (proto : Z) (b : bytes) : icmp RawBody :=
  Ok (mkRawBody (copy (zeros (length b)) b)).

(** ** Echo *)

Definition Echo_Len (proto : Z) (p : option Echo) : nat :=
  match p with None => 0 | Some p => 4 + length (echo_Data p) end.

Definition Echo_Marshal (proto : Z) (p : option Echo) : icmp bytes :=
  match p with
  | None => Panic
  | Some p =>
      let b := zeros (4 + length (echo_Data p)) in
      b ← put b 0 (be16 (echo_ID p));
      b ← put b 2 (be16 (echo_Seq p));
      on_suffix 4 (fun t => Ok (copy t (echo_Data p))) b
  end.

Definition parseEcho (proto : Z) (typ : MsgType) (b : bytes) : icmp Echo :=
  if decide (length b < 4)%nat then Err errMessageTooShort else
  w ← slice_to b 2; id ← uint16 w;
  w ← slice b 2 4; seq ← uint16 w;
  if decide (4 < length b)%nat then
    t ← slice_from b 4;
    Ok (mkEcho id seq (copy (zeros (length b - 4)) t))
  else Ok (mkEcho id seq []).

(** ** Extended echo *)

Definition ExtendedEchoRequest_Len (proto : Z) (p : option ExtendedEchoRequest) : nat :=
  match p with
  | None => 0
  | Some p => fst (multipartMessageBodyDataLen proto false [] (xreq_Extensions p))
  end.

Definition extended_echo_type (proto : Z) : icmp MsgType :=
  if decide (proto = 1) then Ok (V4 ipv4.ICMPTypeExtendedEchoRequest)
  else if decide (proto = 58) then Ok (V6 ipv6.ICMPTypeExtendedEchoRequest)
  else Err errInvalidProtocol.

Definition ExtendedEchoRequest_Marshal (proto : Z) (p : option ExtendedEchoRequest)
    : icmp bytes :=
  typ ← extended_echo_type proto;
  match p with
  | None => Panic
  | Some p =>
      if negb (validExtensions typ (xreq_Extensions p)) then Err errInvalidExtension else
      b ← marshalMultipartMessageBody proto false [] (xreq_Extensions p);
      b ← put b 0 (be16 (xreq_ID p));
      b ← put b 2 [u8 (xreq_Seq p)];
      if xreq_Local p then or_at b 3 1 else Ok b
  end.

Definition parseExtendedEchoRequest (proto : Z) (typ : MsgType) (b : bytes)
    : icmp ExtendedEchoRequest :=
  if decide (length b < 4)%nat then Err errMessageTooShort else
  w ← slice_to b 2; id ← uint16 w;
  seq ← at_ b 2;
  b3 ← at_ b 3;
  '(_, exts) ← parseMultipartMessageBody proto typ b;
  Ok (mkExtendedEchoRequest id seq (negb (Z.land b3 1 =? 0)) exts).

Definition ExtendedEchoReply_Len (proto : Z) (p : option ExtendedEchoReply) : nat :=
  match p with None => 0 | Some _ => 4 end.

Definition ExtendedEchoReply_Marshal (proto : Z) (p : option ExtendedEchoReply)
    : icmp bytes :=
  match p with
  | None => Panic
  | Some p =>
      b ← put (zeros 4) 0 (be16 (xrep_ID p));
      b ← put b 2 [u8 (xrep_Seq p)];
      b ← put b 3 [Z.land (u8 (Z.shiftl (xrep_State p) 5)) 224];
      b ← (if xrep_Active p then or_at b 3 4 else Ok b);
      b ← (if xrep_IPv4 p then or_at b 3 2 else Ok b);
      if xrep_IPv6 p then or_at b 3 1 else Ok b
  end.

Definition parseExtendedEchoReply (proto : Z) (typ : MsgType) (b : bytes)
    : icmp ExtendedEchoReply :=
  if decide (length b < 4)%nat then Err errMessageTooShort else
  w ← slice_to b 2; id ← uint16 w;
  seq ← at_ b 2;
  b3 ← at_ b 3;
  Ok (mkExtendedEchoReply id seq (Z.shiftr b3 5) (negb (Z.land b3 4 =? 0))
        (negb (Z.land b3 2 =? 0)) (negb (Z.land b3 1 =? 0))).

(** ** Timestamp *)

Definition Timestamp_Len (proto : Z) (p : option Timestamp) : nat :=
  match p with None => 0 | Some _ => 4 + 4 * 3 end.

Definition Timestamp_Marshal (proto : Z) (p : option Timestamp) : icmp bytes :=
  match p with
  | None => Panic
  | Some p =>
      let b := zeros (4 + 4 * 3) in
      b ← put b 0 (be16 (ts_ID p));
      b ← put b 2 (be16 (ts_Seq p));
      b ← put b 4 (be32 (ts_Originate p));
      b ← put b 8 (be32 (ts_Receive p));
      put b 12 (be32 (ts_Transmit p))
  end.

Definition parseTimestamp (proto : Z) (typ : MsgType) (b : bytes) : icmp Timestamp :=
  if decide (length b < 4 + 4 * 3)%nat then Err errMessageTooShort else
  w ← slice_to b 2; id ← uint16 w;
  w ← slice b 2 4; seq ← uint16 w;
  w ← slice b 4 8; o ← uint32 w;
  w ← slice b 8 12; r ← uint32 w;
  w ← slice b 12 16; t ← uint32 w;
  Ok (mkTimestamp id seq o r t).

(** ** Destination unreachable and time exceeded *)

Definition DstUnreach_Len (proto : Z) (p : option DstUnreach) : nat :=
  match p with
  | None => 0
  | Some p => fst (multipartMessageBodyDataLen proto true (du_Data p) (du_Extensions p))
  end.

(** The switch on the protocol in [Marshal]. *)
Definition du_switch (proto : Z) : icmp MsgType :=
  if decide (proto = 1) then Ok (V4 ipv4.ICMPTypeDestinationUnreachable)
  else if decide (proto = 58) then Ok (V6 ipv6.ICMPTypeDestinationUnreachable)
  else Err errInvalidProtocol.

Definition DstUnreach_Marshal (proto : Z) (p : option DstUnreach) : icmp bytes :=
  typ ← du_switch proto;
  match p with
  | None => Panic
  | Some p =>
      if negb (validExtensions typ (du_Extensions p)) then Err errInvalidExtension else
      marshalMultipartMessageBody proto true (du_Data p) (du_Extensions p)
  end.

Definition parseDstUnreach (proto : Z) (typ : MsgType) (b : bytes) : icmp DstUnreach :=
  if decide (length b < 4)%nat then Err errMessageTooShort else
  '(data, exts) ← parseMultipartMessageBody proto typ b;
  Ok (mkDstUnreach data exts).

Definition TimeExceeded_Len (proto : Z) (p : option TimeExceeded) : nat :=
  match p with
  | None => 0
  | Some p => fst (multipartMessageBodyDataLen proto true (te_Data p) (te_Extensions p))
  end.

(** The switch on the protocol in [Marshal]. *)
Definition te_switch (proto : Z) : icmp MsgType :=
  if decide (proto = 1) then Ok (V4 ipv4.ICMPTypeTimeExceeded)
  else if decide (proto = 58) then Ok (V6 ipv6.ICMPTypeTimeExceeded)
  else Err errInvalidProtocol.

Definition TimeExceeded_Marshal (proto : Z) (p : option TimeExceeded) : icmp bytes :=
  typ ← te_switch proto;
  match p with
  | None => Panic
  | Some p =>
      if negb (validExtensions typ (te_Extensions p)) then Err errInvalidExtension else
      marshalMultipartMessageBody proto true (te_Data p) (te_Extensions p)
  end.

Definition parseTimeExceeded (proto : Z) (typ : MsgType) (b : bytes)
    : icmp TimeExceeded :=
  if decide (length b < 4)%nat then Err errMessageTooShort else
  '(data, exts) ← parseMultipartMessageBody proto typ b;
  Ok (mkTimeExceeded data exts).

(** ** Parameter problem *)

Definition ParamProb_Len (proto : Z) (p : option ParamProb) : nat :=
  match p with
  | None => 0
  | Some p => fst (multipartMessageBodyDataLen proto true (pp_Data p) (pp_Extensions p))
  end.

Definition ParamProb_Marshal (proto : Z) (p : option ParamProb) : icmp bytes :=
  if decide (proto = 1) then
    match p with
    | None => Panic
    | Some p =>
        if negb (validExtensions (V4 ipv4.ICMPTypeParameterProblem) (pp_Extensions p))
        then Err errInvalidExtension else
        b ← marshalMultipartMessageBody proto true (pp_Data p) (pp_Extensions p);
        put b 0 [u8 (pp_Pointer p)]
    end
  else if decide (proto = 58) then
    match p with
    | None => Panic
    | Some p =>
        let b := zeros (ParamProb_Len proto (Some p)) in
        b ← put b 0 (be32 (pp_Pointer p));
        on_suffix 4 (fun t => Ok (copy t (pp_Data p))) b
    end
  else Err errInvalidProtocol.

Definition parseParamProb (proto : Z) (typ : MsgType) (b : bytes) : icmp ParamProb :=
  if decide (length b < 4)%nat then Err errMessageTooShort else
  if decide (proto = 58) then
    w ← slice_to b 4; ptr ← uint32 w;
    t ← slice_from b 4;
    Ok (mkParamProb ptr (copy (zeros (length b - 4)) t) [])
  else
    ptr ← at_ b 0;
    '(data, exts) ← parseMultipartMessageBody proto typ b;
    Ok (mkParamProb ptr data exts).

(** ** Packet too big *)

Definition PacketTooBig_Len (proto : Z) (p : option PacketTooBig) : nat :=
  match p with None => 0 | Some p => 4 + length (ptb_Data p) end.

Definition PacketTooBig_Marshal (proto : Z) (p : option PacketTooBig) : icmp bytes :=
  match p with
  | None => Panic
  | Some p =>
      let b := zeros (4 + length (ptb_Data p)) in
      b ← put b 0 (be32 (ptb_MTU p));
      on_suffix 4 (fun t => Ok (copy t (ptb_Data p))) b
  end.

Definition parsePacketTooBig (proto : Z) (typ : MsgType) (b : bytes)
    : icmp PacketTooBig :=
  if decide (length b < 4)%nat then Err errMessageTooShort else
  w ← slice_to b 4; mtu ← uint32 w;
  if decide (4 < length b)%nat then
    t ← slice_from b 4;
    Ok (mkPacketTooBig mtu (copy (zeros (length b - 4)) t))
  else Ok (mkPacketTooBig mtu []).

(** ** The interface [MessageBody]: dynamic dispatch over the body types *)
Inductive MessageBody : Type :=
  | BodyRaw (p : option RawBody)
  | BodyEcho (p : option Echo)
  | BodyExtendedEchoRequest (p : option ExtendedEchoRequest)
  | BodyExtendedEchoReply (p : option ExtendedEchoReply)
  | BodyTimestamp (p : option Timestamp)
  | BodyDstUnreach (p : option DstUnreach)
  | BodyTimeExceeded (p : option TimeExceeded)
  | BodyParamProb (p : option ParamProb)
  | BodyPacketTooBig (p : option PacketTooBig).

Definition Body_Len (proto : Z) (b : MessageBody) : nat :=
  match b with
  | BodyRaw p => RawBody_Len proto p
  | BodyEcho p => Echo_Len proto p
  | BodyExtendedEchoRequest p => ExtendedEchoRequest_Len proto p
  | BodyExtendedEchoReply p => ExtendedEchoReply_Len proto p
  | BodyTimestamp p => Timestamp_Len proto p
  | BodyDstUnreach p => DstUnreach_Len proto p
  | BodyTimeExceeded p => TimeExceeded_Len proto p
  | BodyParamProb p => ParamProb_Len proto p
  | BodyPacketTooBig p => PacketTooBig_Len proto p
  end.

Definition Body_Marshal (proto : Z) (b : MessageBody) : icmp bytes :=
  match b with
  | BodyRaw p => RawBody_Marshal proto p
  | BodyEcho p => Echo_Marshal proto p
  | BodyExtendedEchoRequest p => ExtendedEchoRequest_Marshal proto p
  | BodyExtendedEchoReply p => ExtendedEchoReply_Marshal proto p
  | BodyTimestamp p => Timestamp_Marshal proto p
  | BodyDstUnreach p => DstUnreach_Marshal proto p
  | BodyTimeExceeded p => TimeExceeded_Marshal proto p
  | BodyParamProb p => ParamProb_Marshal proto p
  | BodyPacketTooBig p => PacketTooBig_Marshal proto p
  end.

(** ** Round trips of the fixed-layout bodies *)

Lemma on_suffix_copy (a old data : bytes) n :
  n = length a -> length old = length data ->
  on_suffix n (fun t => Ok (copy t data) : icmp bytes) (a ++ old) = Ok (a ++ data).
Proof.
  intros Hn Hl. unfold on_suffix. rewrite (slice_from_app a old n), !bind_Ok by done.
  rewrite take_app_exact by done. rewrite <- (app_nil_r old), copy_app, app_nil_r by done.
  done.
Qed.

(** What a body promises to the message that carries it: it encodes to [Len] bytes
    from which its parser rebuilds it (up to the padding the encoding adds). *)
Definition round_trips {T} (len : nat) (m : icmp bytes) (parse : bytes -> icmp T) (x : T)
    : Prop :=
  exists b, m = Ok b /\ is_bytes b /\ length b = len /\ parse b = Ok x.

Definition wf_echo (p : Echo) : Prop :=
  is_u16 (echo_ID p) /\ is_u16 (echo_Seq p) /\ is_bytes (echo_Data p).

Definition echo_wire (p : Echo) : bytes :=
  be16 (echo_ID p) ++ be16 (echo_Seq p) ++ echo_Data p.

Lemma Echo_Marshal_wire proto p : Echo_Marshal proto (Some p) = Ok (echo_wire p).
Proof.
  unfold Echo_Marshal. rewrite (zeros_app 4).
  change (zeros 4) with (zeros 2 ++ zeros 2). rewrite <- app_assoc.
  rewrite put_head, bind_Ok by done. rewrite (put_app (be16 _)), bind_Ok by done.
  rewrite app_assoc, on_suffix_copy by len. by rewrite <- app_assoc.
Qed.

Lemma parseEcho_wire proto typ p : wf_echo p -> parseEcho proto typ (echo_wire p) = Ok p.
Proof.
  intros (Hid & Hseq & _). unfold parseEcho, echo_wire.
  rewrite decide_False by len. rewrite slice_to_app, bind_Ok by done.
  rewrite uint16_be16_small, bind_Ok by done.
  rewrite (slice_mid (be16 _)), bind_Ok by done. rewrite uint16_be16_small, bind_Ok by done.
  case_decide as Hd.
  - rewrite app_assoc, (slice_from_app _ _ 4), bind_Ok by len.
    rewrite copy_all by len. by destruct p.
  - destruct p as [? ? [|? ?]]; [done|]. simpl in Hd. lia.
Qed.

Lemma echo_round_trips proto typ p :
  wf_echo p ->
  round_trips (Echo_Len proto (Some p)) (Echo_Marshal proto (Some p))
    (parseEcho proto typ) p.
Proof.
  intros Hwf. exists (echo_wire p). split_and!.
  - apply Echo_Marshal_wire.
  - unfold echo_wire. rewrite !is_bytes_app. destruct Hwf as (_ & _ & Hd).
    split_and!; eauto with bytes.
  - unfold echo_wire. len.
  - by apply parseEcho_wire.
Qed.

(** The other direction: re-encoding a received echo body gives the received bytes,
    so a reply can be built from the parsed request. *)
Lemma parseEcho_inv proto typ b p :
  is_bytes b -> parseEcho proto typ b = Ok p -> echo_wire p = b.
Proof.
  intros Hb. unfold parseEcho. case_decide; [done|].
  destruct b as [|b0 [|b1 [|b2 [|b3 b]]]]; simpl in *; try lia.
  do 4 (apply Forall_cons_1 in Hb as [? Hb]). intros Hp.
  assert (Hd : exists d, d = b /\ p = mkEcho (Z.lor b1 (b0 ≪ 8)) (Z.lor b3 (b2 ≪ 8)) d).
  { cbn in Hp. case_decide.
    - injection Hp as <-. eexists; split; [|done]. apply copy_all. simpl. lia.
    - injection Hp as <-. exists []. by destruct b; [|simpl in *; lia]. }
  destruct Hd as (d & -> & ->). unfold echo_wire. cbn [echo_ID echo_Seq echo_Data].
  by rewrite !be16_uint16.
Qed.

Definition wf_timestamp (p : Timestamp) : Prop :=
  is_u16 (ts_ID p) /\ is_u16 (ts_Seq p) /\ is_u32 (ts_Originate p) /\
  is_u32 (ts_Receive p) /\ is_u32 (ts_Transmit p).

Definition timestamp_wire (p : Timestamp) : bytes :=
  be16 (ts_ID p) ++ be16 (ts_Seq p) ++ be32 (ts_Originate p)
    ++ be32 (ts_Receive p) ++ be32 (ts_Transmit p).

Lemma timestamp_round_trips proto typ p :
  wf_timestamp p ->
  round_trips (Timestamp_Len proto (Some p)) (Timestamp_Marshal proto (Some p))
    (parseTimestamp proto typ) p.
Proof.
  intros (Hid & Hseq & Ho & Hr & Ht). exists (timestamp_wire p). split_and!.
  - unfold Timestamp_Marshal, timestamp_wire. reflexivity.
  - unfold timestamp_wire. rewrite !is_bytes_app. eauto with bytes.
  - done.
  - unfold parseTimestamp, timestamp_wire. rewrite decide_False by len.
    rewrite slice_to_app, bind_Ok by done. rewrite uint16_be16_small, bind_Ok by done.
    rewrite (slice_mid (be16 _) _ _ 2 4), bind_Ok by done.
    rewrite uint16_be16_small, bind_Ok by done. rewrite app_assoc.
    rewrite (slice_mid (_ ++ _) _ _ 4 8), bind_Ok by done.
    rewrite uint32_be32_small, bind_Ok by done. rewrite app_assoc.
    rewrite (slice_mid (_ ++ _) _ _ 8 12), bind_Ok by done.
    rewrite uint32_be32_small, bind_Ok by done.
    rewrite app_assoc, <- (app_nil_r (be32 (ts_Transmit p))).
    rewrite (slice_mid (_ ++ _) _ _ 12 16), bind_Ok by done.
    rewrite uint32_be32_small, bind_Ok by done. by destruct p.
Qed.

Definition wf_ptb (p : PacketTooBig) : Prop := is_u32 (ptb_MTU p) /\ is_bytes (ptb_Data p).

Lemma ptb_round_trips proto typ p :
  wf_ptb p ->
  round_trips (PacketTooBig_Len proto (Some p)) (PacketTooBig_Marshal proto (Some p))
    (parsePacketTooBig proto typ) p.
Proof.
  intros (Hm & Hd). exists (be32 (ptb_MTU p) ++ ptb_Data p). split_and!.
  - unfold PacketTooBig_Marshal. rewrite (zeros_app 4).
    rewrite put_head, bind_Ok by done. by rewrite on_suffix_copy by len.
  - rewrite is_bytes_app. eauto with bytes.
  - len.
  - unfold parsePacketTooBig. rewrite decide_False by len.
    rewrite slice_to_app, bind_Ok by done. rewrite uint32_be32_small, bind_Ok by done.
    case_decide as Hl.
    + rewrite slice_from_app, bind_Ok, copy_all by len. by destruct p.
    + destruct p as [? [|? ?]]; [done|]. simpl in Hl. lia.
Qed.

Lemma raw_round_trips proto p :
  is_bytes (raw_Data p) ->
  round_trips (RawBody_Len proto (Some p)) (RawBody_Marshal proto (Some p))
    (parseRawBody proto) p.
Proof.
  intros Hb. exists (raw_Data p). split_and!; try done.
  unfold parseRawBody. rewrite copy_all by done. by destruct p.
Qed.

Definition wf_xrep (p : ExtendedEchoReply) : Prop :=
  is_u16 (xrep_ID p) /\ is_u8 (xrep_Seq p) /\ 0 <= xrep_State p < 8.

Definition xrep_flags (p : ExtendedEchoReply) : Z :=
  32 * xrep_State p + (if xrep_Active p then 4 else 0) + (if xrep_IPv4 p then 2 else 0)
    + (if xrep_IPv6 p then 1 else 0).

Lemma xrep_round_trips proto typ p :
  wf_xrep p ->
  round_trips (ExtendedEchoReply_Len proto (Some p))
    (ExtendedEchoReply_Marshal proto (Some p)) (parseExtendedEchoReply proto typ) p.
Proof.
  intros (Hid & Hseq & Hst). exists (be16 (xrep_ID p) ++ [xrep_Seq p; xrep_flags p]).
  assert (Hc : xrep_State p = 0 \/ xrep_State p = 1 \/ xrep_State p = 2 \/
      xrep_State p = 3 \/ xrep_State p = 4 \/ xrep_State p = 5 \/ xrep_State p = 6 \/
      xrep_State p = 7) by lia.
  split_and!.
  - cbn. rewrite (u8_small (xrep_Seq p)) by done. unfold xrep_flags.
    destruct p as [id seq st a v4 v6]; cbn [xrep_ID xrep_Seq xrep_State xrep_Active
      xrep_IPv4 xrep_IPv6] in *.
    destruct_or! Hc; subst st; by destruct a, v4, v6.
  - rewrite is_bytes_app. split; [eauto with bytes|]. constructor; [done|].
    constructor; [|done]. unfold xrep_flags, is_u8. repeat case_match; lia.
  - done.
  - unfold parseExtendedEchoReply. rewrite decide_False by len.
    rewrite slice_to_app, bind_Ok by done. rewrite uint16_be16_small, bind_Ok by done.
    cbn. unfold xrep_flags. destruct p as [id seq st a v4 v6];
      cbn [xrep_ID xrep_Seq xrep_State xrep_Active xrep_IPv4 xrep_IPv6] in *.
    destruct_or! Hc; subst st; by destruct a, v4, v6.
Qed.

(** ** Round trips of the multipart bodies *)

(** What a datagram and its objects must satisfy to survive the trip: objects the
    type may carry, a padded length the length attribute can express, a structure
    the checksum covers; and without objects, a datagram that cannot be mistaken for
    one followed by a structure. *)
Definition wf_multipart (proto : Z) (typ : MsgType) (data : bytes) (exts : list Extension)
    : Prop :=
  validExtensions typ exts = true /\ Forall (wf_ext proto) exts /\ is_bytes data /\
  match exts with
  | [] => (length data < 136)%nat
  | _ => (multipartMessageOrigDatagramLen proto data <= 255 * word_of proto)%nat /\
         (length (ext_section proto exts) <= max_checked_len)%nat
  end.

(** The datagram as the receiver sees it. *)
Definition sent_data (proto : Z) (data : bytes) (exts : list Extension) : bytes :=
  match exts with [] => data | _ => padded proto true data end.

(** The leading octets of a datagram-carrying body, and its round trip. *)
Lemma multipart_round_trips proto typ data exts :
  known_proto proto -> is_extended_echo_request typ = false ->
  wf_multipart proto typ data exts ->
  round_trips (fst (multipartMessageBodyDataLen proto true data exts))
    (marshalMultipartMessageBody proto true data exts)
    (parseMultipartMessageBody proto typ) (sent_data proto data exts, exts).
Proof.
  intros Hp Htyp (_ & Hwf & Hb & Hl). destruct exts as [|e exts].
  - destruct (multipart_nil_inverse proto typ true data Hp) as [Hparse Hm];
      [by rewrite Htyp|].
    exists (zeros 4 ++ data). split_and!; [done| |by eapply marshal_multipart_length|done].
    apply is_bytes_app. eauto with bytes.
  - destruct Hl as [Hl Hs].
    destruct (multipart_exts_inverse proto typ true data (e :: exts) Hp)
      as (b & Hm & Hparse); [done..|]. exists b.
    split_and!; [done| |by eapply marshal_multipart_length|done].
    rewrite marshal_multipart_exts in Hm by done. apply Ok_inj in Hm as <-.
    apply is_bytes_app; split; [|apply is_bytes_app; split]; eauto with bytes.
Qed.

(** A body whose parser only repackages the multipart result. *)
Lemma round_trips_multipart {T} (len : nat) (m : icmp bytes) proto typ (y : bytes * list Extension)
    (f : bytes * list Extension -> T) (parse : bytes -> icmp T) :
  (4 <= len)%nat ->
  (forall b, (4 <= length b)%nat ->
     parse b = y ← parseMultipartMessageBody proto typ b; Ok (f y)) ->
  round_trips len m (parseMultipartMessageBody proto typ) y ->
  round_trips len m parse (f y).
Proof.
  intros H4 Hparse (b & Hm & Hb & Hl & Hp). exists b. split_and!; try done.
  rewrite Hparse by lia. by rewrite Hp.
Qed.

Lemma BodyDataLen_min proto w data exts :
  (4 <= fst (multipartMessageBodyDataLen proto w data exts))%nat.
Proof. unfold multipartMessageBodyDataLen. simpl. case_match; lia. Qed.

(** The type of a destination unreachable or time exceeded message of [proto]. *)
Definition du_type (proto : Z) : MsgType :=
  if proto =? 1 then V4 ipv4.ICMPTypeDestinationUnreachable
  else V6 ipv6.ICMPTypeDestinationUnreachable.
Definition te_type (proto : Z) : MsgType :=
  if proto =? 1 then V4 ipv4.ICMPTypeTimeExceeded else V6 ipv6.ICMPTypeTimeExceeded.

Lemma du_switch_known proto : known_proto proto -> du_switch proto = Ok (du_type proto).
Proof. by intros [-> | ->]. Qed.

Lemma du_round_trips proto p :
  known_proto proto -> wf_multipart proto (du_type proto) (du_Data p) (du_Extensions p) ->
  round_trips (DstUnreach_Len proto (Some p)) (DstUnreach_Marshal proto (Some p))
    (parseDstUnreach proto (du_type proto))
    (mkDstUnreach (sent_data proto (du_Data p) (du_Extensions p)) (du_Extensions p)).
Proof.
  intros Hp Hwf. pose proof Hwf as (Hv & _).
  replace (DstUnreach_Marshal proto (Some p))
    with (marshalMultipartMessageBody proto true (du_Data p) (du_Extensions p))
    by (unfold DstUnreach_Marshal; rewrite (du_switch_known _ Hp), bind_Ok, Hv; done).
  apply (round_trips_multipart _ _ proto (du_type proto) (sent_data _ _ _, _)
           (fun y => mkDstUnreach (fst y) (snd y))).
  - apply BodyDataLen_min.
  - intros b Hb. unfold parseDstUnreach. rewrite decide_False by lia.
    by destruct (parseMultipartMessageBody _ _ b) as [[? ?]| | |].
  - apply multipart_round_trips; try done. by destruct Hp as [-> | ->].
Qed.

Lemma te_switch_known proto : known_proto proto -> te_switch proto = Ok (te_type proto).
Proof. by intros [-> | ->]. Qed.

Lemma te_round_trips proto p :
  known_proto proto -> wf_multipart proto (te_type proto) (te_Data p) (te_Extensions p) ->
  round_trips (TimeExceeded_Len proto (Some p)) (TimeExceeded_Marshal proto (Some p))
    (parseTimeExceeded proto (te_type proto))
    (mkTimeExceeded (sent_data proto (te_Data p) (te_Extensions p)) (te_Extensions p)).
Proof.
  intros Hp Hwf. pose proof Hwf as (Hv & _).
  replace (TimeExceeded_Marshal proto (Some p))
    with (marshalMultipartMessageBody proto true (te_Data p) (te_Extensions p))
    by (unfold TimeExceeded_Marshal; rewrite (te_switch_known _ Hp), bind_Ok, Hv; done).
  apply (round_trips_multipart _ _ proto (te_type proto) (sent_data _ _ _, _)
           (fun y => mkTimeExceeded (fst y) (snd y))).
  - apply BodyDataLen_min.
  - intros b Hb. unfold parseTimeExceeded. rewrite decide_False by lia.
    by destruct (parseMultipartMessageBody _ _ b) as [[? ?]| | |].
  - apply multipart_round_trips; try done. by destruct Hp as [-> | ->].
Qed.

(** The parameter problem of ICMPv4 stores its pointer in the first leading octet. *)
Lemma pp4_round_trips p :
  is_u8 (pp_Pointer p) ->
  wf_multipart 1 (V4 ipv4.ICMPTypeParameterProblem) (pp_Data p) (pp_Extensions p) ->
  round_trips (ParamProb_Len 1 (Some p)) (ParamProb_Marshal 1 (Some p))
    (parseParamProb 1 (V4 ipv4.ICMPTypeParameterProblem))
    (mkParamProb (pp_Pointer p) (sent_data 1 (pp_Data p) (pp_Extensions p))
       (pp_Extensions p)).
Proof.
  intros Hptr Hwf. pose proof Hwf as (Hv & _).
  destruct (multipart_round_trips 1 (V4 ipv4.ICMPTypeParameterProblem) (pp_Data p)
    (pp_Extensions p)) as (b & Hm & Hb & Hl & Hp); [by left|done|done|].
  pose proof (BodyDataLen_min 1 true (pp_Data p) (pp_Extensions p)) as Hmin.
  destruct b as [|b0 b]; [simpl in *; lia|]. apply Forall_cons_1 in Hb as [_ Hb].
  exists (pp_Pointer p :: b). split_and!.
  - unfold ParamProb_Marshal. rewrite decide_True by done. rewrite Hv. cbn [negb].
    rewrite Hm, bind_Ok, u8_small by done. by apply (put_app [] [b0] b).
  - by constructor.
  - done.
  - unfold parseParamProb. rewrite decide_False by (simpl in *; lia).
    rewrite decide_False by done. cbn [at_ lookup list_lookup]. rewrite bind_Ok.
    assert (Hind : parseMultipartMessageBody 1 (V4 ipv4.ICMPTypeParameterProblem)
        (pp_Pointer p :: b)
      = parseMultipartMessageBody 1 (V4 ipv4.ICMPTypeParameterProblem) (b0 :: b)) by done.
    by rewrite Hind, Hp.
Qed.

(** The parameter problem of ICMPv6 has a 32-bit pointer and no extensions. *)
Lemma pp6_round_trips typ p :
  is_u32 (pp_Pointer p) -> is_bytes (pp_Data p) -> pp_Extensions p = [] ->
  round_trips (ParamProb_Len 58 (Some p)) (ParamProb_Marshal 58 (Some p))
    (parseParamProb 58 typ) p.
Proof.
  intros Hptr Hd He. exists (be32 (pp_Pointer p) ++ pp_Data p).
  assert (Hlen : ParamProb_Len 58 (Some p) = (4 + length (pp_Data p))%nat).
  { unfold ParamProb_Len. rewrite He. unfold multipartMessageBodyDataLen.
    cbn [exts_len foldr existsb]. rewrite bool_decide_eq_false_2 by lia.
    cbn [andb orb fst]. lia. }
  split_and!.
  - unfold ParamProb_Marshal. rewrite decide_False, decide_True by done.
    rewrite Hlen, (zeros_app 4), put_head, bind_Ok by done. by rewrite on_suffix_copy by len.
  - apply is_bytes_app. eauto with bytes.
  - rewrite Hlen. len.
  - unfold parseParamProb. rewrite decide_False, decide_True by (done || len).
    rewrite slice_to_app, bind_Ok by done. rewrite uint32_be32_small, bind_Ok by done.
    rewrite slice_from_app, bind_Ok, copy_all by len. destruct p; simpl in *. by subst.
Qed.

Definition wf_xreq (proto : Z) (typ : MsgType) (p : ExtendedEchoRequest) : Prop :=
  is_u16 (xreq_ID p) /\ is_u8 (xreq_Seq p) /\
  validExtensions typ (xreq_Extensions p) = true /\
  Forall (wf_ext proto) (xreq_Extensions p) /\
  (length (ext_section proto (xreq_Extensions p)) <= max_checked_len)%nat.

Lemma extended_echo_type_known proto :
  known_proto proto ->
  exists typ, extended_echo_type proto = Ok typ /\ is_extended_echo_request typ = true.
Proof. intros [-> | ->]; by eexists. Qed.

Definition xreq_wire (proto : Z) (p : ExtendedEchoRequest) : bytes :=
  be16 (xreq_ID p) ++ [xreq_Seq p; if xreq_Local p then 1 else 0]
    ++ match xreq_Extensions p with [] => [] | exts => ext_section proto exts end.

Lemma xreq_Marshal_wire proto typ p :
  known_proto proto -> extended_echo_type proto = Ok typ -> wf_xreq proto typ p ->
  ExtendedEchoRequest_Marshal proto (Some p) = Ok (xreq_wire proto p).
Proof.
  intros Hp Htyp (Hid & Hseq & Hv & Hwf & Hl). unfold ExtendedEchoRequest_Marshal.
  rewrite Htyp, bind_Ok, Hv. cbn [negb].
  assert (Hm : marshalMultipartMessageBody proto false [] (xreq_Extensions p)
    = Ok (zeros 2 ++ zeros 1 ++ zeros 1 ++
          match xreq_Extensions p with [] => [] | exts => ext_section proto exts end)).
  { destruct (xreq_Extensions p) as [|e exts] eqn:He.
    - apply marshal_multipart_nil.
    - rewrite <- He. rewrite marshal_multipart_exts by (rewrite ?He; done). by rewrite He. }
  rewrite Hm, bind_Ok, put_head, bind_Ok by done.
  rewrite (put_app (be16 _) (zeros 1)), bind_Ok by done. rewrite u8_small by done.
  unfold xreq_wire. destruct (xreq_Local p); [|done].
  rewrite app_assoc. change (zeros 1 ++ ?r) with (0 :: r). rewrite or_at_app by done.
  by rewrite <- app_assoc.
Qed.

Lemma xreq_round_trips proto typ p :
  known_proto proto -> extended_echo_type proto = Ok typ -> wf_xreq proto typ p ->
  round_trips (ExtendedEchoRequest_Len proto (Some p))
    (ExtendedEchoRequest_Marshal proto (Some p)) (parseExtendedEchoRequest proto typ) p.
Proof.
  intros Hp Htyp Hwf. pose proof Hwf as (Hid & Hseq & Hv & Hwfe & Hl).
  exists (xreq_wire proto p). rewrite (xreq_Marshal_wire _ typ) by done.
  assert (His : is_extended_echo_request typ = true)
    by (destruct Hp as [-> | ->]; by injection Htyp as <-).
  set (fl := [xreq_Seq p; if xreq_Local p then 1 else 0]).
  assert (Hfl : is_bytes fl).
  { constructor; [done|]. constructor; [|done]. unfold is_u8. case_match; lia. }
  split_and!; [done|..].
  - unfold xreq_wire. fold fl. apply is_bytes_app; split; [eauto with bytes|].
    apply is_bytes_app; split; [done|]. destruct (xreq_Extensions p); [by constructor|].
    eauto with bytes.
  - unfold ExtendedEchoRequest_Len, xreq_wire. rewrite !length_app.
    destruct (xreq_Extensions p) as [|e exts]; [done|].
    rewrite BodyDataLen_exts, length_ext_section, exts_len_wire by done. simpl. lia.
  - unfold parseExtendedEchoRequest, xreq_wire. fold fl. rewrite decide_False by len.
    rewrite slice_to_app, bind_Ok by done. rewrite uint16_be16_small, bind_Ok by done.
    rewrite (at_ok _ 2 (xreq_Seq p)), bind_Ok by done.
    rewrite (at_ok _ 3 (if xreq_Local p then 1 else 0)), bind_Ok by done.
    assert (Hparse : parseMultipartMessageBody proto typ (be16 (xreq_ID p) ++ fl
        ++ match xreq_Extensions p with [] => [] | exts => ext_section proto exts end)
      = Ok ([], xreq_Extensions p)).
    { rewrite app_assoc. destruct (xreq_Extensions p) as [|e exts].
      - destruct Hp as [-> | ->]; done.
      - apply parse_multipart_echo; try done. apply is_bytes_app. eauto with bytes. }
    rewrite Hparse, bind_Ok. destruct p as [? ? [|] ?]; done.
Qed.

(** ** Properties *)

(** An echo reply rebuilt from the parsed request carries the bytes of the request:
    marshalling what [parseEcho] returned gives the body it was given, for every body of
    at least four bytes, and its [Len] is the length of that body. *)
Lemma echo_body_rebuilt proto typ b :
  is_bytes b -> (4 <= length b)%nat ->
  exists p, parseEcho proto typ b = Ok p /\ Echo_Marshal proto (Some p) = Ok b /\
    Echo_Len proto (Some p) = length b.
Proof.
  intros Hb Hl.
  assert (Hp : exists p, parseEcho proto typ b = Ok p).
  { destruct b as [|b0 [|b1 [|b2 [|b3 b]]]]; simpl in Hl; try lia.
    unfold parseEcho. rewrite decide_False by (simpl; lia). cbn. by case_decide; eexists. }
  destruct Hp as [p Hp]. pose proof (parseEcho_inv proto typ b p Hb Hp) as Hw.
  exists p. split; [done|]. rewrite Echo_Marshal_wire, Hw. split; [done|].
  rewrite <- Hw. unfold echo_wire. len.
Qed.

Lemma echo_body_rebuilt_witness :
  exists p, parseEcho 1 (V4 ipv4.ICMPTypeEcho) [18; 52; 0; 7; 104; 105] = Ok p /\
    Echo_Marshal 1 (Some p) = Ok [18; 52; 0; 7; 104; 105].
Proof.
  destruct (echo_body_rebuilt 1 (V4 ipv4.ICMPTypeEcho) [18; 52; 0; 7; 104; 105])
    as (p & Hp & Hm & _).
  - repeat constructor; unfold is_u8; lia.
  - cbn. lia.
  - exists p. split; [exact Hp|exact Hm].
Defined.
