(* ===== verification/IpHeaders.v ===== *)
(** * IP headers (icmp/ipv4.go, icmp/ipv6.go)

    The IPv4 header found in the datagram of an ICMP error, decoded in the byte
    order of the system's raw sockets, and the IPv6 pseudo header a checksum
    covers. *)

From S2P Require Import Prelude Bytes IcmpTypes Iface.
Local Open Scope Z_scope.

(** [net.IPv4(a, b, c, d)]: the 16-byte form. *)
Definition net_IPv4 (a b c d : Z) : bytes := v4InV6Prefix ++ [a; b; c; d].

Definition HeaderLen : nat := 20.

(** [ipv4.Header], the fields [ParseIPv4Header] sets. *)
Record Header := mkHeader {
  h_Version : Z;
  h_Len : Z;
  h_TOS : Z;
  h_TotalLen : Z;
  h_ID : Z;
  h_Flags : Z;
  h_FragOff : Z;
  h_TTL : Z;
  h_Protocol : Z;
  h_Checksum : Z;
  h_Src : bytes;
  h_Dst : bytes;
  h_Options : bytes;
}.

(** The platforms the decoder distinguishes ([runtime.GOOS], [freebsdVersion]) and
    the machine byte order [NativeEndian]. *)
Inductive goos := Darwin | FreeBSD (version : Z) | OtherOS.

Record platform := mkPlatform { pf_os : goos; pf_little_endian : bool }.

(** [NativeEndian.Uint16(b)] *)
Definition native_uint16 (pf : platform) (b : bytes) : icmp Z :=
  if pf_little_endian pf then
    match b with x :: y :: _ => Ok (Z.lor x (Z.shiftl y 8)) | _ => Panic end
  else uint16 b.

(** The switch on the platform that reads the total length. *)
Definition total_len (pf : platform) (w : bytes) : icmp Z :=
  match pf_os pf with
  | Darwin => native_uint16 pf w
  | FreeBSD v => if decide (1000000 <= v) then uint16 w else native_uint16 pf w
  | OtherOS => uint16 w
  end.

(** [func ParseIPv4Header(b []byte) ( *ipv4.Header, error)] *)
Definition ParseIPv4Header (pf : platform) (b : bytes) : icmp Header :=
  if decide (length b < HeaderLen)%nat then Err errHeaderTooShort else
  b0 ← at_ b 0;
  let hdrlen := Z.shiftl (Z.land b0 15) 2 in
  if decide (hdrlen > Z.of_nat (length b)) then Err errBufferTooShort else
  b1 ← at_ b 1;
  w ← slice b 4 6; id ← uint16 w;
  w ← slice b 6 8; fragoff ← uint16 w;
  b8 ← at_ b 8;
  b9 ← at_ b 9;
  w ← slice b 10 12; sum ← uint16 w;
  s12 ← at_ b 12; s13 ← at_ b 13; s14 ← at_ b 14; s15 ← at_ b 15;
  d16 ← at_ b 16; d17 ← at_ b 17; d18 ← at_ b 18; d19 ← at_ b 19;
  w ← slice b 2 4; tl ← total_len pf w;
  t ← slice_from b HeaderLen;
  let options :=
    if decide (hdrlen - 20 > 0) then copy (zeros (Z.to_nat (hdrlen - 20))) t else [] in
  Ok (mkHeader (Z.shiftr b0 4) hdrlen b1 tl id
        (Z.shiftr (Z.land fragoff 57344) 13) (Z.land fragoff 8191) b8 b9 sum
        (net_IPv4 s12 s13 s14 s15) (net_IPv4 d16 d17 d18 d19) options).

Definition ipv6PseudoHeaderLen : nat := 2 * 16 + 8.

(** [func IPv6PseudoHeader(src, dst net.IP) []byte] *)
Definition IPv6PseudoHeader (src dst : bytes) : icmp bytes :=
  let b := zeros ipv6PseudoHeaderLen in
  let b := copy b (default [] (To16 src)) in
  b ← on_suffix 16 (fun t => Ok (copy t (default [] (To16 dst)))) b;
  put b (length b - 1) [58].

(** ** The IPv4 header *)

(** RFC 791 layout of a header in network byte order. *)
Definition ipv4_wire (h : Header) : bytes :=
  [h_Version h * 16 + h_Len h / 4; h_TOS h] ++ be16 (h_TotalLen h) ++ be16 (h_ID h)
    ++ be16 (h_Flags h * 8192 + h_FragOff h) ++ [h_TTL h; h_Protocol h]
    ++ be16 (h_Checksum h) ++ drop 12 (h_Src h) ++ drop 12 (h_Dst h) ++ h_Options h.

Definition is_ipv4 (ip : bytes) : Prop :=
  exists a b c d, ip = net_IPv4 a b c d /\ is_bytes [a; b; c; d].

Definition wf_header (h : Header) : Prop :=
  0 <= h_Version h < 16 /\ h_Len h = 20 + Z.of_nat (length (h_Options h)) /\
  h_Len h mod 4 = 0 /\ h_Len h <= 60 /\ is_u8 (h_TOS h) /\ is_u16 (h_TotalLen h) /\
  is_u16 (h_ID h) /\ 0 <= h_Flags h < 8 /\ 0 <= h_FragOff h < 8192 /\ is_u8 (h_TTL h) /\
  is_u8 (h_Protocol h) /\ is_u16 (h_Checksum h) /\ is_ipv4 (h_Src h) /\
  is_ipv4 (h_Dst h) /\ is_bytes (h_Options h).

Lemma flags_fragoff f o :
  0 <= f < 8 -> 0 <= o < 8192 ->
  Z.shiftr (Z.land (f * 8192 + o) 57344) 13 = f /\ Z.land (f * 8192 + o) 8191 = o.
Proof.
  intros Hf Ho. split.
  - rewrite Z.shiftr_land. change (Z.shiftr 57344 13) with (Z.ones 3).
    rewrite Z.land_ones, shiftr_div by lia. change (2 ^ 13) with 8192.
    change (2 ^ 3) with 8. zdiv.
  - rewrite (land_ones_mod _ 8191 13) by done. change (2 ^ 13) with 8192. zdiv.
Qed.

Lemma version_len v l :
  0 <= v < 16 -> 20 <= l <= 60 -> l mod 4 = 0 ->
  Z.shiftr (v * 16 + l / 4) 4 = v /\ Z.shiftl (Z.land (v * 16 + l / 4) 15) 2 = l.
Proof.
  intros Hv Hl Hm. split.
  - rewrite shiftr_div by lia. change (2 ^ 4) with 16. zdiv.
  - rewrite (land_ones_mod _ 15 4), Z.shiftl_mul_pow2 by done.
    change (2 ^ 4) with 16. change (2 ^ 2) with 4. zdiv.
Qed.

Lemma total_len_be pf v :
  pf_os pf = OtherOS -> is_u16 v -> total_len pf (be16 v) = Ok v.
Proof. intros Hos Hv. unfold total_len. rewrite Hos. by apply uint16_be16_small. Qed.

(** The decoder on a buffer of at least twenty bytes, byte by byte. *)
Lemma ParseIPv4Header_bytes pf x0 x1 x2 x3 x4 x5 x6 x7 x8 x9 x10 x11
    s0 s1 s2 s3 d0 d1 d2 d3 t :
  let hdrlen := Z.shiftl (Z.land x0 15) 2 in
  let w := Z.lor x7 (Z.shiftl x6 8) in
  ParseIPv4Header pf ([x0; x1; x2; x3; x4; x5; x6; x7; x8; x9; x10; x11;
      s0; s1; s2; s3; d0; d1; d2; d3] ++ t)
    = if decide (hdrlen > 20 + Z.of_nat (length t)) then Err errBufferTooShort else
      tl ← total_len pf [x2; x3];
      Ok (mkHeader (Z.shiftr x0 4) hdrlen x1 tl (Z.lor x5 (Z.shiftl x4 8))
            (Z.shiftr (Z.land w 57344) 13) (Z.land w 8191) x8 x9
            (Z.lor x11 (Z.shiftl x10 8)) (net_IPv4 s0 s1 s2 s3) (net_IPv4 d0 d1 d2 d3)
            (if decide (hdrlen - 20 > 0)
             then copy (zeros (Z.to_nat (hdrlen - 20))) t else [])).
Proof.
  cbn zeta. unfold ParseIPv4Header, HeaderLen.
  rewrite (decide_False (P := (_ < 20)%nat)) by (rewrite length_app; simpl; lia).
  rewrite (at_ok _ 0 x0), bind_Ok by done. cbn zeta.
  rewrite (decide_ext _ (Z.shiftl (Z.land x0 15) 2 > 20 + Z.of_nat (length t)))
    by (rewrite length_app; simpl; lia).
  case_decide; [done|].
  unfold slice_from, slice. rewrite !decide_True by (rewrite length_app; simpl; lia).
  destruct (total_len pf [x2; x3]) eqn:Htl; cbn; by rewrite Htl.
Qed.

(** The RFC 791 layout decodes to the header it describes. *)
Lemma ParseIPv4Header_wire pf h rest :
  pf_os pf = OtherOS -> wf_header h -> ParseIPv4Header pf (ipv4_wire h ++ rest) = Ok h.
Proof.
  intros Hos (Hv & Hlen & Hm & H60 & Htos & Htl & Hid & Hfl & Hfo & Httl & Hpr & Hck &
    (s0 & s1 & s2 & s3 & Hs & _) & (d0 & d1 & d2 & d3 & Hd & _) & Ho).
  destruct (version_len (h_Version h) (h_Len h)) as [Hver Hihl]; [lia..|].
  destruct (flags_fragoff (h_Flags h) (h_FragOff h)) as [Hflags Hoff]; [done..|].
  pose proof (uint16_be16_small (E:=icmp_error) _ Hid) as Hid'.
  pose proof (uint16_be16_small (E:=icmp_error) _ Hck) as Hck'.
  assert (Hff : is_u16 (h_Flags h * 8192 + h_FragOff h)) by (unfold is_u16; lia).
  pose proof (uint16_be16_small (E:=icmp_error) _ Hff) as Hff'.
  pose proof (total_len_be pf _ Hos Htl) as Htl'.
  assert (Hw : ipv4_wire h ++ rest =
    [h_Version h * 16 + h_Len h / 4; h_TOS h; u8 (h_TotalLen h ≫ 8); u8 (h_TotalLen h);
     u8 (h_ID h ≫ 8); u8 (h_ID h); u8 ((h_Flags h * 8192 + h_FragOff h) ≫ 8);
     u8 (h_Flags h * 8192 + h_FragOff h); h_TTL h; h_Protocol h;
     u8 (h_Checksum h ≫ 8); u8 (h_Checksum h); s0; s1; s2; s3; d0; d1; d2; d3]
      ++ h_Options h ++ rest).
  { unfold ipv4_wire. rewrite Hs, Hd. unfold net_IPv4.
    rewrite !(drop_app_exact v4InV6Prefix _ 12) by done. done. }
  rewrite Hw, ParseIPv4Header_bytes. cbn zeta. rewrite Hihl, Hver.
  cbn [be16 uint16] in Hid', Hck', Hff'. apply Ok_inj in Hid', Hck', Hff'.
  rewrite Hid', Hck', Hff', Hflags, Hoff. change (total_len pf [_; _]) with
    (total_len pf (be16 (h_TotalLen h))). rewrite Htl', bind_Ok.
  rewrite decide_False by (rewrite length_app; lia). f_equal.
  assert (Hopt : (if decide (h_Len h - 20 > 0)
    then copy (zeros (Z.to_nat (h_Len h - 20))) (h_Options h ++ rest) else [])
      = h_Options h).
  { case_decide.
    - unfold copy. rewrite length_zeros, take_app_exact, drop_ge by len. apply app_nil_r.
    - destruct (h_Options h); [done|]. simpl in *. lia. }
  rewrite Hopt, <- Hs, <- Hd. by destruct h.
Qed.

(** The decoder ends in an orderly way on any bytes, with an error exactly when the
    buffer is shorter than the fixed header or than the header it announces. *)
Lemma ParseIPv4Header_cases pf b :
  is_bytes b ->
  if decide (length b < 20)%nat then ParseIPv4Header pf b = Err errHeaderTooShort else
  let hdrlen := 4 * (default 0 (b !! 0%nat) mod 16) in
  if decide (Z.of_nat (length b) < hdrlen) then ParseIPv4Header pf b = Err errBufferTooShort
  else exists h, ParseIPv4Header pf b = Ok h /\ h_Len h = hdrlen.
Proof.
  intros Hb. destruct (decide (length b < 20)%nat) as [Hl|Hl].
  { unfold ParseIPv4Header. by rewrite decide_True. }
  do 20 (destruct b as [|? b]; [simpl in Hl; lia|]).
  match goal with |- context [ParseIPv4Header pf ?l] =>
    match l with ?x0 :: ?x1 :: ?x2 :: ?x3 :: ?x4 :: ?x5 :: ?x6 :: ?x7 :: ?x8 :: ?x9
      :: ?x10 :: ?x11 :: ?s0 :: ?s1 :: ?s2 :: ?s3 :: ?d0 :: ?d1 :: ?d2 :: ?d3 :: b =>
      pose proof (ParseIPv4Header_bytes pf x0 x1 x2 x3 x4 x5 x6 x7 x8 x9 x10 x11
        s0 s1 s2 s3 d0 d1 d2 d3 b) as Hp;
      assert (Hx0 : is_u8 x0) by (by apply Forall_cons_1 in Hb as [? _]);
      assert (Htl : exists tl, total_len pf [x2; x3] = Ok tl)
        by (unfold total_len, native_uint16; repeat case_match; by eexists);
      pose proof (land_ones_mod x0 15 4 ltac:(lia) eq_refl) as Hihl
    end end.
  cbn zeta in Hp. destruct Htl as [tl Htl]. rewrite Htl, bind_Ok in Hp.
  cbn [app] in Hp. rewrite Hp. clear Hp Htl.
  rewrite Hihl, Z.shiftl_mul_pow2 by lia. change (2 ^ 4) with 16. change (2 ^ 2) with 4.
  cbn [lookup list_lookup default from_option id length]. cbn zeta.
  unfold is_u8 in Hx0. case_decide as Hd1; case_decide as Hd2; try (exfalso; lia).
  - done.
  - eexists; split; [reflexivity|]. cbn [h_Len]. lia.
Qed.

(** ** The IPv6 pseudo header *)

(** RFC 8200 layout with the upper-layer length, which the message encoder fills in. *)
Definition pseudo_header (src dst : bytes) (l : Z) : bytes :=
  src ++ dst ++ be32 l ++ [0; 0; 0; 58].

Lemma IPv6PseudoHeader_wire src dst s d :
  To16 src = Some s -> To16 dst = Some d ->
  IPv6PseudoHeader src dst = Ok (pseudo_header s d 0) /\
  length s = 16%nat /\ length d = 16%nat.
Proof.
  intros Hs Hd.
  assert (H16 : forall ip t, To16 ip = Some t -> length t = 16%nat).
  { intros ip t. unfold To16. repeat case_decide; intros [= <-]; [|done].
    simpl. lia. }
  pose proof (H16 _ _ Hs) as Ls. pose proof (H16 _ _ Hd) as Ld. split_and!; [|done..].
  unfold IPv6PseudoHeader, ipv6PseudoHeaderLen. rewrite Hs, Hd.
  change (default [] (Some s)) with s. change (default [] (Some d)) with d.
  change (2 * 16 + 8)%nat with (16 + (16 + (7 + 1)))%nat.
  rewrite !zeros_app, copy_app by (rewrite length_zeros; by rewrite Ls). unfold on_suffix.
  rewrite (slice_from_app s _ 16), !bind_Ok by done. rewrite take_app_exact by done.
  rewrite copy_app by (rewrite length_zeros; by rewrite Ld).
  rewrite app_assoc, app_assoc.
  rewrite <- (app_nil_r (zeros 1)), (put_app _ (zeros 1)) by (simpl_len; lia || done).
  unfold pseudo_header. by rewrite <- !app_assoc.
Qed.

(** ** Properties *)

(** C39: on a platform whose raw sockets deliver the header in network byte order, the
    decoder of the IPv4 header found in an ICMP error reads back every field of the
    RFC 791 layout, options included, whatever follows the header. *)
Theorem ipv4_header_decoded pf h rest :
  pf_os pf = OtherOS -> wf_header h -> ParseIPv4Header pf (ipv4_wire h ++ rest) = Ok h.
Proof. apply ParseIPv4Header_wire. Qed.

(** A header with one word of options. *)
Definition example_header : Header :=
  mkHeader 4 24 1 48879 51966 2 1500 255 1 57005 (net_IPv4 172 16 254 254)
    (net_IPv4 192 168 0 1) [255; 254; 254; 255].

Lemma ipv4_header_decoded_witness :
  ParseIPv4Header (mkPlatform OtherOS true) (ipv4_wire example_header ++ [8; 0])
    = Ok example_header.
Proof.
  apply ipv4_header_decoded.
  - reflexivity.
  - assert (Hip : forall a b c d, is_bytes [a; b; c; d] -> is_ipv4 (net_IPv4 a b c d))
      by (intros a b c d H; by exists a, b, c, d).
    unfold wf_header, is_u8, is_u16; cbn [h_Version h_Len h_TOS h_TotalLen h_ID h_Flags
      h_FragOff h_TTL h_Protocol h_Checksum h_Src h_Dst h_Options example_header length].
    repeat match goal with |- _ /\ _ => split end; try lia; try reflexivity;
      try apply Hip; repeat constructor; unfold is_u8; lia.
Defined.

(** On every platform and every byte string the decoder returns: it fails with
    "header too short" exactly below twenty bytes, with "buffer too short" when the buffer
    is shorter than the header length its first byte announces, and otherwise answers a
    header whose length fits the buffer. *)
Lemma ipv4_header_total pf b :
  is_bytes b ->
  if decide (length b < 20)%nat then ParseIPv4Header pf b = Err errHeaderTooShort else
  let hdrlen := 4 * (default 0 (b !! 0%nat) mod 16) in
  if decide (Z.of_nat (length b) < hdrlen) then ParseIPv4Header pf b = Err errBufferTooShort
  else exists h, ParseIPv4Header pf b = Ok h /\ h_Len h = hdrlen.
Proof. apply ParseIPv4Header_cases. Qed.

Lemma ipv4_header_total_witness :
  ParseIPv4Header (mkPlatform Darwin true) (replicate 20 70) = Err errBufferTooShort.
Proof.
  exact (ipv4_header_total (mkPlatform Darwin true) (replicate 20 70)
    ltac:(repeat constructor; unfold is_u8; lia)).
Defined.
