(* ===== verification/Message.v ===== *)
(** * ICMP messages (icmp/message.go)

    A message, its encoder with the checksum over the message (and over the pseudo
    header for ICMPv6), the table of body parsers, and the decoder. *)

From S2P Require Import Prelude Bytes Checksum IcmpTypes Iface Extension Multipart.
From S2P Require Import Bodies IpHeaders.
Local Open Scope Z_scope.

Record Message := mkMessage {
  m_Type : MsgType;
  m_Code : Z;
  m_Checksum : Z;
  m_Body : option MessageBody;
}.

(** [m.Body != nil && m.Body.Len(proto) != 0], then the body's encoding. *)
Definition append_body (proto : Z) (body : option MessageBody) (b : bytes) : icmp bytes :=
  match body with
  | Some body =>
      if decide (Body_Len proto body <> 0%nat) then
        mb ← Body_Marshal proto body; Ok (b ++ mb)
      else Ok b
  | None => Ok b
  end.

(** The protocol and the type byte of [m.Type]. *)
Definition type_proto (typ : MsgType) : icmp (Z * Z) :=
  match typ with
  | V4 t => Ok (ProtocolICMP, u8 t)
  | V6 t => Ok (ProtocolIPv6ICMP, u8 t)
  | OtherType => Err errInvalidProtocol
  end.

(** [func (m *Message) Marshal(psh []byte) ([]byte, error)]; [None] is a nil [psh]. *)
Definition Message_Marshal (m : Message) (psh : option bytes) : icmp bytes :=
  '(proto, mtype) ← type_proto (m_Type m);
  let b := [mtype; u8 (m_Code m); 0; 0] in
  let b := match psh with Some p => if decide (proto = 58) then p ++ b else b | None => b end in
  let lpsh := length (default [] psh) in
  b ← append_body proto (m_Body m) b;
  if bool_decide (proto = 58 /\ psh = None) then Ok b else
  b ← (if decide (proto = 58)
       then put b (2 * 16) (be32 (Z.of_nat (length b) - Z.of_nat lpsh)) else Ok b);
  let s := checksum b in
  b ← xor_at b (lpsh + 2) (u8 s);
  b ← xor_at b (lpsh + 3) (u8 (Z.shiftr s 8));
  slice_from b lpsh.

(** The map [parseFns]. *)
Definition body_parser : Type := Z -> MsgType -> bytes -> icmp MessageBody.

Definition as_body {T} (parse : Z -> MsgType -> bytes -> icmp T)
    (inj : option T -> MessageBody) : body_parser :=
  fun proto typ b => p ← parse proto typ b; Ok (inj (Some p)).

Definition parseFns (typ : MsgType) : option body_parser :=
  match typ with
  | V4 t =>
      if decide (t = ipv4.ICMPTypeDestinationUnreachable)
      then Some (as_body parseDstUnreach BodyDstUnreach)
      else if decide (t = ipv4.ICMPTypeTimeExceeded)
      then Some (as_body parseTimeExceeded BodyTimeExceeded)
      else if decide (t = ipv4.ICMPTypeParameterProblem)
      then Some (as_body parseParamProb BodyParamProb)
      else if decide (t = ipv4.ICMPTypeEcho \/ t = ipv4.ICMPTypeEchoReply)
      then Some (as_body parseEcho BodyEcho)
      else if decide (t = ipv4.ICMPTypeExtendedEchoRequest)
      then Some (as_body parseExtendedEchoRequest BodyExtendedEchoRequest)
      else if decide (t = ipv4.ICMPTypeExtendedEchoReply)
      then Some (as_body parseExtendedEchoReply BodyExtendedEchoReply)
      else if decide (t = ipv4.ICMPTypeTimestamp \/ t = ipv4.ICMPTypeTimestampReply)
      then Some (as_body parseTimestamp BodyTimestamp)
      else None
  | V6 t =>
      if decide (t = ipv6.ICMPTypeDestinationUnreachable)
      then Some (as_body parseDstUnreach BodyDstUnreach)
      else if decide (t = ipv6.ICMPTypePacketTooBig)
      then Some (as_body parsePacketTooBig BodyPacketTooBig)
      else if decide (t = ipv6.ICMPTypeTimeExceeded)
      then Some (as_body parseTimeExceeded BodyTimeExceeded)
      else if decide (t = ipv6.ICMPTypeParameterProblem)
      then Some (as_body parseParamProb BodyParamProb)
      else if decide (t = ipv6.ICMPTypeEchoRequest \/ t = ipv6.ICMPTypeEchoReply)
      then Some (as_body parseEcho BodyEcho)
      else if decide (t = ipv6.ICMPTypeExtendedEchoRequest)
      then Some (as_body parseExtendedEchoRequest BodyExtendedEchoRequest)
      else if decide (t = ipv6.ICMPTypeExtendedEchoReply)
      then Some (as_body parseExtendedEchoReply BodyExtendedEchoReply)
      else None
  | OtherType => None
  end.

(** The lookup in [parseFns] and the call, [parseRawBody] by default. *)
Definition parse_body (proto : Z) (typ : MsgType) (b : bytes) : icmp MessageBody :=
  match parseFns typ with
  | Some fn => fn proto typ b
  | None => p ← parseRawBody proto b; Ok (BodyRaw (Some p))
  end.

(** The switch on [proto] that sets [m.Type]. *)
Definition message_type (proto : Z) (b0 : Z) : icmp MsgType :=
  if decide (proto = 1) then Ok (V4 b0)
  else if decide (proto = 58) then Ok (V6 b0)
  else Err errInvalidProtocol.

(** [func ParseMessage(proto int, b []byte) ( *Message, error)] *)
Definition ParseMessage (proto : Z) (b : bytes) : icmp Message :=
  if decide (length b < 4)%nat then Err errMessageTooShort else
  code ← at_ b 1;
  w ← slice b 2 4; sum ← uint16 w;
  b0 ← at_ b 0;
  typ ← message_type proto b0;
  t ← slice_from b 4;
  body ← parse_body proto typ t;
  Ok (mkMessage typ code sum (Some body)).

(** ** Decoding any packet *)

(** The shortest body each type accepts. *)
Definition min_body (typ : MsgType) : nat :=
  match typ with
  | V4 t =>
      if bool_decide (t = ipv4.ICMPTypeTimestamp \/ t = ipv4.ICMPTypeTimestampReply)
      then 16 else match parseFns typ with Some _ => 4 | None => 0 end
  | _ => match parseFns typ with Some _ => 4 | None => 0 end
  end.

(** Evaluates the checked reads of a parser on bytes of known minimal length. *)
Ltac reads := repeat first
  [ rewrite slice_to_ok by lia | rewrite slice_from_ok by lia | rewrite slice_ok by lia
  | rewrite bind_Ok
  | match goal with
    | |- context [uint16 ?w] =>
        destruct (uint16_returns (E:=icmp_error) w) as (? & -> & _); [eauto with bytes|len|]
    | |- context [uint32 ?w] =>
        destruct (uint32_returns (E:=icmp_error) w) as (? & -> & _); [eauto with bytes|len|]
    | |- context [at_ ?b ?i] =>
        destruct (at_returns (E:=icmp_error) b i) as (? & _ & ->); [lia|]
    end ].

(** A parser that returns on every buffer of at least [n] bytes and reports a short
    message on every other. *)
Definition accepts {T} (n : nat) (parse : bytes -> icmp T) : Prop :=
  forall b, is_bytes b ->
    ((length b < n)%nat -> parse b = Err errMessageTooShort) /\
    ((n <= length b)%nat -> exists x, parse b = Ok x).

Lemma accepts_as_body {T} n (parse : Z -> MsgType -> bytes -> icmp T) inj proto typ :
  accepts n (parse proto typ) -> accepts n (as_body parse inj proto typ).
Proof.
  intros H b Hb. destruct (H b Hb) as [Hshort Hok]. unfold as_body. split; intros Hl.
  - by rewrite Hshort.
  - destruct (Hok Hl) as [x ->]. eauto.
Qed.

Lemma parseEcho_accepts proto typ : accepts 4 (parseEcho proto typ).
Proof.
  intros b Hb. unfold parseEcho. case_decide; (split; intros; [done || lia|]); [lia|].
  reads. case_decide; reads; eauto.
Qed.

Lemma parseTimestamp_accepts proto typ : accepts 16 (parseTimestamp proto typ).
Proof.
  intros b Hb. unfold parseTimestamp. case_decide; (split; intros; [done || lia|]); [lia|].
  reads. eauto.
Qed.

Lemma parsePacketTooBig_accepts proto typ : accepts 4 (parsePacketTooBig proto typ).
Proof.
  intros b Hb. unfold parsePacketTooBig.
  case_decide; (split; intros; [done || lia|]); [lia|].
  reads. case_decide; reads; eauto.
Qed.

Lemma parseExtendedEchoReply_accepts proto typ :
  accepts 4 (parseExtendedEchoReply proto typ).
Proof.
  intros b Hb. unfold parseExtendedEchoReply.
  case_decide; (split; intros; [done || lia|]); [lia|]. reads. eauto.
Qed.

Lemma parse_multipart_ok proto typ b :
  is_bytes b -> (4 <= length b)%nat -> exists y, parseMultipartMessageBody proto typ b = Ok y.
Proof.
  intros Hb Hl. destruct (parse_multipart_returns proto typ b Hb Hl) as (d & e & -> & _).
  eauto.
Qed.

Lemma parseDstUnreach_accepts proto typ : accepts 4 (parseDstUnreach proto typ).
Proof.
  intros b Hb. unfold parseDstUnreach. case_decide; (split; intros; [done || lia|]); [lia|].
  destruct (parse_multipart_ok proto typ b) as [[? ?] ->]; [done|lia|]. eauto.
Qed.

Lemma parseTimeExceeded_accepts proto typ : accepts 4 (parseTimeExceeded proto typ).
Proof.
  intros b Hb. unfold parseTimeExceeded.
  case_decide; (split; intros; [done || lia|]); [lia|].
  destruct (parse_multipart_ok proto typ b) as [[? ?] ->]; [done|lia|]. eauto.
Qed.

Lemma parseExtendedEchoRequest_accepts proto typ :
  accepts 4 (parseExtendedEchoRequest proto typ).
Proof.
  intros b Hb. unfold parseExtendedEchoRequest.
  case_decide; (split; intros; [done || lia|]); [lia|]. reads.
  destruct (parse_multipart_ok proto typ b) as [[? ?] ->]; [done|lia|]. eauto.
Qed.

Lemma parseParamProb_accepts proto typ : accepts 4 (parseParamProb proto typ).
Proof.
  intros b Hb. unfold parseParamProb. case_decide; (split; intros; [done || lia|]); [lia|].
  case_decide; reads; [eauto|].
  destruct (parse_multipart_ok proto typ b) as [[? ?] ->]; [done|lia|]. eauto.
Qed.

Create HintDb accepts.
#[export] Hint Resolve accepts_as_body parseEcho_accepts parseTimestamp_accepts
  parsePacketTooBig_accepts parseExtendedEchoReply_accepts parseDstUnreach_accepts
  parseTimeExceeded_accepts parseExtendedEchoRequest_accepts parseParamProb_accepts
  : accepts.

Lemma parse_raw_accepts proto :
  accepts 0 (fun b => p ← parseRawBody proto b; Ok (BodyRaw (Some p))).
Proof. intros b Hb. split; [lia|]. eauto. Qed.

Lemma parse_body_accepts proto typ : accepts (min_body typ) (parse_body proto typ).
Proof.
  unfold min_body, parse_body. destruct typ as [t|t|]; [| |apply parse_raw_accepts].
  - case_bool_decide as Ht.
    + destruct Ht as [-> | ->];
        apply (accepts_as_body 16 parseTimestamp BodyTimestamp), parseTimestamp_accepts.
    + unfold parseFns. repeat case_decide; try done; try apply parse_raw_accepts;
        auto with accepts.
  - unfold parseFns. repeat case_decide; try apply parse_raw_accepts; auto with accepts.
Qed.

(** What [ParseMessage] does with any packet. *)
Lemma ParseMessage_spec proto b :
  is_bytes b ->
  if decide (length b < 4)%nat then ParseMessage proto b = Err errMessageTooShort else
  match message_type proto (default 0 (b !! 0%nat)) with
  | Ok typ =>
      if decide (length b < 4 + min_body typ)%nat
      then ParseMessage proto b = Err errMessageTooShort
      else exists body c, parse_body proto typ (drop 4 b) = Ok body /\
             ParseMessage proto b = Ok (mkMessage typ (default 0 (b !! 1%nat)) c (Some body))
  | Err e => ParseMessage proto b = Err e
  | _ => False
  end.
Proof.
  intros Hb. unfold ParseMessage. case_decide; [done|].
  destruct (at_returns (E:=icmp_error) b 1) as (code & Hc & ->); [lia|].
  destruct (at_returns (E:=icmp_error) b 0) as (b0 & H0 & ->); [lia|].
  rewrite Hc, H0. cbn [default from_option id]. reads.
  assert (Hty : exists r, message_type proto b0 = r /\
    match r with Ok _ | Err _ => True | _ => False end)
    by (eexists; split; [reflexivity|]; unfold message_type; repeat case_decide; done).
  destruct Hty as (r & Hr & Hd). rewrite Hr. destruct r as [typ|e| |]; try done.
  rewrite bind_Ok. reads.
  destruct (parse_body_accepts proto typ (drop 4 b)) as [Hshort Hok]; [eauto with bytes|].
  rewrite length_drop in *. case_decide.
  - by rewrite Hshort by lia.
  - destruct Hok as [body Hbody]; [lia|]. rewrite Hbody. eauto.
Qed.

(** ** Encoding *)

(** The body fits the message type and its fields fit their wire widths. *)
Definition wf_body (proto : Z) (typ : MsgType) (body : MessageBody) : Prop :=
  match body with
  | BodyRaw (Some p) => parseFns typ = None /\ is_bytes (raw_Data p)
  | BodyEcho (Some p) =>
      (typ = V4 ipv4.ICMPTypeEcho \/ typ = V4 ipv4.ICMPTypeEchoReply \/
       typ = V6 ipv6.ICMPTypeEchoRequest \/ typ = V6 ipv6.ICMPTypeEchoReply) /\ wf_echo p
  | BodyExtendedEchoRequest (Some p) =>
      extended_echo_type proto = Ok typ /\ wf_xreq proto typ p
  | BodyExtendedEchoReply (Some p) =>
      (typ = V4 ipv4.ICMPTypeExtendedEchoReply \/ typ = V6 ipv6.ICMPTypeExtendedEchoReply)
      /\ wf_xrep p
  | BodyTimestamp (Some p) =>
      (typ = V4 ipv4.ICMPTypeTimestamp \/ typ = V4 ipv4.ICMPTypeTimestampReply) /\
      wf_timestamp p
  | BodyDstUnreach (Some p) =>
      typ = du_type proto /\ wf_multipart proto typ (du_Data p) (du_Extensions p)
  | BodyTimeExceeded (Some p) =>
      typ = te_type proto /\ wf_multipart proto typ (te_Data p) (te_Extensions p)
  | BodyParamProb (Some p) =>
      (proto = 1 /\ typ = V4 ipv4.ICMPTypeParameterProblem /\ is_u8 (pp_Pointer p) /\
       wf_multipart proto typ (pp_Data p) (pp_Extensions p)) \/
      (proto = 58 /\ typ = V6 ipv6.ICMPTypeParameterProblem /\ is_u32 (pp_Pointer p) /\
       is_bytes (pp_Data p) /\ pp_Extensions p = [])
  | BodyPacketTooBig (Some p) => typ = V6 ipv6.ICMPTypePacketTooBig /\ wf_ptb p
  | _ => False
  end.

(** The body the receiver sees: the one sent, its datagram padded. *)
Definition recv_body (proto : Z) (body : MessageBody) : MessageBody :=
  match body with
  | BodyDstUnreach (Some p) =>
      BodyDstUnreach (Some (mkDstUnreach (sent_data proto (du_Data p) (du_Extensions p))
                              (du_Extensions p)))
  | BodyTimeExceeded (Some p) =>
      BodyTimeExceeded (Some (mkTimeExceeded
        (sent_data proto (te_Data p) (te_Extensions p)) (te_Extensions p)))
  | BodyParamProb (Some p) =>
      if proto =? 1
      then BodyParamProb (Some (mkParamProb (pp_Pointer p)
             (sent_data 1 (pp_Data p) (pp_Extensions p)) (pp_Extensions p)))
      else body
  | _ => body
  end.

Lemma round_trips_body {T} len m proto typ (parse : Z -> MsgType -> bytes -> icmp T) inj x :
  parseFns typ = Some (as_body parse inj) -> round_trips len m (parse proto typ) x ->
  round_trips len m (parse_body proto typ) (inj (Some x)).
Proof.
  intros Hf (b & Hm & Hb & Hl & Hp). exists b. split_and!; try done.
  unfold parse_body. rewrite Hf. unfold as_body. by rewrite Hp.
Qed.

(** Every well-formed body keeps the contract of the encoder. *)
Lemma body_round_trips proto typ body :
  known_proto proto -> wf_body proto typ body ->
  round_trips (Body_Len proto body) (Body_Marshal proto body) (parse_body proto typ)
    (recv_body proto body).
Proof.
  intros Hp Hwf.
  destruct body as [[p|]|[p|]|[p|]|[p|]|[p|]|[p|]|[p|]|[p|]|[p|]]; try done;
    cbn [wf_body Body_Len Body_Marshal recv_body] in *.
  - destruct Hwf as [Hf Hb]. destruct (raw_round_trips proto p Hb) as (b & Hm & Hbb & Hl & Hq).
    exists b. split_and!; try done. unfold parse_body. by rewrite Hf, Hq.
  - destruct Hwf as [Ht Hwf]. apply (round_trips_body _ _ _ _ parseEcho);
      [by destruct_or! Ht; subst typ | by apply echo_round_trips].
  - destruct Hwf as [Ht Hwf]. apply (round_trips_body _ _ _ _ parseExtendedEchoRequest);
      [by destruct Hp as [-> | ->]; injection Ht as <- | by apply xreq_round_trips].
  - destruct Hwf as [Ht Hwf]. apply (round_trips_body _ _ _ _ parseExtendedEchoReply);
      [by destruct_or! Ht; subst typ | by apply xrep_round_trips].
  - destruct Hwf as [Ht Hwf]. apply (round_trips_body _ _ _ _ parseTimestamp);
      [by destruct_or! Ht; subst typ | by apply timestamp_round_trips].
  - destruct Hwf as [-> Hwf]. apply (round_trips_body _ _ _ _ parseDstUnreach);
      [by destruct Hp as [-> | ->] | by apply du_round_trips].
  - destruct Hwf as [-> Hwf]. apply (round_trips_body _ _ _ _ parseTimeExceeded);
      [by destruct Hp as [-> | ->] | by apply te_round_trips].
  - destruct Hwf as [(-> & -> & Hptr & Hwf)|(-> & -> & Hptr & Hd & He)].
    + apply (round_trips_body _ _ _ _ parseParamProb); [done | by apply pp4_round_trips].
    + apply (round_trips_body _ _ _ _ parseParamProb); [done | by apply pp6_round_trips].
  - destruct Hwf as [-> Hwf]. apply (round_trips_body _ _ _ _ parsePacketTooBig);
      [done | by apply ptb_round_trips].
Qed.

Lemma append_body_ok proto typ body b :
  known_proto proto -> wf_body proto typ body ->
  exists mb, append_body proto (Some body) b = Ok (b ++ mb) /\ is_bytes mb /\
    length mb = Body_Len proto body /\
    parse_body proto typ mb = Ok (recv_body proto body).
Proof.
  intros Hp Hwf. destruct (body_round_trips _ _ _ Hp Hwf) as (mb & Hm & Hb & Hl & Hq).
  exists mb. split_and!; try done. unfold append_body. rewrite Hm. case_decide as H0; [done|].
  destruct mb; [by rewrite app_nil_r | simpl in Hl; lia].
Qed.

(** The message on the wire, and its decoding. *)
Definition message_wire (t code s : Z) (mb : bytes) : bytes :=
  [t; code] ++ csum_bytes s ++ mb.

Lemma ParseMessage_wire proto typ t code s mb body :
  message_type proto t = Ok typ -> parse_body proto typ mb = Ok body ->
  exists c, ParseMessage proto (message_wire t code s mb)
    = Ok (mkMessage typ code c (Some body)).
Proof.
  intros Ht Hb. unfold ParseMessage, message_wire.
  rewrite decide_False by len. rewrite (at_ok _ 1 code), bind_Ok by done.
  rewrite (slice_mid [t; code]), bind_Ok by done.
  destruct (uint16_returns (E:=icmp_error) (csum_bytes s)) as (v & -> & _);
    [apply is_bytes_csum | done |].
  rewrite bind_Ok. rewrite (at_ok _ 0 t), bind_Ok, Ht, bind_Ok by done.
  rewrite app_assoc, slice_from_app, bind_Ok by len. rewrite Hb. by exists v.
Qed.

(** ICMPv4: no pseudo header, the checksum covers the message. *)
Lemma Message_Marshal_v4 t code c body :
  is_u8 t -> is_u8 code -> wf_body 1 (V4 t) body ->
  (4 + Body_Len 1 body <= max_checked_len)%nat ->
  exists s mb,
    Message_Marshal (mkMessage (V4 t) code c (Some body)) None
      = Ok (message_wire t code s mb) /\
    checksum (message_wire t code s mb) = 0 /\ is_bytes mb /\
    parse_body 1 (V4 t) mb = Ok (recv_body 1 body).
Proof.
  intros Ht Hc Hwf Hl.
  destruct (append_body_ok 1 (V4 t) body [t; code; 0; 0]) as (mb & Ha & Hb & Hlen & Hq);
    [by left|done|].
  exists (checksum ([t; code; 0; 0] ++ mb)), mb. split_and!; [| |done..].
  - unfold Message_Marshal. cbn [type_proto m_Type m_Code m_Body].
    rewrite bind_Ok. cbv beta iota zeta.
    rewrite !u8_small by done. change ProtocolICMP with 1. rewrite Ha, bind_Ok.
    rewrite bool_decide_eq_false_2 by (by intros [? _]). rewrite decide_False, bind_Ok by done.
    cbn [default from_option length Nat.add app].
    change (t :: code :: 0 :: 0 :: mb) with ([t; code] ++ 0 :: 0 :: mb) at 2.
    rewrite xor_at_app, bind_Ok, lxor_0_u8 by done.
    set (s := u8 (checksum _)). change ([t; code] ++ s :: 0 :: mb) with ([t; code; s] ++ 0 :: mb).
    rewrite xor_at_app, bind_Ok, lxor_0_u8 by done.
    unfold slice_from. rewrite decide_True by lia. done.
  - apply (checksum_fill [t; code] mb); [by exists 1%nat| |done|simpl; lia].
    constructor; [done|]. by constructor.
Qed.

Lemma pseudo_header_put s d l rest :
  length s = 16%nat -> length d = 16%nat ->
  put (pseudo_header s d 0 ++ rest) (2 * 16) (be32 l)
    = (Ok (pseudo_header s d l ++ rest) : icmp bytes).
Proof.
  intros Hs Hd. unfold pseudo_header. rewrite <- !app_assoc.
  rewrite (app_assoc s), (put_app (s ++ d)) by len. by rewrite <- !app_assoc.
Qed.

Lemma length_pseudo s d l :
  length s = 16%nat -> length d = 16%nat -> length (pseudo_header s d l) = 40%nat.
Proof. intros Hs Hd. unfold pseudo_header. rewrite !length_app, Hs, Hd. done. Qed.

Lemma is_bytes_pseudo s d l :
  is_bytes s -> is_bytes d -> is_bytes (pseudo_header s d l).
Proof.
  intros Hs Hd. unfold pseudo_header. rewrite !is_bytes_app.
  split_and!; [done|done|eauto with bytes|]. repeat constructor; unfold is_u8; lia.
Qed.

(** ICMPv6: the checksum covers the pseudo header with the length of the message. *)
Lemma Message_Marshal_v6 t code c body s d :
  is_u8 t -> is_u8 code -> wf_body 58 (V6 t) body ->
  is_bytes s -> is_bytes d -> length s = 16%nat -> length d = 16%nat ->
  (44 + Body_Len 58 body <= max_checked_len)%nat ->
  exists k mb,
    Message_Marshal (mkMessage (V6 t) code c (Some body)) (Some (pseudo_header s d 0))
      = Ok (message_wire t code k mb) /\
    checksum (pseudo_header s d (Z.of_nat (length (message_wire t code k mb)))
                ++ message_wire t code k mb) = 0 /\
    parse_body 58 (V6 t) mb = Ok (recv_body 58 body).
Proof.
  intros Ht Hc Hwf Hs Hd Ls Ld Hl.
  destruct (append_body_ok 58 (V6 t) body (pseudo_header s d 0 ++ [t; code; 0; 0]))
    as (mb & Ha & Hb & Hlen & Hq); [by right|done|].
  set (l := Z.of_nat (4 + length mb)). set (ph := pseudo_header s d l).
  assert (Hph : length ph = 40%nat) by by apply length_pseudo.
  set (k := checksum ((ph ++ [t; code]) ++ [0; 0] ++ mb)).
  assert (Hw : length (message_wire t code k mb) = (4 + length mb)%nat) by done.
  exists k, mb. split_and!; [| |done].
  - unfold Message_Marshal. cbn [type_proto m_Type m_Code m_Body].
    rewrite bind_Ok. cbv beta iota zeta. rewrite !u8_small by done.
    change ProtocolIPv6ICMP with 58.
    rewrite decide_True, Ha, bind_Ok by done.
    rewrite bool_decide_eq_false_2 by (by intros [_ ?]). rewrite decide_True by done.
    cbn [default from_option id]. rewrite <- app_assoc, pseudo_header_put, bind_Ok by done.
    rewrite length_app, !length_pseudo by done.
    replace (Z.of_nat _ - Z.of_nat 40) with l by (unfold l; simpl; lia). fold ph.
    change ([t; code; 0; 0] ++ mb) with ([t; code] ++ [0; 0] ++ mb).
    rewrite (app_assoc ph). fold k.
    change ([0; 0] ++ mb) with (0 :: 0 :: mb).
    rewrite xor_at_app, bind_Ok, lxor_0_u8 by (rewrite length_app, Hph; done).
    change (u8 k :: 0 :: mb) with ([u8 k] ++ 0 :: mb). rewrite app_assoc.
    rewrite xor_at_app, bind_Ok, lxor_0_u8 by (rewrite !length_app, Hph; done).
    rewrite <- !app_assoc, slice_from_app by done. done.
  - rewrite Hw. fold l ph. unfold message_wire. rewrite app_assoc.
    apply checksum_fill.
    + rewrite length_app, Hph. by exists 21%nat.
    + apply is_bytes_app. split; [by apply is_bytes_pseudo|]. constructor; [done|].
      by constructor.
    + done.
    + rewrite length_app, Hph. simpl. lia.
Qed.

(** ** Properties *)

(** C15: [ParseMessage] returns on every packet, with no run-time panic and no endless
    loop: an unknown protocol or a packet shorter than the four-byte header and the
    fixed part of its body type is the only reason for an error, and every other
    packet gives a message whose type and code are the first two bytes. *)
Theorem ParseMessage_total proto b :
  is_bytes b ->
  if decide (length b < 4)%nat then ParseMessage proto b = Err errMessageTooShort else
  match message_type proto (default 0 (b !! 0%nat)) with
  | Ok typ =>
      if decide (length b < 4 + min_body typ)%nat
      then ParseMessage proto b = Err errMessageTooShort
      else exists body c, parse_body proto typ (drop 4 b) = Ok body /\
             ParseMessage proto b = Ok (mkMessage typ (default 0 (b !! 1%nat)) c (Some body))
  | Err e => ParseMessage proto b = Err e
  | _ => False
  end.
Proof. apply ParseMessage_spec. Qed.

Lemma ParseMessage_total_witness :
  is_bytes [3; 1; 0; 0; 0; 255; 0; 0; 0; 1] /\
  exists body c, ParseMessage 1 [3; 1; 0; 0; 0; 255; 0; 0; 0; 1]
    = Ok (mkMessage (V4 3) 1 c (Some body)).
Proof.
  assert (Hb : is_bytes [3; 1; 0; 0; 0; 255; 0; 0; 0; 1])
    by (repeat constructor; unfold is_u8; lia).
  split; [exact Hb|].
  destruct (ParseMessage_total 1 _ Hb) as (body & c & _ & H).
  exists body, c. exact H.
Defined.

(** C13: a well-formed ICMPv4 message of any body type is encoded so that the receiver's
    checksum verification succeeds, and decoding it gives the same type and code and
    the same body (the original datagram of an error message padded with zeros when
    extensions follow it). *)
Theorem marshal_parse_v4 t code c body :
  is_u8 t -> is_u8 code -> wf_body 1 (V4 t) body ->
  (4 + Body_Len 1 body <= max_checked_len)%nat ->
  exists w c', Message_Marshal (mkMessage (V4 t) code c (Some body)) None = Ok w /\
    checksum w = 0 /\
    ParseMessage 1 w = Ok (mkMessage (V4 t) code c' (Some (recv_body 1 body))).
Proof.
  intros Ht Hc Hwf Hl.
  destruct (Message_Marshal_v4 t code c body Ht Hc Hwf Hl) as (s & mb & Hm & Hcs & _ & Hp).
  destruct (ParseMessage_wire 1 (V4 t) t code s mb _ eq_refl Hp) as [c' Hparse]. eauto.
Qed.

Lemma marshal_parse_v4_witness :
  exists w c', Message_Marshal
      (mkMessage (V4 13) 0 0 (Some (BodyTimestamp (Some (mkTimestamp 4660 7 86399999 0 1)))))
      None = Ok w /\ checksum w = 0 /\
    ParseMessage 1 w = Ok (mkMessage (V4 13) 0 c'
      (Some (BodyTimestamp (Some (mkTimestamp 4660 7 86399999 0 1))))).
Proof.
  apply (marshal_parse_v4 13 0 0 (BodyTimestamp (Some (mkTimestamp 4660 7 86399999 0 1)))).
  - unfold is_u8; lia.
  - unfold is_u8; lia.
  - split; [by left|]. unfold wf_timestamp, is_u16, is_u32; cbn; lia.
  - apply le_max_checked. simpl. lia.
Defined.

(** C14: a well-formed ICMPv6 message encoded with the pseudo header of its addresses
    carries a checksum that covers the addresses, the message length and the message;
    decoding it gives the message back. *)
Theorem marshal_parse_v6 t code c body src dst s d :
  is_u8 t -> is_u8 code -> wf_body 58 (V6 t) body ->
  To16 src = Some s -> To16 dst = Some d -> is_bytes s -> is_bytes d ->
  (44 + Body_Len 58 body <= max_checked_len)%nat ->
  exists psh w c', IPv6PseudoHeader src dst = Ok psh /\
    Message_Marshal (mkMessage (V6 t) code c (Some body)) (Some psh) = Ok w /\
    checksum (pseudo_header s d (Z.of_nat (length w)) ++ w) = 0 /\
    ParseMessage 58 w = Ok (mkMessage (V6 t) code c' (Some (recv_body 58 body))).
Proof.
  intros Ht Hc Hwf Hs Hd Hbs Hbd Hl.
  destruct (IPv6PseudoHeader_wire src dst s d Hs Hd) as (Hpsh & Ls & Ld).
  destruct (Message_Marshal_v6 t code c body s d) as (k & mb & Hm & Hcs & Hp); [done..|].
  destruct (ParseMessage_wire 58 (V6 t) t code k mb _ eq_refl Hp) as [c' Hparse].
  eexists _, _, c'. split_and!; eauto.
Qed.

Lemma marshal_parse_v6_witness :
  exists psh w c', IPv6PseudoHeader (replicate 16 254) [10; 0; 0; 1] = Ok psh /\
    Message_Marshal (mkMessage (V6 128) 0 0 (Some (BodyEcho (Some (mkEcho 1 2 [3])))))
      (Some psh) = Ok w /\
    checksum (pseudo_header (replicate 16 254) (v4InV6Prefix ++ [10; 0; 0; 1])
                (Z.of_nat (length w)) ++ w) = 0 /\
    ParseMessage 58 w
      = Ok (mkMessage (V6 128) 0 c' (Some (BodyEcho (Some (mkEcho 1 2 [3]))))).
Proof.
  apply (marshal_parse_v6 128 0 0 (BodyEcho (Some (mkEcho 1 2 [3])))).
  - unfold is_u8; lia.
  - unfold is_u8; lia.
  - split; [tauto|]. split_and!; [unfold is_u16; cbn; lia..|].
    repeat constructor; unfold is_u8; lia.
  - reflexivity.
  - reflexivity.
  - repeat constructor; unfold is_u8; lia.
  - repeat constructor; unfold is_u8; lia.
  - apply le_max_checked. simpl. lia.
Defined.
