(* ===== verification/Typing.v ===== *)
(** * The types of decoded messages (the parsers of the package icmp)

    Whatever the packet, a message that [ParseMessage] returns has the body that belongs
    to its type, and every field of it, down to the extension objects, is in the range of
    its width on the wire. *)

From stdpp Require Import sets.
From S2P Require Import Prelude Bytes Checksum IcmpTypes Mpls Iface Ident Extension Multipart.
From S2P Require Import Bodies Message.
Local Open Scope Z_scope.

(** ** Typed values *)

Definition label_typed (l : MPLSLabel) : Prop :=
  0 <= ll_Label l < 2 ^ 20 /\ 0 <= ll_TC l < 8 /\ is_u8 (ll_TTL l).

Definition interface_typed (i : net_Interface) : Prop :=
  is_u32 (if_Index i) /\ is_u32 (if_MTU i) /\ is_bytes (if_Name i) /\ (length (if_Name i) <= 63)%nat.

Definition ip_typed (ip : bytes) : Prop :=
  is_bytes ip /\ (length ip = 0 \/ length ip = 4 \/ length ip = 16)%nat.

Definition info_typed (ifi : InterfaceInfo) : Prop :=
  is_u8 (ifi_Class ifi) /\ is_u8 (ifi_Type ifi) /\
  (forall i, ifi_Interface ifi = Some i -> interface_typed i) /\
  (forall a, ifi_Addr ifi = Some a -> ip_typed (ip_IP a)).

Definition ext_typed (e : Extension) : Prop :=
  match e with
  | ExtMPLSLabelStack ls =>
      ls_Class ls = classMPLSLabelStack /\ is_u8 (ls_Type ls) /\ Forall label_typed (ls_Labels ls)
  | ExtInterfaceInfo ifi => ifi_Class ifi = classInterfaceInfo /\ info_typed ifi
  | ExtInterfaceIdent ifi =>
      id_Class ifi = classInterfaceIdent /\ is_u8 (id_Type ifi) /\ is_bytes (id_Name ifi) /\
      is_u32 (id_Index ifi) /\ is_u16 (id_AFI ifi) /\ is_bytes (id_Addr ifi) /\
      (length (id_Addr ifi) < 256)%nat
  | ExtRawExtension p => exists data, p = Some data /\ is_bytes data
  end.

(** The body that belongs to a message type, with its fields in range. *)
Definition body_typed (typ : MsgType) (body : MessageBody) : Prop :=
  match body with
  | BodyRaw (Some p) => parseFns typ = None /\ is_bytes (raw_Data p)
  | BodyEcho (Some p) =>
      typ ∈ [V4 ipv4.ICMPTypeEcho; V4 ipv4.ICMPTypeEchoReply; V6 ipv6.ICMPTypeEchoRequest;
             V6 ipv6.ICMPTypeEchoReply] /\
      is_u16 (echo_ID p) /\ is_u16 (echo_Seq p) /\ is_bytes (echo_Data p)
  | BodyExtendedEchoRequest (Some p) =>
      typ ∈ [V4 ipv4.ICMPTypeExtendedEchoRequest; V6 ipv6.ICMPTypeExtendedEchoRequest] /\
      is_u16 (xreq_ID p) /\ is_u8 (xreq_Seq p) /\ Forall ext_typed (xreq_Extensions p)
  | BodyExtendedEchoReply (Some p) =>
      typ ∈ [V4 ipv4.ICMPTypeExtendedEchoReply; V6 ipv6.ICMPTypeExtendedEchoReply] /\
      is_u16 (xrep_ID p) /\ is_u8 (xrep_Seq p) /\ 0 <= xrep_State p < 8
  | BodyTimestamp (Some p) =>
      typ ∈ [V4 ipv4.ICMPTypeTimestamp; V4 ipv4.ICMPTypeTimestampReply] /\
      is_u16 (ts_ID p) /\ is_u16 (ts_Seq p) /\ is_u32 (ts_Originate p) /\
      is_u32 (ts_Receive p) /\ is_u32 (ts_Transmit p)
  | BodyDstUnreach (Some p) =>
      typ ∈ [V4 ipv4.ICMPTypeDestinationUnreachable; V6 ipv6.ICMPTypeDestinationUnreachable] /\
      is_bytes (du_Data p) /\ Forall ext_typed (du_Extensions p)
  | BodyTimeExceeded (Some p) =>
      typ ∈ [V4 ipv4.ICMPTypeTimeExceeded; V6 ipv6.ICMPTypeTimeExceeded] /\
      is_bytes (te_Data p) /\ Forall ext_typed (te_Extensions p)
  | BodyParamProb (Some p) =>
      typ ∈ [V4 ipv4.ICMPTypeParameterProblem; V6 ipv6.ICMPTypeParameterProblem] /\
      is_u32 (pp_Pointer p) /\ is_bytes (pp_Data p) /\ Forall ext_typed (pp_Extensions p)
  | BodyPacketTooBig (Some p) =>
      typ = V6 ipv6.ICMPTypePacketTooBig /\ is_u32 (ptb_MTU p) /\ is_bytes (ptb_Data p)
  | _ => False
  end.

Definition message_typed (proto : Z) (m : Message) : Prop :=
  (exists t, is_u8 t /\ ((proto = 1 /\ m_Type m = V4 t) \/ (proto = 58 /\ m_Type m = V6 t))) /\
  is_u8 (m_Code m) /\ is_u16 (m_Checksum m) /\
  exists body, m_Body m = Some body /\ body_typed (m_Type m) body.

(** ** What a checked read delivers *)

Lemma is_bytes_copy dst src : is_bytes dst -> is_bytes src -> is_bytes (copy dst src).
Proof.
  intros. unfold copy. apply is_bytes_app. eauto with bytes.
Qed.

Section Reads.
Context {E : Type}.

Lemma at_typed b i x : is_bytes b -> at_ b i = (Ok x : result E Z) -> is_u8 x.
Proof.
  unfold at_. intros Hb. destruct (b !! i) eqn:Hi; [|done]. intros [= <-].
  by eapply is_bytes_lookup.
Qed.

Lemma slice_to_typed b n w : is_bytes b -> slice_to b n = (Ok w : result E bytes) -> is_bytes w.
Proof. unfold slice_to. intros Hb. case_decide; [|done]. intros [= <-]. eauto with bytes. Qed.

Lemma slice_from_typed b n w : is_bytes b -> slice_from b n = (Ok w : result E bytes) -> is_bytes w.
Proof. unfold slice_from. intros Hb. case_decide; [|done]. intros [= <-]. eauto with bytes. Qed.

Lemma slice_typed b lo hi w : is_bytes b -> slice b lo hi = (Ok w : result E bytes) -> is_bytes w.
Proof. unfold slice. intros Hb. case_decide; [|done]. intros [= <-]. eauto with bytes. Qed.

Lemma slice_to_length b n w : slice_to b n = (Ok w : result E bytes) -> length w = n.
Proof. unfold slice_to. case_decide; [|done]. intros [= <-]. len. Qed.

Lemma uint16_typed b v : is_bytes b -> uint16 b = (Ok v : result E Z) -> is_u16 v.
Proof.
  intros Hb H. destruct (uint16_returns (E:=E) b Hb) as (v' & Hv & Hr).
  { destruct b as [|? [|? ?]]; try discriminate H. simpl. lia. }
  rewrite Hv in H. apply Ok_inj in H. by subst.
Qed.

Lemma uint32_typed b v : is_bytes b -> uint32 b = (Ok v : result E Z) -> is_u32 v.
Proof.
  intros Hb H. destruct (uint32_returns (E:=E) b Hb) as (v' & Hv & Hr).
  { destruct b as [|? [|? [|? [|? ?]]]]; try discriminate H. simpl. lia. }
  rewrite Hv in H. apply Ok_inj in H. by subst.
Qed.
End Reads.

(** Inverts a parser that returned, and types what it read. *)
Ltac typed_reads :=
  repeat match goal with
  | H : Ok _ = Ok _ |- _ => apply Ok_inj in H; subst
  | H : Err _ = Ok _ |- _ => discriminate H
  | H : Panic = Ok _ |- _ => discriminate H
  | H : _ ≫= _ = Ok _ |- _ =>
      let x := fresh "x" in let Hx := fresh "Hx" in
      apply bind_Ok_inv in H as (x & Hx & H)
  | H : (if ?c then _ else _) = Ok _ |- _ => destruct c
  | Hb : is_bytes ?b, H : at_ ?b _ = Ok ?x |- _ => apply (at_typed b _ x Hb) in H
  | Hb : is_bytes ?b, H : slice_to ?b _ = Ok ?x |- _ => apply (slice_to_typed b _ x Hb) in H
  | Hb : is_bytes ?b, H : slice_from ?b _ = Ok ?x |- _ => apply (slice_from_typed b _ x Hb) in H
  | Hb : is_bytes ?b, H : slice ?b _ _ = Ok ?x |- _ => apply (slice_typed b _ _ x Hb) in H
  | Hb : is_bytes ?b, H : uint16 ?b = Ok ?x |- _ => apply (uint16_typed b x Hb) in H
  | Hb : is_bytes ?b, H : uint32 ?b = Ok ?x |- _ => apply (uint32_typed b x Hb) in H
  end.

(** ** Extension objects *)

Lemma lor_bound n a b :
  0 <= n -> 0 <= a < 2 ^ n -> 0 <= b < 2 ^ n -> 0 <= Z.lor a b < 2 ^ n.
Proof.
  intros Hn Ha Hb.
  assert (H : Z.land (Z.lor a b) (Z.ones n) = Z.lor a b).
  { rewrite Z.land_lor_distr_l, !Z.land_ones, !Z.mod_small by lia. done. }
  rewrite Z.land_ones in H by lia. rewrite <- H. apply Z.mod_pos_bound. lia.
Qed.

Lemma land_14_bound b : 0 <= Z.land b 14 < 16.
Proof.
  assert (H : Z.land b 14 = Z.land (Z.land b 14) (Z.ones 4)) by (by rewrite <- Z.land_assoc).
  rewrite Z.land_ones in H by lia. rewrite H. change (2 ^ 4) with 16. zdiv.
Qed.

Lemma parse_labels_typed b : is_bytes b -> Forall label_typed (mpls_parse_labels b).
Proof.
  revert b. fix IH 1. intros [|b0 [|b1 [|b2 [|b3 b]]]] Hb; try constructor.
  - do 4 (apply List.Forall_cons_iff in Hb as [? Hb]). unfold label_typed. cbn [ll_Label ll_TC ll_TTL].
    unfold is_u8 in *. pose proof (land_14_bound b2).
    rewrite !Z.shiftl_mul_pow2, !Z.shiftr_div_pow2 by lia.
    split; [|split; [|lia]].
    + apply lor_bound; [lia|apply lor_bound; lia|zdiv].
    + change (2 ^ 1) with 2. zdiv.
  - do 4 (apply List.Forall_cons_iff in Hb as [? Hb]). by apply IH.
Qed.

Lemma parseMPLS_typed b ls :
  is_bytes b -> parseMPLSLabelStack b = Ok ls ->
  is_u8 (ls_Class ls) /\ is_u8 (ls_Type ls) /\ Forall label_typed (ls_Labels ls).
Proof.
  intros Hb H. unfold parseMPLSLabelStack in H. typed_reads.
  split_and!; [done..|by apply parse_labels_typed].
Qed.

Lemma is_bytes_trim_left s : is_bytes s -> is_bytes (trim_left s).
Proof. induction 1 as [|c s Hc Hs IH]; [constructor|]. simpl. destruct c; [done|by constructor..]. Qed.

Lemma length_trim_left s : (length (trim_left s) <= length s)%nat.
Proof. induction s as [|c s IH]; [done|]. simpl. destruct c; simpl; lia. Qed.

Lemma is_bytes_Trim0 s : is_bytes s -> is_bytes (Trim0 s).
Proof.
  intros Hs. unfold Trim0, is_bytes. rewrite Forall_reverse. apply is_bytes_trim_left.
  unfold is_bytes. rewrite Forall_reverse. by apply is_bytes_trim_left.
Qed.

Lemma length_Trim0 s : (length (Trim0 s) <= length s)%nat.
Proof.
  unfold Trim0. rewrite length_reverse. etrans; [apply length_trim_left|].
  rewrite length_reverse. apply length_trim_left.
Qed.

Lemma parseIdent_typed b ifi :
  is_bytes b -> parseInterfaceIdent b = Ok ifi ->
  is_u8 (id_Class ifi) /\ is_u8 (id_Type ifi) /\ is_bytes (id_Name ifi) /\
  is_u32 (id_Index ifi) /\ is_u16 (id_AFI ifi) /\ is_bytes (id_Addr ifi) /\
  (length (id_Addr ifi) < 256)%nat.
Proof.
  intros Hb H. unfold parseInterfaceIdent in H.
  assert (H32 : is_u32 0) by (unfold is_u32; lia). assert (H16 : is_u16 0) by (unfold is_u16; lia).
  assert (Hnil : is_bytes []) by constructor.
  typed_reads; simpl; split_and!; try done; try lia.
  - by apply is_bytes_Trim0.
  - apply is_bytes_copy; eauto with bytes.
  - rewrite length_copy, length_zeros. unfold is_u8 in *. lia.
Qed.

(** The parsers of one attribute keep the value typed and the rest bytes. *)
Definition attr_typed (parse : InterfaceInfo -> bytes -> icmp (InterfaceInfo * bytes)) : Prop :=
  forall ifi b ifi' b', info_typed ifi -> is_bytes b -> parse ifi b = Ok (ifi', b') ->
    info_typed ifi' /\ is_bytes b' /\ ifi_Class ifi' = ifi_Class ifi.

Lemma set_ip_typed ifi ip ifi' :
  info_typed ifi -> ip_typed ip -> set_ip ifi ip = Ok ifi' ->
  info_typed ifi' /\ ifi_Class ifi' = ifi_Class ifi.
Proof.
  intros (Hc & Ht & Hi & Ha) Hip. unfold set_ip. destruct (ifi_Addr ifi); [|done].
  intros H%Ok_inj. subst ifi'. split; [|done]. split_and!; [done..|].
  intros a [= <-]. done.
Qed.

Lemma parseIfIndex_typed : attr_typed parseIfIndex.
Proof.
  intros ifi b ifi' b' (Hc & Ht & Hi & Ha) Hb H. unfold parseIfIndex in H.
  destruct (ifi_Interface ifi) as [i|] eqn:Hifi; typed_reads. injection H as <- <-.
  destruct (Hi i eq_refl) as (? & ? & ? & ?). split_and!; try done.
  split_and!; [done|done| |done]. intros j [= <-]. by split_and!.
Qed.

Lemma parseMTU_typed : attr_typed parseMTU.
Proof.
  intros ifi b ifi' b' (Hc & Ht & Hi & Ha) Hb H. unfold parseMTU in H.
  destruct (ifi_Interface ifi) as [i|] eqn:Hifi; typed_reads. injection H as <- <-.
  destruct (Hi i eq_refl) as (? & ? & ? & ?). split_and!; try done.
  split_and!; [done|done| |done]. intros j [= <-]. by split_and!.
Qed.

Lemma parseName_typed : attr_typed parseName.
Proof.
  intros ifi b ifi' b' (Hc & Ht & Hi & Ha) Hb H. unfold parseName in H.
  destruct (ifi_Interface ifi) as [i|] eqn:Hifi; typed_reads. injection H as <- <-.
  destruct (Hi i eq_refl) as (? & ? & ? & ?). split_and!; try done.
  split_and!; [done|done| |done]. intros j [= <-]. split_and!; [done|done| |].
  - apply is_bytes_Trim0, is_bytes_copy; eauto with bytes.
  - cbn [if_Name]. etrans; [apply length_Trim0|]. by rewrite length_copy, length_zeros.
Qed.

Lemma parseIPAddr_typed : attr_typed parseIPAddr.
Proof.
  intros ifi b ifi' b' Hifi Hb H. unfold parseIPAddr in H.
  repeat match type of H with
  | (if _ then _ else _) = _ => case_decide
  | _ ≫= _ = Ok _ => apply bind_Ok_inv in H as (? & ? & H)
  end; try discriminate H; apply Ok_inj in H; injection H as <- <-.
  all: repeat match goal with
  | Hs : slice_to _ ?n = Ok ?w, Hw : is_bytes _ |- _ =>
      lazymatch goal with
      | _ : length w = n |- _ => fail
      | _ => pose proof (slice_to_length _ _ _ Hs)
      end
  end; typed_reads.
  all: try (by split_and!).
  all: match goal with
    | Hs : set_ip ?i0 ?ip = Ok ?i, Hip : is_bytes ?ip, Hl : length ?ip = _ |- _ =>
        assert (Hty : ip_typed ip) by (split; [done|rewrite Hl; auto]);
        destruct (set_ip_typed i0 ip i Hifi Hty Hs) as [? ?]
    end; by split_and!.
Qed.

Lemma info_loop_typed fuel attrs ifi b ifi' :
  info_typed ifi -> is_bytes b -> info_parse_loop fuel attrs ifi b = Ok ifi' ->
  info_typed ifi' /\ ifi_Class ifi' = ifi_Class ifi.
Proof.
  revert attrs ifi b. induction fuel as [|fuel IH]; intros attrs ifi b Hi Hb; cbn [info_parse_loop];
    (destruct ((length b =? 0)%nat || (attrs =? 0)); [by intros [= <-]|]); [done|].
  assert (Hstep : forall parse a, attr_typed parse ->
    ('(ifi, b) ← parse ifi b; info_parse_loop fuel (Z.ldiff attrs a) ifi b) = Ok ifi' ->
    info_typed ifi' /\ ifi_Class ifi' = ifi_Class ifi).
  { intros parse a Hp H. apply bind_Ok_inv in H as ([i b'] & H1 & H).
    destruct (Hp ifi b i b' Hi Hb H1) as (Hi' & Hb' & <-). by eapply IH. }
  destruct (has_attr attrs attrIfIndex); [apply Hstep, parseIfIndex_typed|].
  destruct (has_attr attrs attrIPAddr); [apply Hstep, parseIPAddr_typed|].
  destruct (has_attr attrs attrName); [apply Hstep, parseName_typed|].
  destruct (has_attr attrs attrMTU); [apply Hstep, parseMTU_typed|]. by apply IH.
Qed.

Lemma parseInfo_typed b ifi :
  is_bytes b -> parseInterfaceInfo b = Ok ifi -> info_typed ifi /\ at_ b 2 = (Ok (ifi_Class ifi) : icmp Z).
Proof.
  intros Hb H. unfold parseInterfaceInfo in H.
  apply bind_Ok_inv in H as (cls & Hcls & H). apply bind_Ok_inv in H as (typ & Htyp & H).
  apply bind_Ok_inv in H as (t & Ht & H). apply bind_Ok_inv in H as (i & Hi & H%Ok_inj).
  pose proof (at_typed _ _ _ Hb Hcls). pose proof (at_typed _ _ _ Hb Htyp).
  pose proof (slice_from_typed _ _ _ Hb Ht) as Htb.
  assert (Hs : info_typed (info_start cls typ)).
  { split_and!; [done|done| |]; unfold info_start; cbn [ifi_Interface ifi_Addr].
    - intros j. case_match; [|done]. intros [= <-]. unfold interface_typed, is_u32. simpl.
      split_and!; (lia || constructor).
    - intros a. case_match; [|done]. intros [= <-]. split; [constructor|by left]. }
  destruct (info_loop_typed _ _ _ _ _ Hs Htb Hi) as [Hty Hcl].
  cbn [ifi_Class info_start] in Hcl. subst ifi. rewrite Hcls, <- Hcl.
  pose proof Hty as (Hc & Ht' & Hif & Ha). unfold info_set_zone.
  destruct (ifi_Interface i) as [j|] eqn:Hj; [|by split].
  destruct (ifi_Addr i) as [a|] eqn:Haddr; [|by split]. case_decide; [|by split].
  split; [|done]. split_and!; cbn [ifi_Class ifi_Type ifi_Interface ifi_Addr]; [done|done| |].
  - intros k [= <-]. by apply Hif.
  - intros k [= <-]. cbn [ip_IP]. by apply Ha.
Qed.

Lemma parse_object_typed cls obj e :
  is_bytes obj -> at_ obj 2 = (Ok cls : icmp Z) -> parse_object cls obj = Ok e -> ext_typed e.
Proof.
  intros Hb Hcls H. unfold parse_object in H.
  case_decide as H1; [|case_decide as H2; [|case_decide as H3]].
  - apply bind_Ok_inv in H as (ls & Hls & H%Ok_inj). subst e.
    pose proof (parseMPLS_typed _ _ Hb Hls) as (? & ? & ?). split_and!; try done.
    unfold parseMPLSLabelStack in Hls. rewrite Hcls, bind_Ok in Hls.
    apply bind_Ok_inv in Hls as (? & ? & Hls). apply bind_Ok_inv in Hls as (? & ? & Hls%Ok_inj).
    by subst ls.
  - apply bind_Ok_inv in H as (i & Hi & H%Ok_inj). subst e.
    destruct (parseInfo_typed _ _ Hb Hi) as [Ht Hc]. split; [|done].
    rewrite Hcls in Hc. apply Ok_inj in Hc. congruence.
  - apply bind_Ok_inv in H as (i & Hi & H%Ok_inj). subst e.
    pose proof (parseIdent_typed _ _ Hb Hi) as (? & ? & ? & ? & ? & ? & ?). split_and!; try done.
    unfold parseInterfaceIdent in Hi. rewrite Hcls, bind_Ok in Hi.
    apply bind_Ok_inv in Hi as (typ & _ & Hi).
    repeat match type of Hi with
    | (if _ then _ else _) = _ => case_decide
    | _ ≫= _ = Ok _ => apply bind_Ok_inv in Hi as (? & ? & Hi)
    end; try discriminate Hi; apply Ok_inj in Hi; by subst i.
  - apply Ok_inj in H. subst e. eexists. split; [done|].
    apply is_bytes_copy; eauto with bytes.
Qed.

Lemma parse_objects_typed fuel b exts :
  is_bytes b -> parse_objects fuel b = Ok exts -> Forall ext_typed exts.
Proof.
  revert b exts. induction fuel as [|fuel IH]; intros b exts Hb; cbn [parse_objects];
    (destruct (decide (length b < 4)%nat); [intros H%Ok_inj; subst; constructor|]); [done|].
  intros H. apply bind_Ok_inv in H as (w & _ & H). apply bind_Ok_inv in H as (ol & _ & H).
  case_decide as Hol; [apply Ok_inj in H; subst; constructor|].
  apply bind_Ok_inv in H as (obj & Hobj & H). apply bind_Ok_inv in H as (cls & Hcls & H).
  apply bind_Ok_inv in H as (e & He & H). apply bind_Ok_inv in H as (t & Ht & H).
  apply bind_Ok_inv in H as (es & Hes & H%Ok_inj). subst exts.
  pose proof (slice_to_length _ _ _ Hobj) as Hlen.
  assert (Hcls' : at_ obj 2 = (Ok cls : icmp Z)).
  { unfold slice_to in Hobj. case_decide; [|done]. apply Ok_inj in Hobj. subst obj.
    unfold at_ in *. rewrite lookup_take_lt by lia. done. }
  constructor.
  - eapply (parse_object_typed cls obj); [by eapply slice_to_typed|done|done].
  - eapply IH; [|exact Hes]. by eapply slice_from_typed.
Qed.

(** ** Bodies and messages *)

Lemma parse_multipart_typed proto typ b data exts :
  is_bytes b -> (4 <= length b)%nat -> parseMultipartMessageBody proto typ b = Ok (data, exts) ->
  is_bytes data /\ Forall ext_typed exts.
Proof.
  intros Hb Hl H.
  destruct (parse_multipart_returns proto typ b Hb Hl) as (d & es & He & Hpre).
  rewrite He in H. apply Ok_inj in H. injection H as -> ->. split.
  { destruct Hpre as [k Hk]. apply (is_bytes_drop 4) in Hb. rewrite Hk in Hb.
    by apply is_bytes_app in Hb as [? _]. }
  unfold parseMultipartMessageBody in He. apply bind_Ok_inv in He as (l & _ & He).
  case_decide; [apply Ok_inj in He; injection He as _ <-; constructor|].
  apply bind_Ok_inv in He as (t & Ht & He). apply bind_Ok_inv in He as ([es l'] & Hp & He).
  assert (Hexts : exts = es) by (case_decide; apply Ok_inj in He; by injection He as _ <-).
  subst es. pose proof (slice_from_typed _ _ _ Hb Ht) as Htb.
  unfold parseExtensions in Hp.
  destruct (extensions_offset_cases typ t l Htb) as [E|(n & E & _)]; rewrite E in Hp; cbn in Hp.
  { apply Ok_inj in Hp. injection Hp as <- _. constructor. }
  destruct (slice_from t (n + 4)) as [u| | |] eqn:Hu; try discriminate Hp; cbn in Hp.
  2: { apply Ok_inj in Hp. injection Hp as <- _. constructor. }
  destruct (parse_objects (length u) u) as [es| | |] eqn:Hes; try discriminate Hp; cbn in Hp.
  - apply Ok_inj in Hp. injection Hp as <- _.
    eapply parse_objects_typed; [|exact Hes]. by eapply slice_from_typed.
  - apply Ok_inj in Hp. injection Hp as <- _. constructor.
Qed.

(** *** The parsers of the bodies *)
Section Bodies.
Context (proto : Z) (typ : MsgType) (b : bytes) (Hb : is_bytes b).

Lemma is_bytes_nil : is_bytes [].
Proof. constructor. Qed.
#[local] Hint Resolve is_bytes_nil : core.

Lemma parseEcho_typed p :
  parseEcho proto typ b = Ok p ->
  is_u16 (echo_ID p) /\ is_u16 (echo_Seq p) /\ is_bytes (echo_Data p).
Proof.
  intros H. unfold parseEcho in H. typed_reads; split_and!; try done.
  apply is_bytes_copy; eauto with bytes.
Qed.

Lemma parseExtendedEchoRequest_typed p :
  parseExtendedEchoRequest proto typ b = Ok p ->
  is_u16 (xreq_ID p) /\ is_u8 (xreq_Seq p) /\ Forall ext_typed (xreq_Extensions p).
Proof.
  intros H. unfold parseExtendedEchoRequest in H. case_decide; [done|].
  typed_reads. destruct x3 as [data exts]. apply Ok_inj in H. subst p.
  split_and!; [done|done|]. by eapply parse_multipart_typed; [| |eassumption]; (done || lia).
Qed.

Lemma parseExtendedEchoReply_typed p :
  parseExtendedEchoReply proto typ b = Ok p ->
  is_u16 (xrep_ID p) /\ is_u8 (xrep_Seq p) /\ 0 <= xrep_State p < 8.
Proof.
  intros H. unfold parseExtendedEchoReply in H. typed_reads.
  split_and!; cbn [xrep_ID xrep_Seq xrep_State]; try done; rewrite Z.shiftr_div_pow2 by lia;
    unfold is_u8 in *; change (2 ^ 5) with 32; zdiv.
Qed.

Lemma parseTimestamp_typed p :
  parseTimestamp proto typ b = Ok p ->
  is_u16 (ts_ID p) /\ is_u16 (ts_Seq p) /\ is_u32 (ts_Originate p) /\
  is_u32 (ts_Receive p) /\ is_u32 (ts_Transmit p).
Proof. intros H. unfold parseTimestamp in H. by typed_reads. Qed.

Lemma parseDstUnreach_typed p :
  parseDstUnreach proto typ b = Ok p -> is_bytes (du_Data p) /\ Forall ext_typed (du_Extensions p).
Proof.
  intros H. unfold parseDstUnreach in H. case_decide; [done|].
  apply bind_Ok_inv in H as ([data exts] & Hm & H%Ok_inj). subst p.
  eapply parse_multipart_typed; [| |exact Hm]; (done || lia).
Qed.

Lemma parseTimeExceeded_typed p :
  parseTimeExceeded proto typ b = Ok p -> is_bytes (te_Data p) /\ Forall ext_typed (te_Extensions p).
Proof.
  intros H. unfold parseTimeExceeded in H. case_decide; [done|].
  apply bind_Ok_inv in H as ([data exts] & Hm & H%Ok_inj). subst p.
  eapply parse_multipart_typed; [| |exact Hm]; (done || lia).
Qed.

Lemma parseParamProb_typed p :
  parseParamProb proto typ b = Ok p ->
  is_u32 (pp_Pointer p) /\ is_bytes (pp_Data p) /\ Forall ext_typed (pp_Extensions p).
Proof.
  intros H. unfold parseParamProb in H. case_decide as Hl; [done|]. case_decide.
  - typed_reads. split_and!; [done| |constructor]. apply is_bytes_copy; eauto with bytes.
  - apply bind_Ok_inv in H as (ptr & Hptr & H). apply (at_typed _ _ _ Hb) in Hptr.
    apply bind_Ok_inv in H as ([data exts] & Hm & H%Ok_inj). subst p.
    split; [unfold is_u8, is_u32 in *; simpl; lia|].
    eapply parse_multipart_typed; [| |exact Hm]; (done || lia).
Qed.

Lemma parsePacketTooBig_typed p :
  parsePacketTooBig proto typ b = Ok p -> is_u32 (ptb_MTU p) /\ is_bytes (ptb_Data p).
Proof.
  intros H. unfold parsePacketTooBig in H. typed_reads; split_and!; try done.
  apply is_bytes_copy; eauto with bytes.
Qed.

#[local] Hint Resolve parseEcho_typed parseExtendedEchoRequest_typed
  parseExtendedEchoReply_typed parseTimestamp_typed parseDstUnreach_typed
  parseTimeExceeded_typed parseParamProb_typed parsePacketTooBig_typed : core.

(** A parser of [parseFns], called on the types it is registered for. *)
Lemma parse_body_typed body : parse_body proto typ b = Ok body -> body_typed typ body.
Proof.
  unfold parse_body. destruct (parseFns typ) as [fn|] eqn:Hfn.
  2: { unfold parseRawBody. rewrite bind_Ok. intros H%Ok_inj. subst body. split; [done|].
       apply is_bytes_copy; eauto with bytes. }
  intros H. destruct typ as [t|t|] eqn:Ht; cbn [parseFns] in Hfn; [| |done]; rewrite <- Ht in *;
    repeat (case_decide; [injection Hfn as <-; unfold as_body in H;
      apply bind_Ok_inv in H as (p & Hp & H%Ok_inj); subst body; cbn [body_typed];
      repeat match goal with Ht : _ \/ _ |- _ => destruct Ht end; subst t;
      (split; [rewrite Ht; (set_solver || done)|eauto])|]); done.
Qed.
End Bodies.

Lemma parse_message_typed proto b m :
  is_bytes b -> ParseMessage proto b = Ok m -> message_typed proto m.
Proof.
  intros Hb H. unfold ParseMessage in H. case_decide; [done|].
  apply bind_Ok_inv in H as (code & Hcode & H). apply bind_Ok_inv in H as (w & Hw & H).
  apply bind_Ok_inv in H as (sum & Hsum & H). apply bind_Ok_inv in H as (b0 & Hb0 & H).
  apply bind_Ok_inv in H as (typ & Htyp & H). apply bind_Ok_inv in H as (t & Ht & H).
  apply bind_Ok_inv in H as (body & Hbody & H%Ok_inj). subst m. unfold message_typed.
  cbn [m_Type m_Code m_Checksum m_Body]. split_and!.
  - exists b0. split; [by eapply at_typed|]. unfold message_type in Htyp.
    case_decide as H1; [left; apply Ok_inj in Htyp; by subst|].
    case_decide as H2; [right; apply Ok_inj in Htyp; by subst|done].
  - by eapply at_typed.
  - eapply uint16_typed; [|exact Hsum]. by eapply slice_typed.
  - exists body. split; [done|]. eapply parse_body_typed; [|exact Hbody].
    by eapply slice_from_typed.
Qed.

(** C16: what ParseMessage returns is typed: on any packet, if it returns a message, then the
    type is of the protocol, code and checksum have their widths, and the body is the one
    that belongs to the type, never nil, with every number in the range of its field and
    every extension object in the class it came under, down to 20-bit labels, names of at
    most 63 bytes and addresses of 4 or 16 bytes. *)
Theorem ParseMessage_typed proto b m :
  is_bytes b -> ParseMessage proto b = Ok m -> message_typed proto m.
Proof. apply parse_message_typed. Qed.

(** The time stamp reply the pinger asserts the body of. *)
Lemma timestamp_reply_body proto b m :
  is_bytes b -> ParseMessage proto b = Ok m -> m_Type m = V4 ipv4.ICMPTypeTimestampReply ->
  exists ts, m_Body m = Some (BodyTimestamp (Some ts)).
Proof.
  intros Hb Hm Ht. destruct (parse_message_typed proto b m Hb Hm) as (_ & _ & _ & body & -> & H).
  rewrite Ht in H.
  destruct body as [[]|[]|[]|[]|[ts|]|[]|[]|[]|[]]; cbn [body_typed] in H; try done;
    first [by eexists | destruct H as [H _]; first [discriminate H | set_solver]].
Qed.

(** An IPv4 time exceeded message without a datagram. *)
Definition time_exceeded_packet : bytes := [11; 0; 244; 255; 0; 0; 0; 0].

Lemma ParseMessage_typed_witness :
  exists m, ParseMessage 1 time_exceeded_packet = Ok m /\ message_typed 1 m.
Proof.
  assert (Hp : is_bytes time_exceeded_packet)
    by (repeat (apply List.Forall_cons; [unfold is_u8; lia|]); apply List.Forall_nil).
  eexists. split; [vm_compute; reflexivity|].
  apply (ParseMessage_typed 1 time_exceeded_packet _ Hp). vm_compute. reflexivity.
Defined.
