(* ===== verification/Platforms.v ===== *)
(** * Platforms and numbers of the package icmp (icmp/listen_posix.go: the constants;
    icmp/listen_stub.go; icmp/sys_freebsd.go)

    The protocol numbers and address families the package exports, the endpoint of a
    platform without sockets, and the version read at the start on FreeBSD. *)

From stdpp Require Import strings.
From S2P Require Import Prelude Bytes IcmpTypes Iface Ident.
Local Open Scope Z_scope.
Local Open Scope string_scope.

(** ** The exported numbers *)

(** The constants Protocol..., in their order. *)
Definition protocols : list (string * Z) :=
  [("ProtocolIP", 0); ("ProtocolHOPOPT", 0); ("ProtocolICMP", 1); ("ProtocolIGMP", 2);
   ("ProtocolGGP", 3); ("ProtocolIPv4", 4); ("ProtocolST", 5); ("ProtocolTCP", 6);
   ("ProtocolCBT", 7); ("ProtocolEGP", 8); ("ProtocolIGP", 9); ("ProtocolBBNRCCMON", 10);
   ("ProtocolNVPII", 11); ("ProtocolPUP", 12); ("ProtocolEMCON", 14); ("ProtocolXNET", 15);
   ("ProtocolCHAOS", 16); ("ProtocolUDP", 17); ("ProtocolMUX", 18); ("ProtocolDCNMEAS", 19);
   ("ProtocolHMP", 20); ("ProtocolPRM", 21); ("ProtocolXNSIDP", 22); ("ProtocolTRUNK1", 23);
   ("ProtocolTRUNK2", 24); ("ProtocolLEAF1", 25); ("ProtocolLEAF2", 26);
   ("ProtocolRDP", 27); ("ProtocolIRTP", 28); ("ProtocolISOTP4", 29);
   ("ProtocolNETBLT", 30); ("ProtocolMFENSP", 31); ("ProtocolMERITINP", 32);
   ("ProtocolDCCP", 33); ("Protocol3PC", 34); ("ProtocolIDPR", 35); ("ProtocolXTP", 36);
   ("ProtocolDDP", 37); ("ProtocolIDPRCMTP", 38); ("ProtocolTPPP", 39); ("ProtocolIL", 40);
   ("ProtocolIPv6", 41); ("ProtocolSDRP", 42); ("ProtocolIPv6Route", 43);
   ("ProtocolIPv6Frag", 44); ("ProtocolIDRP", 45); ("ProtocolRSVP", 46);
   ("ProtocolGRE", 47); ("ProtocolDSR", 48); ("ProtocolBNA", 49); ("ProtocolESP", 50);
   ("ProtocolAH", 51); ("ProtocolINLSP", 52); ("ProtocolNARP", 54); ("ProtocolMOBILE", 55);
   ("ProtocolTLSP", 56); ("ProtocolSKIP", 57); ("ProtocolIPv6ICMP", 58);
   ("ProtocolIPv6NoNxt", 59); ("ProtocolIPv6Opts", 60); ("ProtocolCFTP", 62);
   ("ProtocolSATEXPAK", 64); ("ProtocolKRYPTOLAN", 65); ("ProtocolRVD", 66);
   ("ProtocolIPPC", 67); ("ProtocolSATMON", 69); ("ProtocolVISA", 70); ("ProtocolIPCV", 71);
   ("ProtocolCPNX", 72); ("ProtocolCPHB", 73); ("ProtocolWSN", 74); ("ProtocolPVP", 75);
   ("ProtocolBRSATMON", 76); ("ProtocolSUNND", 77); ("ProtocolWBMON", 78);
   ("ProtocolWBEXPAK", 79); ("ProtocolISOIP", 80); ("ProtocolVMTP", 81);
   ("ProtocolSECUREVMTP", 82); ("ProtocolVINES", 83); ("ProtocolTTP", 84);
   ("ProtocolIPTM", 84); ("ProtocolNSFNETIGP", 85); ("ProtocolDGP", 86);
   ("ProtocolTCF", 87); ("ProtocolEIGRP", 88); ("ProtocolOSPFIGP", 89);
   ("ProtocolSpriteRPC", 90); ("ProtocolLARP", 91); ("ProtocolMTP", 92);
   ("ProtocolAX25", 93); ("ProtocolIPIP", 94); ("ProtocolSCCSP", 96);
   ("ProtocolETHERIP", 97); ("ProtocolENCAP", 98); ("ProtocolGMTP", 100);
   ("ProtocolIFMP", 101); ("ProtocolPNNI", 102); ("ProtocolPIM", 103);
   ("ProtocolARIS", 104); ("ProtocolSCPS", 105); ("ProtocolQNX", 106); ("ProtocolAN", 107);
   ("ProtocolIPComp", 108); ("ProtocolSNP", 109); ("ProtocolCompaqPeer", 110);
   ("ProtocolIPXinIP", 111); ("ProtocolVRRP", 112); ("ProtocolPGM", 113);
   ("ProtocolL2TP", 115); ("ProtocolDDX", 116); ("ProtocolIATP", 117); ("ProtocolSTP", 118);
   ("ProtocolSRP", 119); ("ProtocolUTI", 120); ("ProtocolSMP", 121); ("ProtocolPTP", 123);
   ("ProtocolISIS", 124); ("ProtocolFIRE", 125); ("ProtocolCRTP", 126);
   ("ProtocolCRUDP", 127); ("ProtocolSSCOPMCE", 128); ("ProtocolIPLT", 129);
   ("ProtocolSPS", 130); ("ProtocolPIPE", 131); ("ProtocolSCTP", 132); ("ProtocolFC", 133);
   ("ProtocolRSVPE2EIGNORE", 134); ("ProtocolMobilityHeader", 135);
   ("ProtocolUDPLite", 136); ("ProtocolMPLSinIP", 137); ("ProtocolMANET", 138);
   ("ProtocolHIP", 139); ("ProtocolShim6", 140); ("ProtocolWESP", 141);
   ("ProtocolROHC", 142); ("ProtocolReserved", 255)].

(** The constants AddrFamily..., in their order. *)
Definition address_families : list (string * Z) :=
  [("AddrFamilyIPv4", 1); ("AddrFamilyIPv6", 2); ("AddrFamilyNSAP", 3);
   ("AddrFamilyHDLC", 4); ("AddrFamilyBBN1822", 5); ("AddrFamily802", 6);
   ("AddrFamilyE163", 7); ("AddrFamilyE164", 8); ("AddrFamilyF69", 9);
   ("AddrFamilyX121", 10); ("AddrFamilyIPX", 11); ("AddrFamilyAppletalk", 12);
   ("AddrFamilyDecnetIV", 13); ("AddrFamilyBanyanVines", 14);
   ("AddrFamilyE164withSubaddress", 15); ("AddrFamilyDNS", 16);
   ("AddrFamilyDistinguishedName", 17); ("AddrFamilyASNumber", 18);
   ("AddrFamilyXTPoverIPv4", 19); ("AddrFamilyXTPoverIPv6", 20);
   ("AddrFamilyXTPnativemodeXTP", 21); ("AddrFamilyFibreChannelWorldWidePortName", 22);
   ("AddrFamilyFibreChannelWorldWideNodeName", 23); ("AddrFamilyGWID", 24);
   ("AddrFamilyL2VPN", 25); ("AddrFamilyMPLSTPSectionEndpointID", 26);
   ("AddrFamilyMPLSTPLSPEndpointID", 27); ("AddrFamilyMPLSTPPseudowireEndpointID", 28);
   ("AddrFamilyMTIPv4", 29); ("AddrFamilyMTIPv6", 30);
   ("AddrFamilyEIGRPCommonServiceFamily", 16384);
   ("AddrFamilyEIGRPIPv4ServiceFamily", 16385); ("AddrFamilyEIGRPIPv6ServiceFamily", 16386);
   ("AddrFamilyLISPCanonicalAddressFormat", 16387); ("AddrFamilyBGPLS", 16388);
   ("AddrFamily48bitMAC", 16389); ("AddrFamily64bitMAC", 16390); ("AddrFamilyOUI", 16391);
   ("AddrFamilyMACFinal24bits", 16392); ("AddrFamilyMACFinal40bits", 16393);
   ("AddrFamilyIPv6Initial64bits", 16394); ("AddrFamilyRBridgePortID", 16395);
   ("AddrFamilyTRILLNickname", 16396)].

(** ** Other platforms *)

(** [ListenPacket] where there are no sockets. *)
Definition ListenPacket_stub {A} (network address : bytes) : icmp A := Err errNotImplemented.

(** [func init()] on FreeBSD: the answer of the sysctl kern.osreldate; its error is dropped
    and leaves 0. *)
Definition freebsdVersion_init (osreldate : option Z) : Z := default 0 osreldate.

(** ** Lemmas *)

(** The names a table gives a number. *)
Definition names_of (table : list (string * Z)) (n : Z) : list string :=
  map fst (filter (fun p => snd p = n) table).

(** An interface identification by address, of a family. *)
Definition ident_of_family (afi : Z) (addr : bytes) : InterfaceIdent :=
  mkInterfaceIdent classInterfaceIdent typeInterfaceByAddress [] 0 afi addr.

Lemma protocols_check :
  bool_decide (NoDup (map fst protocols)) &&
  forallb (fun p => bool_decide (0 <= snd p < 256) &&
    (bool_decide (names_of protocols (snd p) = [fst p]) || bool_decide (snd p = 0) ||
     bool_decide (snd p = 84))) protocols = true.
Proof. vm_compute. reflexivity. Qed.

Lemma families_check :
  bool_decide (NoDup (map fst address_families)) &&
  forallb (fun p => bool_decide (0 <= snd p < 65536) &&
    bool_decide (names_of address_families (snd p) = [fst p])) address_families = true.
Proof. vm_compute. reflexivity. Qed.

(** ** Properties *)

(** The exported numbers: a protocol number fits the protocol byte of an IP header and
    names one protocol, except 0 and 84, which each name two; an address family fits the
    16 bits it has in an interface identification and is unambiguous, and so an
    identification by an address of any of the families is encoded and decoded to itself. *)
Lemma exported_numbers :
  (forall name n, (name, n) ∈ protocols ->
     is_u8 n /\ (n <> 0 -> n <> 84 -> names_of protocols n = [name])) /\
  names_of protocols 0 = ["ProtocolIP"; "ProtocolHOPOPT"] /\
  names_of protocols 84 = ["ProtocolTTP"; "ProtocolIPTM"] /\
  (forall name n, (name, n) ∈ address_families ->
     is_u16 n /\ names_of address_families n = [name] /\
     forall proto addr, is_bytes addr -> (List.length addr <= 255)%nat ->
       exists b, InterfaceIdent_Marshal proto (ident_of_family n addr) = Ok b /\
         parseInterfaceIdent b = Ok (ident_of_family n addr)).
Proof.
  pose proof protocols_check as [_ Hp]%andb_prop. pose proof families_check as [_ Hf]%andb_prop.
  rewrite forallb_forall in Hp, Hf. split_and!.
  - intros name n Hin%list_elem_of_In. specialize (Hp _ Hin). cbn [fst snd] in Hp.
    apply andb_prop in Hp as [Hr%bool_decide_eq_true Ho]. split; [done|]. intros H0 H84.
    rewrite (bool_decide_eq_false_2 (n = 0)), (bool_decide_eq_false_2 (n = 84)) in Ho by done.
    rewrite !orb_false_r in Ho. by apply bool_decide_eq_true in Ho.
  - vm_compute. reflexivity.
  - vm_compute. reflexivity.
  - intros name n Hin%list_elem_of_In. specialize (Hf _ Hin). cbn [fst snd] in Hf.
    apply andb_prop in Hf as [Hr%bool_decide_eq_true Hn%bool_decide_eq_true].
    split_and!; [done..|]. intros proto addr Ha Hl.
    assert (Hwf : wf_ident proto (ident_of_family n addr)).
    { unfold wf_ident, ident_of_family, is_u8. cbn [id_Class id_Type id_AFI id_Addr id_Name id_Index].
      split_and!; done || lia. }
    exists (ident_wire proto (ident_of_family n addr)). split; [|by apply parse_ident_wire].
    unfold InterfaceIdent_Marshal. pose proof (ident_marshal_frame proto _ [] Hwf) as Hm.
    by rewrite !app_nil_r in Hm.
Qed.
