(* ===== verification/Listen.v ===== *)
(** * ICMP endpoints (icmp/listen_posix.go, icmp/helper_posix.go, icmp/endpoint.go)

    How an endpoint is opened: the choice of the address family and of the ICMP
    version from the network name, the resolution of the listening address into a
    socket address, and the system calls with the descriptors they open and close on
    every path; then the methods of the endpoint, which guard an unopened one.

    What the system answers to each call is an argument: the model follows the code
    on every combination of answers. *)

From Stdlib Require Import String.
From stdpp Require Import gmap.
From S2P Require Import Prelude Bytes IcmpTypes Iface.
Local Open Scope Z_scope.

(** ** Strings *)

(** The loop of [last] from index [i], downwards. *)
Fixpoint last_loop (i : nat) (s : bytes) (b : Z) : Z :=
  match i with
  | O => -1
  | S i => if decide (s !! i = Some b) then Z.of_nat i else last_loop i s b
  end.

(** [func last(s string, b byte) int] *)
Definition last (s : bytes) (b : Z) : Z := last_loop (List.length s) s b.

Definition is_ascii_digit (c : Z) : bool := (48 <=? c) && (c <=? 57).

Fixpoint atoi_digits (acc : Z) (s : bytes) : option Z :=
  match s with
  | [] => Some acc
  | c :: s => if is_ascii_digit c then atoi_digits (acc * 10 + (c - 48)) s else None
  end.

(** [strconv.Atoi(s)]: an optional sign and decimal digits, within int64; [None] is an
    error. *)
Definition Atoi (s : bytes) : option Z :=
  let '(sign, ds) :=
    match s with
    | 43 :: ds => (1, ds)
    | 45 :: ds => (-1, ds)
    | _ => (1, s)
    end in
  match ds with
  | [] => None
  | _ =>
      n ← atoi_digits 0 ds;
      if decide (- 2 ^ 63 <= sign * n < 2 ^ 63) then Some (sign * n) else None
  end.

(** ** Addresses *)

(** The values of Linux. *)
Definition AF_INET : Z := 2.
Definition AF_INET6 : Z := 10.
Definition SOCK_DGRAM : Z := 2.
Definition sysIP_STRIPHDR : Z := 23.

(** [syscall.Sockaddr] *)
Inductive Sockaddr :=
  | SockaddrInet4 (addr : bytes)
  | SockaddrInet6 (zone : Z) (addr : bytes).

(** Why an endpoint could not be opened. *)
Inductive listen_error :=
  | ErrSyscall (name : string)
  | ErrResolve
  | ErrInvalidAddr (reason : string)
  | ErrConn.

Definition IPv4zero : bytes := v4InV6Prefix ++ [0; 0; 0; 0].
Definition IPv6unspecified : bytes := zeros 16.

(** [ip.Equal(x)] of package net: a 4-byte address equals its 16-byte form. *)
Definition IP_Equal (ip x : bytes) : bool :=
  if decide (List.length ip = List.length x) then bool_decide (ip = x)
  else if decide (List.length ip = 4 /\ List.length x = 16)%nat
  then bool_decide (take 12 x = v4InV6Prefix /\ ip = drop 12 x)
  else if decide (List.length ip = 16 /\ List.length x = 4)%nat
  then bool_decide (take 12 ip = v4InV6Prefix /\ drop 12 ip = x)
  else false.

(** What the system answers: [InterfaceByName] gives the index of a known interface,
    [ResolveIPAddr] the address of a name, [Socket] and the two ways to make a
    connection a descriptor; the other calls succeed or not. *)
Record answers := mkAnswers {
  an_darwin : bool;
  an_interface : bytes -> option Z;
  an_resolve : string -> bytes -> option net_IPAddr;
  an_socket : option nat;
  an_setsockopt : bool;
  an_bind : bool;
  an_file_conn : option nat;
  an_listen : option nat;
}.

(** [func zoneToUint32(zone string) uint32] *)
Definition zoneToUint32 (an : answers) (zone : bytes) : Z :=
  match zone with
  | [] => 0
  | _ =>
      match an_interface an zone with
      | Some index => u32 index
      | None => match Atoi zone with Some n => u32 n | None => 0 end
      end
  end.

(** The case [syscall.AF_INET] of [sockaddr]. *)
Definition sockaddr4 (a : net_IPAddr) : result listen_error Sockaddr :=
  let ip := if decide (List.length (ip_IP a) = 0%nat) then IPv4zero else ip_IP a in
  match To4 ip with
  | None => Err (ErrInvalidAddr "non-ipv4 address")
  | Some ip => Ok (SockaddrInet4 (copy (zeros 4) ip))
  end.

(** The case [syscall.AF_INET6] of [sockaddr]. *)
Definition sockaddr6 (an : answers) (a : net_IPAddr) : result listen_error Sockaddr :=
  let ip := if decide (List.length (ip_IP a) = 0%nat) then IPv6unspecified else ip_IP a in
  let ip := if IP_Equal ip IPv4zero then IPv6unspecified else ip in
  match To16 ip with
  | None => Err (ErrInvalidAddr "non-ipv6 address")
  | Some ip =>
      match To4 ip with
      | Some _ => Err (ErrInvalidAddr "non-ipv6 address")
      | None => Ok (SockaddrInet6 (zoneToUint32 an (ip_Zone a)) (copy (zeros 16) ip))
      end
  end.

(** [func sockaddr(family int, address string) (syscall.Sockaddr, error)] *)
Definition sockaddr (an : answers) (family : Z) (address : bytes)
    : result listen_error Sockaddr :=
  if decide (family = AF_INET) then
    match an_resolve an "ip4" address with None => Err ErrResolve | Some a => sockaddr4 a end
  else if decide (family = AF_INET6) then
    match an_resolve an "ip6" address with None => Err ErrResolve | Some a => sockaddr6 an a end
  else Err (ErrInvalidAddr "unexpected family").

(** ** Opening an endpoint *)

(** [PacketConn]: the descriptor of the connection (an open interface value), and whether
    the IPv4 and the IPv6 wrapper of it exist. *)
Record PacketConn := mkPacketConn {
  pc_c : option nat;
  pc_p4 : bool;
  pc_p6 : bool;
}.

#[export] Instance PacketConn_eq_dec : EqDecision PacketConn.
Proof. solve_decision. Defined.

(** The switch on the network name: the family (0 when the name is no datagram network)
    and the protocol (0 when it is neither ICMP). *)
Definition network_proto (network : bytes) : Z * Z :=
  if decide (network = str "udp4") then (AF_INET, ProtocolICMP)
  else if decide (network = str "udp6") then (AF_INET6, ProtocolIPv6ICMP)
  else
    let i := last network 58 in
    let i := if decide (i < 0) then Z.of_nat (List.length network) else i in
    let name := take (Z.to_nat i) network in
    if decide (name = str "ip4") then (0, ProtocolICMP)
    else if decide (name = str "ip6") then (0, ProtocolIPv6ICMP)
    else (0, 0).

(** The open descriptors: opening adds one, closing removes it. *)
Abbreviation fds := (gset nat).

(** The branch that opens a datagram socket by hand. [os.NewFile] takes the descriptor
    over, [net.FilePacketConn] works on a copy of it, and [f.Close] closes the first. *)
Definition open_datagram (an : answers) (family proto : Z) (address : bytes) (open : fds)
    : result listen_error nat * fds :=
  match an_socket an with
  | None => (Err (ErrSyscall "socket"), open)
  | Some s =>
      let open := {[ s ]} ∪ open in
      if bool_decide (family = AF_INET) && an_darwin an && negb (an_setsockopt an)
      then (Err (ErrSyscall "setsockopt"), open ∖ {[ s ]})
      else
        match sockaddr an family address with
        | Err e => (Err e, open ∖ {[ s ]})
        | Panic => (Panic, open)
        | Diverge => (Diverge, open)
        | Ok sa =>
            if negb (an_bind an) then (Err (ErrSyscall "bind"), open ∖ {[ s ]})
            else
              match an_file_conn an with
              | Some c => (Ok c, ({[ c ]} ∪ open) ∖ {[ s ]})
              | None => (Err ErrConn, open ∖ {[ s ]})
              end
        end
  end.

(** [net.ListenPacket(network, address)] *)
Definition open_stdlib (an : answers) (open : fds) : result listen_error nat * fds :=
  match an_listen an with
  | Some c => (Ok c, {[ c ]} ∪ open)
  | None => (Err ErrConn, open)
  end.

(** [func ListenPacket(network, address string) ( *PacketConn, error)] *)
Definition ListenPacket (an : answers) (network address : bytes) (open : fds)
    : result listen_error PacketConn * fds :=
  let '(family, proto) := network_proto network in
  let '(c, open) :=
    if decide (family = AF_INET \/ family = AF_INET6)
    then open_datagram an family proto address open
    else open_stdlib an open in
  (c ← c;
   Ok (if decide (proto = ProtocolICMP) then mkPacketConn (Some c) true false
       else if decide (proto = ProtocolIPv6ICMP) then mkPacketConn (Some c) false true
       else mkPacketConn (Some c) false false), open).

(** ** The endpoint *)

(** [net.Addr] of a peer. *)
Abbreviation addr := net_IPAddr.

(** What the connection answers, per descriptor: [ReadFrom] on a buffer of some size,
    the same through the IPv4 wrapper, [WriteTo], [LocalAddr], [Close] and the
    deadlines; the error of another package is its code. *)
Record PacketOps := mkOps {
  op_ReadFrom : nat -> nat -> result Z (bytes * addr);
  op_p4_ReadFrom : nat -> nat -> result Z (bytes * addr);
  op_WriteTo : nat -> bytes -> addr -> result Z nat;
  op_LocalAddr : nat -> addr;
  op_Close : nat -> result Z unit;
  op_SetDeadline : nat -> result Z unit;
  op_SetReadDeadline : nat -> result Z unit;
  op_SetWriteDeadline : nat -> result Z unit;
}.

Definition external {A} (r : result Z A) : icmp A :=
  match r with Ok a => Ok a | Err e => Err (errExternal e) | Panic => Panic | Diverge => Diverge end.

(** [func (c *PacketConn) ok() bool], with the descriptor it vouches for. *)
Definition conn_ok (c : option PacketConn) : option nat := c ≫= pc_c.

Definition guarded {A} (c : option PacketConn) (f : nat -> result Z A) : icmp A :=
  match conn_ok c with None => Err errInvalidConn | Some d => external (f d) end.

Definition IPv4PacketConn (c : option PacketConn) : bool :=
  match conn_ok c, c with Some _, Some c => pc_p4 c | _, _ => false end.

Definition IPv6PacketConn (c : option PacketConn) : bool :=
  match conn_ok c, c with Some _, Some c => pc_p6 c | _, _ => false end.

(** [func (c *PacketConn) ReadFrom(b []byte) (int, net.Addr, error)] *)
Definition ReadFrom (darwin : bool) (ops : PacketOps) (c : option PacketConn) (size : nat)
    : icmp (bytes * addr) :=
  guarded c (fun d =>
    if darwin && IPv4PacketConn c then op_p4_ReadFrom ops d size else op_ReadFrom ops d size).

Definition WriteTo (ops : PacketOps) (c : option PacketConn) (b : bytes) (dst : addr)
    : icmp nat :=
  guarded c (fun d => op_WriteTo ops d b dst).

Definition Close (ops : PacketOps) (c : option PacketConn) : icmp unit :=
  guarded c (op_Close ops).

Definition LocalAddr (ops : PacketOps) (c : option PacketConn) : option addr :=
  op_LocalAddr ops <$> conn_ok c.

Definition SetDeadline (ops : PacketOps) (c : option PacketConn) : icmp unit :=
  guarded c (op_SetDeadline ops).

Definition SetReadDeadline (ops : PacketOps) (c : option PacketConn) : icmp unit :=
  guarded c (op_SetReadDeadline ops).

Definition SetWriteDeadline (ops : PacketOps) (c : option PacketConn) : icmp unit :=
  guarded c (op_SetWriteDeadline ops).

(** ** The network name *)

Lemma last_loop_spec i s b :
  (last_loop i s b = -1 /\ forall j, (j < i)%nat -> s !! j <> Some b) \/
  exists k, last_loop i s b = Z.of_nat k /\ (k < i)%nat /\ s !! k = Some b /\
    forall j, (k < j < i)%nat -> s !! j <> Some b.
Proof.
  induction i as [|i IH]; cbn [last_loop]; [left; split; [done|lia]|].
  case_decide as Hi.
  - right. exists i. split_and!; [done|lia|done|lia].
  - assert (Hnext : forall (P : nat -> Prop) j, (P j -> (j < i)%nat -> s !! j <> Some b) ->
      P j -> (j < S i)%nat -> s !! j <> Some b).
    { intros P j Hj Hp Hlt. destruct (decide (j = i)) as [->|]; [done|]. apply Hj; [done|lia]. }
    destruct IH as [[-> H]|(k & -> & Hk & Hs & H)]; [left|right].
    + split; [done|]. intros j. apply (Hnext (fun _ => True)); auto.
    + exists k. split_and!; [done|lia|done|]. intros j [Hj Hlt].
      apply (Hnext (fun j => (k < j)%nat)); auto.
Qed.

Lemma not_elem_of_lookup (s : bytes) b : (forall j, (j < List.length s)%nat -> s !! j <> Some b) -> b ∉ s.
Proof.
  intros H Hb. apply list_elem_of_lookup in Hb as [j Hj].
  apply (H j); [by eapply lookup_lt_Some|done].
Qed.

(** [last] splits a string at its last separator, or finds none. *)
Lemma last_split s b :
  (last s b = -1 /\ b ∉ s) \/
  exists p q, s = (p ++ b :: q) /\ last s b = Z.of_nat (List.length p) /\ b ∉ q.
Proof.
  unfold last. destruct (last_loop_spec (List.length s) s b) as [[-> H]|(k & -> & Hk & Hs & H)].
  - left. split; [done|]. by apply not_elem_of_lookup.
  - right. exists (take k s), (drop (S k) s). split_and!.
    + symmetry. by apply take_drop_middle.
    + rewrite length_take. lia.
    + apply not_elem_of_lookup. intros j Hj. rewrite lookup_drop. apply H.
      rewrite length_drop in Hj. lia.
Qed.

Lemma last_app p q b : b ∉ q -> last (p ++ b :: q) b = Z.of_nat (List.length p).
Proof.
  intros Hq. destruct (last_split (p ++ b :: q) b) as [[_ Hn]|(p' & q' & Hs & -> & Hq')].
  { destruct Hn. apply elem_of_app. right. by left. }
  assert (Hno : forall (u v u' v' : bytes), b ∉ v -> (u ++ b :: v) = (u' ++ b :: v') ->
    (List.length u' <= List.length u)%nat).
  { intros u v u' v' Hv He. destruct (decide (List.length u' <= List.length u)%nat) as [|Hlt];
      [done|]. destruct Hv. apply list_elem_of_lookup.
    exists (List.length u' - S (List.length u))%nat.
    assert (Hm : (u ++ b :: v) !! List.length u' = Some b)
      by (rewrite He; by apply list_lookup_middle).
    rewrite lookup_app_r in Hm by lia.
    replace (List.length u' - List.length u)%nat
      with (S (List.length u' - S (List.length u))) in Hm by lia. done. }
  f_equal. apply Nat.le_antisymm; [exact (Hno _ _ _ _ Hq Hs)|].
  exact (Hno _ _ _ _ Hq' (eq_sym Hs)).
Qed.

(** The part of the network name before the last colon. *)
Definition network_name (network : bytes) : bytes :=
  let i := last network 58 in
  take (Z.to_nat (if decide (i < 0) then Z.of_nat (List.length network) else i)) network.

Lemma network_name_spec network name :
  58 ∉ name ->
  network_name network = name <->
  (network = name \/ exists p, (58 ∉ p) /\ network = (name ++ 58 :: p)).
Proof.
  intros Hname. unfold network_name. split.
  - destruct (last_split network 58) as [[-> _]|(p & q & Hs & -> & Hq)].
    + rewrite decide_True, Nat2Z.id, take_ge by lia. auto.
    + rewrite decide_False, Nat2Z.id by lia. rewrite Hs, take_app_length. intros <-.
      right. by exists q.
  - intros [->|(p & Hp & ->)].
    + destruct (last_split name 58) as [[-> _]|(p & q & -> & _)].
      * rewrite decide_True, Nat2Z.id, take_ge by lia. done.
      * destruct Hname. apply elem_of_app. right. by left.
    + rewrite last_app, decide_False, Nat2Z.id by (done || lia). apply take_app_length.
Qed.

(** The names that select an ICMP version. *)
Definition names_version (datagram raw network : bytes) : Prop :=
  network = datagram \/ network = raw \/ exists p, (58 ∉ p) /\ network = (raw ++ 58 :: p).

Lemma network_proto_spec network :
  let '(family, proto) := network_proto network in
  (family = AF_INET <-> network = str "udp4") /\
  (family = AF_INET6 <-> network = str "udp6") /\
  (proto = ProtocolICMP <-> names_version (str "udp4") (str "ip4") network) /\
  (proto = ProtocolIPv6ICMP <-> names_version (str "udp6") (str "ip6") network).
Proof.
  pose proof (network_name_spec network (str "ip4")) as H4.
  pose proof (network_name_spec network (str "ip6")) as H6.
  specialize (H4 ltac:(by vm_compute; set_unfold; lia)).
  specialize (H6 ltac:(by vm_compute; set_unfold; lia)).
  assert (Hd : forall d raw, names_version d raw network <->
    network = d \/ (network = raw \/ exists p, (58 ∉ p) /\ network = (raw ++ 58 :: p))) by done.
  assert (E : network_proto network =
    if decide (network = str "udp4") then (AF_INET, ProtocolICMP)
    else if decide (network = str "udp6") then (AF_INET6, ProtocolIPv6ICMP)
    else if decide (network_name network = str "ip4") then (0, ProtocolICMP)
    else if decide (network_name network = str "ip6") then (0, ProtocolIPv6ICMP)
    else (0, 0)) by done.
  rewrite E. clear E.
  destruct (decide (network = str "udp4")) as [->|H1].
  { rewrite !Hd, <- H4, <- H6. vm_compute. intuition discriminate. }
  destruct (decide (network = str "udp6")) as [->|H2].
  { rewrite !Hd, <- H4, <- H6. vm_compute. intuition discriminate. }
  destruct (decide (network_name network = str "ip4")) as [E|E];
    [|destruct (decide (network_name network = str "ip6")) as [E'|E']];
    rewrite !Hd, <- H4, <- H6.
  - rewrite E. intuition discriminate.
  - rewrite E'. intuition discriminate.
  - intuition discriminate.
Qed.

(** ** Descriptors *)

(** The system hands out descriptors that are not open at that moment. *)
Definition fresh_answers (an : answers) (open : fds) : Prop :=
  (forall s, an_socket an = Some s -> s ∉ open) /\
  (forall s c, an_socket an = Some s -> an_file_conn an = Some c -> c ∉ ({[ s ]} ∪ open)) /\
  (forall c, an_listen an = Some c -> c ∉ open).

(** What a path did to the descriptors: a failure leaves what was open, a success adds
    the descriptor it returns. *)
Definition accounted {E A} (fd_of : A -> option nat) (open : fds) (r : result E A * fds) : Prop :=
  match r with
  | (Ok c, open') => exists d, fd_of c = Some d /\ (d ∉ open) /\ open' = ({[ d ]} ∪ open)
  | (Err _, open') => open' = open
  | _ => False
  end.

Lemma sockaddr_orderly an family address : orderly (sockaddr an family address).
Proof. unfold sockaddr, sockaddr4, sockaddr6. by repeat case_match. Qed.

Lemma close_fresh (s : nat) (open : fds) : s ∉ open -> ({[ s ]} ∪ open) ∖ {[ s ]} = open.
Proof. set_solver. Qed.

Lemma open_datagram_accounted an family proto address open :
  fresh_answers an open -> accounted Some open (open_datagram an family proto address open).
Proof.
  intros (Hs & Hc & _). unfold open_datagram.
  destruct (an_socket an) as [s|]; [|done]. specialize (Hs s eq_refl).
  case_match; [simpl; by apply close_fresh|].
  pose proof (sockaddr_orderly an family address) as Ho.
  destruct (sockaddr an family address) as [sa|e| |]; try done; [|simpl; by apply close_fresh].
  destruct (negb (an_bind an)); [simpl; by apply close_fresh|].
  destruct (an_file_conn an) as [c|]; [|simpl; by apply close_fresh].
  specialize (Hc s c eq_refl eq_refl). exists c. split_and!; [done|set_solver|].
  set_unfold. intros x. destruct (decide (x = c)); naive_solver.
Qed.

Lemma open_stdlib_accounted an open :
  fresh_answers an open -> accounted Some open (open_stdlib an open).
Proof.
  intros (_ & _ & Hl). unfold open_stdlib. destruct (an_listen an) as [c|]; [|done].
  exists c. split_and!; [done|by apply Hl|done].
Qed.

Lemma ListenPacket_accounted an network address open :
  fresh_answers an open -> accounted pc_c open (ListenPacket an network address open).
Proof.
  intros Hf. unfold ListenPacket. destruct (network_proto network) as [family proto].
  set (r := if decide _ then _ else _).
  assert (Hr : accounted Some open r).
  { unfold r. case_decide; [by apply open_datagram_accounted | by apply open_stdlib_accounted]. }
  destruct r as [[c|e| |] open']; try done.
  destruct Hr as (d & [= ->] & Hd & ->). exists d. split_and!; [|done|done].
  by repeat case_decide.
Qed.

(** ** Properties *)

(** C38: opening an endpoint leaks no descriptor: whatever the system answers to each call,
    a failure at any point leaves the open descriptors as they were, and a success adds
    exactly one, that of the endpoint (the socket the code made by hand is closed once
    the connection has its copy). The call returns on every network name and address. *)
Theorem listen_descriptor_accounting an network address open :
  fresh_answers an open ->
  match ListenPacket an network address open with
  | (Ok pc, open') => exists d, pc_c pc = Some d /\ (d ∉ open) /\ open' = ({[ d ]} ∪ open)
  | (Err _, open') => open' = open
  | _ => False
  end.
Proof. apply ListenPacket_accounted. Qed.

(** A Linux system that resolves every address to an IPv4 loopback: the socket is 3 and
    its copy 4. *)
Definition example_answers : answers :=
  mkAnswers false (fun _ => None)
    (fun _ _ => Some (mkIPAddr [127; 0; 0; 1] [])) (Some 3%nat) true true (Some 4%nat) (Some 5%nat).

Lemma listen_descriptor_accounting_witness :
  ListenPacket example_answers (str "udp4") (str "127.0.0.1") ∅
    = (Ok (mkPacketConn (Some 4%nat) true false), {[ 4%nat ]}) /\
  exists d, Some 4%nat = Some d /\ (d ∉ (∅ : fds)) /\ {[ 4%nat ]} = ({[ d ]} ∪ ∅ : fds).
Proof.
  assert (Hf : fresh_answers example_answers ∅).
  { split_and!.
    - intros s _. apply not_elem_of_empty.
    - intros s c Hs Hc. injection Hs as <-. injection Hc as <-. set_solver.
    - intros c _. apply not_elem_of_empty. }
  pose proof (listen_descriptor_accounting example_answers (str "udp4") (str "127.0.0.1") ∅ Hf) as H.
  assert (E : ListenPacket example_answers (str "udp4") (str "127.0.0.1") ∅
    = (Ok (mkPacketConn (Some 4%nat) true false), {[ 4%nat ]})) by (vm_compute; reflexivity).
  rewrite E in H. split; [exact E|exact H].
Defined.

(** An endpoint speaks ICMPv4 exactly when its network is "udp4", "ip4" or "ip4:" and a
    protocol without a colon, and ICMPv6 in the same way with "udp6" and "ip6": these are
    the wrappers [IPv4PacketConn] and [IPv6PacketConn] answer, never both. For "udp4" and
    "udp6" the connection is the one made from the code's own socket, for every other
    name the one of [net.ListenPacket]. *)
Lemma endpoint_version an network address open pc open' :
  ListenPacket an network address open = (Ok pc, open') ->
  (IPv4PacketConn (Some pc) = true <-> names_version (str "udp4") (str "ip4") network) /\
  (IPv6PacketConn (Some pc) = true <-> names_version (str "udp6") (str "ip6") network) /\
  IPv4PacketConn (Some pc) && IPv6PacketConn (Some pc) = false /\
  pc_c pc = (if decide (network = str "udp4" \/ network = str "udp6")
             then an_file_conn an else an_listen an).
Proof.
  pose proof (network_proto_spec network) as H. unfold ListenPacket.
  destruct (network_proto network) as [family proto]. destruct H as (HF4 & HF6 & <- & <-).
  rewrite (decide_ext (network = str "udp4" \/ network = str "udp6")
    (family = AF_INET \/ family = AF_INET6)) by (by rewrite HF4, HF6).
  set (r := if decide _ then _ else _).
  assert (Hc : forall c o, r = (Ok c, o) ->
    Some c = if decide (family = AF_INET \/ family = AF_INET6) then an_file_conn an else an_listen an).
  { intros c o. unfold r, open_datagram, open_stdlib. intros E.
    repeat case_match; try discriminate E; by injection E as <- _. }
  destruct r as [[c|e| |] o] eqn:Hr; intros E; try discriminate E.
  injection E as <- <-. rewrite <- (Hc c o eq_refl).
  destruct (decide (proto = ProtocolICMP)) as [->|H4]; [done|].
  destruct (decide (proto = ProtocolIPv6ICMP)) as [->|H6]; [done|]. done.
Qed.

Lemma endpoint_version_witness :
  IPv6PacketConn (Some (mkPacketConn (Some 5%nat) false true)) = true /\
  names_version (str "udp6") (str "ip6") (str "ip6:ipv6-icmp").
Proof.
  split; [reflexivity|].
  destruct (endpoint_version example_answers (str "ip6:ipv6-icmp") (str "::") ∅
    (mkPacketConn (Some 5%nat) false true) {[ 5%nat ]}) as (_ & H & _).
  - vm_compute. reflexivity.
  - apply H. reflexivity.
Defined.
