(* ===== verification/GoTime.v ===== *)
(** * Instants and durations (what the program uses of the Go package time)

    An instant has a wall clock reading and, when it comes from [time.Now], a
    monotonic one; both in nanoseconds. A duration is an int64 of nanoseconds.
    Subtraction uses the monotonic readings when both instants have one, and
    saturates at the bounds of int64. *)

From S2P Require Import Prelude.
Local Open Scope Z_scope.

Definition Second : Z := 1000000000.
Definition Minute : Z := 60 * Second.
Definition Hour : Z := 60 * Minute.
Definition Millisecond : Z := 1000000.

Definition maxDuration : Z := 2 ^ 63 - 1.
Definition minDuration : Z := - 2 ^ 63.

Record Time := mkTime {
  wall : Z;          (** nanoseconds since the Unix epoch *)
  mono : option Z;   (** monotonic clock reading *)
}.

#[export] Instance Time_eq_dec : EqDecision Time.
Proof. solve_decision. Defined.

(** [time.Time{}]: January 1, year 1 UTC. *)
Definition zeroTime : Time := mkTime (-62135596800 * Second) None.

Definition IsZero (t : Time) : bool := wall t =? wall zeroTime.

(** Saturation at the bounds of int64. *)
Definition sat (z : Z) : Z := Z.max minDuration (Z.min z maxDuration).

(** [t.Sub(u)] *)
Definition Sub (t u : Time) : Z :=
  match mono t, mono u with
  | Some mt, Some mu => sat (mt - mu)
  | _, _ => sat (wall t - wall u)
  end.

(** [t.Add(d)] *)
Definition TimeAdd (t : Time) (d : Z) : Time :=
  mkTime (wall t + d) (option_map (fun m => m + d) (mono t)).

(** [t.Unix()]: whole seconds, rounded down. *)
Definition Unix (t : Time) : Z := wall t / Second.

(** [time.Unix(sec, nsec)] *)
Definition time_Unix (sec nsec : Z) : Time := mkTime (sec * Second + nsec) None.

(** [time.Since(t)] and [time.Until(t)] at the reading [now] of the clock. *)
Definition Since (now t : Time) : Z := Sub now t.
Definition Until (now t : Time) : Z := Sub t now.

(** A reading of [time.Now()]. *)
Definition is_now (t : Time) : Prop := is_Some (mono t).

(** The encodings drop the monotonic reading. *)
Definition strip (t : Time) : Time := mkTime (wall t) None.

(** The range of wall clock readings for which the difference of two instants fits a
    duration and the zero instant is centuries away: 1970 to 2200. *)
Definition in_era (t : Time) : Prop := 0 <= wall t < 7258118400 * Second.

Lemma sat_id z : minDuration <= z <= maxDuration -> sat z = z.
Proof. unfold sat. lia. Qed.

Lemma era_bound : 7258118400 * Second <= maxDuration.
Proof. vm_compute. discriminate. Qed.

Lemma Sub_wall t u :
  in_era t -> in_era u -> mono t = None \/ mono u = None -> Sub t u = wall t - wall u.
Proof.
  unfold in_era. intros Ht Hu Hm. pose proof era_bound.
  assert (minDuration = - maxDuration - 1) by reflexivity.
  unfold Sub. destruct (mono t), (mono u); try (by destruct Hm); by apply sat_id; lia.
Qed.

(** Nothing is older than the zero instant: its age saturates. *)
Lemma Since_zero now : in_era now -> Since now zeroTime = maxDuration.
Proof.
  unfold in_era, Since, Sub. intros Hn. cbn [mono zeroTime].
  assert (H : sat (wall now - wall zeroTime) = maxDuration).
  { unfold sat. cbn [wall zeroTime]. unfold Second, minDuration, maxDuration in *. lia. }
  by destruct (mono now).
Qed.

Lemma IsZero_zero : IsZero zeroTime = true.
Proof. reflexivity. Qed.

Lemma IsZero_strip t : IsZero (strip t) = IsZero t.
Proof. done. Qed.

Lemma IsZero_era t : in_era t -> IsZero t = false.
Proof.
  unfold in_era, IsZero. intros. apply Z.eqb_neq. cbn [wall zeroTime].
  unfold Second in *. lia.
Qed.

Lemma Unix_bounds t : Unix t * Second <= wall t < (Unix t + 1) * Second.
Proof. unfold Unix, Second. zdiv. Qed.

Lemma Unix_time s n : 0 <= n < Second -> Unix (time_Unix s n) = s.
Proof. unfold Unix, time_Unix, Second. cbn [wall]. intros. zdiv. Qed.
