(* ===== verification/Pinger.v ===== *)
(** * The ICMP timestamp pinger (icmp-timestap-pinger/main.go)

    One timestamp request to a host: the endpoint it opens and closes, the request it
    encodes, the reply it decodes, and the line it prints, which splits the round trip
    into a forward and a back latency. It composes the model of the endpoint with that
    of the codec of messages. *)

From Stdlib Require Import String.
From stdpp Require Import gmap.
From S2P Require Import Prelude Bytes Checksum IcmpTypes Iface Extension Multipart Bodies.
From S2P Require Import Message Listen GoTime.
Local Open Scope Z_scope.

Definition Day : Z := 24 * Hour.

(** [time.Date(now.Year(), now.Month(), now.Day(), 0, 0, 0, 0, time.UTC)]: the start of the
    day of [now] in UTC, a wall clock reading. *)
Definition midnight (now : Time) : Time := mkTime (wall now - wall now mod Day) None.

(** [int(now.Sub(offset) / 1000000)]: the timestamp of RFC 792, milliseconds since midnight. *)
Definition originate (now : Time) : Z := Z.quot (Sub now (midnight now)) 1000000.

(** The literal [icmp.Message] of the request. *)
Definition request (pid seq : Z) (now : Time) : Message :=
  mkMessage (V4 ipv4.ICMPTypeTimestamp) 0 0
    (Some (BodyTimestamp (Some (mkTimestamp (Z.land pid 65535) seq (originate now) 0 0)))).

(** Why a ping gave no answer. *)
Inductive ping_error :=
  | PingListen (e : listen_error)
  | PingResolve
  | PingIcmp (e : icmp_error)
  | PingShortWrite (got want : nat)
  | PingUnexpected (rm : Message).

Definition lift {A} (r : icmp A) : result ping_error A :=
  match r with
  | Ok a => Ok a | Err e => Err (PingIcmp e) | Panic => Panic | Diverge => Diverge
  end.

(** The readings of the clock during a ping: before encoding, before sending, after
    receiving. *)
Record readings := mkReadings { at_now : Time; at_start : Time; at_end : Time }.

(** The switch on the type of the reply. *)
Definition ping_answer (duration : Z) (rm : Message) : result ping_error (Z * option Timestamp) :=
  if decide (m_Type rm = V4 ipv4.ICMPTypeEchoReply) then Ok (duration, None)
  else if decide (m_Type rm = V4 ipv4.ICMPTypeTimestampReply) then
    match m_Body rm with
    | Some (BodyTimestamp body) => Ok (duration, body)
    | _ => Panic
    end
  else Err (PingUnexpected rm).

(** The part of [Ping] between opening the endpoint and the deferred [c.Close()]. *)
Definition exchange (an : answers) (ops : PacketOps) (t : readings) (pid seq : Z)
    (host : bytes) (c : PacketConn) : result ping_error (Z * option Timestamp) :=
  match an_resolve an "ip4" host with
  | None => Err PingResolve
  | Some dst =>
      b ← lift (Message_Marshal (request pid seq (at_now t)) None);
      n ← lift (WriteTo ops (Some c) b dst);
      if decide (n <> List.length b) then Err (PingShortWrite n (List.length b)) else
      _ ← lift (SetReadDeadline ops (Some c));
      '(reply, _) ← lift (ReadFrom (an_darwin an) ops (Some c) 1500);
      let duration := Since (at_end t) (at_start t) in
      rm ← lift (ParseMessage 1 reply);
      ping_answer duration rm
  end.

(** [func Ping(addr string, seq int)], with the descriptors open after it: the deferred
    [c.Close()] runs on every path after the endpoint is open, a run-time panic included.
    The resolved address, which the code returns on some errors for the log line, is
    left out. *)
Definition Ping (an : answers) (ops : PacketOps) (t : readings) (pid seq : Z) (host : bytes)
    (open : fds) : result ping_error (Z * option Timestamp) * fds :=
  match ListenPacket an (str "ip4:icmp") (str "0.0.0.0") open with
  | (Ok c, open) =>
      (exchange an ops t pid seq host c,
       match conn_ok (Some c) with Some d => open ∖ {[ d ]} | None => open end)
  | (Err e, open) => (Err (PingListen e), open)
  | (Panic, open) => (Panic, open)
  | (Diverge, open) => (Diverge, open)
  end.

(** [dur.Milliseconds()] *)
Definition Milliseconds (d : Z) : Z := Z.quot d 1000000.

(** The line the local function [p] of [main] prints: forward, back and round trip in
    milliseconds; [None] is the line of a failure. Reading a field of [ts] dereferences it. *)
Definition report (r : result ping_error (Z * option Timestamp))
    : result ping_error (option (Z * Z * Z)) :=
  match r with
  | Err _ => Ok None
  | Ok (_, None) => Panic
  | Ok (dur, Some ts) =>
      let fwd := ts_Transmit ts - ts_Originate ts in
      Ok (Some (fwd, Milliseconds dur - fwd, Milliseconds dur))
  | Panic => Panic
  | Diverge => Diverge
  end.

(** How the program [main] ends. *)
Inductive outcome := Exited (code : Z) | Crashed | Finished.

(** What the system and the network answer to the ping of a host. *)
Record surroundings := mkSurroundings {
  su_answers : answers;
  su_ops : PacketOps;
  su_readings : readings;
}.

(** The local function [p] of [main]. *)
Definition ping_host (pid : Z) (env : bytes -> surroundings) (host : bytes) (open : fds)
    : result ping_error (option (Z * Z * Z)) * fds :=
  let e := env host in
  let '(r, open) := Ping (su_answers e) (su_ops e) (su_readings e) pid 1 host open in
  (report r, open).

(** The loop of [main] over the hosts: the lines printed, how it ends, what stays open. *)
Fixpoint ping_hosts (pid : Z) (env : bytes -> surroundings) (hosts : list bytes) (open : fds)
    : list (option (Z * Z * Z)) * outcome * fds :=
  match hosts with
  | [] => ([], Finished, open)
  | host :: hosts =>
      match ping_host pid env host open with
      | (Ok line, open) =>
          let '(lines, o, open) := ping_hosts pid env hosts open in (line :: lines, o, open)
      | (_, open) => ([], Crashed, open)
      end
  end.

(** [func main()], on the arguments: without any it prints its usage and exits. *)
Definition main (pid : Z) (env : bytes -> surroundings) (hosts : list bytes) (open : fds)
    : list (option (Z * Z * Z)) * outcome * fds :=
  match hosts with [] => ([], Exited 1, open) | _ => ping_hosts pid env hosts open end.

(** What the connection promises: the calls return, and a read gives bytes. *)
Definition ops_ok (ops : PacketOps) : Prop :=
  (forall d b dst, orderly (op_WriteTo ops d b dst)) /\
  (forall d, orderly (op_SetReadDeadline ops d)) /\
  (forall d n, orderly (op_ReadFrom ops d n)) /\
  (forall d n, orderly (op_p4_ReadFrom ops d n)) /\
  (forall d n b a, op_ReadFrom ops d n = Ok (b, a) -> is_bytes b) /\
  (forall d n b a, op_p4_ReadFrom ops d n = Ok (b, a) -> is_bytes b).

(** ** The request *)

Lemma originate_eq now : in_era now -> originate now = (wall now mod Day) / 1000000.
Proof.
  intros He. unfold originate, Sub. cbn [mono midnight].
  assert (Hd : sat (wall now - wall (midnight now)) = wall now mod Day).
  { cbn [wall midnight]. pose proof (Z.mod_pos_bound (wall now) Day ltac:(done)) as Hb.
    replace (wall now - (wall now - wall now mod Day)) with (wall now mod Day) by lia.
    apply sat_id. unfold minDuration, maxDuration, Day, Hour, Minute, Second in *. lia. }
  destruct (mono now); rewrite Hd; apply Z.quot_div_nonneg; try done; apply Z.mod_pos_bound; done.
Qed.

Lemma originate_bounds now : in_era now -> 0 <= originate now < 86400000.
Proof.
  intros He. rewrite originate_eq by done. pose proof (Z.mod_pos_bound (wall now) Day ltac:(done)).
  unfold Day, Hour, Minute, Second in *. zdiv.
Qed.

Definition request_body (pid seq : Z) (now : Time) : MessageBody :=
  BodyTimestamp (Some (mkTimestamp (Z.land pid 65535) seq (originate now) 0 0)).

Lemma request_body_wf pid seq now :
  in_era now -> is_u16 seq -> wf_body 1 (V4 ipv4.ICMPTypeTimestamp) (request_body pid seq now).
Proof.
  intros He Hs. pose proof (originate_bounds now He). split; [by left|].
  unfold wf_timestamp, is_u32. cbn [ts_ID ts_Seq ts_Originate ts_Receive ts_Transmit].
  split_and!; try lia; [|apply Hs..].
  rewrite (land_ones_mod pid 65535 16) by done. unfold is_u16.
  pose proof (Z.mod_pos_bound pid (2 ^ 16)). lia.
Qed.

(** The bytes of the request, as the peer's checksum verification and decoder see them. *)
Lemma request_sent pid seq now :
  in_era now -> is_u16 seq ->
  exists b c, Message_Marshal (request pid seq now) None = Ok b /\ checksum b = 0 /\
    ParseMessage 1 b = Ok (mkMessage (V4 ipv4.ICMPTypeTimestamp) 0 c (Some (request_body pid seq now))).
Proof.
  intros He Hs.
  destruct (Message_Marshal_v4 ipv4.ICMPTypeTimestamp 0 0 (request_body pid seq now))
    as (k & mb & Hm & Hc & _ & Hp); [done|done|by apply request_body_wf|apply le_max_checked; done|].
  destruct (ParseMessage_wire 1 _ _ 0 k mb _ eq_refl Hp) as [c Hparse].
  exists (message_wire ipv4.ICMPTypeTimestamp 0 k mb), c. by split_and!.
Qed.

(** ** The answer *)

Lemma orderly_external {A} (r : result Z A) : orderly r -> orderly (external r).
Proof. by destruct r. Qed.

Lemma orderly_lift {A} (r : icmp A) : orderly r -> orderly (lift r).
Proof. by destruct r. Qed.

Lemma external_Ok {A} (r : result Z A) a : external r = Ok a -> r = Ok a.
Proof. by destruct r; intros [= ->]. Qed.

Lemma lift_Ok {A} (r : icmp A) a : lift r = Ok a -> r = Ok a.
Proof. by destruct r; intros [= ->]. Qed.

Lemma orderly_guarded {A} c (f : nat -> result Z A) :
  (forall d, orderly (f d)) -> orderly (guarded c f).
Proof. intros Hf. unfold guarded. destruct (conn_ok c); [apply orderly_external, Hf|done]. Qed.

(** A decoded timestamp reply carries a timestamp body, so the type assertion holds. *)
Lemma ping_answer_orderly duration reply rm :
  is_bytes reply -> ParseMessage 1 reply = Ok rm -> orderly (ping_answer duration rm).
Proof.
  intros Hb Hrm. unfold ping_answer. case_decide as H0; [done|]. case_decide as H14; [|done].
  pose proof (ParseMessage_spec 1 reply Hb) as H. rewrite Hrm in H.
  case_decide; [discriminate H|].
  match type of H with context [message_type 1 ?x] =>
    change (message_type 1 x) with (Ok (V4 x) : icmp MsgType) in H end. cbv iota beta in H.
  case_decide; [discriminate H|]. destruct H as (body & c & Hp & [= ->]).
  cbn [m_Type m_Body] in *. rewrite H14 in Hp.
  change (parse_body 1 (V4 ipv4.ICMPTypeTimestampReply) (drop 4 reply))
    with (as_body parseTimestamp BodyTimestamp 1 (V4 ipv4.ICMPTypeTimestampReply) (drop 4 reply))
    in Hp.
  unfold as_body in Hp. apply bind_Ok_inv in Hp as (p & _ & [= <-]). done.
Qed.

Lemma ParseMessage_orderly proto reply : is_bytes reply -> orderly (ParseMessage proto reply).
Proof.
  intros Hb. pose proof (ParseMessage_spec proto reply Hb) as H.
  case_decide; [by rewrite H|]. destruct (message_type proto _) as [typ|e| |]; try done;
    [|by rewrite H]. case_decide; [by rewrite H|]. by destruct H as (? & ? & _ & ->).
Qed.

Lemma exchange_orderly an ops t pid seq host c :
  ops_ok ops -> in_era (at_now t) -> is_u16 seq -> orderly (exchange an ops t pid seq host c).
Proof.
  intros (Hw & Hd & Hr & Hr4 & Hb & Hb4) He Hs. unfold exchange.
  destruct (an_resolve an "ip4" host) as [dst|]; [|done].
  destruct (request_sent pid seq (at_now t) He Hs) as (b & _ & -> & _). cbn [lift].
  rewrite bind_Ok. apply orderly_bind; [apply orderly_lift, orderly_guarded; auto|intros n _].
  case_decide; [done|].
  apply orderly_bind; [apply orderly_lift, orderly_guarded; auto|intros _ _].
  assert (Hread : orderly (ReadFrom (an_darwin an) ops (Some c) 1500) /\
    forall reply a, ReadFrom (an_darwin an) ops (Some c) 1500 = Ok (reply, a) -> is_bytes reply).
  { unfold ReadFrom, guarded. destruct (conn_ok (Some c)) as [d|]; [|done].
    match goal with |- context [external ?g] => set (f := g) end.
    assert (Hf : orderly f /\ forall reply a, f = Ok (reply, a) -> is_bytes reply)
      by (unfold f; case_match; eauto).
    destruct Hf as [Hf1 Hf2]. split; [by apply orderly_external|].
    intros reply a Hf%external_Ok. by apply (Hf2 reply a). }
  destruct Hread as [Hread1 Hread2].
  apply orderly_bind; [by apply orderly_lift|intros [reply a] Hra].
  assert (Hbr : is_bytes reply) by (apply (Hread2 reply a); by apply lift_Ok).
  cbn zeta. apply orderly_bind; [by apply orderly_lift, ParseMessage_orderly|].
  intros rm Hrm%lift_Ok. by apply (ping_answer_orderly _ reply).
Qed.

Lemma listen_icmp an open :
  fresh_answers an open ->
  match an_listen an with
  | Some c => ListenPacket an (str "ip4:icmp") (str "0.0.0.0") open
                = (Ok (mkPacketConn (Some c) true false), {[ c ]} ∪ open) /\ c ∉ open
  | None => ListenPacket an (str "ip4:icmp") (str "0.0.0.0") open = (Err ErrConn, open)
  end.
Proof.
  intros (_ & _ & Hl). unfold ListenPacket.
  change (network_proto (str "ip4:icmp")) with (0, ProtocolICMP). cbv iota beta zeta.
  rewrite decide_False by (intros [|]; done). unfold open_stdlib.
  destruct (an_listen an) as [c|]; [|done]. split; [done|by apply Hl].
Qed.

(** What a responder of RFC 792 with the clock reading [tx] answers to a request. *)
Definition responder (tx : Z) (b : bytes) : icmp bytes :=
  m ← ParseMessage 1 b;
  match m_Body m with
  | Some (BodyTimestamp (Some ts)) =>
      Message_Marshal (mkMessage (V4 ipv4.ICMPTypeTimestampReply) 0 0
        (Some (BodyTimestamp (Some
          (mkTimestamp (ts_ID ts) (ts_Seq ts) (ts_Originate ts) tx tx))))) None
  | _ => Err errInvalidBody
  end.

Lemma responder_reply pid seq now tx b :
  in_era now -> is_u16 seq -> is_u32 tx -> Message_Marshal (request pid seq now) None = Ok b ->
  exists w c, responder tx b = Ok w /\
    ParseMessage 1 w = Ok (mkMessage (V4 ipv4.ICMPTypeTimestampReply) 0 c
      (Some (BodyTimestamp (Some
        (mkTimestamp (Z.land pid 65535) seq (originate now) tx tx))))).
Proof.
  intros He Hs Htx Hm. destruct (request_sent pid seq now He Hs) as (b' & c & Hm' & _ & Hp).
  rewrite Hm in Hm'. apply Ok_inj in Hm' as <-.
  destruct (request_body_wf pid seq now He Hs) as (_ & Hid & Hseq & Ho & _).
  set (ts := mkTimestamp (Z.land pid 65535) seq (originate now) tx tx).
  destruct (Message_Marshal_v4 ipv4.ICMPTypeTimestampReply 0 0 (BodyTimestamp (Some ts)))
    as (k & mb & Hmr & _ & _ & Hpr); [done|done| |apply le_max_checked; done|].
  { split; [by right|]. by split_and!. }
  destruct (ParseMessage_wire 1 _ _ 0 k mb _ eq_refl Hpr) as [c' Hparse].
  eexists _, c'. split; [|exact Hparse].
  unfold responder. rewrite Hp, bind_Ok. exact Hmr.
Qed.

(** The exchange over an endpoint whose calls succeed, up to the reply. *)
Lemma Ping_reply an ops t pid seq host open dst b w a :
  fresh_answers an open -> is_Some (an_listen an) -> an_darwin an = false ->
  an_resolve an "ip4" host = Some dst ->
  Message_Marshal (request pid seq (at_now t)) None = Ok b ->
  (forall d, op_WriteTo ops d b dst = Ok (List.length b) /\ op_SetReadDeadline ops d = Ok tt /\
     op_ReadFrom ops d 1500 = Ok (w, a)) ->
  fst (Ping an ops t pid seq host open)
    = rm ← lift (ParseMessage 1 w); ping_answer (Since (at_end t) (at_start t)) rm.
Proof.
  intros Hf [c Hc] Hdar Hdst Hm Hops.
  pose proof (listen_icmp an open Hf) as Hl. rewrite Hc in Hl. destruct Hl as [Hl _].
  unfold Ping. rewrite Hl. cbn [fst]. destruct (Hops c) as (Hwr & Hrd & Hre).
  unfold exchange. rewrite Hdst, Hm. cbn [lift]. rewrite bind_Ok.
  unfold WriteTo, SetReadDeadline, ReadFrom, guarded. cbn [conn_ok pc_c mbind option_bind].
  rewrite Hwr. cbn [external lift]. rewrite bind_Ok, decide_False by (by intros []).
  rewrite Hrd. cbn [external lift]. rewrite bind_Ok, Hdar. cbn [andb]. rewrite Hre. done.
Qed.

Lemma Ping_orderly_closes an ops t pid seq host open :
  fresh_answers an open -> ops_ok ops -> in_era (at_now t) -> is_u16 seq ->
  orderly (fst (Ping an ops t pid seq host open)) /\
  snd (Ping an ops t pid seq host open) = open.
Proof.
  intros Hf Hops He Hs. unfold Ping. pose proof (listen_icmp an open Hf) as Hl.
  destruct (an_listen an) as [c|]; [destruct Hl as [-> Hc]|by rewrite Hl].
  cbn [fst snd conn_ok pc_c mbind option_bind]. split; [by apply exchange_orderly|].
  by apply close_fresh.
Qed.

(** ** Properties *)

(** A ping ends in an orderly way and leaves no descriptor behind: whatever the system
    and the network answer to each call, however malformed the reply, it returns an answer
    or an error (in particular the type assertion on the body of a timestamp reply holds),
    and the endpoint it opened is closed on every path. *)
Lemma ping_returns_and_closes an ops t pid seq host open :
  fresh_answers an open -> ops_ok ops -> in_era (at_now t) -> is_u16 seq ->
  orderly (fst (Ping an ops t pid seq host open)) /\
  snd (Ping an ops t pid seq host open) = open.
Proof. apply Ping_orderly_closes. Qed.

(** A system whose endpoint is descriptor 5 and a network that answers every request with
    the same bytes. *)
Definition answering (reply : bytes) (n : nat) : PacketOps :=
  mkOps (fun _ _ => Ok (reply, zero_IPAddr)) (fun _ _ => Ok (reply, zero_IPAddr))
    (fun _ _ _ => Ok n) (fun _ => zero_IPAddr) (fun _ => Ok tt) (fun _ => Ok tt)
    (fun _ => Ok tt) (fun _ => Ok tt).

Lemma answering_ok reply n : is_bytes reply -> ops_ok (answering reply n).
Proof. intros Hb. split_and!; try done; by intros ? ? ? ? [= <- <-]. Qed.

Lemma example_answers_fresh : fresh_answers example_answers ∅.
Proof.
  split_and!.
  - intros s _. apply not_elem_of_empty.
  - intros s c Hs Hc. injection Hs as <-. injection Hc as <-. set_solver.
  - intros c _. apply not_elem_of_empty.
Qed.

(** Readings at 2 s, 2 s and 2.5 s after midnight. *)
Definition example_readings : readings :=
  mkReadings (time_Unix 86402 0) (time_Unix 86402 0) (time_Unix 86402 500000000).

Lemma ping_returns_and_closes_witness :
  orderly (fst (Ping example_answers (answering [14; 0; 0] 20) example_readings 7 1
    (str "10.0.0.2") ∅)) /\
  snd (Ping example_answers (answering [14; 0; 0] 20) example_readings 7 1 (str "10.0.0.2") ∅)
    = ∅.
Proof.
  apply ping_returns_and_closes.
  - exact example_answers_fresh.
  - apply answering_ok. repeat constructor; unfold is_u8; lia.
  - split; vm_compute; [discriminate|reflexivity].
  - split; [discriminate|reflexivity].
Defined.

(** C37: against a responder of RFC 792 the printed line splits the round trip: the forward
    latency is the responder's clock less the millisecond of the day at which the request
    was made, the back latency is the rest, so the two add up to the printed round trip,
    which is the time between sending and receiving cut to milliseconds. *)
Theorem ping_splits_round_trip an ops t pid seq host open dst tx b w a :
  fresh_answers an open -> is_Some (an_listen an) -> an_darwin an = false ->
  an_resolve an "ip4" host = Some dst ->
  in_era (at_now t) -> is_u16 seq -> is_u32 tx ->
  Message_Marshal (request pid seq (at_now t)) None = Ok b ->
  responder tx b = Ok w ->
  (forall d, op_WriteTo ops d b dst = Ok (List.length b) /\ op_SetReadDeadline ops d = Ok tt /\
     op_ReadFrom ops d 1500 = Ok (w, a)) ->
  let fwd := tx - (wall (at_now t) mod Day) / 1000000 in
  let rtt := Milliseconds (Since (at_end t) (at_start t)) in
  report (fst (Ping an ops t pid seq host open)) = Ok (Some (fwd, rtt - fwd, rtt)).
Proof.
  intros Hf Hc Hdar Hdst He Hs Htx Hm Hw Hops. cbn zeta.
  rewrite (Ping_reply an ops t pid seq host open dst b w a) by done.
  destruct (responder_reply pid seq (at_now t) tx b He Hs Htx Hm) as (w' & k & Hw' & Hp).
  rewrite Hw in Hw'. apply Ok_inj in Hw' as <-. rewrite Hp. cbn [lift].
  rewrite bind_Ok. unfold ping_answer. cbn [m_Type m_Body].
  rewrite decide_False, decide_True by done. cbn [report ts_Transmit ts_Originate].
  by rewrite originate_eq.
Qed.

Lemma ping_splits_round_trip_witness :
  exists b w, Message_Marshal (request 7 1 (at_now example_readings)) None = Ok b /\
    responder 2180 b = Ok w /\
    report (fst (Ping example_answers (answering w 20) example_readings 7 1 (str "10.0.0.2") ∅))
      = Ok (Some (180, 320, 500)).
Proof.
  exists [13; 0; 235; 39; 0; 7; 0; 1; 0; 0; 7; 208; 0; 0; 0; 0; 0; 0; 0; 0].
  exists [14; 0; 217; 31; 0; 7; 0; 1; 0; 0; 7; 208; 0; 0; 8; 132; 0; 0; 8; 132].
  split; [vm_compute; reflexivity|]. split; [vm_compute; reflexivity|].
  apply (ping_splits_round_trip example_answers _ example_readings 7 1 (str "10.0.0.2") ∅
    (mkIPAddr [127; 0; 0; 1] []) 2180
    [13; 0; 235; 39; 0; 7; 0; 1; 0; 0; 7; 208; 0; 0; 0; 0; 0; 0; 0; 0]
    [14; 0; 217; 31; 0; 7; 0; 1; 0; 0; 7; 208; 0; 0; 8; 132; 0; 0; 8; 132] zero_IPAddr).
  - exact example_answers_fresh.
  - by exists 5%nat.
  - reflexivity.
  - reflexivity.
  - split; vm_compute; [discriminate|reflexivity].
  - split; [discriminate|reflexivity].
  - split; [discriminate|reflexivity].
  - vm_compute. reflexivity.
  - vm_compute. reflexivity.
  - intros d. split; [reflexivity|]. split; reflexivity.
Defined.

(** An echo reply crashes the program: [Ping] accepts it as an answer without a
    timestamp, and printing the line reads a field of that missing timestamp. Any host
    whose echo reply reaches the raw socket before the timestamp reply stops the tool. *)
Lemma echo_reply_crashes_pinger an ops t pid seq host open dst b w a rm :
  fresh_answers an open -> is_Some (an_listen an) -> an_darwin an = false ->
  an_resolve an "ip4" host = Some dst ->
  Message_Marshal (request pid seq (at_now t)) None = Ok b ->
  (forall d, op_WriteTo ops d b dst = Ok (List.length b) /\ op_SetReadDeadline ops d = Ok tt /\
     op_ReadFrom ops d 1500 = Ok (w, a)) ->
  ParseMessage 1 w = Ok rm -> m_Type rm = V4 ipv4.ICMPTypeEchoReply ->
  report (fst (Ping an ops t pid seq host open)) = Panic.
Proof.
  intros Hf Hc Hdar Hdst Hm Hops Hp Hty.
  rewrite (Ping_reply an ops t pid seq host open dst b w a) by done.
  rewrite Hp. cbn [lift]. rewrite bind_Ok. unfold ping_answer. by rewrite Hty, decide_True.
Qed.

Lemma echo_reply_crashes_pinger_witness :
  report (fst (Ping example_answers (answering [0; 0; 255; 253; 0; 1; 0; 1] 20)
    example_readings 7 1 (str "10.0.0.2") ∅)) = Panic.
Proof.
  apply (echo_reply_crashes_pinger example_answers _ example_readings 7 1 (str "10.0.0.2") ∅
    (mkIPAddr [127; 0; 0; 1] [])
    [13; 0; 235; 39; 0; 7; 0; 1; 0; 0; 7; 208; 0; 0; 0; 0; 0; 0; 0; 0]
    [0; 0; 255; 253; 0; 1; 0; 1] zero_IPAddr
    (mkMessage (V4 0) 0 65533 (Some (BodyEcho (Some (mkEcho 1 1 [])))))).
  - exact example_answers_fresh.
  - by exists 5%nat.
  - reflexivity.
  - reflexivity.
  - vm_compute. reflexivity.
  - intros d. split; [reflexivity|]. split; reflexivity.
  - vm_compute. reflexivity.
  - reflexivity.
Defined.

(** The surroundings of every ping keep their promises. *)
Definition env_ok (env : bytes -> surroundings) (open : fds) : Prop :=
  forall host, fresh_answers (su_answers (env host)) open /\ ops_ok (su_ops (env host)) /\
    in_era (at_now (su_readings (env host))).

Lemma ping_host_open pid env host open :
  env_ok env open -> snd (ping_host pid env host open) = open.
Proof.
  intros He. destruct (He host) as (Hf & Ho & Hera). unfold ping_host.
  destruct (Ping_orderly_closes (su_answers (env host)) (su_ops (env host))
    (su_readings (env host)) pid 1 host open Hf Ho Hera) as [_ Hs]; [unfold is_u16; lia|].
  destruct (Ping _ _ _ _ _ _ _). exact Hs.
Qed.

(** The program pings its hosts one after the other: without arguments it exits with 1;
    otherwise it prints for each host the line of its own ping, whatever the others
    answered, and leaves nothing open, or it stops at the first host whose answer makes
    the line dereference nil, having printed the lines of the hosts before it only. *)
Lemma main_lines pid env hosts open :
  env_ok env open ->
  exists lines o, main pid env hosts open = (lines, o, open) /\
    match o with
    | Exited code => code = 1 /\ hosts = [] /\ lines = []
    | Finished => hosts <> [] /\
        Forall2 (fun host line => fst (ping_host pid env host open) = Ok line) hosts lines
    | Crashed => exists before host after, hosts = before ++ host :: after /\
        (forall line, fst (ping_host pid env host open) <> Ok line) /\
        Forall2 (fun host line => fst (ping_host pid env host open) = Ok line) before lines
    end.
Proof.
  intros He.
  assert (Hloop : exists lines o, ping_hosts pid env hosts open = (lines, o, open) /\
    match o with
    | Exited _ => False
    | Finished =>
        Forall2 (fun host line => fst (ping_host pid env host open) = Ok line) hosts lines
    | Crashed => exists before host after, hosts = before ++ host :: after /\
        (forall line, fst (ping_host pid env host open) <> Ok line) /\
        Forall2 (fun host line => fst (ping_host pid env host open) = Ok line) before lines
    end).
  { induction hosts as [|host hosts IH]; [by exists [], Finished|]. cbn [ping_hosts].
    pose proof (ping_host_open pid env host open He) as Hopen.
    destruct (ping_host pid env host open) as [r open'] eqn:Hr. cbn [snd] in Hopen. subst open'.
    destruct IH as (lines & o & -> & Ho).
    destruct r as [line|e| |];
      [|exists [], Crashed; split; [done|]; exists [], host, hosts; rewrite Hr; by split_and!..].
    exists (line :: lines), o. split; [done|]. destruct o as [code| |]; [done| |].
    - destruct Ho as (before & h & after & -> & Hh & Hb).
      exists (host :: before), h, after. split_and!; [done|done|]. constructor; [by rewrite Hr|done].
    - constructor; [by rewrite Hr|done]. }
  destruct hosts as [|host hosts]; [by exists [], (Exited 1)|].
  destruct Hloop as (lines & o & Hl & Ho). exists lines, o. split; [exact Hl|].
  destruct o; [done|done|by split].
Qed.

(** Two hosts, of which the first answers with an echo reply. *)
Definition two_hosts (host : bytes) : surroundings :=
  mkSurroundings example_answers
    (answering (if decide (host = str "10.0.0.2") then [0; 0; 255; 253; 0; 1; 0; 1] else [14; 0; 0]) 20)
    example_readings.

Lemma main_lines_witness :
  fst (main 7 two_hosts [str "10.0.0.1"; str "10.0.0.2"; str "10.0.0.3"] ∅) = ([None], Crashed) /\
  exists lines o,
    main 7 two_hosts [str "10.0.0.1"; str "10.0.0.2"; str "10.0.0.3"] ∅ = (lines, o, ∅).
Proof.
  split; [vm_compute; reflexivity|].
  destruct (main_lines 7 two_hosts [str "10.0.0.1"; str "10.0.0.2"; str "10.0.0.3"] ∅)
    as (lines & o & Hm & _).
  - intros host. split_and!; [exact example_answers_fresh| |].
    + apply answering_ok. case_decide;
        repeat (apply List.Forall_cons; [unfold is_u8; lia|]); apply List.Forall_nil.
    + split; vm_compute; [discriminate|reflexivity].
  - by exists lines, o.
Defined.
