(* ===== verification/Acks.v ===== *)
(** * Acknowledgement rings, loss and latency (main.go: pingInfo, pingStruct,
    getNextAckSlot, dumbLastAckSearchForID, getLoss, getStats)

    A session keeps the last 32 pings it received in a ring. A ping carries the ring
    of its sender, so each end can count which of the last seconds' pings of each
    direction are missing. *)

From Stdlib Require Import Sorting.Sorted.
From S2P Require Import Prelude GoTime.
Local Open Scope Z_scope.

(** ** Data *)

Record pingInfo := mkPingInfo {
  pi_ID : Z;
  pi_TX : Time;
  pi_RX : Time;
}.

Record pingStruct := mkPing {
  p_Type : Z;
  p_Magic : Z;
  p_Session : Z;
  p_ID : Z;
  p_TXTime : Time;
  p_SendersError : Z;
  p_LastAcks : list pingInfo;
}.

#[export] Instance pingInfo_eq_dec : EqDecision pingInfo.
Proof. solve_decision. Defined.
#[export] Instance pingStruct_eq_dec : EqDecision pingStruct.
Proof. solve_decision. Defined.

Definition zeroInfo : pingInfo := mkPingInfo 0 zeroTime zeroTime.

(** [[32]pingInfo{}] *)
Definition ring_size : nat := 32.
Definition zeroAcks : list pingInfo := replicate ring_size zeroInfo.

(** [pingStruct{}] *)
Definition zeroPing : pingStruct := mkPing 0 0 0 0 zeroTime 0 zeroAcks.

(** The ID of the pings of a second: [uint8(time.Now().Unix()%255) + 1]. *)
Definition ping_id (unix : Z) : Z := u8 (u8 (Z.rem unix 255) + 1).

(** ** The ring *)

(** [func (s *session) getNextAckSlot() int], on the field it updates. *)
Definition getNextAckSlot (nextAckSlot : Z) : Z :=
  if decide (nextAckSlot <> 31) then nextAckSlot + 1 else 0.

(** [func dumbLastAckSearchForID(targetID uint8, LastAcks [32]pingInfo) bool] *)
Fixpoint dumbLastAckSearchForID (targetID : Z) (LastAcks : list pingInfo) : bool :=
  match LastAcks with
  | [] => false
  | v :: LastAcks =>
      if decide (pi_ID v = targetID) then true
      else dumbLastAckSearchForID targetID LastAcks
  end.

(** ** Loss *)

(** The backward search of [getLoss]: [i] runs over uint8, 0 is skipped. *)
Fixpoint loss_loop (fuel : nat) (TipID i : Z) (theirs ours : list pingInfo)
    (RXLoss TXLoss : Z) : result unit (Z * Z) :=
  match fuel with
  | O => Diverge
  | S fuel =>
      let i := u8 (i + 1) in
      let i := if decide (i = 0) then u8 (i + 1) else i in
      if decide (i = TipID) then Ok (RXLoss, TXLoss) else
      let TXLoss := if dumbLastAckSearchForID i theirs then TXLoss else TXLoss + 1 in
      let RXLoss := if dumbLastAckSearchForID i ours then RXLoss else RXLoss + 1 in
      loss_loop fuel TipID i theirs ours RXLoss TXLoss
  end.

(** More rounds than the loop can make: it stops within 32. *)
Definition loss_fuel : nat := 32.

(** [func getLoss(rx pingStruct, ses *session) (RXLoss, TXLoss, TotalSent int)] at
    the Unix second [unix] of the clock, on the acks of the ping and of the session. *)
Definition getLoss (unix : Z) (theirs ours : list pingInfo) : result unit (Z * Z * Z) :=
  let TipID := ping_id unix in
  if dumbLastAckSearchForID 0 ours then Ok (0, 0, 0) else
  let Starting := u8 (TipID - 32) in
  '(RXLoss, TXLoss) ← loss_loop loss_fuel TipID Starting theirs ours 0 0;
  Ok (RXLoss, TXLoss, 32).

(** ** Latency *)

(** The search of [getStats] for the newest ack. [clock] gives the successive
    readings of [time.Since]; the state is the number of readings made. *)
Fixpoint newest_ack (clock : nat -> Time) (n : nat) (acks : list pingInfo)
    (TXLatency latest : Z) : nat * Z :=
  match acks with
  | [] => (n, TXLatency)
  | v :: acks =>
      if IsZero (pi_RX v) then newest_ack clock n acks TXLatency latest
      else if decide (Since (clock n) (pi_TX v) < latest)
      then newest_ack clock (n + 2) acks (Sub (pi_RX v) (pi_TX v))
             (Since (clock (n + 1)%nat) (pi_TX v))
      else newest_ack clock (n + 1) acks TXLatency latest
  end.

Record stats := mkStats {
  st_RXLatency : Z;
  st_TXLatency : Z;
  st_RXLoss : Z;
  st_TXLoss : Z;
  st_TotalSent : Z;
}.

(** [func getStats(timeRX time.Time, rx pingStruct, ses *session) (...)]: the clock is
    read for each ack and once more by [getLoss]. *)
Definition getStats (clock : nat -> Time) (timeRX : Time) (rx : pingStruct)
    (ours : list pingInfo) : result unit stats :=
  let RXLatency := Sub timeRX (p_TXTime rx) in
  let '(n, TXLatency) := newest_ack clock 0 (p_LastAcks rx) 0 (Hour * 24) in
  '(RXLoss, TXLoss, TotalSent) ← getLoss (Unix (clock n)) (p_LastAcks rx) ours;
  Ok (mkStats RXLatency TXLatency RXLoss TXLoss TotalSent).

(** ** Ping identifiers *)

Lemma ping_id_mod u : 0 <= u -> ping_id u = u mod 255 + 1.
Proof.
  intros Hu. unfold ping_id. rewrite Z.rem_mod_nonneg by lia.
  unfold u8. zdiv.
Qed.

Lemma ping_id_range u : 0 <= u -> 1 <= ping_id u <= 255.
Proof. intros. rewrite ping_id_mod by done. zdiv. Qed.

(** Two seconds less than 255 apart have different identifiers. *)
Lemma ping_id_inj a b :
  0 <= a -> 0 <= b -> Z.abs (a - b) < 255 -> ping_id a = ping_id b -> a = b.
Proof. intros Ha Hb Hab. rewrite !ping_id_mod by done. zdiv. Qed.

Lemma dumb_search_spec id acks :
  dumbLastAckSearchForID id acks = true <-> exists v, v ∈ acks /\ pi_ID v = id.
Proof.
  induction acks as [|v acks IH]; simpl.
  - split; [done|]. intros (v & Hv & _). by apply elem_of_nil in Hv.
  - case_decide as Hv.
    + split; [|done]. intros _. exists v. split; [apply elem_of_cons; by left|done].
    + rewrite IH. split.
      * intros (w & Hw & Hid). exists w. split; [apply elem_of_cons; by right|done].
      * intros (w & Hw & Hid). apply elem_of_cons in Hw as [-> |Hw]; [done|]. eauto.
Qed.

(** ** The loss window *)

(** The identifiers [loss_loop] looks up, in order. *)
Fixpoint loss_ids (fuel : nat) (TipID i : Z) : option (list Z) :=
  match fuel with
  | O => None
  | S fuel =>
      let i := u8 (i + 1) in
      let i := if decide (i = 0) then u8 (i + 1) else i in
      if decide (i = TipID) then Some [] else option_map (cons i) (loss_ids fuel TipID i)
  end.

Definition missing (acks : list pingInfo) (ids : list Z) : Z :=
  Z.of_nat (length (filter (fun i => dumbLastAckSearchForID i acks = false) ids)).

Lemma missing_cons acks i ids :
  missing acks (i :: ids)
    = (if dumbLastAckSearchForID i acks then 0 else 1) + missing acks ids.
Proof.
  unfold missing. rewrite filter_cons.
  destruct (dumbLastAckSearchForID i acks); case_decide; simpl; (done || lia).
Qed.

Lemma missing_bounds acks ids : 0 <= missing acks ids <= Z.of_nat (length ids).
Proof.
  unfold missing. pose proof (length_filter (fun i => dumbLastAckSearchForID i acks = false) ids).
  lia.
Qed.

Lemma missing_zero acks ids :
  missing acks ids = 0 <-> Forall (fun i => dumbLastAckSearchForID i acks = true) ids.
Proof.
  induction ids as [|i ids IH]; [done|]. rewrite missing_cons, List.Forall_cons_iff.
  pose proof (missing_bounds acks ids). destruct (dumbLastAckSearchForID i acks).
  - rewrite Z.add_0_l. tauto.
  - split; [lia|]. by intros [? _].
Qed.

Lemma loss_loop_ids fuel TipID i theirs ours rx tx ids :
  loss_ids fuel TipID i = Some ids ->
  loss_loop fuel TipID i theirs ours rx tx
    = Ok (rx + missing ours ids, tx + missing theirs ids).
Proof.
  revert i rx tx ids. induction fuel as [|fuel IH]; intros i rx tx ids; [done|].
  cbn [loss_ids loss_loop].
  set (j := if decide (u8 (i + 1) = 0) then _ else _). destruct (decide (j = TipID)).
  - intros [= <-]. do 2 f_equal; unfold missing; simpl; lia.
  - destruct (loss_ids fuel TipID j) as [ids'|] eqn:Hids; [|done].
    intros [= <-]. rewrite (IH _ _ _ _ Hids), !missing_cons.
    do 2 f_equal; case_match; lia.
Qed.

(** How many of the preceding seconds the window covers: 31, or 30 when the window
    wraps over the identifier 0 that is never used. *)
Definition window_len (TipID : Z) : nat := if decide (TipID < 32) then 30 else 31.

(** The identifiers of the preceding seconds, oldest first, counted in the cycle
    1..255 of identifiers. *)
Definition window (TipID : Z) : list Z :=
  map (fun k => (TipID - 1 - Z.of_nat k) mod 255 + 1) (rev (seq 1 (window_len TipID))).

Lemma loss_ids_window_all :
  forallb (fun t => bool_decide (loss_ids loss_fuel t (u8 (t - 32)) = Some (window t)))
    (seqZ 1 255) = true.
Proof. vm_compute. reflexivity. Qed.

(** The search stops, having looked up exactly the window. *)
Lemma loss_ids_window t :
  1 <= t <= 255 -> loss_ids loss_fuel t (u8 (t - 32)) = Some (window t).
Proof.
  intros Ht. pose proof loss_ids_window_all as H. rewrite forallb_forall in H.
  specialize (H t). apply bool_decide_eq_true_1 in H; [done|].
  apply list_elem_of_In, elem_of_seqZ. lia.
Qed.

Lemma length_window t : length (window t) = window_len t.
Proof. unfold window. by rewrite length_map, length_rev, length_seq. Qed.

(** The window is made of the identifiers of the seconds before [u]. *)
Lemma window_seconds u :
  31 <= u ->
  window (ping_id u)
    = map (fun k => ping_id (u - Z.of_nat k)) (rev (seq 1 (window_len (ping_id u)))).
Proof.
  intros Hu. unfold window. apply map_ext_in. intros k Hk.
  apply in_rev, in_seq in Hk.
  assert (Z.of_nat k <= 31) by (revert Hk; unfold window_len; case_decide; lia).
  rewrite !ping_id_mod by lia. f_equal. rewrite Z.add_simpl_r.
  by rewrite Zminus_mod_idemp_l.
Qed.

Lemma getLoss_spec u theirs ours :
  0 <= u ->
  getLoss u theirs ours
    = if dumbLastAckSearchForID 0 ours then Ok (0, 0, 0)
      else Ok (missing ours (window (ping_id u)), missing theirs (window (ping_id u)), 32).
Proof.
  intros Hu. unfold getLoss. case_match; [done|].
  rewrite (loss_loop_ids _ _ _ _ _ _ _ _ (loss_ids_window _ (ping_id_range u Hu))).
  done.
Qed.

(** ** The ring of received pings *)

(** [ses.LastAcks[ses.getNextAckSlot()] = pI] *)
Definition push_ack (st : Z * list pingInfo) (v : pingInfo) : Z * list pingInfo :=
  let slot := getNextAckSlot (fst st) in (slot, <[Z.to_nat slot := v]> (snd st)).

(** The ring of a session that received the pings [ps], in order. *)
Definition record_acks (ps : list pingInfo) : Z * list pingInfo :=
  foldl push_ack (0, zeroAcks) ps.

Lemma getNextAckSlot_mod s : 0 <= s < 32 -> getNextAckSlot s = (s + 1) mod 32.
Proof. intros. unfold getNextAckSlot. case_decide; zdiv. Qed.

Lemma length_zeroAcks : length zeroAcks = ring_size.
Proof. reflexivity. Qed.

(** [j] slots back from the last written one is the ping received [j] pings ago. *)
Lemma ring_lookup ps (j : nat) :
  (j < 32)%nat ->
  fst (record_acks ps) = Z.of_nat (length ps) mod 32 /\
  length (snd (record_acks ps)) = ring_size /\
  snd (record_acks ps) !! Z.to_nat ((fst (record_acks ps) - Z.of_nat j) mod 32)
    = Some (if decide (j < length ps)%nat
            then default zeroInfo (ps !! (length ps - 1 - j)%nat) else zeroInfo).
Proof.
  revert j. induction ps as [|v ps IH] using rev_ind; intros j Hj.
  { split_and!; [done|done|]. cbn [record_acks foldl fst snd].
    rewrite decide_False by (simpl; lia). unfold zeroAcks.
    apply lookup_replicate_2. unfold ring_size. zdiv. }
  unfold record_acks. rewrite foldl_app. cbn [foldl]. fold (record_acks ps).
  destruct (IH j Hj) as (Hslot & Hlen & _).
  destruct (record_acks ps) as [slot acks]. cbn [push_ack fst snd] in *.
  assert (Hs32 : 0 <= slot < 32) by (subst slot; zdiv).
  rewrite getNextAckSlot_mod by done. rewrite length_app, length_insert. cbn [length].
  split_and!; [subst slot; zdiv|done|].
  set (slot' := (slot + 1) mod 32). assert (Hs' : 0 <= slot' < 32) by (unfold slot'; zdiv).
  destruct (decide (j = 0%nat)) as [-> |Hj0].
  - rewrite decide_True by lia.
    replace ((slot' - Z.of_nat 0) mod 32) with slot' by (simpl Z.of_nat; zdiv).
    rewrite list_lookup_insert_eq by (rewrite Hlen; unfold ring_size; lia).
    rewrite lookup_app_r by lia. by replace (length ps + 1 - 1 - 0 - length ps)%nat with 0%nat by lia.
  - rewrite list_lookup_insert_ne by (unfold slot' in *; zdiv).
    destruct (IH (j - 1)%nat) as (_ & _ & Hlook); [lia|].
    replace ((slot' - Z.of_nat j) mod 32) with ((slot - Z.of_nat (j - 1)) mod 32)
      by (unfold slot'; zdiv).
    rewrite Hlook. f_equal. repeat case_decide; try lia; [|done].
    rewrite lookup_app_l by lia. do 2 f_equal. lia.
Qed.

Lemma ring_elem ps v :
  v ∈ snd (record_acks ps) <->
  v ∈ drop (length ps - 32) ps \/ ((length ps < 32)%nat /\ v = zeroInfo).
Proof.
  split.
  - intros [i Hi]%list_elem_of_lookup. destruct (ring_lookup ps 0) as (Hslot & Hlen & _); [lia|].
    pose proof (lookup_lt_Some _ _ _ Hi) as Hlt. rewrite Hlen in Hlt. unfold ring_size in Hlt.
    set (slot := fst (record_acks ps)) in *.
    destruct (ring_lookup ps (Z.to_nat ((slot - Z.of_nat i) mod 32))) as (_ & _ & Hlook);
      [zdiv|]. fold slot in Hlook.
    replace (Z.to_nat ((slot - Z.of_nat (Z.to_nat ((slot - Z.of_nat i) mod 32))) mod 32))
      with i in Hlook by zdiv.
    assert (Hm : (Z.to_nat ((slot - Z.of_nat i) mod 32) < 32)%nat) by zdiv.
    set (m := Z.to_nat ((slot - Z.of_nat i) mod 32)) in *.
    rewrite Hlook in Hi. apply (inj Some) in Hi as <-. case_decide as Hj; [left|right].
    + destruct (lookup_lt_is_Some_2 ps (length ps - 1 - m)) as [w Hw]; [lia|].
      rewrite Hw. apply list_elem_of_lookup. exists (length ps - 1 - m - (length ps - 32))%nat.
      rewrite lookup_drop.
      by replace (length ps - 32 + (length ps - 1 - m - (length ps - 32)))%nat
        with (length ps - 1 - m)%nat by lia.
    + split; [lia|done].
  - intros [[i Hi]%list_elem_of_lookup|[Hl ->]].
    + rewrite lookup_drop in Hi. pose proof (lookup_lt_Some _ _ _ Hi) as Hlt.
      destruct (ring_lookup ps (length ps - 1 - (length ps - 32 + i))) as (_ & _ & Hlook);
        [lia|].
      rewrite decide_True in Hlook by lia.
      replace (length ps - 1 - (length ps - 1 - (length ps - 32 + i)))%nat
        with (length ps - 32 + i)%nat in Hlook by lia.
      rewrite Hi in Hlook. by eapply list_elem_of_lookup_2.
    + destruct (ring_lookup ps 31) as (_ & _ & Hlook); [lia|].
      rewrite decide_False in Hlook by lia. by eapply list_elem_of_lookup_2.
Qed.

(** ** Loss as seen by a receiver *)

(** The pings [ps] are those of the seconds [ss], in the order they arrived. *)
Definition pings_of (ss : list Z) (ps : list pingInfo) : Prop :=
  Forall2 (fun s v => pi_ID v = ping_id s) ss ps.

(** How many of the [n] seconds before [u] are not in [ss]. *)
Definition lost_seconds (u : Z) (n : nat) (ss : list Z) : Z :=
  Z.of_nat (length (filter (fun k => (u - Z.of_nat k)%Z ∉ ss) (seq 1 n))).

Lemma missing_app acks i j : missing acks (i ++ j) = missing acks i + missing acks j.
Proof. unfold missing. rewrite list.filter_app, length_app. lia. Qed.

Lemma missing_rev acks ids : missing acks (rev ids) = missing acks ids.
Proof.
  induction ids as [|i ids IH]; [done|]. simpl rev.
  rewrite missing_app, IH, !missing_cons. unfold missing. simpl. lia.
Qed.

Lemma missing_lost acks u (ss : list Z) ks :
  (forall k, k ∈ ks ->
     dumbLastAckSearchForID (ping_id (u - Z.of_nat k)) acks = true <-> u - Z.of_nat k ∈ ss) ->
  missing acks (map (fun k => ping_id (u - Z.of_nat k)) ks)
    = Z.of_nat (length (filter (fun k => (u - Z.of_nat k)%Z ∉ ss) ks)).
Proof.
  induction ks as [|k ks IH]; intros H; [done|]. cbn [map].
  rewrite missing_cons, filter_cons, IH by (intros; apply H, elem_of_cons; by right).
  specialize (H k ltac:(apply elem_of_cons; by left)).
  destruct (dumbLastAckSearchForID _ acks); case_decide as Hd; simpl; try lia.
  - exfalso. tauto.
  - exfalso. by apply H in Hd.
Qed.

Lemma increasing_gap (ss : list Z) i j a b :
  StronglySorted Z.lt ss -> ss !! i = Some a -> ss !! j = Some b -> (i <= j)%nat ->
  a + (Z.of_nat j - Z.of_nat i) <= b.
Proof.
  intros Hs. revert i j. induction Hs as [|s ss Hs IH Hall]; intros i j Hi Hj Hij; [done|].
  destruct i as [|i], j as [|j]; simplify_eq/=; try lia.
  - clear IH. revert a Hall. assert (Hgen : forall j a b, StronglySorted Z.lt ss ->
      Forall (Z.lt a) ss -> ss !! j = Some b -> a + (Z.of_nat j + 1) <= b).
    { clear. intros j a b Hs. revert j a. induction Hs as [|s ss Hs IH Hall]; intros j a Ha Hj;
        [done|]. apply Forall_cons_1 in Ha as [Hsa Ha].
      destruct j as [|j]; simplify_eq/=; [lia|]. specialize (IH j s Hall Hj). lia. }
    intros a Hall. specialize (Hgen j a b Hs Hall Hj). lia.
  - specialize (IH i j Hi Hj ltac:(lia)). lia.
Qed.

(** The ring of a receiver of at least 32 pings, the last 32 of them recent, answers
    exactly whether the ping of one of the last 31 seconds arrived. *)
Lemma ring_answers u ss ps k :
  31 <= u -> pings_of ss ps -> StronglySorted Z.lt ss -> (32 <= length ss)%nat ->
  Forall (fun s => 0 <= s /\ u - 224 < s <= u) (drop (length ss - 32) ss) ->
  1 <= Z.of_nat k <= 31 ->
  dumbLastAckSearchForID (ping_id (u - Z.of_nat k)) (snd (record_acks ps)) = true
    <-> u - Z.of_nat k ∈ ss.
Proof.
  intros Hu Hps Hs Hl Hrecent Hk. pose proof (Forall2_length Hps) as Hlen.
  rewrite dumb_search_spec. split.
  - intros (v & Hv & Hid). apply ring_elem in Hv as [Hv|[? _]]; [|lia].
    apply list_elem_of_lookup in Hv as [i Hi].
    assert (Hd : Forall2 (fun s v => pi_ID v = ping_id s) (drop (length ss - 32) ss)
                   (drop (length ps - 32) ps)) by (rewrite Hlen; by apply Forall2_drop).
    destruct (Forall2_lookup_r _ _ _ _ _ Hd Hi) as (s & Hsi & Hsid).
    pose proof (Forall_lookup_1 _ _ _ _ Hrecent Hsi) as Hsr. cbn beta in Hsr.
    assert (s = u - Z.of_nat k) as <- by (apply ping_id_inj; [lia|lia|lia|congruence]).
    rewrite lookup_drop in Hsi. by eapply list_elem_of_lookup_2.
  - intros [i Hi]%list_elem_of_lookup. pose proof (lookup_lt_Some _ _ _ Hi) as Hlt.
    destruct (lookup_lt_is_Some_2 ss (length ss - 1)) as [last Hlast]; [lia|].
    assert (Hlu : last <= u).
    { assert (Hd : drop (length ss - 32) ss !! 31%nat = Some last)
        by (rewrite lookup_drop, <- Hlast; f_equal; lia).
      by apply (Forall_lookup_1 _ _ _ _ Hrecent) in Hd as [_ [_ ?]]. }
    pose proof (increasing_gap ss i (length ss - 1) _ _ Hs Hi Hlast ltac:(lia)) as Hgap.
    destruct (Forall2_lookup_l _ _ _ _ _ Hps Hi) as (v & Hv & Hid).
    exists v. split; [|done]. apply ring_elem. left. apply list_elem_of_lookup.
    exists (i - (length ps - 32))%nat. rewrite lookup_drop, <- Hv. f_equal. lia.
Qed.

Lemma ping_id_nonzero_ring ss ps :
  pings_of ss ps -> Forall (fun s => 0 <= s) ss -> (32 <= length ss)%nat ->
  dumbLastAckSearchForID 0 (snd (record_acks ps)) = false.
Proof.
  intros Hps Hss Hl. apply not_true_iff_false. rewrite dumb_search_spec.
  intros (v & Hv & Hid). pose proof (Forall2_length Hps) as Hlen.
  apply ring_elem in Hv as [Hv|[? _]]; [|lia].
  apply list_elem_of_lookup in Hv as [i Hi]. rewrite lookup_drop in Hi.
  destruct (Forall2_lookup_r _ _ _ _ _ Hps Hi) as (s & Hsi & Hsid).
  pose proof (Forall_lookup_1 _ _ _ _ Hss Hsi) as H0. cbn in H0.
  pose proof (ping_id_range s H0). lia.
Qed.

(** What a receiver has heard by second [u]: at least 32 pings, sent in the seconds [ss] in
    this order, the last 32 of them within 224 seconds. *)
Record heard (u : Z) (ss : list Z) (ps : list pingInfo) : Prop := {
  heard_pings : pings_of ss ps;
  heard_sorted : StronglySorted Z.lt ss;
  heard_nonneg : Forall (fun s => 0 <= s) ss;
  heard_enough : (32 <= length ss)%nat;
  heard_recent : Forall (fun s => u - 224 < s <= u) (drop (length ss - 32) ss);
}.

Lemma missing_heard u ss ps :
  31 <= u -> heard u ss ps ->
  missing (snd (record_acks ps)) (window (ping_id u))
    = lost_seconds u (window_len (ping_id u)) ss.
Proof.
  intros Hu [Hps Hs H0 Hl Hrecent]. rewrite window_seconds by done.
  rewrite map_rev, missing_rev. apply missing_lost.
  intros k Hk. apply list_elem_of_In, in_seq in Hk. apply ring_answers; try done.
  - apply Forall_and; [by apply Forall_drop | done].
  - revert Hk. unfold window_len. case_decide; lia.
Qed.

(** The search looks at identifiers only. *)
Lemma dumb_search_ids id acks acks' :
  map pi_ID acks = map pi_ID acks' ->
  dumbLastAckSearchForID id acks = dumbLastAckSearchForID id acks'.
Proof.
  revert acks'. induction acks as [|v acks IH]; intros [|v' acks'] H; simplify_eq/=; [done|].
  rewrite (IH acks') by done. by repeat case_decide; congruence.
Qed.

Lemma missing_ids acks acks' ids :
  map pi_ID acks = map pi_ID acks' -> missing acks ids = missing acks' ids.
Proof.
  intros H. induction ids as [|i ids IH]; [done|].
  by rewrite !missing_cons, IH, (dumb_search_ids i acks acks').
Qed.

Lemma getLoss_heard u theirs ss ps ss' ps' :
  31 <= u -> heard u ss ps -> heard u ss' ps' ->
  map pi_ID theirs = map pi_ID (snd (record_acks ps')) ->
  getLoss u theirs (snd (record_acks ps))
    = Ok (lost_seconds u (window_len (ping_id u)) ss,
          lost_seconds u (window_len (ping_id u)) ss', 32).
Proof.
  intros Hu Hh Hh' Hids. rewrite getLoss_spec by lia. pose proof Hh as [Hps _ H0 Hl _].
  rewrite (ping_id_nonzero_ring ss) by done.
  by rewrite (missing_ids _ _ _ Hids), (missing_heard u ss ps), (missing_heard u ss' ps').
Qed.

(** ** Latency *)

(** The latency an ack reports for the direction towards its sender. *)
Definition ack_latency (v : pingInfo) : Z := Sub (pi_RX v) (pi_TX v).

(** An ack as it comes out of a decoded ping: its send time has no monotonic reading. *)
Definition wire_ack (v : pingInfo) : Prop := mono (pi_TX v) = None /\ in_era (pi_TX v).

Section Newest.
Context (clock : nat -> Time).
Hypothesis clock_era : forall i, in_era (clock i).
Hypothesis clock_monotone : forall i, wall (clock i) <= wall (clock (S i)).

Lemma clock_le i j : (i <= j)%nat -> wall (clock i) <= wall (clock j).
Proof.
  induction 1 as [|j _ IH]; [lia|]. pose proof (clock_monotone j). lia.
Qed.

Lemma Since_ack i v :
  wire_ack v -> Since (clock i) (pi_TX v) = wall (clock i) - wall (pi_TX v).
Proof. intros [Hm He]. apply Sub_wall; auto. Qed.

(** Once an ack is chosen, reading [j] of the clock dates it; whatever was passed
    over was not sent after it by more than the time the search took. *)
Lemma newest_ack_step acks n j v m :
  Forall (fun w => IsZero (pi_RX w) = false -> wire_ack w) acks -> (j <= n)%nat ->
  m <= wall (pi_TX v) + (wall (clock n) - wall (clock j)) ->
  exists n' v', newest_ack clock n acks (ack_latency v)
      (wall (clock j) - wall (pi_TX v)) = (n', ack_latency v') /\
    (n <= n')%nat /\ (v' = v \/ (v' ∈ acks /\ IsZero (pi_RX v') = false)) /\
    wall (pi_TX v) <= wall (pi_TX v') /\
    m <= wall (pi_TX v') + (wall (clock n') - wall (clock j)) /\
    forall w, w ∈ acks -> IsZero (pi_RX w) = false ->
      wall (pi_TX w) <= wall (pi_TX v') + (wall (clock n') - wall (clock j)).
Proof.
  intros Hacks. revert n j v m.
  induction Hacks as [|w acks Hw Hacks IH]; intros n j v m Hj Hm.
  { exists n, v. split_and!; [done|done|by left|done|done|]. intros w Hw. by apply elem_of_nil in Hw. }
  cbn [newest_ack]. destruct (IsZero (pi_RX w)) eqn:Hz.
  { destruct (IH n j v m Hj Hm) as (n' & v' & -> & Hn & Hv & Hle & Hm' & Hall).
    exists n', v'. split_and!; [done|done| |done|done|].
    - destruct Hv as [->|[? ?]]; [by left|]. right. split; [|done].
      apply elem_of_cons. by right.
    - intros x Hx Hxz. apply elem_of_cons in Hx as [-> |Hx]; [congruence|]. by apply Hall. }
  specialize (Hw eq_refl). rewrite Since_ack by done. case_decide as Hlt.
  - rewrite (Since_ack (n + 1)) by done. fold (ack_latency w).
    pose proof (clock_le n (n + 1) ltac:(lia)). pose proof (clock_le (n + 1) (n + 2) ltac:(lia)).
    pose proof (clock_le j n Hj).
    destruct (IH (n + 2)%nat (n + 1)%nat w (Z.max m (wall (pi_TX w))))
      as (n' & v' & Heq & Hn & Hv & Hle & Hm' & Hall); [lia|lia|].
    exists n', v'. split_and!; [done|lia| |lia|lia|].
    + right. destruct Hv as [->|[? ?]].
      * split; [apply elem_of_cons; by left|done].
      * split; [apply elem_of_cons; by right|done].
    + intros x Hx Hxz. apply elem_of_cons in Hx as [-> |Hx]; [lia|].
      specialize (Hall x Hx Hxz). lia.
  - pose proof (clock_le n (n + 1) ltac:(lia)).
    destruct (IH (n + 1)%nat j v (Z.max m (wall (pi_TX w))))
      as (n' & v' & -> & Hn & Hv & Hle & Hm' & Hall); [lia|lia|].
    exists n', v'. split_and!; [done|lia| |lia|lia|].
    + destruct Hv as [->|[? ?]]; [by left|]. right. split; [|done].
      apply elem_of_cons. by right.
    + intros x Hx Hxz. apply elem_of_cons in Hx as [-> |Hx]; [lia|]. by apply Hall.
Qed.

(** An ack the search considers: received, and sent less than [lim] ago. *)
Definition eligible (lim : Z) (now : Z) (v : pingInfo) : Prop :=
  IsZero (pi_RX v) = false /\ now - wall (pi_TX v) < lim.

Lemma newest_ack_spec acks n lim txl :
  Forall (fun w => IsZero (pi_RX w) = false -> wire_ack w) acks ->
  exists n' txl', newest_ack clock n acks txl lim = (n', txl') /\ (n <= n')%nat /\
    ((txl' = txl /\ forall w, w ∈ acks -> ~ eligible lim (wall (clock n')) w) \/
     (exists v, v ∈ acks /\ eligible lim (wall (clock n)) v /\ txl' = ack_latency v /\
        forall w, w ∈ acks -> eligible lim (wall (clock n')) w ->
          wall (pi_TX w) <= wall (pi_TX v) + (wall (clock n') - wall (clock n)))).
Proof.
  intros Hacks. revert n. induction Hacks as [|w acks Hw Hacks IH]; intros n.
  { exists n, txl. split_and!; [done|done|]. left. split; [done|].
    intros w Hw. by apply elem_of_nil in Hw. }
  assert (Hskip : forall k, (n <= k)%nat ->
    ~ eligible lim (wall (clock k)) w ->
    exists n' txl', newest_ack clock k acks txl lim = (n', txl') /\ (n <= n')%nat /\
    ((txl' = txl /\ forall x, x ∈ w :: acks -> ~ eligible lim (wall (clock n')) x) \/
     (exists v, v ∈ w :: acks /\ eligible lim (wall (clock n)) v /\ txl' = ack_latency v /\
        forall x, x ∈ w :: acks -> eligible lim (wall (clock n')) x ->
          wall (pi_TX x) <= wall (pi_TX v) + (wall (clock n') - wall (clock n))))).
  { intros k Hk Hne. destruct (IH k) as (n' & txl' & -> & Hn & Hcase).
    pose proof (clock_le k n' Hn). pose proof (clock_le n k Hk).
    assert (Hne' : ~ eligible lim (wall (clock n')) w).
    { intros [Hz Hage]. apply Hne. split; [done|lia]. }
    exists n', txl'. split_and!; [done|lia|]. destruct Hcase as [[-> Hall]|(v & Hv & He & -> & Hall)].
    - left. split; [done|]. intros x Hx. apply elem_of_cons in Hx as [-> |Hx]; auto.
    - right. exists v. split_and!; [apply elem_of_cons; by right| |done|].
      + destruct He as [? ?]. split; [done|lia].
      + intros x Hx Hxe. apply elem_of_cons in Hx as [-> |Hx]; [done|].
        specialize (Hall x Hx Hxe). lia. }
  cbn [newest_ack]. destruct (IsZero (pi_RX w)) eqn:Hz.
  { apply Hskip; [done|]. intros [? _]. congruence. }
  specialize (Hw eq_refl). rewrite Since_ack by done. case_decide as Hlt.
  - rewrite Since_ack by done. fold (ack_latency w).
    pose proof (clock_le n (n + 1) ltac:(lia)). pose proof (clock_le (n + 1) (n + 2) ltac:(lia)).
    destruct (newest_ack_step acks (n + 2) (n + 1) w (wall (pi_TX w)))
      as (n' & v' & Heq & Hn & Hv & Hle & Hm' & Hall); [done|lia|lia|].
    exists n', (ack_latency v'). split_and!; [done|lia|]. right. exists v'.
    pose proof (clock_le (n + 2) n' Hn).
    assert (Hlast : wall (pi_TX w) <= wall (pi_TX v') + (wall (clock n') - wall (clock n)))
      by lia.
    split_and!; [| |done|].
    + destruct Hv as [->|[? ?]]; apply elem_of_cons; [by left|by right].
    + destruct Hv as [->|[? ?]]; [by split|]. split; [done|lia].
    + intros x Hx [Hxz _]. apply elem_of_cons in Hx as [-> |Hx]; [done|].
      specialize (Hall x Hx Hxz). lia.
  - apply (Hskip (n + 1)%nat); [lia|]. intros [_ Hage].
    pose proof (clock_le n (n + 1) ltac:(lia)). lia.
Qed.
End Newest.

(** ** Properties *)

(** C20: after any sequence of received pings, the ring of 32 slots holds exactly the
    last 32 of them (or all of them and unused zero slots when fewer arrived), the
    ping received [j] pings ago being [j] slots behind the slot last written. *)
Theorem ring_holds_last_32 ps :
  let '(slot, acks) := record_acks ps in
  0 <= slot < 32 /\ length acks = ring_size /\
  (forall v, v ∈ acks <->
     v ∈ drop (length ps - 32) ps \/ ((length ps < 32)%nat /\ v = zeroInfo)) /\
  (forall j, (j < 32)%nat ->
     acks !! Z.to_nat ((slot - Z.of_nat j) mod 32)
       = Some (if decide (j < length ps)%nat
               then default zeroInfo (ps !! (length ps - 1 - j)%nat) else zeroInfo)).
Proof.
  destruct (record_acks ps) as [slot acks] eqn:Hr.
  pose proof (ring_lookup ps) as Hlook. pose proof (ring_elem ps) as Helem.
  rewrite Hr in *. cbn [fst snd] in *.
  destruct (Hlook 0%nat) as (Hs & Hl & _); [lia|].
  split_and!; [zdiv|zdiv|done|apply Helem|]. intros j Hj. by apply Hlook.
Qed.

(** Whatever the peer sends, the backward search of [getLoss] ends; it reports
    either no figures (0 of 0) or two counts between 0 and 31 out of 32, so a reported
    loss ratio is never 1 even when every ping was lost. *)
Lemma getLoss_bounded u theirs ours :
  0 <= u ->
  getLoss u theirs ours = Ok (0, 0, 0) \/
  exists rx tx, getLoss u theirs ours = Ok (rx, tx, 32) /\ 0 <= rx <= 31 /\ 0 <= tx <= 31.
Proof.
  intros Hu. rewrite getLoss_spec by done. case_match; [by left|]. right.
  eexists _, _. split; [done|].
  assert (Hb : forall acks, 0 <= missing acks (window (ping_id u)) <= 31).
  { intros acks. pose proof (missing_bounds acks (window (ping_id u))) as Hm.
    rewrite length_window in Hm. unfold window_len in Hm. case_decide; lia. }
  split; apply Hb.
Qed.

Lemma getLoss_bounded_witness :
  getLoss 1000 zeroAcks (replicate 32 (mkPingInfo 7 zeroTime zeroTime)) = Ok (31, 31, 32) /\
  (getLoss 1000 zeroAcks zeroAcks = Ok (0, 0, 0) \/
   exists rx tx, getLoss 1000 zeroAcks zeroAcks = Ok (rx, tx, 32) /\
     0 <= rx <= 31 /\ 0 <= tx <= 31).
Proof. split; [vm_compute; reflexivity|]. apply getLoss_bounded. lia. Defined.

(** The identifier 0 is never met, since the loop skips it. *)
Lemma loss_loop_zero fuel i theirs ours rx tx :
  loss_loop fuel 0 i theirs ours rx tx = Diverge.
Proof.
  revert i rx tx. induction fuel as [|fuel IH]; intros i rx tx; [done|]. cbn [loss_loop].
  rewrite decide_False; [apply IH|]. destruct (decide (u8 (i + 1) = 0)) as [-> |H]; [by vm_compute|done].
Qed.

Lemma ping_id_zero u : ping_id u = 0 <-> Z.rem u 255 = -1.
Proof.
  unfold ping_id, u8. pose proof (Z.rem_bound_abs u 255 ltac:(lia)). zdiv.
Qed.

(** C22: when the backward search of [getLoss] ends: for every identifier but 0 it stops within
    32 rounds, on any acks; for the identifier 0 it goes round for ever, whatever the
    number of rounds allowed; and the identifier of the clock is 0 exactly when Go's
    remainder of the Unix second by 255 is -1, that is only before 1970. *)
Theorem loss_search_termination u theirs ours :
  (ping_id u <> 0 <->
     exists r, loss_loop loss_fuel (ping_id u) (u8 (ping_id u - 32)) theirs ours 0 0 = Ok r) /\
  (ping_id u = 0 <->
     forall fuel i rx tx, loss_loop fuel (ping_id u) i theirs ours rx tx = Diverge) /\
  (ping_id u = 0 <-> Z.rem u 255 = -1) /\ (0 <= u -> ping_id u <> 0).
Proof.
  assert (Hr : 0 <= ping_id u < 256) by (unfold ping_id; apply u8_range).
  assert (Hok : ping_id u <> 0 ->
    exists r, loss_loop loss_fuel (ping_id u) (u8 (ping_id u - 32)) theirs ours 0 0 = Ok r).
  { intros H. eexists. apply loss_loop_ids, loss_ids_window. lia. }
  split_and!.
  - split; [done|]. intros [r Hx] H0. rewrite H0, loss_loop_zero in Hx. discriminate Hx.
  - split; [intros ->; intros; apply loss_loop_zero|]. intros Hd.
    destruct (decide (ping_id u = 0)) as [|Hne]; [done|]. destruct (Hok Hne) as [r Hx].
    rewrite Hd in Hx. discriminate Hx.
  - apply ping_id_zero.
  - intros Hu. rewrite ping_id_zero. pose proof (Z.rem_nonneg u 255 ltac:(lia) Hu). lia.
Qed.

Lemma loss_search_termination_witness :
  0 <= 1600000000 /\ ping_id 1600000000 <> 0 /\ ping_id (-1) = 0 /\
  loss_loop 1000 (ping_id (-1)) 0 zeroAcks zeroAcks 0 0 = Diverge.
Proof.
  split_and!; [lia| | |].
  - apply (loss_search_termination 1600000000 zeroAcks zeroAcks). lia.
  - apply (loss_search_termination (-1) zeroAcks zeroAcks). reflexivity.
  - apply (loss_search_termination (-1) zeroAcks zeroAcks). vm_compute. reflexivity.
Defined.

(** C17: the reported losses count lost seconds, in both directions. For two ends that have
    each heard at least 32 pings, the last 32 within the last 224 seconds, the receive
    loss is exactly the number of the preceding 31 seconds (30 when the identifiers wrap
    inside the window) whose ping did not arrive here, and the send loss the number of
    those whose ping did not arrive at the peer, whose ring the last ping carried. *)
Theorem getLoss_counts_lost_seconds u theirs ss ps ss' ps' :
  31 <= u -> heard u ss ps -> heard u ss' ps' ->
  map pi_ID theirs = map pi_ID (snd (record_acks ps')) ->
  getLoss u theirs (snd (record_acks ps))
    = Ok (lost_seconds u (window_len (ping_id u)) ss,
          lost_seconds u (window_len (ping_id u)) ss', 32).
Proof. apply getLoss_heard. Qed.

(** Seconds 1000 to 1040, of which 1020 and 1030 were lost. *)
Definition example_seconds : list Z := seqZ 1000 20 ++ seqZ 1021 9 ++ seqZ 1031 10.

(** The other direction lost second 1035 only. *)
Definition example_seconds' : list Z := seqZ 1000 35 ++ seqZ 1036 5.
Definition pings_at (ss : list Z) : list pingInfo :=
  map (fun s => mkPingInfo (ping_id s) (time_Unix s 0) (time_Unix s 0)) ss.

Lemma heard_at u ss :
  Sorted Z.lt ss -> Forall (fun s => 0 <= s) ss -> (32 <= length ss)%nat ->
  Forall (fun s => u - 224 < s <= u) (drop (length ss - 32) ss) -> heard u ss (pings_at ss).
Proof.
  intros Hs H0 Hl Hr. constructor; try done.
  - unfold pings_of, pings_at. apply Forall2_fmap_r, Forall_Forall2_diag. by apply Forall_forall.
  - apply Sorted_StronglySorted; [intros x y z; lia|done].
Qed.

Lemma heard_example : heard 1040 example_seconds (pings_at example_seconds).
Proof.
  apply heard_at.
  - repeat (constructor; [|first [apply Sorted.HdRel_nil | apply HdRel_cons; reflexivity]]).
    constructor.
  - repeat (constructor; [lia|]). constructor.
  - apply Nat.leb_le. vm_compute. reflexivity.
  - change (drop (length example_seconds - 32) example_seconds)
      with (seqZ 1007 13 ++ seqZ 1021 9 ++ seqZ 1031 10).
    repeat (constructor; [lia|]). constructor.
Qed.

Lemma heard_example' : heard 1040 example_seconds' (pings_at example_seconds').
Proof.
  apply heard_at.
  - repeat (constructor; [|first [apply Sorted.HdRel_nil | apply HdRel_cons; reflexivity]]).
    constructor.
  - repeat (constructor; [lia|]). constructor.
  - apply Nat.leb_le. vm_compute. reflexivity.
  - change (drop (length example_seconds' - 32) example_seconds')
      with (seqZ 1008 27 ++ seqZ 1036 5).
    repeat (constructor; [lia|]). constructor.
Qed.

Lemma getLoss_counts_lost_seconds_witness :
  lost_seconds 1040 (window_len (ping_id 1040)) example_seconds = 2 /\
  lost_seconds 1040 (window_len (ping_id 1040)) example_seconds' = 1 /\
  getLoss 1040 (snd (record_acks (pings_at example_seconds')))
      (snd (record_acks (pings_at example_seconds)))
    = Ok (lost_seconds 1040 (window_len (ping_id 1040)) example_seconds,
          lost_seconds 1040 (window_len (ping_id 1040)) example_seconds', 32).
Proof.
  split; [vm_compute; reflexivity|]. split; [vm_compute; reflexivity|].
  apply (getLoss_counts_lost_seconds 1040 _ example_seconds (pings_at example_seconds)
    example_seconds' (pings_at example_seconds')).
  - lia.
  - exact heard_example.
  - exact heard_example'.
  - reflexivity.
Defined.

(** C21: the send latency reported by [getStats] comes from the acknowledgement of the
    newest ping: among the acks the peer received and that were sent less than a day
    ago, no other was sent later, up to the time the search itself took on a clock that
    does not go back; with no such ack the latency is 0. *)
Theorem getStats_latency_newest clock timeRX rx ours st :
  (forall i, in_era (clock i)) -> (forall i, wall (clock i) <= wall (clock (S i))) ->
  Forall (fun v => IsZero (pi_RX v) = false -> wire_ack v) (p_LastAcks rx) ->
  getStats clock timeRX rx ours = Ok st ->
  st_RXLatency st = Sub timeRX (p_TXTime rx) /\
  exists n,
    (st_TXLatency st = 0 /\
       forall w, w ∈ p_LastAcks rx -> ~ eligible (24 * Hour) (wall (clock n)) w) \/
    (exists v, v ∈ p_LastAcks rx /\ eligible (24 * Hour) (wall (clock 0%nat)) v /\
       st_TXLatency st = Sub (pi_RX v) (pi_TX v) /\
       forall w, w ∈ p_LastAcks rx -> eligible (24 * Hour) (wall (clock n)) w ->
         wall (pi_TX w) <= wall (pi_TX v) + (wall (clock n) - wall (clock 0%nat))).
Proof.
  intros He Hm Hacks. unfold getStats. replace (Hour * 24) with (24 * Hour) by lia.
  destruct (newest_ack_spec clock He Hm (p_LastAcks rx) 0 (24 * Hour) 0 Hacks)
    as (n & txl & -> & _ & Hcase).
  destruct (getLoss _ _ _) as [[[r t] s]| | |]; intros Hst; try done.
  apply Ok_inj in Hst as <-. cbn [st_RXLatency st_TXLatency]. split; [done|]. exists n.
  destruct Hcase as [[-> Hall]|(v & Hv & Hel & -> & Hall)]; [by left|].
  right. exists v. by split_and!.
Qed.

(** A ping sent at 12 s, received at 12.25 s, acknowledging pings sent at 10 s and 11 s. *)
Definition example_rx : pingStruct :=
  mkPing 116 11181 1 13 (time_Unix 12 0) 0
    [mkPingInfo 11 (time_Unix 10 0) (time_Unix 10 90000000);
     mkPingInfo 12 (time_Unix 11 0) (time_Unix 11 70000000); zeroInfo].

Definition example_clock (n : nat) : Time := time_Unix 12 (250000000 + Z.of_nat (Nat.min n 100)).

Lemma getStats_latency_newest_witness :
  exists st, getStats example_clock (time_Unix 12 250000000) example_rx zeroAcks = Ok st /\
    st_TXLatency st = 70000000 /\
    st_RXLatency st = Sub (time_Unix 12 250000000) (p_TXTime example_rx).
Proof.
  eexists. split; [vm_compute; reflexivity|]. split; [reflexivity|].
  refine (proj1 (getStats_latency_newest example_clock (time_Unix 12 250000000) example_rx
    zeroAcks _ _ _ _ _)).
  - intros i. unfold in_era, example_clock, time_Unix, Second. cbn [wall]. lia.
  - intros i. unfold example_clock, time_Unix. cbn [wall]. lia.
  - unfold example_rx. cbn [p_LastAcks].
    apply List.Forall_cons; [intros _; by vm_compute|].
    apply List.Forall_cons; [intros _; by vm_compute|].
    apply List.Forall_cons; [intros Hz; vm_compute in Hz; discriminate Hz|].
    apply List.Forall_nil.
  - vm_compute. reflexivity.
Defined.
