(* ===== verification/Session.v ===== *)
(** * Sessions (main.go: session, handlePacket, handleInboundHandshake, sendPackets,
    sessionGC; sessionhandle.go: handshakeStruct, sendUDPHandshake, waitForHandshake)

    The session objects live in a heap, since the session table, the packet handlers
    and the goroutines of a session share them by pointer. A world holds the heap, the
    table [sessionMap], the goroutines of the sessions and the datagrams sent. Each
    handler is a function on worlds; the msgpack codec is a parameter with the laws
    the program relies on. *)

From stdpp Require Export gmap.
From S2P Require Import Prelude Bytes GoTime Acks.
Local Open Scope Z_scope.

(** ** Data *)

(** [net.UDPAddr] *)
Record UDPAddr := mkUDPAddr { ua_IP : bytes; ua_Port : Z; ua_Zone : bytes }.

(** An open socket, by identity. *)
Definition conn : Type := nat.

(** A session object, by address. *)
Definition loc : Type := positive.

Record handshakeStruct := mkHandshake {
  hs_Type : Z;
  hs_Magic : Z;
  hs_Version : Z;
  hs_Session : Z;
}.

(** The fields of [session]; a nil pointer, slice or interface is [None]. The channel
    [pulse] is never made, so it stays nil; [UDPHandshake] is the unbuffered channel
    of the session, whose receivers are the goroutines blocked on it. *)
Record session := mkSession {
  TCPActivated : bool;
  UDPActivated : bool;
  MadeByMe : bool;
  PeerAddress : option bytes;
  SessionMade : Time;
  ReplyWith : option conn;
  ReplyTo : option UDPAddr;
  LastAcks : list pingInfo;
  LastRX : Time;
  CurrentID : Z;
  SessionID : Z;
  nextAckSlot : Z;
  LastRXPing : pingStruct;
  pulse : option unit;
}.

#[export] Instance UDPAddr_eq_dec : EqDecision UDPAddr.
Proof. solve_decision. Defined.
#[export] Instance handshakeStruct_eq_dec : EqDecision handshakeStruct.
Proof. solve_decision. Defined.
#[export] Instance session_eq_dec : EqDecision session.
Proof. solve_decision. Defined.

(** The composite literal of [handleTCPconnection]: the other fields are zero. *)
Definition server_session (id : Z) (made : Time) : session :=
  mkSession true false false None made None None zeroAcks zeroTime 0 id 0 zeroPing None.

(** The composite literal of [startSession]. *)
Definition client_session (id : Z) (ip : bytes) (made : Time) : session :=
  mkSession true false true (Some ip) made None None zeroAcks zeroTime 0 id 0 zeroPing None.

(** *** Goroutines *)

(** Which function waits for the handshake of a session. *)
Inductive waiter_kind := SendUDPHandshake | WaitForHandshake.

(** Where a waiter is: not yet at its [select]; blocked in it; in the case of its ticker;
    woken by a value on [UDPHandshake] and about to activate the session; returned. A
    ping loop is [running] while it waits for its next second, and not while it sends
    or after it returned. Where a whole tick or iteration is one step (System), neither
    [WTicking] nor a ping loop that sends is seen between two steps. *)
Inductive waiter_state := WStarting | WSelecting | WTicking | WNotified | WReturned.

Inductive goroutine :=
  | Waiter (k : waiter_kind) (l : loc) (st : waiter_state)
  | Sender (l : loc) (timeStarted : Time) (running : bool).

#[export] Instance waiter_kind_eq_dec : EqDecision waiter_kind.
Proof. solve_decision. Defined.
#[export] Instance waiter_state_eq_dec : EqDecision waiter_state.
Proof. solve_decision. Defined.
#[export] Instance goroutine_eq_dec : EqDecision goroutine.
Proof. solve_decision. Defined.

(** *** Worlds *)

(** A datagram sent, with the session and the kind of send it comes from. *)
Inductive send_kind := SReply | SHandshake | SPing.

Record datagram := mkDatagram {
  d_kind : send_kind;
  d_loc : loc;
  d_conn : conn;
  d_buf : bytes;
  d_to : UDPAddr;
}.

#[export] Instance send_kind_eq_dec : EqDecision send_kind.
Proof. solve_decision. Defined.
#[export] Instance datagram_eq_dec : EqDecision datagram.
Proof. solve_decision. Defined.

Record world := mkWorld {
  w_heap : gmap loc session;
  w_table : gmap Z loc;                (** sessionMap *)
  w_globalReplyWith : option conn;
  w_gor : list goroutine;
  w_pending : list (waiter_kind * Z);  (** go statements about to be executed *)
  w_sent : list datagram;              (** newest first *)
}.

Definition empty_world : world := mkWorld ∅ ∅ None [] [] [].

(** What ends the process: [log.Fatalf], and the check of the Go runtime that no map is
    read or written during a write of it. *)
Inductive fatal_error := Fatal | ConcurrentMapAccess.

Definition set_session (l : loc) (s : session) (w : world) : world :=
  mkWorld (<[l := s]> (w_heap w)) (w_table w) (w_globalReplyWith w) (w_gor w)
    (w_pending w) (w_sent w).
Definition set_table (t : gmap Z loc) (w : world) : world :=
  mkWorld (w_heap w) t (w_globalReplyWith w) (w_gor w)
    (w_pending w) (w_sent w).
Definition set_gor (g : list goroutine) (w : world) : world :=
  mkWorld (w_heap w) (w_table w) (w_globalReplyWith w) g (w_pending w) (w_sent w).
Definition send (d : datagram) (w : world) : world :=
  mkWorld (w_heap w) (w_table w) (w_globalReplyWith w) (w_gor w)
    (w_pending w) (d :: w_sent w).

(** [sessionMap[id]]: the pointer and the object it points to, [None] for nil. *)
Definition lookup_session (w : world) (id : Z) : option (loc * session) :=
  l ← w_table w !! id; s ← w_heap w !! l; Some (l, s).

(** ** The codec (msgpack) *)

Class Codec := {
  marshal_ping : pingStruct -> option bytes;
  unmarshal_ping : bytes -> option pingStruct;
  marshal_hs : handshakeStruct -> option bytes;
  unmarshal_hs : bytes -> option handshakeStruct;
}.

Definition strip_info (v : pingInfo) : pingInfo :=
  mkPingInfo (pi_ID v) (strip (pi_TX v)) (strip (pi_RX v)).
Definition strip_ping (p : pingStruct) : pingStruct :=
  mkPing (p_Type p) (p_Magic p) (p_Session p) (p_ID p) (strip (p_TXTime p))
    (p_SendersError p) (map strip_info (p_LastAcks p)).

(** The Go types of the fields. *)
Definition wf_info_ack (v : pingInfo) : Prop := is_u8 (pi_ID v).
Definition wf_ping (p : pingStruct) : Prop :=
  is_u8 (p_Type p) /\ is_u16 (p_Magic p) /\ is_u32 (p_Session p) /\ is_u8 (p_ID p) /\
  is_u16 (p_SendersError p) /\ length (p_LastAcks p) = ring_size /\
  Forall wf_info_ack (p_LastAcks p).
Definition wf_hs (h : handshakeStruct) : Prop :=
  is_u8 (hs_Type h) /\ is_u16 (hs_Magic h) /\ is_u16 (hs_Version h) /\
  is_u32 (hs_Session h).

(** What the program relies on: a value decodes to itself, its instants without their
    monotonic readings; a decoded value fits the Go types; and the fields a handshake
    shares with a ping (keys Y, M and S) decode alike with either type. *)
Class CodecLaws (C : Codec) := {
  marshal_ping_ok p : wf_ping p ->
    exists b, marshal_ping p = Some b /\ unmarshal_ping b = Some (strip_ping p);
  marshal_hs_ok h : wf_hs h ->
    exists b p, marshal_hs h = Some b /\ unmarshal_hs b = Some h /\
      unmarshal_ping b = Some p /\ p_Type p = hs_Type h /\ p_Magic p = hs_Magic h;
  unmarshal_ping_wf b p : unmarshal_ping b = Some p -> wf_ping p;
  unmarshal_hs_wf b h : unmarshal_hs b = Some h -> wf_hs h;
}.

(** ** The handlers *)

Definition magic : Z := 11181.
Definition type_ping : Z := 116.       (** 't' *)
Definition type_handshake : Z := 104.  (** 'h' *)

Section Handlers.
  Context {C : Codec}.

(** The first goroutine blocked on the session's channel. *)
Definition is_selecting (l : loc) (g : goroutine) : bool :=
  match g with Waiter _ l' WSelecting => bool_decide (l = l') | _ => false end.

Definition notify_waiter (l : loc) (g : goroutine) : goroutine :=
  match g with Waiter k l' WSelecting => Waiter k l' WNotified | _ => g end.

(** [select { case ses.UDPHandshake <- true: default: }]: the value is taken if a
    receiver is blocked on the channel, and is dropped otherwise. *)
Fixpoint notify (l : loc) (gs : list goroutine) : list goroutine :=
  match gs with
  | [] => []
  | g :: gs => if is_selecting l g then notify_waiter l g :: gs else g :: notify l gs
  end.

(** The assignments of [handleInboundHandshake] to the session. *)
Definition activate (rxAddr : UDPAddr) (c : conn) (s : session) : session :=
  mkSession (TCPActivated s) true (MadeByMe s)
    (match PeerAddress s with None => Some (ua_IP rxAddr) | a => a end)
    (SessionMade s) (Some c) (Some rxAddr) (LastAcks s) (LastRX s) (CurrentID s)
    (SessionID s) (nextAckSlot s) (LastRXPing s) (pulse s).

(** [func handleInboundHandshake(buf []byte, rxAddr *net.UDPAddr, lSocket net.PacketConn)],
    by itself; see Statements.v for its statements. *)
Definition handleInboundHandshake (buf : bytes) (rxAddr : UDPAddr) (lSocket : conn)
    (w : world) : result fatal_error world :=
  match unmarshal_hs buf with
  | None => Ok w
  | Some rx =>
      if decide (hs_Magic rx <> magic) then Ok w else
      if decide (hs_Version rx <> 3) then Ok w else
      match lookup_session w (hs_Session rx) with
      | None => Ok w
      | Some (l, ses) =>
          if UDPActivated ses && TCPActivated ses then Ok w else
          let wasAlreadyActivated := UDPActivated ses in
          match w_globalReplyWith w with
          | None => Panic
          | Some c =>
              let w := set_session l (activate rxAddr c ses) w in
              let w := set_gor (notify l (w_gor w)) w in
              Ok (if negb wasAlreadyActivated
                  then send (mkDatagram SReply l c buf rxAddr) w else w)
          end
      end
  end.

(** The assignments of [handlePacket] to the session, at ring slot [slot]. *)
Definition record_ping (timeRX : Time) (rx : pingStruct) (rxAddr : UDPAddr)
    (lSocket : conn) (slot : Z) (s : session) : session :=
  mkSession (TCPActivated s) (UDPActivated s) (MadeByMe s) (PeerAddress s) (SessionMade s)
    (Some lSocket) (Some rxAddr)
    (<[Z.to_nat slot := mkPingInfo (p_ID rx) (p_TXTime rx) timeRX]> (LastAcks s))
    timeRX (CurrentID s) (SessionID s) slot rx (pulse s).

(** What a call of [timeNowCorrected] comes to: the corrected time, or the exit of the
    process when a calibration finds the clock too far off. *)
Definition corrected : Type := result fatal_error Time.

(** [func handlePacket(buf []byte, rxAddr *net.UDPAddr, lSocket net.PacketConn)];
    [timeRX] is its call of [timeNowCorrected]; the debug flags only print. This is the
    function by itself, with no other goroutine in between; Statements.v has its
    statements one by one, as a goroutine among others. *)
Definition handlePacket (timeRX : corrected) (buf : bytes) (rxAddr : UDPAddr) (lSocket : conn)
    (w : world) : result fatal_error world :=
  timeRX ← timeRX;
  match unmarshal_ping buf with
  | None => Ok w
  | Some rx =>
      if decide (p_Magic rx <> magic) then Ok w else
      if decide (p_Type rx = type_handshake)
      then handleInboundHandshake buf rxAddr lSocket w else
      if decide (p_Type rx <> type_ping) then Ok w else
      match lookup_session w (p_Session rx) with
      | None => Ok w
      | Some (l, ses) =>
          if negb (UDPActivated ses) && TCPActivated ses then Ok w else
          let slot := getNextAckSlot (nextAckSlot ses) in
          if decide (0 <= slot < Z.of_nat (length (LastAcks ses)))
          then Ok (set_session l (record_ping timeRX rx rxAddr lSocket slot ses) w)
          else Panic
      end
  end.

(** *** Garbage collection *)

(** Whether one iteration of [sessionGC] keeps the session; [now1] and [now2] are the
    two readings of the clock. *)
Definition gc_keep (now1 now2 : Time) (ses : session) : bool :=
  if decide (Since now1 (LastRX ses) > Minute) then false
  else if negb (UDPActivated ses) then
    if decide (Since now2 (SessionMade ses) > Second * 20) then false else true
  else true.

(** One iteration of the range loop over [sessionMap], for the key [ID]. *)
Definition gc_one (clock : Z -> Time * Time) (w : world) (ID : Z) : world :=
  match lookup_session w ID with
  | None => w
  | Some (_, ses) =>
      if gc_keep (fst (clock ID)) (snd (clock ID)) ses then w
      else set_table (delete ID (w_table w)) w
  end.

(** One pass of [sessionGC] over the keys in the order the runtime yields them. *)
Definition sessionGC (clock : Z -> Time * Time) (order : list Z) (w : world) : world :=
  foldl (gc_one clock) w order.

(** *** The ping loop *)

(** Sets [s.CurrentID]. *)
Definition set_current (id : Z) (s : session) : session :=
  mkSession (TCPActivated s) (UDPActivated s) (MadeByMe s) (PeerAddress s) (SessionMade s)
    (ReplyWith s) (ReplyTo s) (LastAcks s) (LastRX s) id (SessionID s) (nextAckSlot s)
    (LastRXPing s) (pulse s).

(** The ping of a second. *)
Definition ping_packet (txTime : Time) (s : session) : pingStruct :=
  mkPing type_ping magic (SessionID s) (CurrentID s) txTime 0 (LastAcks s).

(** One iteration of the loop of [sendPackets], after the wait for the second:
    [None] when the loop returns. [now1], [now2] are the readings of the two
    [time.Since], [now3] that of [time.Now] for the identifier, [txTime] the call of
    [timeNowCorrected] for the time stamp. By itself; see Statements.v for its statements. *)
Definition sendPackets_iter (timeStarted now1 now2 now3 : Time) (txTime : corrected) (l : loc)
    (w : world)
    : result fatal_error (option world) :=
  match w_heap w !! l with
  | None => Panic
  | Some s =>
      if decide (Since now1 (LastRX s) > Second * 60 /\
                 Since now2 timeStarted > Second * 10) then Ok None else
      let s := set_current (ping_id (Unix now3)) s in
      let w := set_session l s w in
      txTime ← txTime;
      match marshal_ping (ping_packet txTime s) with
      | None => Err Fatal
      | Some b =>
          match ReplyTo s with
          | Some to =>
              match ReplyWith s with
              | Some c => Ok (Some (send (mkDatagram SPing l c b to) w))
              | None => Panic
              end
          | None => Ok (Some w)
          end
      end
  end.

(** *** The waiters *)

(** Sets [s.ReplyWith]. *)
Definition set_reply_with (c : conn) (s : session) : session :=
  mkSession (TCPActivated s) (UDPActivated s) (MadeByMe s) (PeerAddress s) (SessionMade s)
    (Some c) (ReplyTo s) (LastAcks s) (LastRX s) (CurrentID s) (SessionID s)
    (nextAckSlot s) (LastRXPing s) (pulse s).

(** Sets [s.UDPActivated]. *)
Definition set_udp (s : session) : session :=
  mkSession (TCPActivated s) true (MadeByMe s) (PeerAddress s) (SessionMade s)
    (ReplyWith s) (ReplyTo s) (LastAcks s) (LastRX s) (CurrentID s) (SessionID s)
    (nextAckSlot s) (LastRXPing s) (pulse s).

(** From the start of a waiter to its first [select]: [sendUDPHandshake] takes the
    global socket first. *)
Definition waiter_start (k : waiter_kind) (l : loc) (w : world)
    : result fatal_error world :=
  match w_heap w !! l with
  | None => Panic
  | Some s =>
      match k with
      | WaitForHandshake => Ok w
      | SendUDPHandshake =>
          match w_globalReplyWith w with
          | None => Panic
          | Some c => Ok (set_session l (set_reply_with c s) w)
          end
      end
  end.

Definition handshake_packet (s : session) : handshakeStruct :=
  mkHandshake type_handshake magic 3 (SessionID s).

Definition sping_port : Z := 6924.

(** The [case <-ticker.C] of a waiter: [None] when it gives up and returns. *)
Definition waiter_tick (now : Time) (k : waiter_kind) (l : loc) (w : world)
    : result fatal_error (option world) :=
  match w_heap w !! l with
  | None => Panic
  | Some s =>
      if decide (Since now (SessionMade s) > Minute /\ UDPActivated s = false)
      then Ok None else
      match k with
      | WaitForHandshake => Ok (Some w)
      | SendUDPHandshake =>
          match marshal_hs (handshake_packet s) with
          | None => Err Fatal
          | Some b =>
              match ReplyWith s with
              | None => Panic
              | Some c =>
                  Ok (Some (send (mkDatagram SHandshake l c b
                               (mkUDPAddr (default [] (PeerAddress s)) sping_port [])) w))
              end
          end
      end
  end.

(** The [case <-s.UDPHandshake] of a waiter: it activates the session and starts the
    ping loop, whose first statement reads [timeStarted]. *)
Definition waiter_activated (timeStarted : Time) (l : loc) (w : world)
    : result fatal_error world :=
  match w_heap w !! l with
  | None => Panic
  | Some s =>
      let w := set_session l (set_udp s) w in
      Ok (set_gor (w_gor w ++ [Sender l timeStarted true]) w)
  end.
End Handlers.

(** ** Lookups *)

Lemma lookup_session_Some w id l s :
  lookup_session w id = Some (l, s) <-> w_table w !! id = Some l /\ w_heap w !! l = Some s.
Proof.
  unfold lookup_session. destruct (w_table w !! id) as [l'|]; simpl; [|by split; intros; destruct_and?].
  split.
  - destruct (w_heap w !! l') eqn:Hh; simpl; [|done]. by intros [= <- <-].
  - by intros [[= ->] ->].
Qed.

(** *** Garbage collection *)

(** What one pass deletes depends on the sessions only, not on the order of the keys. *)
Definition gc_survives (clock : Z -> Time * Time) (w : world) (id : Z) : bool :=
  match lookup_session w id with
  | None => true
  | Some (_, ses) => gc_keep (fst (clock id)) (snd (clock id)) ses
  end.

Lemma gc_one_lookup clock w ID id :
  lookup_session (gc_one clock w ID) id =
    if decide (ID = id) then (if gc_survives clock w id then lookup_session w id else None)
    else lookup_session w id.
Proof.
  unfold gc_one, gc_survives. destruct (lookup_session w ID) as [[l ses]|] eqn:Hl.
  - destruct (gc_keep _ _ ses) eqn:Hk.
    + case_decide; [subst; by rewrite Hl, Hk|done].
    + case_decide as Heq.
      * subst. rewrite Hl, Hk. unfold lookup_session, set_table. simpl.
        by rewrite lookup_delete_eq.
      * unfold lookup_session, set_table. simpl. by rewrite lookup_delete_ne.
  - case_decide; [subst; by rewrite Hl|done].
Qed.

Lemma sessionGC_lookup clock order w id :
  lookup_session (sessionGC clock order w) id =
    if decide (id ∈ order) then (if gc_survives clock w id then lookup_session w id else None)
    else lookup_session w id.
Proof.
  revert w. induction order as [|ID order IH]; intros w; cbn [sessionGC foldl].
  - rewrite decide_False; [done|]. by intros ?%elem_of_nil.
  - change (foldl (gc_one clock) (gc_one clock w ID) order)
      with (sessionGC clock order (gc_one clock w ID)).
    rewrite IH. unfold gc_survives. rewrite !gc_one_lookup.
    destruct (decide (ID = id)) as [->|Hne].
    + rewrite (decide_True (P := id ∈ id :: order)) by (apply elem_of_cons; by left).
      unfold gc_survives. destruct (lookup_session w id) as [[l s]|] eqn:Hl.
      * destruct (gc_keep _ _ s) eqn:Hk; rewrite ?Hk; by case_decide.
      * by case_decide.
    + destruct (decide (id ∈ order)) as [Hin|Hni].
      * by rewrite decide_True by (apply elem_of_cons; by right).
      * rewrite decide_False; [done|]. rewrite elem_of_cons. intros [?|?]; done.
Qed.

(** A pass leaves the heap, the goroutines and the wire alone. *)
Lemma sessionGC_frame clock order w :
  w_heap (sessionGC clock order w) = w_heap w /\ w_gor (sessionGC clock order w) = w_gor w /\
  w_pending (sessionGC clock order w) = w_pending w /\
  w_sent (sessionGC clock order w) = w_sent w /\
  w_globalReplyWith (sessionGC clock order w) = w_globalReplyWith w /\
  w_table (sessionGC clock order w) ⊆ w_table w.
Proof.
  revert w. induction order as [|ID order IH]; intros w; [done|].
  change (sessionGC clock (ID :: order) w) with (sessionGC clock order (gc_one clock w ID)).
  destruct (IH (gc_one clock w ID)) as (-> & -> & -> & -> & -> & Hsub). unfold gc_one in *.
  destruct (lookup_session w ID) as [[l ses]|]; [|by split_and!].
  destruct (gc_keep _ _ ses); [by split_and!|]. split_and!; [done..|].
  etrans; [exact Hsub|]. apply delete_subseteq.
Qed.
