(* ===== verification/PlainCodec.v ===== *)
(** * A codec that satisfies the laws

    The program's codec is msgpack. The laws of [CodecLaws] are not vacuous: this
    codec, which writes the fields one after the other, satisfies them. The concrete
    runs of the other files use it. *)

From S2P Require Import Prelude Bytes GoTime Acks Session.
Local Open Scope Z_scope.

Fixpoint enc_acks (acks : list pingInfo) : bytes :=
  match acks with
  | [] => []
  | v :: acks => pi_ID v :: wall (pi_TX v) :: wall (pi_RX v) :: enc_acks acks
  end.

Fixpoint dec_acks (b : bytes) : option (list pingInfo) :=
  match b with
  | [] => Some []
  | id :: tx :: rx :: b =>
      if decide (is_u8 id) then
        acks ← dec_acks b; Some (mkPingInfo id (mkTime tx None) (mkTime rx None) :: acks)
      else None
  | _ => None
  end.

#[local] Instance is_u8_dec z : Decision (is_u8 z).
Proof. unfold is_u8. apply _. Defined.
#[local] Instance is_u16_dec z : Decision (is_u16 z).
Proof. unfold is_u16. apply _. Defined.
#[local] Instance is_u32_dec z : Decision (is_u32 z).
Proof. unfold is_u32. apply _. Defined.

Definition header_ok (ty mg ses : Z) : bool :=
  bool_decide (is_u8 ty /\ is_u16 mg /\ is_u32 ses).

Arguments header_ok : simpl never.

Definition dec_plain_ping (b : bytes) : option pingStruct :=
  match b with
  | [ty; mg; ses; ver] =>
      if header_ok ty mg ses then Some (mkPing ty mg ses 0 zeroTime 0 zeroAcks) else None
  | ty :: mg :: ses :: id :: err :: tx :: b =>
      acks ← dec_acks b;
      if header_ok ty mg ses && bool_decide (is_u8 id /\ is_u16 err /\
           length acks = ring_size)
      then Some (mkPing ty mg ses id (mkTime tx None) err acks) else None
  | _ => None
  end.

Definition dec_plain_hs (b : bytes) : option handshakeStruct :=
  match b with
  | [ty; mg; ses; ver] =>
      if header_ok ty mg ses && bool_decide (is_u16 ver)
      then Some (mkHandshake ty mg ver ses) else None
  | _ => None
  end.

#[export] Instance plain_codec : Codec := {
  marshal_ping p :=
    Some (p_Type p :: p_Magic p :: p_Session p :: p_ID p :: p_SendersError p
            :: wall (p_TXTime p) :: enc_acks (p_LastAcks p));
  unmarshal_ping := dec_plain_ping;
  marshal_hs h := Some [hs_Type h; hs_Magic h; hs_Session h; hs_Version h];
  unmarshal_hs := dec_plain_hs;
}.

Lemma dec_enc_acks acks :
  Forall wf_info_ack acks -> dec_acks (enc_acks acks) = Some (map strip_info acks).
Proof.
  induction 1 as [|v acks Hv _ IH]; simpl; [done|].
  rewrite decide_True by done. by rewrite IH.
Qed.

Lemma dec_acks_wf b acks : dec_acks b = Some acks -> Forall wf_info_ack acks.
Proof.
  revert acks. induction b as [b IH] using (induction_ltof1 _ (@length Z)).
  destruct b as [|id [|tx [|rx b]]]; intros acks; simpl; try done; [by intros [= <-]|].
  case_decide; [|done]. destruct (dec_acks b) as [acks'|] eqn:Hd; [|done]. simpl.
  intros [= <-]. constructor; [done|]. apply (IH b); [unfold ltof; simpl; lia|done].
Qed.

Lemma zeroAcks_wf : Forall wf_info_ack zeroAcks.
Proof. apply Forall_replicate. unfold wf_info_ack, is_u8. simpl. lia. Qed.

Lemma header_ok_true ty mg ses :
  header_ok ty mg ses = true <-> is_u8 ty /\ is_u16 mg /\ is_u32 ses.
Proof. apply bool_decide_eq_true. Qed.

#[export] Instance plain_laws : CodecLaws plain_codec.
Proof.
  constructor.
  - intros p (Ht & Hm & Hs & Hid & He & Hl & Hf). eexists. split; [reflexivity|].
    simpl. destruct (p_LastAcks p) as [|v acks] eqn:Ha; [done|].
    rewrite <- Ha in *. rewrite dec_enc_acks by done. simpl.
    rewrite (proj2 (header_ok_true _ _ _)) by done.
    rewrite bool_decide_eq_true_2 by (by rewrite length_map). done.
  - intros h (Ht & Hm & Hv & Hs). eexists _, _. simpl. split; [done|].
    unfold dec_plain_hs, dec_plain_ping.
    rewrite (proj2 (header_ok_true _ _ _)) by done.
    rewrite bool_decide_eq_true_2 by done. split_and!; [by destruct h|done..].
  - intros b p. simpl. unfold dec_plain_ping.
    destruct b as [|ty [|mg [|ses [|ver [|e [|tx b]]]]]]; try done.
    + destruct (header_ok ty mg ses) eqn:Hh; [|done]. intros [= <-].
      apply header_ok_true in Hh as (? & ? & ?). split_and!; simpl; try done;
        try (unfold is_u8, is_u16; lia). apply zeroAcks_wf.
    + destruct (dec_acks b) as [acks|] eqn:Hd; [|done]. simpl.
      destruct (header_ok ty mg ses) eqn:Hh; [|done]. simpl. case_bool_decide; [|done].
      intros [= <-]. apply header_ok_true in Hh as (? & ? & ?). destruct_and?.
      unfold wf_ping. simpl. split_and!; try done. by eapply dec_acks_wf.
  - intros b h. simpl. unfold dec_plain_hs.
    destruct b as [|ty [|mg [|ses [|ver [|]]]]]; try done.
    destruct (header_ok ty mg ses) eqn:Hh; [|done]. simpl. case_bool_decide; [|done].
    intros [= <-]. apply header_ok_true in Hh as (? & ? & ?). by split_and!.
Qed.
