(* ===== verification/Handshake.v ===== *)
(** * The TCP side of a session (sessionhandle.go: startSession, listenOnTCP,
    handleTCPconnection, newSessionID)

    The responder greets with a banner and answers an invitation request with a fresh
    session number in decimal; the initiator checks the banner, asks, and reads the
    number. Strings are their bytes. *)

From Stdlib Require Import String.
From S2P Require Import Prelude Bytes GoTime Acks Session.
Local Open Scope Z_scope.

Definition CRLF : bytes := [13; 10].
Definition banner : bytes := str "sping-0.3-https://github.com/benjojo/sping" ++ [10].
Definition banner_prefix : bytes := str "sping-0.3-".
Definition invite_request : bytes := str "INVITE" ++ CRLF.
Definition dont_understand : bytes := str "I_DONT_UNDERSTAND".

(** [strings.HasPrefix(s, prefix)] *)
Definition HasPrefix (s prefix : bytes) : bool :=
  bool_decide (take (List.length prefix) s = prefix).

(** ** Decimal numbers *)

Definition digit (d : Z) : Z := 48 + d.

(** The decimal digits of a number below [10 ^ fuel], most significant first. *)
Fixpoint decimal (fuel : nat) (n : Z) : bytes :=
  match fuel with
  | O => []
  | S fuel => if decide (n < 10) then [digit n] else decimal fuel (n / 10) ++ [digit (n mod 10)]
  end.

(** [fmt.Sprint] of a uint32: ten digits are enough. *)
Definition sprint_uint32 (n : Z) : bytes := decimal 10 n.

Definition is_digit (c : Z) : bool := (48 <=? c) && (c <=? 57).

(** The digit loop of [strconv.ParseUint] with base 10 and 32 bits: [None] on a
    character that is no digit and on a value beyond the range. *)
Fixpoint parse_digits (acc : Z) (s : bytes) : option Z :=
  match s with
  | [] => Some acc
  | c :: s =>
      if is_digit c then
        let n := acc * 10 + (c - 48) in
        if decide (n < 2 ^ 32) then parse_digits n s else None
      else None
  end.

(** [strconv.ParseUint(s, 10, 32)]; the empty string is a syntax error. *)
Definition ParseUint (s : bytes) : option Z :=
  match s with [] => None | _ => parse_digits 0 s end.

(** ** Session creation *)

(** Allocates a session, stores it under [id] in the table, and leaves the go
    statement that starts its waiter to be executed. *)
Definition insert_session (k : waiter_kind) (id : Z) (s : session) (w : world) : world :=
  let l := fresh (dom (w_heap w)) in
  mkWorld (<[l := s]> (w_heap w)) (<[id := l]> (w_table w)) (w_globalReplyWith w)
    (w_gor w) (w_pending w ++ [(k, id)]) (w_sent w).

(** [go sessionMap[id].sendUDPHandshake()] or [go sessionMap[id].waitForHandshake()]: the
    table is read when the statement is executed; a method on nil dereferences it. *)
Definition spawn_waiter (i : nat) (w : world) : result fatal_error world :=
  match w_pending w !! i with
  | None => Ok w
  | Some (k, id) =>
      match w_table w !! id with
      | None => Panic
      | Some l =>
          Ok (mkWorld (w_heap w) (w_table w) (w_globalReplyWith w)
                (w_gor w ++ [Waiter k l WStarting]) (delete i (w_pending w)) (w_sent w))
      end
  end.

(** ** The responder *)

(** What one connection of [handleTCPconnection] writes, and what it does to the
    sessions; [write_ok] tells whether the banner could be written, [rd] is what
    [conn.Read] delivered (at most 10000 bytes), [nSes] the random session number. *)
Definition handleTCPconnection (write_ok : bool) (rd : bytes) (nSes : Z) (made : Time)
    (w : world) : result fatal_error (list bytes * world) :=
  if negb write_ok then Ok ([], w) else
  if decide (9000 < Z.of_nat (List.length rd)) then Ok ([banner], w) else
  if decide (rd <> invite_request) then Ok ([banner; dont_understand], w) else
  let w := insert_session WaitForHandshake nSes (server_session nSes made) w in
  w ← spawn_waiter (List.length (w_pending w) - 1) w;
  Ok ([banner; sprint_uint32 nSes], w).

(** ** The initiator *)

(** Where an attempt of [startSession] ended: it retries after a second, or it has put
    session [id] in the table. *)
Inductive attempt := Retry | Started (id : Z).

(** [conn.Read(buf)] fills at most the buffer. *)
Definition read_into (size : nat) (rd : bytes) : bytes := take size rd.

(** The checks of an attempt up to the session number: [dial_ok] the result of the
    dial, [rd1] what the first read delivered, [write_ok] whether the request was
    written, [rd2] what the second read delivered. *)
Definition negotiate (dial_ok : bool) (rd1 : bytes) (write_ok : bool) (rd2 : bytes)
    : option Z :=
  if negb dial_ok then None else
  let bannerBuf := read_into (Z.to_nat 10000) rd1 in
  if decide (9000 < Z.of_nat (List.length bannerBuf)) then None else
  if negb (HasPrefix bannerBuf banner_prefix) then None else
  if negb write_ok then None else
  let inviteBuf := read_into 10 rd2 in
  if decide (31 < List.length inviteBuf \/ List.length inviteBuf = 0)%nat then None else
  ParseUint inviteBuf.

(** One attempt of the loop of [startSession], up to the start of the waiter. *)
Definition startSession (ip : bytes) (dial_ok : bool) (rd1 : bytes) (write_ok : bool)
    (rd2 : bytes) (made : Time) (w : world) : result fatal_error (attempt * world) :=
  match negotiate dial_ok rd1 write_ok rd2 with
  | None => Ok (Retry, w)
  | Some invite =>
      let w := insert_session SendUDPHandshake invite (client_session invite ip made) w in
      w ← spawn_waiter (List.length (w_pending w) - 1) w;
      Ok (Started invite, w)
  end.

(** ** The session number on the wire *)

Lemma is_digit_digit d : 0 <= d < 10 -> is_digit (digit d) = true.
Proof. intros. unfold is_digit, digit. apply andb_true_intro. lia. Qed.

Lemma parse_digits_app acc s t m :
  parse_digits acc s = Some m -> parse_digits acc (s ++ t) = parse_digits m t.
Proof.
  revert acc. induction s as [|c s IH]; intros acc; simpl; [by intros [= ->]|].
  destruct (is_digit c); [|done]. case_decide; [|done]. apply IH.
Qed.

Lemma parse_digits_one m d :
  0 <= d < 10 -> m * 10 + d < 2 ^ 32 -> parse_digits m [digit d] = Some (m * 10 + d).
Proof.
  intros Hd Hm. cbn [parse_digits]. rewrite is_digit_digit by done.
  replace (digit d - 48) with d by (unfold digit; lia). by rewrite decide_True.
Qed.

Lemma decimal_nonempty fuel n : decimal (S fuel) n <> [].
Proof. simpl. case_decide; [done|]. by destruct (decimal fuel (n / 10)). Qed.

Lemma parse_decimal fuel n :
  0 <= n < 10 ^ Z.of_nat fuel -> n < 2 ^ 32 -> (0 < fuel)%nat ->
  parse_digits 0 (decimal fuel n) = Some n.
Proof.
  revert n. induction fuel as [|fuel IH]; intros n Hn H32 Hf; [lia|].
  cbn [decimal]. case_decide as Hd.
  - by rewrite parse_digits_one by lia.
  - rewrite Nat2Z.inj_succ, Z.pow_succ_r in Hn by lia.
    assert (Hf0 : (0 < fuel)%nat) by (destruct fuel; simpl in Hn; lia).
    rewrite (parse_digits_app _ _ _ (n / 10)) by (apply IH; [zdiv|zdiv|done]).
    rewrite parse_digits_one by zdiv. f_equal. zdiv.
Qed.

Lemma length_decimal fuel n : (List.length (decimal fuel n) <= fuel)%nat.
Proof.
  revert n. induction fuel as [|fuel IH]; intros n; simpl; [done|].
  case_decide; simpl; [lia|]. rewrite length_app. specialize (IH (n / 10)). simpl. lia.
Qed.

Lemma u32_lt n : is_u32 n -> n < 2 ^ 32 /\ 0 <= n < 10 ^ Z.of_nat 10.
Proof. unfold is_u32. change (2 ^ 32) with 4294967296. simpl Z.of_nat.
  change (10 ^ 10) with 10000000000. lia.
Qed.

Lemma ParseUint_sprint n : is_u32 n -> ParseUint (sprint_uint32 n) = Some n.
Proof.
  intros Hn. destruct (u32_lt n Hn). unfold ParseUint, sprint_uint32.
  destruct (decimal 10 n) eqn:Hd; [by apply decimal_nonempty in Hd|].
  rewrite <- Hd. apply parse_decimal; lia.
Qed.

(** Reading only part of the digits gives a smaller number, not an error. *)
Lemma parse_decimal_prefix fuel n k :
  0 <= n < 10 ^ Z.of_nat fuel -> n < 2 ^ 32 ->
  (0 < k < List.length (decimal fuel n))%nat ->
  exists m, parse_digits 0 (take k (decimal fuel n)) = Some m /\ 0 <= m < n.
Proof.
  revert n. induction fuel as [|fuel IH]; intros n Hn H32 Hk; [simpl in Hk; lia|].
  cbn [decimal] in *. case_decide as Hd; [simpl in Hk; lia|].
  rewrite Nat2Z.inj_succ, Z.pow_succ_r in Hn by lia. rewrite length_app in Hk. simpl in Hk.
  assert (Hf0 : (0 < fuel)%nat) by (destruct fuel; simpl in Hn; lia).
  rewrite take_app_le by lia.
  destruct (decide (k = List.length (decimal fuel (n / 10)))) as [-> |Hne].
  - rewrite take_ge by lia. exists (n / 10). split; [|zdiv]. apply parse_decimal; (done || zdiv).
  - destruct (IH (n / 10)) as (m & Hm & Hlt); [zdiv|zdiv|lia|]. exists m. split; [done|zdiv].
Qed.

Lemma take_nonempty {A} k (l : list A) : (0 < k)%nat -> l <> [] -> take k l <> [].
Proof. destruct k, l; (done || lia). Qed.

(** ** Both ends together *)

Lemma HasPrefix_banner : HasPrefix (read_into (Z.to_nat 10000) banner) banner_prefix = true.
Proof. vm_compute. reflexivity. Qed.

Lemma length_read_into size rd : (List.length (read_into size rd) <= size)%nat.
Proof. unfold read_into. rewrite length_take. lia. Qed.

(** The initiator's checks succeed on what the responder writes. *)
Lemma negotiate_ok nSes :
  is_u32 nSes -> negotiate true banner true (sprint_uint32 nSes) = Some nSes.
Proof.
  intros Hn. unfold negotiate. cbn [negb].
  rewrite decide_False by (vm_compute; intros H; discriminate H).
  rewrite HasPrefix_banner. cbn [negb].
  assert (Hr : read_into 10 (sprint_uint32 nSes) = sprint_uint32 nSes).
  { unfold read_into. apply take_ge. apply length_decimal. }
  rewrite Hr, decide_False; [by apply ParseUint_sprint|].
  pose proof (length_decimal 10 nSes). pose proof (decimal_nonempty 9 nSes) as Hne.
  unfold sprint_uint32 in *. destruct (decimal 10 nSes); [done|]. simpl in *. lia.
Qed.

(** The size test after the second read can only fail on an empty read: the buffer has
    ten bytes. *)
Lemma negotiate_size rd2 :
  ~ (31 < List.length (read_into 10 rd2))%nat.
Proof. pose proof (length_read_into 10 rd2). lia. Qed.

Lemma insert_lookup k id s w :
  lookup_session (insert_session k id s w) id = Some (fresh (dom (w_heap w)), s).
Proof.
  unfold lookup_session, insert_session. simpl. rewrite lookup_insert_eq. simpl.
  by rewrite lookup_insert_eq.
Qed.

Lemma spawn_last k id s w :
  spawn_waiter (List.length (w_pending (insert_session k id s w)) - 1)
      (insert_session k id s w)
    = Ok (mkWorld (<[fresh (dom (w_heap w)) := s]> (w_heap w))
            (<[id := fresh (dom (w_heap w))]> (w_table w)) (w_globalReplyWith w)
            (w_gor w ++ [Waiter k (fresh (dom (w_heap w))) WStarting]) (w_pending w) (w_sent w)).
Proof.
  unfold spawn_waiter, insert_session. simpl. rewrite length_app. simpl.
  rewrite Nat.add_sub, lookup_app_r, Nat.sub_diag by lia. simpl.
  rewrite lookup_insert_eq. do 3 f_equal.
  rewrite delete_take_drop, take_app_length, drop_ge by (rewrite length_app; simpl; lia).
  apply app_nil_r.
Qed.

(** ** Properties *)

(** C24: the TCP exchange gives both ends the same session: whatever number the responder
    draws, the initiator reads it back from its decimal form, and each end then has a
    TCP-activated session under that number, with its waiter started. *)
Theorem tcp_invite_agreement ip nSes madeS madeC ws wc :
  is_u32 nSes ->
  exists ws' wc',
    handleTCPconnection true invite_request nSes madeS ws
      = Ok ([banner; sprint_uint32 nSes], ws') /\
    startSession ip true banner true (sprint_uint32 nSes) madeC wc
      = Ok (Started nSes, wc') /\
    (exists l, lookup_session ws' nSes = Some (l, server_session nSes madeS) /\
       w_gor ws' = w_gor ws ++ [Waiter WaitForHandshake l WStarting]) /\
    (exists l, lookup_session wc' nSes = Some (l, client_session nSes ip madeC) /\
       w_gor wc' = w_gor wc ++ [Waiter SendUDPHandshake l WStarting]).
Proof.
  intros Hn. unfold handleTCPconnection, startSession. rewrite negotiate_ok by done.
  cbn [negb]. rewrite decide_False by (vm_compute; intros H; discriminate H).
  rewrite decide_False by (intros H; by apply H). rewrite !spawn_last, !bind_Ok.
  eexists _, _. split_and!; [done|done| |]; eexists; (split; [|reflexivity]).
  - unfold lookup_session. simpl. rewrite lookup_insert_eq. simpl. by rewrite lookup_insert_eq.
  - unfold lookup_session. simpl. rewrite lookup_insert_eq. simpl. by rewrite lookup_insert_eq.
Qed.

Lemma tcp_invite_agreement_witness :
  sprint_uint32 4294967295 = str "4294967295" /\
  exists ws' wc',
    handleTCPconnection true invite_request 4294967295 zeroTime empty_world
      = Ok ([banner; sprint_uint32 4294967295], ws') /\
    startSession [10; 0; 0; 1] true banner true (sprint_uint32 4294967295) zeroTime empty_world
      = Ok (Started 4294967295, wc') /\
    (exists l, lookup_session ws' 4294967295
                 = Some (l, server_session 4294967295 zeroTime) /\
       w_gor ws' = w_gor empty_world ++ [Waiter WaitForHandshake l WStarting]) /\
    (exists l, lookup_session wc' 4294967295
                 = Some (l, client_session 4294967295 [10; 0; 0; 1] zeroTime) /\
       w_gor wc' = w_gor empty_world ++ [Waiter SendUDPHandshake l WStarting]).
Proof.
  split; [vm_compute; reflexivity|]. apply tcp_invite_agreement. unfold is_u32. lia.
Defined.

(** The initiator reads the session number with a single [Read]: when the responder's
    digits arrive split, any part of them is accepted as the number of another session,
    smaller than the one the responder opened. *)
Lemma invite_short_read_accepted nSes k :
  is_u32 nSes -> (0 < k < List.length (sprint_uint32 nSes))%nat ->
  exists m, negotiate true banner true (take k (sprint_uint32 nSes)) = Some m /\ m < nSes.
Proof.
  intros Hn Hk. destruct (u32_lt nSes Hn).
  destruct (parse_decimal_prefix 10 nSes k) as (m & Hm & Hlt); [done|done|done|].
  exists m. split; [|lia]. unfold negotiate. cbn [negb].
  rewrite decide_False by (vm_compute; intros H'; discriminate H').
  rewrite HasPrefix_banner. cbn [negb]. pose proof (length_decimal 10 nSes) as Hl.
  assert (Hr : read_into 10 (take k (sprint_uint32 nSes)) = take k (sprint_uint32 nSes)).
  { unfold read_into. apply take_ge. rewrite length_take. unfold sprint_uint32. lia. }
  rewrite Hr. unfold sprint_uint32 in *. rewrite decide_False by (rewrite length_take; lia).
  unfold ParseUint.
  destruct (take k (decimal 10 nSes)) eqn:Ht; [|by rewrite <- Hm].
  apply (f_equal List.length) in Ht. rewrite length_take in Ht. cbn [List.length] in Ht. lia.
Qed.

Lemma invite_short_read_accepted_witness :
  exists m, negotiate true banner true (take 3 (sprint_uint32 123456)) = Some m /\ m < 123456.
Proof.
  apply invite_short_read_accepted; [unfold is_u32; lia|].
  replace (List.length (sprint_uint32 123456)) with 6%nat by (vm_compute; reflexivity). lia.
Defined.
