(* ===== verification/IPText.v ===== *)
(** * IP addresses as text (what the program uses of the Go package net)

    The peers of the command line are parsed by [net.ParseIP]; addresses are printed by
    [net.IP.String] for the host label of the metrics and for the address to dial. The
    functions are those of the Go standard library; [strict] tells whether the parser
    refuses decimal numbers with a leading zero, as it does since Go 1.17. *)

From S2P Require Import Prelude Bytes GoTime Acks Iface Session Handshake.
Local Open Scope Z_scope.

(** ** Numbers *)

(** Bigger than every number that is accepted. *)
Definition big : Z := 16777215.

(** The loop of [dtoi] and [xtoi]: the value, the number of digits and whether it fits. *)
Fixpoint number_loop (val : Z -> option Z) (base n : Z) (i : nat) (s : bytes) : Z * nat * bool :=
  match s with
  | [] => (n, i, true)
  | c :: s' =>
      match val c with
      | None => (n, i, true)
      | Some d =>
          let n := n * base + d in
          if decide (big <= n) then (big, i, false) else number_loop val base n (S i) s'
      end
  end.

Definition number (val : Z -> option Z) (base : Z) (s : bytes) : Z * nat * bool :=
  let '(n, i, ok) := number_loop val base 0 0 s in
  if decide (i = 0%nat) then (0, 0%nat, false) else (n, i, ok).

Definition decimal_value (c : Z) : option Z := if is_digit c then Some (c - 48) else None.

Definition hex_value (c : Z) : option Z :=
  if is_digit c then Some (c - 48)
  else if (97 <=? c) && (c <=? 102) then Some (c - 97 + 10)
  else if (65 <=? c) && (c <=? 70) then Some (c - 65 + 10) else None.

Definition dtoi : bytes -> Z * nat * bool := number decimal_value 10.
Definition xtoi : bytes -> Z * nat * bool := number hex_value 16.

(** ** Parsing *)

Definition dot : Z := 46.
Definition colon : Z := 58.

(** The loop of [parseIPv4] with [k] numbers to come. *)
Fixpoint parse4_loop (strict : bool) (k : nat) (first : bool) (p s : bytes) : option bytes :=
  match k with
  | O => if decide (s = []) then Some p else None
  | S k =>
      if decide (s = []) then None else
      s ← (if first then Some s
           else match s with c :: s' => if decide (c = dot) then Some s' else None | [] => None end);
      let '(n, c, ok) := dtoi s in
      if negb ok || (255 <? n) then None else
      if strict && bool_decide (1 < c)%nat && bool_decide (take 1 s = [48]) then None else
      parse4_loop strict k false (p ++ [n]) (drop c s)
  end.

(** [func parseIPv4(s string) IP]: the 16-byte form. *)
Definition parseIPv4 (strict : bool) (s : bytes) : option bytes :=
  p ← parse4_loop strict 4 true [] s; Some (v4InV6Prefix ++ p).

(** The loop of [parseIPv6]: [ip] are the bytes written so far and [ellipsis] the position
    of the two colons; it returns them with what is left of the text. An iteration writes
    two bytes, so eight of them are all there can be. *)
Fixpoint parse6_loop (strict : bool) (fuel : nat) (ip : bytes) (ellipsis : option nat)
    (s : bytes) : option (bytes * option nat * bytes) :=
  match fuel with
  | O => Some (ip, ellipsis, s)
  | S fuel =>
      let '(n, c, ok) := xtoi s in
      if negb ok || (65535 <? n) then None else
      if decide (take 1 (drop c s) = [dot]) then
        if decide (ellipsis = None /\ length ip <> 12%nat) then None else
        if decide (16 < length ip + 4)%nat then None else
        ip4 ← parseIPv4 strict s; Some (ip ++ drop 12 ip4, ellipsis, [])
      else
      let ip := ip ++ [n / 256; n mod 256] in
      match drop c s with
      | [] => Some (ip, ellipsis, [])
      | c0 :: s =>
          if decide (c0 <> colon \/ s = []) then None else
          if decide (take 1 s = [colon]) then
            match ellipsis with
            | Some _ => None
            | None =>
                if decide (drop 1 s = []) then Some (ip, Some (length ip), [])
                else parse6_loop strict fuel ip (Some (length ip)) (drop 1 s)
            end
          else parse6_loop strict fuel ip ellipsis s
      end
  end.

(** Fills the gap of the ellipsis with zeros. *)
Definition expand (ip : bytes) (ellipsis : option nat) : option bytes :=
  if decide (length ip < 16)%nat then
    match ellipsis with
    | None => None
    | Some e => Some (take e ip ++ zeros (16 - length ip) ++ drop e ip)
    end
  else match ellipsis with None => Some ip | Some _ => None end.

(** [func parseIPv6(s string) IP] *)
Definition parseIPv6 (strict : bool) (s : bytes) : option bytes :=
  if decide (take 2 s = [colon; colon]) then
    if decide (drop 2 s = []) then Some (zeros 16) else
    '(ip, e, s) ← parse6_loop strict 8 [] (Some 0%nat) (drop 2 s);
    if decide (s = []) then expand ip e else None
  else
    '(ip, e, s) ← parse6_loop strict 8 [] None s;
    if decide (s = []) then expand ip e else None.

(** [func ParseIP(s string) IP]: the first dot or colon decides. *)
Fixpoint ParseIP_scan (strict : bool) (s rest : bytes) : option bytes :=
  match rest with
  | [] => None
  | c :: rest =>
      if decide (c = dot) then parseIPv4 strict s
      else if decide (c = colon) then parseIPv6 strict s
      else ParseIP_scan strict s rest
  end.
Definition ParseIP (strict : bool) (s : bytes) : option bytes := ParseIP_scan strict s s.

(** ** Printing *)

Definition hex_digit (d : Z) : Z := if decide (d < 10) then 48 + d else 87 + d.

(** [appendHex]: the digits from position [j] down, without leading zeros. *)
Fixpoint hex_from (j : nat) (i : Z) : bytes :=
  let v := Z.shiftr i (Z.of_nat j * 4) in
  (if decide (0 < v) then [hex_digit (Z.land v 15)] else []) ++
  match j with O => [] | S j => hex_from j i end.
Definition appendHex (i : Z) : bytes := if decide (i = 0) then [48] else hex_from 7 i.

(** [hexString] *)
Definition hexString (b : bytes) : bytes :=
  flat_map (fun x => [hex_digit (x / 16); hex_digit (x mod 16)]) b.

(** A 16-byte address as the eight 16-bit numbers the loops of [String] step through. *)
Fixpoint groups (p : bytes) : list Z :=
  match p with x :: y :: p => (x * 256 + y) :: groups p | _ => [] end.

(** The number of zero groups at the front. *)
Fixpoint zero_run (gs : list Z) : nat :=
  match gs with 0 :: gs => S (zero_run gs) | _ => 0 end.

(** The search for the longest run of zeros, from group [i]; [best] is [e0, e1]. *)
Fixpoint longest_run (fuel i : nat) (gs : list Z) (best : option (nat * nat)) : option (nat * nat) :=
  match fuel with
  | O => best
  | S fuel =>
      let j := (i + zero_run (drop i gs))%nat in
      let len := match best with Some (e0, e1) => e1 - e0 | None => 0 end%nat in
      if decide (i < j /\ len < j - i)%nat
      then longest_run fuel (S j) gs (Some (i, j)) else longest_run fuel (S i) gs best
  end.

(** The run that is printed as two colons: of more than one group. *)
Definition ellipsis_of (gs : list Z) : option (nat * nat) :=
  match longest_run (length gs) 0 gs None with
  | Some (e0, e1) => if decide (e1 - e0 <= 1)%nat then None else Some (e0, e1)
  | None => None
  end.

(** The printing loop from group [i]. *)
Fixpoint print_loop (fuel i : nat) (e : option (nat * nat)) (gs : list Z) : bytes :=
  match fuel with
  | O => []
  | S fuel =>
      match gs !! i with
      | None => []
      | Some g =>
          match e with
          | Some (e0, e1) =>
              if decide (i = e0) then
                [colon; colon] ++
                match gs !! e1 with
                | None => []
                | Some g => appendHex g ++ print_loop fuel (S e1) e gs
                end
              else (if decide (0 < i)%nat then [colon] else []) ++ appendHex g ++
                   print_loop fuel (S i) e gs
          | None => (if decide (0 < i)%nat then [colon] else []) ++ appendHex g ++
                    print_loop fuel (S i) e gs
          end
      end
  end.

(** Four numbers with dots between them. *)
Definition print4 (p : bytes) : bytes :=
  match p with
  | [a; b; c; d] =>
      decimal 3 a ++ dot :: decimal 3 b ++ dot :: decimal 3 c ++ dot :: decimal 3 d
  | _ => []
  end.

(** "<nil>" *)
Definition nil_text : bytes := [60; 110; 105; 108; 62].

(** [func (ip IP) String() string] *)
Definition IP_String (ip : bytes) : bytes :=
  if decide (ip = []) then nil_text else
  match To4 ip with
  | Some p4 => print4 p4
  | None =>
      if decide (length ip <> 16%nat) then 63 :: hexString ip
      else let gs := groups ip in print_loop 8 0 (ellipsis_of gs) gs
  end.

(** ** Numbers on the text *)

(** The text goes on with something that is no digit. *)
Definition stops (val : Z -> option Z) (rest : bytes) : Prop :=
  match rest with [] => True | c :: _ => val c = None end.

Lemma number_loop_digit val base n i c d s :
  val c = Some d -> n * base + d < big ->
  number_loop val base n i (c :: s) = number_loop val base (n * base + d) (S i) s.
Proof. intros Hc Hb. cbn [number_loop]. rewrite Hc. by rewrite decide_False by lia. Qed.

Lemma number_loop_stop val base n i s : stops val s -> number_loop val base n i s = (n, i, true).
Proof. destruct s as [|c s]; simpl; [done|]. by intros ->. Qed.

Lemma decimal_value_digit d : 0 <= d < 10 -> decimal_value (48 + d) = Some d.
Proof.
  intros Hd. unfold decimal_value. change (48 + d) with (digit d).
  rewrite is_digit_digit by done. unfold digit. f_equal. lia.
Qed.

Lemma hex_value_digit d : 0 <= d < 16 -> hex_value (hex_digit d) = Some d.
Proof.
  intros Hd. unfold hex_value, hex_digit, is_digit. case_decide.
  - replace ((48 <=? 48 + d) && (48 + d <=? 57)) with true by lia. f_equal. lia.
  - replace ((48 <=? 87 + d) && (87 + d <=? 57)) with false by lia.
    replace ((97 <=? 87 + d) && (87 + d <=? 102)) with true by lia. f_equal. lia.
Qed.

(** The digits of a byte. *)
Lemma decimal_byte b :
  is_u8 b ->
  decimal 3 b = [48 + b] /\ b < 10 \/
  decimal 3 b = [48 + b / 10; 48 + b mod 10] /\ 10 <= b < 100 \/
  decimal 3 b = [48 + b / 10 / 10; 48 + (b / 10) mod 10; 48 + b mod 10] /\ 100 <= b.
Proof.
  unfold is_u8. intros Hb. unfold decimal, digit.
  destruct (decide (b < 10)); [by left|].
  destruct (decide (b / 10 < 10)); [right; left|right; right]; simpl.
  - split; [|zdiv]. do 2 f_equal. 
  - rewrite decide_True by zdiv. simpl. split; [done|zdiv].
Qed.

Lemma dtoi_byte b rest :
  is_u8 b -> stops decimal_value rest ->
  dtoi (decimal 3 b ++ rest) = (b, length (decimal 3 b), true).
Proof.
  intros Hb Hr. unfold dtoi, number.
  destruct (decimal_byte b Hb) as [[-> H]|[[-> H]|[-> H]]]; unfold is_u8 in Hb; cbn [app];
    repeat (erewrite number_loop_digit by
      (first [by apply decimal_value_digit; zdiv | unfold big; zdiv]));
    rewrite number_loop_stop by done; cbn [length]; simpl; do 2 f_equal; zdiv.
Qed.

(** No leading zero. *)
Lemma decimal_byte_head b :
  is_u8 b -> (1 < length (decimal 3 b))%nat -> forall rest, take 1 (decimal 3 b ++ rest) <> [48].
Proof.
  intros Hb Hl rest. unfold is_u8 in Hb.
  destruct (decimal_byte b Hb) as [[E H]|[[E H]|[E H]]]; rewrite E in *; simpl in *;
    [lia| |]; intros [= He]; zdiv.
Qed.

(** The digits of a group. *)
Lemma hex_group g :
  is_u16 g ->
  appendHex g = [hex_digit g] /\ g < 16 \/
  appendHex g = [hex_digit (g / 16); hex_digit (g mod 16)] /\ 16 <= g < 256 \/
  appendHex g = [hex_digit (g / 256); hex_digit ((g / 16) mod 16); hex_digit (g mod 16)]
    /\ 256 <= g < 4096 \/
  appendHex g = [hex_digit (g / 4096); hex_digit ((g / 256) mod 16);
                 hex_digit ((g / 16) mod 16); hex_digit (g mod 16)] /\ 4096 <= g.
Proof.
  unfold is_u16. intros Hg. unfold appendHex.
  destruct (decide (g = 0)) as [-> |H0]; [left; by split|].
  unfold hex_from. rewrite !Z.shiftr_div_pow2 by lia.
  change (2 ^ (Z.of_nat 7 * 4)) with 268435456. change (2 ^ (Z.of_nat 6 * 4)) with 16777216.
  change (2 ^ (Z.of_nat 5 * 4)) with 1048576. change (2 ^ (Z.of_nat 4 * 4)) with 65536.
  change (2 ^ (Z.of_nat 3 * 4)) with 4096. change (2 ^ (Z.of_nat 2 * 4)) with 256.
  change (2 ^ (Z.of_nat 1 * 4)) with 16. change (2 ^ (Z.of_nat 0 * 4)) with 1.
  assert (Hland : forall x, Z.land x 15 = x mod 16) by (intros x; by apply (land_ones_mod x 15 4)).
  rewrite !Hland, Z.div_1_r.
  rewrite !(decide_False (P := 0 < g / 268435456)), !(decide_False (P := 0 < g / 16777216)),
    !(decide_False (P := 0 < g / 1048576)), !(decide_False (P := 0 < g / 65536)) by zdiv.
  rewrite (decide_True (P := 0 < g)) by lia. cbn [app].
  destruct (decide (g < 16)); [left|destruct (decide (g < 256)); [right; left|
    destruct (decide (g < 4096)); [right; right; left|right; right; right]]].
  all: repeat first [rewrite (decide_False (P := 0 < _ / _)) by zdiv
                    |rewrite (decide_True (P := 0 < _ / _)) by zdiv]; cbn [app].
  - rewrite Z.mod_small by lia. by split.
  - rewrite (Z.mod_small (g / 16)) by zdiv. split; [done|lia].
  - rewrite (Z.mod_small (g / 256)) by zdiv. split; [done|lia].
  - rewrite (Z.mod_small (g / 4096)) by zdiv. split; [done|lia].
Qed.

Lemma xtoi_group g rest :
  is_u16 g -> stops hex_value rest ->
  xtoi (appendHex g ++ rest) = (g, length (appendHex g), true).
Proof.
  intros Hg Hr. unfold xtoi, number. unfold is_u16 in Hg.
  destruct (hex_group g Hg) as [[-> H]|[[-> H]|[[-> H]|[-> H]]]]; cbn [app];
    repeat (erewrite number_loop_digit by
      (first [by apply hex_value_digit; zdiv | unfold big; zdiv]));
    rewrite number_loop_stop by done; cbn [length]; simpl; do 2 f_equal; zdiv.
Qed.

(** A hexadecimal number starts with a digit. *)
Lemma hex_head g :
  is_u16 g -> exists c t, appendHex g = c :: t /\ c <> dot /\ c <> colon.
Proof.
  intros Hg. unfold is_u16 in Hg.
  assert (Hd : forall d, 0 <= d < 16 -> hex_digit d <> dot /\ hex_digit d <> colon).
  { intros d Hd. unfold hex_digit, dot, colon. case_decide; lia. }
  destruct (hex_group g Hg) as [[-> H]|[[-> H]|[[-> H]|[-> H]]]]; eexists _, _;
    (split; [reflexivity|]); apply Hd; zdiv.
Qed.

(** ** IPv4 *)

Lemma parse4_step strict k first p a rest :
  is_u8 a -> stops decimal_value rest ->
  parse4_loop strict (S k) first p ((if first then [] else [dot]) ++ decimal 3 a ++ rest)
    = parse4_loop strict k false (p ++ [a]) rest.
Proof.
  intros Ha Hr. cbn [parse4_loop].
  assert (Hne : (if first then [] else [dot]) ++ decimal 3 a ++ rest <> []).
  { destruct first; [|done]. destruct (decimal_byte a Ha) as [[-> _]|[[-> _]|[-> _]]]; done. }
  rewrite decide_False by done.
  assert (Hs : (if first then Some ((if first then [] else [dot]) ++ decimal 3 a ++ rest)
    else match (if first then [] else [dot]) ++ decimal 3 a ++ rest with
         | c :: s' => if decide (c = dot) then Some s' else None
         | [] => None end) = Some (decimal 3 a ++ rest)) by (by destruct first).
  rewrite Hs. cbn [mbind option_bind]. rewrite dtoi_byte by done. cbn [negb orb].
  replace (255 <? a) with false by (unfold is_u8 in Ha; lia).
  assert (Hz : strict && bool_decide (1 < length (decimal 3 a))%nat
    && bool_decide (take 1 (decimal 3 a ++ rest) = [48]) = false).
  { destruct (decide (1 < length (decimal 3 a))%nat) as [Hl|Hl].
    - rewrite (bool_decide_eq_false_2 (take 1 _ = _)) by (by apply decimal_byte_head).
      apply andb_false_r.
    - rewrite (bool_decide_eq_false_2 (1 < _)%nat) by done. by rewrite andb_false_r. }
  rewrite Hz. by rewrite drop_app_length.
Qed.

Lemma parseIPv4_print a b c d strict :
  is_u8 a -> is_u8 b -> is_u8 c -> is_u8 d ->
  parseIPv4 strict (print4 [a; b; c; d]) = Some (v4InV6Prefix ++ [a; b; c; d]).
Proof.
  intros Ha Hb Hc Hd. unfold parseIPv4, print4.
  pose proof (fun rest => parse4_step strict 3 true [] a rest Ha) as H1.
  pose proof (fun rest => parse4_step strict 2 false [a] b rest Hb) as H2.
  pose proof (fun rest => parse4_step strict 1 false [a; b] c rest Hc) as H3.
  pose proof (fun rest => parse4_step strict 0 false [a; b; c] d rest Hd) as H4.
  cbn [app] in *. rewrite H1, H2, H3 by done. rewrite <- (app_nil_r (decimal 3 d)).
  by rewrite H4.
Qed.

(** The text up to the first dot or colon. *)
Definition plain (s : bytes) : Prop := Forall (fun c => c <> dot /\ c <> colon) s.

Lemma ParseIP_scan_plain strict s t rest :
  plain t -> ParseIP_scan strict s (t ++ rest) = ParseIP_scan strict s rest.
Proof.
  induction 1 as [|c t [Hd Hc] Ht IH]; [done|]. cbn [app ParseIP_scan].
  by rewrite !decide_False by done.
Qed.

Lemma plain_decimal b : is_u8 b -> plain (decimal 3 b).
Proof.
  intros Hb. unfold is_u8 in Hb.
  destruct (decimal_byte b Hb) as [[-> H]|[[-> H]|[-> H]]]; unfold plain, dot, colon;
    repeat constructor; zdiv.
Qed.

Lemma plain_hex g : is_u16 g -> plain (appendHex g).
Proof.
  intros Hg. unfold is_u16 in Hg.
  assert (Hd : forall d, 0 <= d < 16 -> hex_digit d <> dot /\ hex_digit d <> colon).
  { intros d Hd. unfold hex_digit, dot, colon. case_decide; lia. }
  destruct (hex_group g Hg) as [[-> H]|[[-> H]|[[-> H]|[-> H]]]]; unfold plain;
    repeat constructor; apply Hd; zdiv.
Qed.

Lemma ParseIP_print4 a b c d strict :
  is_u8 a -> is_u8 b -> is_u8 c -> is_u8 d ->
  ParseIP strict (print4 [a; b; c; d]) = Some (v4InV6Prefix ++ [a; b; c; d]).
Proof.
  intros. rewrite <- (parseIPv4_print a b c d strict) by done. unfold ParseIP.
  set (s := print4 _). unfold s at 2. unfold print4.
  by rewrite ParseIP_scan_plain by (by apply plain_decimal).
Qed.

(** ** IPv6 *)

(** Groups after the first, and all groups, with colons between them. *)
Definition tail_text (gs : list Z) : bytes := flat_map (fun g => colon :: appendHex g) gs.
Definition joined (gs : list Z) : bytes :=
  match gs with [] => [] | g :: gs => appendHex g ++ tail_text gs end.

Definition bytes_of (gs : list Z) : bytes := flat_map (fun g => [g / 256; g mod 256]) gs.

Lemma length_bytes_of gs : length (bytes_of gs) = (2 * length gs)%nat.
Proof. induction gs as [|g gs IH]; [done|]. simpl. rewrite IH. lia. Qed.

Lemma bytes_of_app gs hs : bytes_of (gs ++ hs) = bytes_of gs ++ bytes_of hs.
Proof. apply flat_map_app. Qed.

Lemma bytes_of_zeros n : bytes_of (replicate n 0) = zeros (2 * n).
Proof.
  induction n as [|n IH]; [done|]. cbn [replicate]. change (bytes_of (0 :: replicate n 0))
    with ([0; 0] ++ bytes_of (replicate n 0)). rewrite IH.
  by replace (2 * S n)%nat with (S (S (2 * n))) by lia.
Qed.

Lemma joined_cons g gs :
  gs <> [] -> joined (g :: gs) = appendHex g ++ colon :: joined gs.
Proof. by destruct gs. Qed.

Lemma joined_head gs :
  Forall is_u16 gs -> gs <> [] -> forall rest,
  exists c t, joined gs ++ rest = c :: t /\ c <> dot /\ c <> colon.
Proof.
  intros Hf Hne rest. destruct gs as [|g gs]; [done|]. apply Forall_cons in Hf as [Hg _].
  destruct (hex_head g Hg) as (c & t & E & Hc). simpl. rewrite E. by do 2 eexists.
Qed.

(** A group that is followed by nothing, by a colon and more, or by two colons. *)
Lemma parse6_last strict fuel ip e g :
  is_u16 g ->
  parse6_loop strict (S fuel) ip e (appendHex g) = Some (ip ++ [g / 256; g mod 256], e, []).
Proof.
  intros Hg. cbn [parse6_loop]. rewrite <- (app_nil_r (appendHex g)).
  rewrite xtoi_group by done. cbn [negb orb].
  replace (65535 <? g) with false by (unfold is_u16 in Hg; lia).
  rewrite drop_app_length. by rewrite decide_False.
Qed.

Lemma parse6_colon strict fuel ip e g rest :
  is_u16 g -> (exists c t, rest = c :: t /\ c <> colon) ->
  parse6_loop strict (S fuel) ip e (appendHex g ++ colon :: rest)
    = parse6_loop strict fuel (ip ++ [g / 256; g mod 256]) e rest.
Proof.
  intros Hg (c & t & -> & Hc). cbn [parse6_loop]. rewrite xtoi_group by done. cbn [negb orb].
  replace (65535 <? g) with false by (unfold is_u16 in Hg; lia).
  rewrite drop_app_length. rewrite decide_False by done.
  rewrite decide_False by (by intros [?|?]).
  rewrite decide_False; [done|]. simpl. by intros [= ->].
Qed.

Lemma parse6_ellipsis strict fuel ip g rest :
  is_u16 g ->
  parse6_loop strict (S fuel) ip None (appendHex g ++ colon :: colon :: rest)
    = let ip := ip ++ [g / 256; g mod 256] in
      if decide (rest = []) then Some (ip, Some (length ip), [])
      else parse6_loop strict fuel ip (Some (length ip)) rest.
Proof.
  intros Hg. cbn [parse6_loop]. rewrite xtoi_group by done. cbn [negb orb].
  replace (65535 <? g) with false by (unfold is_u16 in Hg; lia).
  rewrite drop_app_length. rewrite decide_False by done.
  rewrite decide_False by (by intros [?|?]). by rewrite decide_True.
Qed.

Lemma parse6_joined strict fuel ip e gs :
  Forall is_u16 gs -> gs <> [] -> (length gs <= fuel)%nat ->
  parse6_loop strict fuel ip e (joined gs) = Some (ip ++ bytes_of gs, e, []).
Proof.
  intros Hf. revert fuel ip. induction Hf as [|g gs Hg Hf IH]; intros fuel ip Hne Hl; [done|].
  destruct fuel as [|fuel]; [simpl in Hl; lia|].
  destruct (decide (gs = [])) as [-> |Hgs].
  - simpl. rewrite app_nil_r. by apply parse6_last.
  - rewrite joined_cons, parse6_colon; [|done| |done].
    + rewrite IH by (done || simpl in Hl; lia). by rewrite <- app_assoc.
    + destruct (joined_head gs Hf Hgs []) as (c & t & E & _ & Hc).
      rewrite app_nil_r in E. by exists c, t.
Qed.

Lemma parse6_gap strict fuel ip gs hs :
  Forall is_u16 gs -> Forall is_u16 hs -> gs <> [] -> (length gs + length hs <= fuel)%nat ->
  parse6_loop strict fuel ip None (joined gs ++ colon :: colon :: joined hs)
    = Some (ip ++ bytes_of gs ++ bytes_of hs, Some (length ip + 2 * length gs)%nat, []).
Proof.
  intros Hf Hh. revert fuel ip. induction Hf as [|g gs Hg Hf IH]; intros fuel ip Hne Hl; [done|].
  destruct fuel as [|fuel]; [simpl in Hl; lia|].
  destruct (decide (gs = [])) as [-> |Hgs].
  - cbn [joined tail_text flat_map]. rewrite app_nil_r, parse6_ellipsis by done. cbv zeta.
    rewrite length_app. destruct (decide (hs = [])) as [-> |Hhs].
    + by rewrite decide_True.
    + rewrite decide_False.
      2:{ destruct (joined_head hs Hh Hhs []) as (c & t & E & _). rewrite app_nil_r in E.
          by rewrite E. }
      rewrite parse6_joined by (done || simpl in Hl; lia). by rewrite <- !app_assoc.
  - rewrite joined_cons, <- app_assoc by done. cbn [app]. rewrite parse6_colon; [|done|].
    + rewrite IH by (done || simpl in Hl; lia). rewrite length_app, <- !app_assoc. simpl.
      do 4 f_equal. lia.
    + destruct (joined_head gs Hf Hgs (colon :: colon :: joined hs)) as (c & t & E & _ & Hc).
      by exists c, t.
Qed.

(** ** What the printing loop writes *)

Lemma zero_run_spec gs :
  (zero_run gs <= length gs)%nat /\ take (zero_run gs) gs = replicate (zero_run gs) 0.
Proof.
  induction gs as [|g gs [IH1 IH2]]; [done|].
  destruct g; cbn [zero_run]; [|split; [lia|done]..].
  cbn [length take replicate]. split; [lia|]. by rewrite IH2.
Qed.

(** A run [a, b] of zeros inside [gs]. *)
Definition zero_range (gs : list Z) (r : nat * nat) : Prop :=
  (fst r < snd r <= length gs)%nat /\
  take (snd r - fst r) (drop (fst r) gs) = replicate (snd r - fst r) 0.

Lemma longest_run_spec fuel i gs best :
  (forall r, best = Some r -> zero_range gs r) ->
  forall r, longest_run fuel i gs best = Some r -> zero_range gs r.
Proof.
  revert i best. induction fuel as [|fuel IH]; intros i best Hb r; cbn [longest_run]; [apply Hb|].
  case_decide as Hd; apply IH; [|done].
  intros r' [= <-]. destruct (zero_run_spec (drop i gs)) as [Hz1 Hz2].
  rewrite length_drop in Hz1. unfold zero_range. cbn [fst snd] in *. split; [lia|].
  by replace (i + zero_run (drop i gs) - i)%nat with (zero_run (drop i gs)) by lia.
Qed.

Lemma ellipsis_of_range gs r : ellipsis_of gs = Some r -> zero_range gs r.
Proof.
  unfold ellipsis_of. destruct (longest_run _ _ _ _) as [[e0 e1]|] eqn:Hl; [|done].
  case_decide; [done|]. intros [= <-]. eapply longest_run_spec; [|exact Hl]. done.
Qed.

(** The loop beyond the ellipsis, or without one. *)
Lemma print_after fuel i e gs :
  (0 < i)%nat -> (forall e0 e1, e = Some (e0, e1) -> (e0 < i)%nat) ->
  (length gs - i <= fuel)%nat ->
  print_loop fuel i e gs = tail_text (drop i gs).
Proof.
  revert i. induction fuel as [|fuel IH]; intros i Hi He Hl.
  { by rewrite drop_ge by lia. }
  cbn [print_loop]. destruct (gs !! i) as [g|] eqn:Hg.
  - pose proof (lookup_lt_Some _ _ _ Hg). rewrite (drop_S _ _ _ Hg).
    assert (Hn : print_loop fuel (S i) e gs = tail_text (drop (S i) gs)).
    { apply IH; [lia| |lia]. intros e0 e1 Hee. specialize (He e0 e1 Hee). lia. }
    cbn [tail_text flat_map]. fold (tail_text (drop (S i) gs)). rewrite <- Hn.
    destruct e as [[e0 e1]|]; [|by rewrite decide_True by lia].
    specialize (He e0 e1 eq_refl). rewrite decide_False by lia. by rewrite decide_True by lia.
  - apply lookup_ge_None in Hg. by rewrite drop_ge by lia.
Qed.

(** From the ellipsis on. *)
Lemma print_gap fuel e0 e1 gs :
  (e0 < e1 <= length gs)%nat -> (length gs - e0 <= fuel)%nat ->
  print_loop fuel e0 (Some (e0, e1)) gs = colon :: colon :: joined (drop e1 gs).
Proof.
  intros He Hl. destruct fuel as [|fuel]; [lia|]. cbn [print_loop].
  destruct (lookup_lt_is_Some_2 gs e0) as [g ->]; [lia|]. rewrite decide_True by done.
  cbn [app]. do 2 f_equal. destruct (gs !! e1) as [h|] eqn:Hh.
  - rewrite (drop_S _ _ _ Hh). cbn [joined]. f_equal. apply print_after; [lia| |lia].
    intros ? ? [= <- <-]. lia.
  - apply lookup_ge_None in Hh. by rewrite drop_ge by lia.
Qed.

(** Up to the ellipsis. *)
Lemma print_before fuel i e0 e1 gs :
  (e0 < e1 <= length gs)%nat -> (0 < i <= e0)%nat -> (length gs - i <= fuel)%nat ->
  print_loop fuel i (Some (e0, e1)) gs
    = tail_text (take (e0 - i) (drop i gs)) ++ colon :: colon :: joined (drop e1 gs).
Proof.
  intros He. revert i. induction fuel as [|fuel IH]; intros i Hi Hl; [lia|].
  destruct (decide (i = e0)) as [-> |Hne].
  - rewrite Nat.sub_diag, take_0. by apply print_gap.
  - cbn [print_loop]. destruct (lookup_lt_is_Some_2 gs i) as [g Hg]; [lia|].
    rewrite Hg, decide_False by done. rewrite decide_True by lia.
    rewrite IH by lia. rewrite (drop_S _ _ _ Hg).
    replace (e0 - i)%nat with (S (e0 - S i)) by lia. cbn [take tail_text flat_map app].
    by rewrite <- app_assoc.
Qed.

Lemma print_joined gs :
  gs <> [] -> print_loop (length gs) 0 None gs = joined gs.
Proof.
  intros Hne. destruct gs as [|g gs]; [done|]. cbn [length print_loop lookup list_lookup].
  rewrite decide_False by lia. cbn [app joined]. f_equal.
  rewrite print_after; [done|lia|done|simpl; lia].
Qed.

Lemma print_ellipsis e0 e1 gs :
  (e0 < e1 <= length gs)%nat ->
  print_loop (length gs) 0 (Some (e0, e1)) gs
    = joined (take e0 gs) ++ colon :: colon :: joined (drop e1 gs).
Proof.
  intros He. destruct (decide (e0 = 0%nat)) as [-> |H0].
  - rewrite take_0. apply print_gap; lia.
  - destruct gs as [|g gs]; [simpl in He; lia|]. cbn [length print_loop lookup list_lookup].
    rewrite (decide_False (P := (0 < 0)%nat)) by lia. rewrite decide_False by lia.
    rewrite print_before by (simpl in *; lia).
    destruct e0 as [|e0]; [lia|]. cbn [app take joined]. rewrite <- app_assoc. do 2 f_equal.
    cbn [drop]. do 2 f_equal. lia.
Qed.

(** ** The round trip *)

Lemma groups_spec p :
  is_bytes p -> length p = 16%nat ->
  bytes_of (groups p) = p /\ length (groups p) = 8%nat /\ Forall is_u16 (groups p).
Proof.
  intros Hp Hl. do 17 (destruct p as [|? p]; try discriminate Hl). clear Hl.
  repeat (apply Forall_cons in Hp as [? Hp]). cbn [groups bytes_of flat_map app].
  unfold is_u8, is_u16 in *. split_and!; [|done|].
  - assert (Hd : forall x y, 0 <= y < 256 -> (x * 256 + y) / 256 = x) by (intros; zdiv).
    assert (Hm : forall x y, 0 <= y < 256 -> (x * 256 + y) mod 256 = y) by (intros; zdiv).
    by rewrite !Hd, !Hm by lia.
  - repeat (constructor; [lia|]). constructor.
Qed.

Lemma expand_gap gs e0 e1 :
  length gs = 8%nat -> zero_range gs (e0, e1) ->
  expand (bytes_of (take e0 gs) ++ bytes_of (drop e1 gs)) (Some (2 * e0)%nat) = Some (bytes_of gs).
Proof.
  intros Hl [He Hz]. cbn [fst snd] in *. unfold expand.
  rewrite length_app, !length_bytes_of, length_take, length_drop, Hl.
  rewrite decide_True by lia.
  assert (Hlen : length (bytes_of (take e0 gs)) = (2 * e0)%nat)
    by (rewrite length_bytes_of, length_take; lia).
  rewrite take_app_exact, drop_app_exact by done. f_equal.
  replace (16 - (2 * (e0 `min` 8) + 2 * (8 - e1)))%nat with (2 * (e1 - e0))%nat by lia.
  rewrite <- bytes_of_zeros, <- Hz, <- !bytes_of_app. f_equal.
  rewrite <- (take_drop e0 gs) at 4. f_equal.
  rewrite <- (take_drop (e1 - e0) (drop e0 gs)) at 2. f_equal. rewrite drop_drop. f_equal. lia.
Qed.

(** The first dot or colon of a text with colons only is a colon. *)
Lemma ParseIP_joined strict gs rest :
  Forall is_u16 gs -> gs <> [] -> (1 < length gs)%nat \/ take 1 rest = [colon] ->
  ParseIP strict (joined gs ++ rest) = parseIPv6 strict (joined gs ++ rest).
Proof.
  intros Hf Hne Hc. unfold ParseIP. set (s := joined gs ++ rest). unfold s at 2. clearbody s.
  destruct gs as [|g gs]; [done|]. apply Forall_cons in Hf as [Hg Hf]. cbn [joined].
  rewrite <- app_assoc, ParseIP_scan_plain by (by apply plain_hex).
  destruct gs as [|h gs]; cbn [tail_text flat_map app ParseIP_scan].
  - destruct Hc as [Hc|Hc]; [simpl in Hc; lia|]. destruct rest as [|c rest]; [done|].
    injection Hc as ->. cbn [ParseIP_scan]. rewrite decide_False by done. by rewrite decide_True.
  - rewrite decide_False by done. by rewrite decide_True.
Qed.

Lemma parse_print6 strict gs :
  length gs = 8%nat -> Forall is_u16 gs ->
  ParseIP strict (print_loop 8 0 (ellipsis_of gs) gs) = Some (bytes_of gs).
Proof.
  intros Hl Hf. assert (Hne : gs <> []) by (intros ->; discriminate Hl).
  rewrite <- Hl at 1. destruct (ellipsis_of gs) as [[e0 e1]|] eqn:He.
  - apply ellipsis_of_range in He as Hr. pose proof Hr as [Hb _]. cbn [fst snd] in Hb.
    rewrite print_ellipsis by done. pose proof (expand_gap gs e0 e1 Hl Hr) as Hx.
    assert (Ht : Forall is_u16 (take e0 gs)) by (by apply Forall_take).
    assert (Hd : Forall is_u16 (drop e1 gs)) by (by apply Forall_drop).
    destruct (decide (e0 = 0%nat)) as [-> |H0].
    + rewrite take_0 in *. cbn [joined app] in *.
      transitivity (parseIPv6 strict (colon :: colon :: joined (drop e1 gs))).
      { unfold ParseIP. cbn [ParseIP_scan]. rewrite decide_False by done. by rewrite decide_True. }
      unfold parseIPv6. rewrite decide_True by done. cbn [drop]. rewrite drop_0.
      destruct (decide (drop e1 gs = [])) as [E|E].
      * rewrite E in *. cbn [joined]. rewrite decide_True by done. rewrite <- Hx. reflexivity.
      * rewrite decide_False.
        2:{ destruct (joined_head _ Hd E []) as (c & t & Ec & _). rewrite app_nil_r in Ec.
            by rewrite Ec. }
        rewrite parse6_joined by (done || rewrite length_drop; lia). cbn [mbind option_bind].
        rewrite decide_True by done. exact Hx.
    + assert (Hte : take e0 gs <> []) by (intros E; apply (f_equal length) in E;
        rewrite length_take in E; simpl in E; lia).
      rewrite ParseIP_joined by (done || by right). unfold parseIPv6.
      destruct (joined_head _ Ht Hte (colon :: colon :: joined (drop e1 gs)))
        as (c & t & Ec & Hc1 & Hc2).
      rewrite decide_False by (rewrite Ec; by intros [= ->]).
      rewrite parse6_gap by (done || rewrite length_take, length_drop; lia).
      cbn [mbind option_bind app length]. rewrite decide_True by done.
      rewrite length_take, Hl in *. replace (e0 `min` 8)%nat with e0 by lia. exact Hx.
  - rewrite print_joined by done. rewrite <- (app_nil_r (joined gs)).
    rewrite ParseIP_joined by (done || left; lia). rewrite app_nil_r. unfold parseIPv6.
    destruct (joined_head _ Hf Hne []) as (c & t & Ec & Hc1 & Hc2). rewrite app_nil_r in Ec.
    rewrite decide_False by (rewrite Ec; by intros [= ->]).
    rewrite parse6_joined by (done || lia). cbn [mbind option_bind app].
    rewrite decide_True by done. unfold expand. rewrite length_bytes_of, Hl.
    by rewrite decide_False by lia.
Qed.

(** *** The characters of a text *)

Lemma print_loop_Forall (P : Z -> Prop) fuel i e gs :
  P colon -> (forall g, is_u16 g -> Forall P (appendHex g)) -> Forall is_u16 gs ->
  Forall P (print_loop fuel i e gs).
Proof.
  intros Hc Hh Hf. revert i. induction fuel as [|fuel IH]; intros i; [constructor|].
  cbn [print_loop].
  assert (Hg : forall k g, gs !! k = Some g -> Forall P (appendHex g))
    by (intros k g Hk; apply Hh; by eapply Forall_lookup_1).
  destruct (gs !! i) as [g|] eqn:Hi; [|constructor].
  assert (Hn : Forall P ((if decide (0 < i)%nat then [colon] else []) ++ appendHex g ++
    print_loop fuel (S i) e gs)).
  { rewrite !Forall_app. split_and!; [case_decide; by repeat constructor|by eapply Hg|apply IH]. }
  destruct e as [[e0 e1]|]; [|done]. destruct (decide (i = e0)); [|done].
  rewrite Forall_app. split; [by repeat constructor|].
  destruct (gs !! e1) as [h|] eqn:He; [|constructor]. rewrite Forall_app.
  split; [by eapply Hg|apply IH].
Qed.

(** An address of 4 or of 16 bytes. *)
Definition is_ip (ip : bytes) : Prop := is_bytes ip /\ (length ip = 4%nat \/ length ip = 16%nat).

Lemma length_four (p : bytes) : length p = 4%nat -> exists a b c d, p = [a; b; c; d].
Proof. intros H. do 5 (destruct p as [|? p]; try discriminate H). by do 4 eexists. Qed.

(** Printing and parsing, for the two lengths of an address. *)
Lemma ParseIP_print4_list strict p :
  is_bytes p -> length p = 4%nat -> ParseIP strict (print4 p) = Some (v4InV6Prefix ++ p).
Proof.
  intros Hp (w & x & y & z & ->)%length_four.
  repeat (apply Forall_cons in Hp as [? Hp]). by apply ParseIP_print4.
Qed.

Lemma ParseIP_String strict a : is_ip a -> ParseIP strict (IP_String a) = To16 a.
Proof.
  intros [Hb Hl]. unfold IP_String.
  rewrite decide_False by (intros ->; destruct Hl as [H|H]; discriminate H).
  unfold To4, To16. destruct Hl as [Hl|Hl]; rewrite Hl.
  - rewrite !decide_True by done. by apply ParseIP_print4_list.
  - rewrite !(decide_False (P := 16%nat = 4%nat)) by done.
    rewrite (decide_True (P := 16%nat = 16%nat)) by done.
    case_decide as Hm.
    + destruct Hm as [_ Hm]. rewrite ParseIP_print4_list.
      * rewrite <- (take_drop 12 a) at 2. by rewrite Hm.
      * by apply Forall_drop.
      * rewrite length_drop, Hl. done.
    + rewrite decide_False by (intros H; by apply H).
      destruct (groups_spec a Hb Hl) as (Hg & Hlen & Hf). rewrite <- Hg at 3.
      by apply parse_print6.
Qed.

Lemma To16_is_Some ip : is_ip ip -> is_Some (To16 ip).
Proof. intros [_ [Hl|Hl]]; unfold To16; rewrite Hl; by eexists. Qed.

(** The two forms of an IPv4 address print alike. *)
Lemma IP_String_four a b :
  is_ip b -> length a = 4%nat -> To16 a = To16 b -> IP_String a = IP_String b.
Proof.
  intros [_ Hb] Hl He. unfold To16 in He. rewrite Hl in He.
  rewrite decide_True in He by done. unfold IP_String.
  rewrite (decide_False (P := a = [])) by (by intros ->).
  rewrite (decide_False (P := b = [])) by (intros ->; destruct Hb; discriminate).
  unfold To4. rewrite (decide_True (P := length a = 4%nat)) by done.
  destruct Hb as [Hb|Hb]; rewrite Hb in *.
  - rewrite decide_True in He by done. apply (inj Some), app_inv_head in He.
    by rewrite decide_True, He by done.
  - rewrite !(decide_False (P := 16%nat = 4%nat)) in * by done.
    rewrite decide_True in He by done. apply (inj Some) in He. subst b.
    rewrite decide_True by (split; [done|by rewrite take_app_exact]).
    by rewrite drop_app_exact.
Qed.

Lemma IP_String_To16 ip ip' : is_ip ip -> is_ip ip' -> To16 ip = To16 ip' -> IP_String ip = IP_String ip'.
Proof.
  intros Hip Hip' He.
  destruct (decide (length ip = 4%nat)) as [Hl|Hl]; [by apply IP_String_four|].
  destruct (decide (length ip' = 4%nat)) as [Hl'|Hl']; [symmetry; by apply IP_String_four|].
  destruct Hip as [_ [H|H]]; [done|]. destruct Hip' as [_ [H'|H']]; [done|].
  unfold To16 in He. rewrite H, H' in He.
  rewrite !(decide_False (P := 16%nat = 4%nat)) in He by done.
  rewrite !decide_True in He by done. by injection He as ->.
Qed.

(** The text of an address is the address: every IPv4 and IPv6 address is parsed back
    from what [String] prints, as its 16-byte form, whether or not the parser is strict
    about leading zeros; so two addresses have the same text exactly when they are the
    same address in the two forms. *)
Lemma ip_text_round_trip strict ip ip' :
  is_ip ip -> is_ip ip' ->
  ParseIP strict (IP_String ip) = To16 ip /\ is_Some (To16 ip) /\
  (IP_String ip = IP_String ip' <-> To16 ip = To16 ip').
Proof.
  intros Hip Hip'. split_and!; [by apply ParseIP_String|by apply To16_is_Some|].
  split; [|by apply IP_String_To16].
  intros He. rewrite <- (ParseIP_String strict ip), <- (ParseIP_String strict ip') by done.
  by rewrite He.
Qed.

(** The text of an address has no comma. *)
Lemma comma_free_IP_String ip : is_ip ip -> Forall (fun c => c <> 44) (IP_String ip).
Proof.
  intros [Hb Hl]. unfold IP_String.
  rewrite decide_False by (intros ->; destruct Hl as [H|H]; discriminate H).
  assert (Hdec : forall b, is_u8 b -> Forall (fun c => c <> 44) (decimal 3 b)).
  { intros b Hb'. unfold is_u8 in Hb'.
    destruct (decimal_byte b Hb') as [[-> H]|[[-> H]|[-> H]]]; repeat constructor; zdiv. }
  assert (Hp4 : forall p, is_bytes p -> length p = 4%nat -> Forall (fun c => c <> 44) (print4 p)).
  { intros p Hp (w & x & y & z & ->)%length_four. repeat (apply Forall_cons in Hp as [? Hp]).
    unfold print4.
    repeat first [by apply Hdec|apply Forall_app; split|apply List.Forall_cons; [by vm_compute|]]. }
  destruct (To4 ip) as [p4|] eqn:H4.
  - unfold To4 in H4. case_decide; [injection H4 as <-; by apply Hp4|].
    case_decide as Hm; [|done]. injection H4 as <-. apply Hp4; [by apply Forall_drop|].
    destruct Hm as [Hm _]. by rewrite length_drop, Hm.
  - unfold To4 in H4. destruct Hl as [Hl|Hl]; rewrite Hl in *; [discriminate H4|].
    rewrite decide_False by (intros H; by apply H). destruct (groups_spec ip Hb Hl) as (_ & _ & Hf).
    apply print_loop_Forall; [done| |done]. intros g Hg.
    assert (Hd : forall d, 0 <= d < 16 -> hex_digit d <> 44)
      by (intros d Hd; unfold hex_digit; destruct (decide (d < 10)); lia).
    unfold is_u16 in Hg.
    destruct (hex_group g Hg) as [[-> H]|[[-> H]|[[-> H]|[-> H]]]]; repeat constructor;
      apply Hd; zdiv.
Qed.

Lemma ip_text_round_trip_witness :
  let ip := [32; 1; 13; 184; 0; 0; 0; 0; 0; 1; 0; 0; 0; 0; 0; 1] in
  ParseIP true (IP_String ip) = To16 ip /\ is_Some (To16 ip) /\
  (IP_String ip = IP_String [10; 0; 0; 2] <-> To16 ip = To16 [10; 0; 0; 2]).
Proof.
  apply ip_text_round_trip; (split; [|by (left + right)]);
    repeat (apply List.Forall_cons; [unfold is_u8; lia|]); apply List.Forall_nil.
Defined.
