(* ===== verification/System.v ===== *)
(** * The running program (main.go, sessionhandle.go)

    The goroutines of the program as a transition system: the UDP socket is opened,
    datagrams arrive, TCP exchanges insert sessions and start their waiters, waiters
    and ping loops make steps, the garbage collector makes passes, in any order and
    at any reading of the clock. The steps are the handlers of Session.v and
    Handshake.v; a handler runs to its end before the next step. Statements.v has the
    same program with one step per statement: Interleaving.v shows that its schedules
    include all of these, and Safety.v and Races.v what more can happen there. *)

From S2P Require Import Prelude Bytes GoTime Acks Session PlainCodec Handshake.
Local Open Scope Z_scope.

(** ** Events

    The times are those the handlers read; the events of [timeNowCorrected] are the calls
    that return, as one that finds the clock too far off ends the process. *)
Inductive event :=
  | EListen (c : conn)
  | EPacket (timeRX : Time) (buf : bytes) (rxAddr : UDPAddr)
  | EServerInvite (nSes : Z) (made : Time)
  | EClientInvite (invite : Z) (ip : bytes) (made : Time)
  | ESpawn (i : nat)
  | EWaiterSelects (g : nat)
  | EWaiterTick (g : nat) (now : Time)
  | EWaiterWoken (g : nat) (timeStarted : Time)
  | EPing (g : nat) (now1 now2 now3 txTime : Time)
  | EGC (clock : Z -> Time * Time) (order : list Z).

Definition set_listening (c : conn) (w : world) : world :=
  mkWorld (w_heap w) (w_table w) (Some c) (w_gor w) (w_pending w) (w_sent w).

Definition set_goroutine (g : nat) (x : goroutine) (w : world) : world :=
  set_gor (<[g := x]> (w_gor w)) w.

(** The loop of a goroutine after an iteration: it goes on with [go], or it returned. *)
Definition iterate (g : nat) (stop : goroutine) (w : world)
    (r : result fatal_error (option world)) : result fatal_error world :=
  o ← r; Ok (match o with Some w' => w' | None => set_goroutine g stop w end).

Section Exec.
Context {C : Codec}.

(** One step: [None] when the event cannot happen in [w]. *)
Definition exec (e : event) (w : world) : option (result fatal_error world) :=
  match e with
  | EListen c =>
      match w_globalReplyWith w with
      | None => Some (Ok (set_listening c w))
      | Some _ => None
      end
  | EPacket timeRX buf rxAddr =>
      match w_globalReplyWith w with
      | None => None
      | Some c => Some (handlePacket (Ok timeRX) buf rxAddr c w)
      end
  | EServerInvite nSes made =>
      if decide (0 <= nSes < 2 ^ 32)
      then Some (Ok (insert_session WaitForHandshake nSes (server_session nSes made) w))
      else None
  | EClientInvite invite ip made =>
      if decide (0 <= invite < 2 ^ 32)
      then Some (Ok (insert_session SendUDPHandshake invite
                       (client_session invite ip made) w))
      else None
  | ESpawn i =>
      match w_pending w !! i with Some _ => Some (spawn_waiter i w) | None => None end
  | EWaiterSelects g =>
      match w_gor w !! g with
      | Some (Waiter k l WStarting) =>
          Some (w' ← waiter_start k l w; Ok (set_goroutine g (Waiter k l WSelecting) w'))
      | _ => None
      end
  | EWaiterTick g now =>
      match w_gor w !! g with
      | Some (Waiter k l WSelecting) =>
          Some (iterate g (Waiter k l WReturned) w (waiter_tick now k l w))
      | _ => None
      end
  | EWaiterWoken g timeStarted =>
      match w_gor w !! g with
      | Some (Waiter k l WNotified) =>
          Some (waiter_activated timeStarted l
                  (set_goroutine g (Waiter k l WReturned) w))
      | _ => None
      end
  | EPing g now1 now2 now3 txTime =>
      match w_gor w !! g with
      | Some (Sender l t true) =>
          Some (iterate g (Sender l t false) w (sendPackets_iter t now1 now2 now3 (Ok txTime) l w))
      | _ => None
      end
  | EGC clock order =>
      if decide (NoDup order /\ list_to_set order =@{gset Z} dom (w_table w))
      then Some (Ok (sessionGC clock order w)) else None
  end.

Inductive step (w w' : world) : Prop :=
  | step_exec e : exec e w = Some (Ok w') -> step w w'.

(** The worlds the program can be in. *)
Definition reachable (w : world) : Prop := rtc step empty_world w.
End Exec.

(** ** The invariant *)

(** A goroutine that has been notified of the handshake of [l], or that pings for it. *)
Definition woken (l : loc) (g : goroutine) : bool :=
  match g with
  | Waiter _ l' WNotified => bool_decide (l = l')
  | Sender l' _ _ => bool_decide (l = l')
  | _ => false
  end.

Definition is_reply (l : loc) (d : datagram) : bool :=
  bool_decide (d_kind d = SReply /\ d_loc d = l).

Definition activations (l : loc) (w : world) : nat := count (woken l) (w_gor w).
Definition replies (l : loc) (w : world) : nat := count (is_reply l) (w_sent w).

Definition gor_loc (g : goroutine) : loc :=
  match g with Waiter _ l _ => l | Sender l _ _ => l end.

(** A waiter of the initiating side past its start, or a ping loop. *)
Definition needs_socket (g : goroutine) : bool :=
  match g with
  | Waiter SendUDPHandshake _ WStarting => false
  | Waiter SendUDPHandshake _ _ => true
  | Waiter WaitForHandshake _ _ => false
  | Sender _ _ _ => false
  end.

(** What holds of every session object: its ring has 32 slots and a slot index inside
    it; and until the UDP handshake it has received nothing. *)
Definition session_ok (s : session) : Prop :=
  TCPActivated s = true /\ length (LastAcks s) = ring_size /\ 0 <= nextAckSlot s < 32 /\
  Forall wf_info_ack (LastAcks s) /\ is_u32 (SessionID s) /\ is_u8 (CurrentID s) /\
  pulse s = None /\ (UDPActivated s = false -> LastRX s = zeroTime) /\
  (is_Some (ReplyTo s) -> is_Some (ReplyWith s)).

Definition activated (w : world) (l : loc) : Prop :=
  exists s, w_heap w !! l = Some s /\ UDPActivated s = true.

Record Inv (w : world) : Prop := {
  inv_heap l s : w_heap w !! l = Some s -> session_ok s;
  inv_table id l : w_table w !! id = Some l ->
    exists s, w_heap w !! l = Some s /\ SessionID s = id;
  inv_gor g x : w_gor w !! g = Some x ->
    exists s, w_heap w !! gor_loc x = Some s /\
      (needs_socket x = true -> is_Some (ReplyWith s));
  inv_activations l : (activations l w <= 1)%nat;
  inv_replies l : (replies l w <= 1)%nat;
  inv_woken l : (0 < activations l w)%nat -> activated w l;
  inv_replied l : (0 < replies l w)%nat -> activated w l;
  inv_pinged d : d ∈ w_sent w -> d_kind d = SPing -> activated w (d_loc d);
}.

(** *** Steps that change one session *)

(** The ways a handler may change a session object. *)
Definition session_le (s s' : session) : Prop :=
  SessionID s' = SessionID s /\ (UDPActivated s = true -> UDPActivated s' = true) /\
  (is_Some (ReplyWith s) -> is_Some (ReplyWith s')).

Lemma activated_set w l s s' l' :
  w_heap w !! l = Some s -> session_le s s' -> activated w l' ->
  activated (set_session l s' w) l'.
Proof.
  intros Hl (_ & Hact & _) (t & Ht & Hta). unfold activated, set_session. simpl.
  destruct (decide (l = l')) as [<- |Hne].
  - exists s'. rewrite lookup_insert_eq. split; [done|]. apply Hact. congruence.
  - exists t. by rewrite lookup_insert_ne.
Qed.

Lemma inv_set_session w l s s' :
  Inv w -> w_heap w !! l = Some s -> session_ok s' -> session_le s s' ->
  Inv (set_session l s' w).
Proof.
  intros HI Hl Hok Hle. pose proof Hle as (Hid & _ & Hrw). constructor.
  - intros l' t. simpl. rewrite lookup_insert_Some. intros [[_ <-]|[_ Ht]]; [done|].
    by eapply inv_heap.
  - intros id l' Ht. destruct (inv_table _ HI _ _ Ht) as (t & Hh & Htid). simpl.
    destruct (decide (l = l')) as [<- |Hne].
    + exists s'. rewrite lookup_insert_eq. split; [done|]. congruence.
    + exists t. by rewrite lookup_insert_ne.
  - intros g x Hg. destruct (inv_gor _ HI _ _ Hg) as (t & Hh & Hn). simpl.
    destruct (decide (l = gor_loc x)) as [Heq |Hne].
    + exists s'. rewrite Heq, lookup_insert_eq. split; [done|]. intros H. apply Hrw.
      rewrite <- Heq in Hh. rewrite Hl in Hh. injection Hh as <-. by apply Hn.
    + exists t. by rewrite lookup_insert_ne.
  - apply (inv_activations _ HI).
  - apply (inv_replies _ HI).
  - intros l' H. eapply activated_set; [done|done|]. by apply (inv_woken _ HI).
  - intros l' H. eapply activated_set; [done|done|]. by apply (inv_replied _ HI).
  - intros d Hd Hk. eapply activated_set; [done|done|]. by apply (inv_pinged _ HI).
Qed.

(** *** Steps that change the goroutines *)

Definition gor_ok (w : world) (x : goroutine) : Prop :=
  exists s, w_heap w !! gor_loc x = Some s /\
    (needs_socket x = true -> is_Some (ReplyWith s)).

Lemma inv_set_gor w gs :
  Inv w -> (forall x, x ∈ gs -> gor_ok w x) ->
  (forall l, (count (woken l) gs <= 1)%nat) ->
  (forall l, (0 < count (woken l) gs)%nat -> activated w l) ->
  Inv (set_gor gs w).
Proof.
  intros HI Hgs Hc Ha. destruct HI. constructor; try done.
  intros g x Hx. by eapply Hgs, list_elem_of_lookup_2.
Qed.

Lemma gor_elem_ok w x : Inv w -> x ∈ w_gor w -> gor_ok w x.
Proof. intros HI [g Hg]%list_elem_of_lookup. by eapply inv_gor. Qed.

(** Replacing a goroutine by one that tests alike. *)
Lemma inv_set_goroutine w g x y :
  Inv w -> w_gor w !! g = Some x -> gor_ok w y ->
  (forall l, woken l y = true -> woken l x = true) -> Inv (set_goroutine g y w).
Proof.
  intros HI Hg Hy Hw. unfold set_goroutine.
  assert (Hle : forall l, (count (woken l) (<[g := y]> (w_gor w)) <= activations l w)%nat).
  { intros l. unfold activations. destruct (woken l y) eqn:Hwy.
    - pose proof (Hw l Hwy). by rewrite (count_insert (woken l) _ g x) by congruence.
    - destruct (woken l x) eqn:Hwx.
      + rewrite (count_insert_drop (woken l) (w_gor w) g x y) by done. lia.
      + by rewrite (count_insert (woken l) _ g x) by congruence. }
  apply inv_set_gor; [done| | |].
  - intros z Hz. apply list_elem_of_lookup in Hz as [i Hi].
    destruct (decide (g = i)) as [<- |Hne].
    + rewrite list_lookup_insert_eq in Hi by (by eapply lookup_lt_Some). by simplify_eq.
    + rewrite list_lookup_insert_ne in Hi by done. by eapply inv_gor.
  - intros l. specialize (Hle l). pose proof (inv_activations _ HI l). lia.
  - intros l H. apply (inv_woken _ HI). specialize (Hle l). lia.
Qed.

(** Waking a waiter of [l]. *)
Lemma woken_notify_waiter l g :
  is_selecting l g = true -> woken l g = false /\ woken l (notify_waiter l g) = true.
Proof. by destruct g as [k l' []|]. Qed.

Lemma notify_elem l gs x :
  x ∈ notify l gs ->
  x ∈ gs \/ exists k, x = Waiter k l WNotified /\ Waiter k l WSelecting ∈ gs.
Proof.
  induction gs as [|g gs IH]; simpl; [tauto|].
  destruct (is_selecting l g) eqn:Hs.
  - intros [-> |Hx]%elem_of_cons; [right|left; apply elem_of_cons; by right].
    destruct g as [k l' []|]; try done. simpl in Hs. apply bool_decide_eq_true_1 in Hs as <-.
    exists k. split; [done|]. apply elem_of_cons. by left.
  - intros [-> |Hx]%elem_of_cons; [left; apply elem_of_cons; by left|].
    destruct (IH Hx) as [?|(k & -> & ?)]; [left|right; exists k; split; [done|]];
      apply elem_of_cons; by right.
Qed.

Lemma count_notify l l' gs :
  (count (woken l') (notify l gs)
    <= count (woken l') gs + if bool_decide (l = l') then 1 else 0)%nat.
Proof.
  induction gs as [|g gs IH]; simpl; [lia|].
  destruct (is_selecting l g) eqn:Hs; simpl.
  - destruct g as [k l0 []|]; try done. simpl in *. apply bool_decide_eq_true_1 in Hs as <-.
    case_bool_decide; simplify_eq; rewrite ?bool_decide_eq_true_2, ?bool_decide_eq_false_2 by done;
      lia.
  - lia.
Qed.

Lemma inv_notify w l :
  Inv w -> activated w l -> activations l w = 0%nat -> Inv (set_gor (notify l (w_gor w)) w).
Proof.
  intros HI Ha H0. pose proof (fun l' => count_notify l l' (w_gor w)) as Hn.
  apply inv_set_gor; [done| | |].
  - intros x Hx. destruct (notify_elem _ _ _ Hx) as [?|(k & -> & Hin)].
    + by apply gor_elem_ok.
    + exact (gor_elem_ok _ _ HI Hin).
  - intros l'. specialize (Hn l'). pose proof (inv_activations _ HI l').
    unfold activations in *. case_bool_decide; [subst l'; lia|lia].
  - intros l' H. specialize (Hn l'). case_bool_decide; [by subst l'|].
    apply (inv_woken _ HI). unfold activations. lia.
Qed.

(** *** Steps that send or allocate *)

Lemma inv_send w d :
  Inv w ->
  (d_kind d = SPing -> activated w (d_loc d)) ->
  (d_kind d = SReply -> replies (d_loc d) w = 0%nat /\ activated w (d_loc d)) ->
  Inv (send d w).
Proof.
  intros HI Hp Hr. destruct HI as [Hh Ht Hg Ha Hrep Hw Hrd Hpg].
  assert (Hc : forall l, replies l (send d w)
    = ((if is_reply l d then 1 else 0) + replies l w)%nat) by done.
  constructor; try done.
  - intros l. rewrite Hc. unfold is_reply. case_bool_decide as Hd; [|apply Hrep].
    destruct Hd as [Hk <-]. destruct (Hr Hk) as [-> _]. lia.
  - intros l. rewrite Hc. unfold is_reply. case_bool_decide as Hd; [|apply Hrd].
    destruct Hd as [Hk <-]. intros _. by apply Hr.
  - intros d' [-> |Hd]%elem_of_cons Hk; [by apply Hp|]. by apply Hpg.
Qed.

Lemma activated_insert w l s l' :
  w_heap w !! l = None -> activated w l' ->
  exists t, <[l := s]> (w_heap w) !! l' = Some t /\ UDPActivated t = true.
Proof.
  intros Hl (t & Ht & Hta). exists t. split; [|done].
  rewrite lookup_insert_ne; [done|]. intros ->. congruence.
Qed.

Lemma inv_insert w k id s :
  Inv w -> session_ok s -> SessionID s = id -> Inv (insert_session k id s w).
Proof.
  intros HI Hs Hid. unfold insert_session. set (l := fresh (dom (w_heap w))).
  assert (Hl : w_heap w !! l = None) by (apply not_elem_of_dom, is_fresh).
  destruct HI as [Hh Ht Hg Ha Hr Hw Hrd Hpg]. constructor; simpl; try done.
  - intros l' t [[_ <-]|[_ H]]%lookup_insert_Some; [done|by eapply Hh].
  - intros id' l' [[<- <-]|[_ H]]%lookup_insert_Some.
    + exists s. by rewrite lookup_insert_eq.
    + destruct (Ht _ _ H) as (t & Hlt & Hidt). exists t. split; [|done].
      rewrite lookup_insert_ne; [done|]. intros ->. congruence.
  - intros g x Hx. destruct (Hg _ _ Hx) as (t & Hlt & Hn). exists t. split; [|done].
    rewrite lookup_insert_ne; [done|]. intros Heq. rewrite <- Heq in Hlt. congruence.
  - intros l' H. by apply activated_insert, Hw.
  - intros l' H. by apply activated_insert, Hrd.
  - intros d Hd Hk. by apply activated_insert, Hpg.
Qed.

Lemma inv_append w x :
  Inv w -> gor_ok w x -> (forall l, woken l x = true -> activations l w = 0%nat /\ activated w l) ->
  Inv (set_gor (w_gor w ++ [x]) w).
Proof.
  intros HI Hx Hw.
  assert (Hc : forall l, count (woken l) (w_gor w ++ [x])
    = (activations l w + if woken l x then 1 else 0)%nat).
  { intros l. rewrite count_app. simpl. unfold activations. lia. }
  apply inv_set_gor; [done| | |].
  - intros y [Hy|Hy]%elem_of_app; [by apply gor_elem_ok|].
    apply elem_of_cons in Hy as [-> |Hy]; [done|]. by apply elem_of_nil in Hy.
  - intros l. rewrite Hc. destruct (woken l x) eqn:Hwx.
    + destruct (Hw l Hwx) as [-> _]. lia.
    + pose proof (inv_activations _ HI l). lia.
  - intros l. rewrite Hc. destruct (woken l x) eqn:Hwx; [intros _; by apply Hw|].
    intros H. apply (inv_woken _ HI). lia.
Qed.

(** ** Every step keeps the invariant *)

Lemma inv_empty : Inv empty_world.
Proof.
  constructor; simpl; try done.
  - intros l. unfold activations. simpl. lia.
  - intros l. unfold replies. simpl. lia.
  - intros l. unfold activations. simpl. lia.
  - intros l. unfold replies. simpl. lia.
  - intros d Hd. by apply elem_of_nil in Hd.
Qed.

Lemma session_ok_new id made ip :
  is_u32 id ->
  session_ok (server_session id made) /\ session_ok (client_session id ip made).
Proof.
  intros Hid.
  assert (Hz : Forall wf_info_ack zeroAcks)
    by (apply Forall_replicate; unfold wf_info_ack, is_u8; simpl; lia).
  unfold session_ok, server_session, client_session; simpl.
  split_and!; try done; try (unfold is_u8; lia); intros [? H]; discriminate H.
Qed.

(** The session a handler works on: not activated means never woken nor answered. *)
Lemma not_activated_fresh w l s :
  Inv w -> w_heap w !! l = Some s -> UDPActivated s = false ->
  activations l w = 0%nat /\ replies l w = 0%nat.
Proof.
  intros HI Hl Hs. split.
  - destruct (activations l w) eqn:Ha; [done|].
    destruct (inv_woken _ HI l) as (t & Ht & Hta); [lia|]. congruence.
  - destruct (replies l w) eqn:Ha; [done|].
    destruct (inv_replied _ HI l) as (t & Ht & Hta); [lia|]. congruence.
Qed.

Section Preservation.
Context {C : Codec} {L : CodecLaws C}.

Lemma session_ok_activate rxAddr c s : session_ok s -> session_ok (activate rxAddr c s).
Proof.
  intros (? & ? & ? & ? & ? & ? & ? & ? & ?). unfold session_ok, activate. simpl.
  split_and!; try done; try lia; intros _; by eexists.
Qed.

Lemma session_ok_record timeRX rx rxAddr c s :
  session_ok s -> UDPActivated s = true -> wf_ping rx ->
  session_ok (record_ping timeRX rx rxAddr c (getNextAckSlot (nextAckSlot s)) s).
Proof.
  intros (? & Hl & Hs & Hf & ? & ? & ? & ? & ?) Ha (_ & _ & _ & Hid & _).
  unfold session_ok, record_ping. simpl. rewrite getNextAckSlot_mod by done.
  split_and!; try done; try (rewrite getNextAckSlot_mod by done); try zdiv.
  - by rewrite length_insert.
  - by apply Forall_insert.
  - congruence.
Qed.

(** A session is activated, its waiter woken and the handshake echoed. *)
Lemma inv_activated buf rxAddr c w l s :
  Inv w -> w_heap w !! l = Some s -> UDPActivated s = false ->
  Inv (send (mkDatagram SReply l c buf rxAddr)
         (set_gor (notify l (w_gor (set_session l (activate rxAddr c s) w)))
            (set_session l (activate rxAddr c s) w))).
Proof.
  intros HI Hl Hu. pose proof (inv_heap _ HI _ _ Hl) as Hok.
  destruct (not_activated_fresh _ _ _ HI Hl Hu) as [Ha0 Hr0].
  assert (Hact : activated (set_session l (activate rxAddr c s) w) l).
  { eexists. simpl. rewrite lookup_insert_eq. by split. }
  assert (HI' : Inv (set_session l (activate rxAddr c s) w)).
  { apply (inv_set_session _ _ s); [done|done|by apply session_ok_activate|].
    split_and!; [done|done|]. simpl. intros _. by eexists. }
  apply inv_send; [exact (inv_notify _ l HI' Hact Ha0)|done|].
  intros _. split; [exact Hr0|exact Hact].
Qed.

Lemma inbound_inv buf rxAddr lSocket w w' :
  Inv w -> handleInboundHandshake buf rxAddr lSocket w = Ok w' -> Inv w'.
Proof.
  intros HI. unfold handleInboundHandshake.
  destruct (unmarshal_hs buf) as [rx|]; [|by intros [= <-]].
  case_decide; [by intros [= <-]|]. case_decide; [by intros [= <-]|].
  destruct (lookup_session w (hs_Session rx)) as [[l ses]|] eqn:Hl; [|by intros [= <-]].
  apply lookup_session_Some in Hl as [_ Hl]. pose proof (inv_heap _ HI _ _ Hl) as Hok.
  pose proof Hok as (Htcp & _). rewrite Htcp, andb_true_r.
  destruct (UDPActivated ses) eqn:Hu; [by intros [= <-]|]. cbn [negb].
  destruct (w_globalReplyWith w) as [c|]; [|done]. intros Hw'%Ok_inj. subst w'.
  by apply inv_activated.
Qed.

Lemma packet_inv timeRX buf rxAddr c w w' :
  Inv w -> handlePacket (Ok timeRX) buf rxAddr c w = Ok w' -> Inv w'.
Proof.
  intros HI. unfold handlePacket. rewrite bind_Ok.
  destruct (unmarshal_ping buf) as [rx|] eqn:Hrx; [|by intros [= <-]].
  case_decide; [by intros [= <-]|]. case_decide; [by apply inbound_inv|].
  case_decide; [by intros [= <-]|].
  destruct (lookup_session w (p_Session rx)) as [[l ses]|] eqn:Hl; [|by intros [= <-]].
  apply lookup_session_Some in Hl as [_ Hl]. pose proof (inv_heap _ HI _ _ Hl) as Hok.
  pose proof Hok as (Htcp & _). rewrite Htcp, andb_true_r.
  destruct (UDPActivated ses) eqn:Hu; [|by intros [= <-]]. cbn [negb].
  case_decide; [|done]. intros Hw'%Ok_inj. subst w'.
  apply (inv_set_session _ _ ses); [done|done| |].
  - apply session_ok_record; [done|done|by eapply unmarshal_ping_wf].
  - split_and!; [done|done|]. simpl. intros _. by eexists.
Qed.

Lemma spawn_inv i w w' : Inv w -> spawn_waiter i w = Ok w' -> Inv w'.
Proof.
  intros HI. unfold spawn_waiter. destruct (w_pending w !! i) as [[k id]|];
    [|by intros [= <-]].
  destruct (w_table w !! id) as [l|] eqn:Hl; [|done]. intros Hw'%Ok_inj. subst w'.
  destruct (inv_table _ HI _ _ Hl) as (s & Hs & _).
  assert (HI' : Inv (set_gor (w_gor w ++ [Waiter k l WStarting]) w)).
  { apply inv_append; [done| |done]. exists s. split; [done|]. by destruct k. }
  destruct HI'. by constructor.
Qed.

Lemma waiter_start_inv g k l w w' :
  Inv w -> w_gor w !! g = Some (Waiter k l WStarting) -> waiter_start k l w = Ok w' ->
  Inv (set_goroutine g (Waiter k l WSelecting) w').
Proof.
  intros HI Hg. unfold waiter_start. destruct (w_heap w !! l) as [s|] eqn:Hl; [|done].
  destruct k.
  - destruct (w_globalReplyWith w) as [c|]; [|done]. intros Hw'%Ok_inj. subst w'.
    pose proof (inv_heap _ HI _ _ Hl) as Hok.
    apply (inv_set_goroutine _ _ (Waiter SendUDPHandshake l WStarting)).
    + apply (inv_set_session _ _ s); [done|done| |].
      * destruct Hok as (? & ? & ? & ? & ? & ? & ? & ? & ?). unfold session_ok. simpl.
        split_and!; try done; try lia; intros _; by eexists.
      * split_and!; [done|done|]. simpl. intros _. by eexists.
    + done.
    + eexists. simpl. rewrite lookup_insert_eq. split; [done|]. by eexists.
    + done.
  - intros Hw'%Ok_inj. subst w'.
    apply (inv_set_goroutine _ _ (Waiter WaitForHandshake l WStarting)); [done|done| |done].
    exists s. by split.
Qed.

Lemma waiter_tick_inv g k l now w w' :
  Inv w -> w_gor w !! g = Some (Waiter k l WSelecting) ->
  iterate g (Waiter k l WReturned) w (waiter_tick now k l w) = Ok w' -> Inv w'.
Proof.
  intros HI Hg. unfold iterate, waiter_tick.
  destruct (w_heap w !! l) as [s|] eqn:Hl; [|done].
  case_decide.
  { intros Hw'%Ok_inj. subst w'. eapply inv_set_goroutine; [done|done| |done].
    destruct (inv_gor _ HI _ _ Hg) as (t & Ht & Hn). exists t. split; [done|].
    intros Hr. apply Hn. by destruct k. }
  destruct k; [|intros Hw'%Ok_inj; by subst w'].
  destruct (marshal_hs _) as [b|]; [|done]. destruct (ReplyWith s); [|done].
  intros Hw'%Ok_inj. subst w'. by apply inv_send.
Qed.

Lemma waiter_woken_inv g k l t w w' :
  Inv w -> w_gor w !! g = Some (Waiter k l WNotified) ->
  waiter_activated t l (set_goroutine g (Waiter k l WReturned) w) = Ok w' -> Inv w'.
Proof.
  intros HI Hg. unfold waiter_activated. simpl.
  destruct (w_heap w !! l) as [s|] eqn:Hl; [|done]. intros Hw'%Ok_inj. subst w'.
  pose proof (inv_heap _ HI _ _ Hl) as Hok.
  assert (HI1 : Inv (set_goroutine g (Waiter k l WReturned) w)).
  { eapply inv_set_goroutine; [done|done| |done].
    destruct (inv_gor _ HI _ _ Hg) as (u & Hu & Hn). exists u. split; [done|].
    intros Hr. apply Hn. by destruct k. }
  assert (HI2 : Inv (set_session l (set_udp s) (set_goroutine g (Waiter k l WReturned) w))).
  { apply (inv_set_session _ _ s); [done|done| |].
    - destruct Hok as (? & ? & ? & ? & ? & ? & ? & ? & ?). unfold session_ok. simpl.
      split_and!; (done || lia).
    - by split_and!. }
  apply (inv_append _ (Sender l t true)) in HI2; [exact HI2| |].
  - eexists. simpl. rewrite lookup_insert_eq. by split.
  - intros l' Hl'. simpl in Hl'. apply bool_decide_eq_true_1 in Hl' as ->. split.
    + unfold activations. simpl.
      assert (Hc : count (woken l) (w_gor w)
        = S (count (woken l) (<[g := Waiter k l WReturned]> (w_gor w)))).
      { apply (count_insert_drop _ _ _ (Waiter k l WNotified)); [done| |done].
        simpl. by rewrite bool_decide_eq_true_2. }
      pose proof (inv_activations _ HI l) as H1. unfold activations in H1. lia.
    + eexists. simpl. rewrite lookup_insert_eq. by split.
Qed.

Lemma ping_inv g l t now1 now2 now3 tx w w' :
  Inv w -> w_gor w !! g = Some (Sender l t true) ->
  iterate g (Sender l t false) w (sendPackets_iter t now1 now2 now3 (Ok tx) l w) = Ok w' ->
  Inv w'.
Proof.
  intros HI Hg. unfold iterate, sendPackets_iter.
  destruct (w_heap w !! l) as [s|] eqn:Hl; [|done].
  case_decide.
  { intros Hw'%Ok_inj. subst w'. eapply inv_set_goroutine; [done|done| |done].
    exists s. by split. }
  assert (HI' : Inv (set_session l (set_current (ping_id (Unix now3)) s) w)).
  { pose proof (inv_heap _ HI _ _ Hl) as (? & ? & ? & ? & ? & ? & ? & ? & ?).
    apply (inv_set_session _ _ s); [done|done| |by split_and!].
    unfold session_ok. simpl. split_and!; try done; try lia.
    unfold ping_id. apply u8_range. }
  assert (Ha : activated w l).
  { apply (inv_woken _ HI). unfold activations.
    destruct (count (woken l) (w_gor w)) eqn:Hc; [|lia]. rewrite count_zero in Hc.
    specialize (Hc (Sender l t true) (list_elem_of_lookup_2 _ _ _ Hg)). simpl in Hc.
    by apply bool_decide_eq_false_1 in Hc. }
  rewrite bind_Ok. destruct (marshal_ping _) as [b|]; [|done].
  destruct (ReplyTo _) as [to|]; [|intros Hw'%Ok_inj; by subst w'].
  destruct (ReplyWith _) as [c|]; [|done]. intros Hw'%Ok_inj. subst w'.
  apply inv_send; [done| |done]. intros _. simpl. by apply (activated_set _ _ s).
Qed.

Lemma gc_inv clock order w : Inv w -> Inv (sessionGC clock order w).
Proof.
  intros [Hh Ht Hg Ha Hr Hw Hrd Hpg].
  destruct (sessionGC_frame clock order w) as (Eh & Eg & Ep & Es & El & Hsub).
  constructor; unfold activated, activations, replies in *; rewrite ?Eh, ?Eg, ?Es; try done.
  intros id l Hl. apply (Ht id l). by eapply lookup_weaken.
Qed.

Lemma exec_inv e w w' : Inv w -> exec e w = Some (Ok w') -> Inv w'.
Proof.
  intros HI. destruct e; cbn [exec].
  - destruct (w_globalReplyWith w); [done|]. intros H%(inj Some)%Ok_inj. subst w'.
    destruct HI. by constructor.
  - destruct (w_globalReplyWith w); [|done]. intros H%(inj Some). by eapply packet_inv.
  - case_decide; [|done]. intros H'%(inj Some)%Ok_inj. subst w'. apply inv_insert; [done| |done].
    by apply (session_ok_new nSes made []).
  - case_decide; [|done]. intros H'%(inj Some)%Ok_inj. subst w'. apply inv_insert; [done| |done].
    by apply (session_ok_new invite made ip).
  - destruct (w_pending w !! i); [|done]. intros H%(inj Some). by eapply spawn_inv.
  - destruct (w_gor w !! g) as [[k l []|]|] eqn:Hg; try done. intros H%(inj Some).
    apply bind_Ok_inv in H as (w1 & Hs & H%Ok_inj). subst w'.
    by eapply waiter_start_inv.
  - destruct (w_gor w !! g) as [[k l []|]|] eqn:Hg; try done. intros H%(inj Some).
    by eapply waiter_tick_inv.
  - destruct (w_gor w !! g) as [[k l []|]|] eqn:Hg; try done. intros H%(inj Some).
    by eapply waiter_woken_inv.
  - destruct (w_gor w !! g) as [[|l t []]|] eqn:Hg; try done. intros H%(inj Some).
    by eapply ping_inv.
  - case_decide; [|done]. intros H'%(inj Some)%Ok_inj. subst w'. by apply gc_inv.
Qed.

Lemma reachable_inv w : reachable w -> Inv w.
Proof.
  unfold reachable. intros Hr.
  assert (Hgen : forall u v, rtc step u v -> Inv u -> Inv v).
  { induction 1 as [|u v z [e He] _ IH]; intros HI; [done|]. apply IH.
    by eapply exec_inv. }
  apply (Hgen empty_world); [done|apply inv_empty].
Qed.
End Preservation.

(** ** Run-time panics *)

(** The two events that can dereference nil. *)
Definition nil_dereference (e : event) (w : world) : Prop :=
  (exists i k id, e = ESpawn i /\ w_pending w !! i = Some (k, id) /\ w_table w !! id = None) \/
  (exists g l, e = EWaiterSelects g /\
     w_gor w !! g = Some (Waiter SendUDPHandshake l WStarting) /\ w_globalReplyWith w = None).

Section Panics.
Context {C : Codec} {L : CodecLaws C}.

Definition returns_ok {A} (r : result fatal_error A) : Prop := exists a, r = Ok a.

Lemma inbound_ok buf rxAddr c lSocket w :
  w_globalReplyWith w = Some c -> returns_ok (handleInboundHandshake buf rxAddr lSocket w).
Proof.
  intros Hc. unfold handleInboundHandshake, returns_ok. rewrite Hc.
  repeat (case_match; try (by eexists)).
Qed.

Lemma packet_ok timeRX buf rxAddr c w :
  Inv w -> w_globalReplyWith w = Some c -> returns_ok (handlePacket (Ok timeRX) buf rxAddr c w).
Proof.
  intros HI Hc. unfold handlePacket. rewrite bind_Ok.
  destruct (unmarshal_ping buf) as [rx|]; [|by eexists].
  case_decide; [by eexists|]. case_decide; [by apply (inbound_ok _ _ c)|].
  case_decide; [by eexists|].
  destruct (lookup_session w (p_Session rx)) as [[l ses]|] eqn:Hl; [|by eexists].
  apply lookup_session_Some in Hl as [_ Hl].
  destruct (inv_heap _ HI _ _ Hl) as (_ & Hlen & Hs & _). case_match; [by eexists|].
  rewrite decide_True; [by eexists|]. rewrite Hlen, getNextAckSlot_mod by done.
  unfold ring_size. zdiv.
Qed.

Lemma ping_packet_wf tx s : session_ok s -> wf_ping (ping_packet tx s).
Proof.
  intros (_ & Hl & _ & Hf & Hid & Hc & _). unfold wf_ping, ping_packet. simpl.
  split_and!; try done; unfold is_u8, is_u16, is_u32 in *; lia.
Qed.

Lemma sendPackets_ok t now1 now2 now3 tx l w :
  Inv w -> is_Some (w_heap w !! l) -> returns_ok (sendPackets_iter t now1 now2 now3 (Ok tx) l w).
Proof.
  intros HI [s Hl]. unfold sendPackets_iter. rewrite Hl. case_decide; [by eexists|].
  pose proof (inv_heap _ HI _ _ Hl) as Hok.
  assert (Hok' : session_ok (set_current (ping_id (Unix now3)) s)).
  { destruct Hok as (? & ? & ? & ? & ? & ? & ? & ? & ?).
    unfold session_ok. simpl. split_and!; try done; try lia. unfold ping_id. apply u8_range. }
  rewrite bind_Ok. destruct (marshal_ping_ok _ (ping_packet_wf tx _ Hok')) as (b & -> & _).
  destruct Hok as (_ & _ & _ & _ & _ & _ & _ & _ & Hrw). simpl in *.
  destruct (ReplyTo s); [|by eexists].
  destruct Hrw as [c ->]; [by eexists|]. by eexists.
Qed.

Lemma waiter_tick_ok g k l now w :
  Inv w -> w_gor w !! g = Some (Waiter k l WSelecting) -> returns_ok (waiter_tick now k l w).
Proof.
  intros HI Hg. destruct (inv_gor _ HI _ _ Hg) as (s & Hs & Hn). simpl in Hs.
  unfold waiter_tick. rewrite Hs. case_decide; [by eexists|].
  destruct k; [|by eexists]. destruct (Hn eq_refl) as [c Hc].
  assert (Hwf : wf_hs (handshake_packet s)).
  { destruct (inv_heap _ HI _ _ Hs) as (_ & _ & _ & _ & Hid & _).
    unfold wf_hs, handshake_packet. simpl.
    split_and!; try done; unfold is_u8, is_u16; lia. }
  destruct (marshal_hs_ok _ Hwf) as (b & p & -> & _). rewrite Hc. by eexists.
Qed.

(** A step of a world that satisfies the invariant returns, or dereferences nil. *)
Lemma exec_ok e w r :
  Inv w -> exec e w = Some r -> returns_ok r \/ (r = Panic /\ nil_dereference e w).
Proof.
  intros HI. destruct e; cbn [exec].
  - destruct (w_globalReplyWith w); [done|]. intros [= <-]. left. by eexists.
  - destruct (w_globalReplyWith w) eqn:Hc; [|done]. intros [= <-]. left.
    by apply packet_ok.
  - case_decide; [|done]. intros [= <-]. left. by eexists.
  - case_decide; [|done]. intros [= <-]. left. by eexists.
  - unfold spawn_waiter. destruct (w_pending w !! i) as [[k id]|] eqn:Hp; [|done].
    intros [= <-]. destruct (w_table w !! id) eqn:Ht; [left; by eexists|right].
    split; [done|]. left. by exists i, k, id.
  - destruct (w_gor w !! g) as [[k l []|]|] eqn:Hg; try done. intros [= <-].
    destruct (inv_gor _ HI _ _ Hg) as (s & Hs & _). simpl in Hs.
    unfold waiter_start. rewrite Hs. destruct k; [|left; by eexists].
    destruct (w_globalReplyWith w) eqn:Hc; [left; by eexists|right].
    split; [done|]. right. by exists g, l.
  - destruct (w_gor w !! g) as [[k l []|]|] eqn:Hg; try done. intros [= <-]. left.
    destruct (waiter_tick_ok g k l now w HI Hg) as [o ->]. by eexists.
  - destruct (w_gor w !! g) as [[k l []|]|] eqn:Hg; try done. intros [= <-]. left.
    destruct (inv_gor _ HI _ _ Hg) as (s & Hs & _). simpl in Hs.
    unfold waiter_activated. simpl. rewrite Hs. by eexists.
  - destruct (w_gor w !! g) as [[|l t []]|] eqn:Hg; try done. intros [= <-]. left.
    destruct (inv_gor _ HI _ _ Hg) as (s & Hs & _). simpl in Hs.
    destruct (sendPackets_ok t now1 now2 now3 txTime l w HI) as [o ->]; by eexists.
  - case_decide; [|done]. intros [= <-]. left. by eexists.
Qed.
End Panics.

(** ** A session activated while nobody waits *)

(** The handshake of [l] has been accepted, but no goroutine was woken by it. *)
Definition stranded (l : loc) (w : world) : Prop := activated w l /\ activations l w = 0%nat.

Section Stranded.
Context {C : Codec} {L : CodecLaws C}.

Lemma stranded_set_session w l l' s s' :
  stranded l w -> w_heap w !! l' = Some s -> session_le s s' ->
  stranded l (set_session l' s' w).
Proof. intros [Ha H0] Hl Hle. split; [by eapply activated_set|done]. Qed.

Lemma stranded_gor w l g x y :
  stranded l w -> w_gor w !! g = Some x -> woken l y = false ->
  stranded l (set_goroutine g y w).
Proof.
  intros [Ha H0] Hg Hy. split; [done|]. unfold activations in *. simpl.
  assert (Hx : woken l x = false).
  { rewrite count_zero in H0. by apply H0, (list_elem_of_lookup_2 _ g). }
  by rewrite (count_insert _ _ _ x) by congruence.
Qed.

Lemma activated_heap_eq w w' l :
  w_heap w' = w_heap w -> activated w l -> activated w' l.
Proof. unfold activated. by intros ->. Qed.

Lemma stranded_packet timeRX buf rxAddr c w w' l :
  Inv w -> stranded l w -> handlePacket (Ok timeRX) buf rxAddr c w = Ok w' -> stranded l w'.
Proof.
  intros HI Hst. unfold handlePacket. rewrite bind_Ok.
  destruct (unmarshal_ping buf) as [rx|]; [|by intros [= <-]].
  case_decide; [by intros [= <-]|]. case_decide.
  - unfold handleInboundHandshake.
    destruct (unmarshal_hs buf) as [hs|]; [|by intros [= <-]].
    case_decide; [by intros [= <-]|]. case_decide; [by intros [= <-]|].
    destruct (lookup_session w (hs_Session hs)) as [[l' ses]|] eqn:Hl; [|by intros [= <-]].
    apply lookup_session_Some in Hl as [_ Hl].
    destruct (inv_heap _ HI _ _ Hl) as (Htcp & _). rewrite Htcp, andb_true_r.
    destruct (UDPActivated ses) eqn:Hu; [by intros [= <-]|]. cbn [negb].
    destruct (w_globalReplyWith w) as [c'|]; [|done]. intros Hw'%Ok_inj. subst w'.
    assert (Hne : l' <> l).
    { intros ->. destruct Hst as [(t & Ht & Hta) _]. congruence. }
    assert (Hst' : stranded l (set_session l' (activate rxAddr c' ses) w)).
    { apply (stranded_set_session _ _ _ ses); [done|done|].
      split_and!; [done|done|]. simpl. intros _. by eexists. }
    destruct Hst' as [Ha Hz]. split; [exact Ha|].
    pose proof (count_notify l' l (w_gor w)) as Hn.
    rewrite bool_decide_eq_false_2 in Hn by done. unfold activations in *. simpl in *. lia.
  - case_decide; [by intros [= <-]|].
    destruct (lookup_session w (p_Session rx)) as [[l' ses]|] eqn:Hl; [|by intros [= <-]].
    apply lookup_session_Some in Hl as [_ Hl].
    case_match; [by intros [= <-]|]. case_decide; [|done]. intros Hw'%Ok_inj. subst w'.
    apply (stranded_set_session _ _ _ ses); [done|done|].
    split_and!; [done|done|]. simpl. intros _. by eexists.
Qed.

Lemma stranded_no_sender w l g x : stranded l w -> w_gor w !! g = Some x -> woken l x = false.
Proof.
  intros [_ H0] Hg. unfold activations in H0. rewrite count_zero in H0.
  by apply H0, (list_elem_of_lookup_2 _ g).
Qed.

Lemma stranded_insert l k id s w : stranded l w -> stranded l (insert_session k id s w).
Proof.
  intros [Ha H0]. split; [|exact H0]. apply activated_insert; [apply not_elem_of_dom, is_fresh|done].
Qed.

Lemma stranded_spawn l i w w' : stranded l w -> spawn_waiter i w = Ok w' -> stranded l w'.
Proof.
  intros Hst. unfold spawn_waiter. destruct (w_pending w !! i) as [[k id]|];
    [|by intros [= <-]]. destruct (w_table w !! id); [|done].
  intros Hw%Ok_inj. subst w'. destruct Hst as [Ha H0]. split; [exact Ha|].
  unfold activations in *. simpl. rewrite count_app. simpl. lia.
Qed.

Lemma stranded_start l g k l' w w' :
  stranded l w -> w_gor w !! g = Some (Waiter k l' WStarting) -> waiter_start k l' w = Ok w' ->
  stranded l (set_goroutine g (Waiter k l' WSelecting) w').
Proof.
  intros Hst Hg. unfold waiter_start. destruct (w_heap w !! l') as [s|] eqn:Hl; [|done].
  destruct k; [|intros Hs%Ok_inj; subst w'; by eapply stranded_gor].
  destruct (w_globalReplyWith w); [|done]. intros Hs%Ok_inj. subst w'.
  eapply stranded_gor; [|done|done]. apply (stranded_set_session _ _ _ s); [done|done|].
  split_and!; [done|done|]. simpl. intros _. by eexists.
Qed.

Lemma stranded_tick l g now k l' w w' :
  stranded l w -> w_gor w !! g = Some (Waiter k l' WSelecting) ->
  iterate g (Waiter k l' WReturned) w (waiter_tick now k l' w) = Ok w' -> stranded l w'.
Proof.
  intros Hst Hg. unfold iterate, waiter_tick. destruct (w_heap w !! l'); [|done].
  case_decide; [intros Hw'%Ok_inj; subst w'; by eapply stranded_gor|].
  destruct k; [|intros Hw'%Ok_inj; by subst w'].
  destruct (marshal_hs _); [|done]. destruct (ReplyWith _); [|done].
  intros Hw'%Ok_inj. by subst w'.
Qed.

Lemma stranded_woken l g t k l' w w' :
  stranded l w -> w_gor w !! g = Some (Waiter k l' WNotified) ->
  waiter_activated t l' (set_goroutine g (Waiter k l' WReturned) w) = Ok w' -> stranded l w'.
Proof.
  intros Hst Hg. pose proof (stranded_no_sender _ _ _ _ Hst Hg) as Hne. simpl in Hne.
  apply bool_decide_eq_false_1 in Hne. unfold waiter_activated. simpl.
  destruct (w_heap w !! l') as [s|] eqn:Hl; [|done]. intros Hw'%Ok_inj. subst w'.
  assert (Hst2 : stranded l (set_session l' (set_udp s)
                              (set_goroutine g (Waiter k l' WReturned) w))).
  { apply (stranded_set_session _ _ _ s); [by eapply stranded_gor|done|by split_and!]. }
  destruct Hst2 as [Ha2 H2]. split; [exact Ha2|]. unfold activations in *. simpl in *.
  rewrite count_app, H2. simpl. by rewrite bool_decide_eq_false_2.
Qed.

Lemma stranded_ping l g now1 now2 now3 tx l' t w w' :
  stranded l w -> w_gor w !! g = Some (Sender l' t true) ->
  iterate g (Sender l' t false) w (sendPackets_iter t now1 now2 now3 (Ok tx) l' w) = Ok w' ->
  stranded l w'.
Proof.
  intros Hst Hg. unfold iterate, sendPackets_iter.
  destruct (w_heap w !! l') as [s|] eqn:Hl; [|done].
  case_decide.
  { intros Hw'%Ok_inj. subst w'. eapply stranded_gor; [done|done|].
    exact (stranded_no_sender _ _ _ _ Hst Hg). }
  assert (Hst2 : stranded l (set_session l' (set_current (ping_id (Unix now3)) s) w)).
  { apply (stranded_set_session _ _ _ s); [done|done|by split_and!]. }
  rewrite bind_Ok. destruct (marshal_ping _); [|done]. destruct (ReplyTo _); [|intros Hw'%Ok_inj; by subst w'].
  destruct (ReplyWith _); [|done]. intros Hw'%Ok_inj. by subst w'.
Qed.

(** No step wakes a stranded session. *)
Lemma stranded_exec e w w' l :
  Inv w -> stranded l w -> exec e w = Some (Ok w') -> stranded l w'.
Proof.
  intros HI Hst. destruct e; cbn [exec].
  - destruct (w_globalReplyWith w); [done|]. intros Hw%(inj Some)%Ok_inj. by subst w'.
  - destruct (w_globalReplyWith w); [|done]. intros Hw%(inj Some).
    by eapply stranded_packet.
  - case_decide; [|done]. intros Hw%(inj Some)%Ok_inj. subst w'. by apply stranded_insert.
  - case_decide; [|done]. intros Hw%(inj Some)%Ok_inj. subst w'. by apply stranded_insert.
  - destruct (w_pending w !! i); [|done]. intros Hw%(inj Some). by eapply stranded_spawn.
  - destruct (w_gor w !! g) as [[k l' []|]|] eqn:Hg; try done. intros Hw%(inj Some).
    apply bind_Ok_inv in Hw as (w1 & Hs & Hw%Ok_inj). subst w'. by eapply stranded_start.
  - destruct (w_gor w !! g) as [[k l' []|]|] eqn:Hg; try done. intros Hw%(inj Some).
    by eapply stranded_tick.
  - destruct (w_gor w !! g) as [[k l' []|]|] eqn:Hg; try done. intros Hw%(inj Some).
    by eapply stranded_woken.
  - destruct (w_gor w !! g) as [[|l' t []]|] eqn:Hg; try done. intros Hw%(inj Some).
    by eapply stranded_ping.
  - case_decide; [|done]. intros Hw%(inj Some)%Ok_inj. subst w'.
    destruct (sessionGC_frame clock order w) as (Eh & Eg & _). destruct Hst as [Ha H0].
    split; [by apply (activated_heap_eq w)|]. unfold activations in *. by rewrite Eg.
Qed.

Lemma stranded_forever w w' l : Inv w -> stranded l w -> rtc step w w' -> stranded l w'.
Proof.
  intros HI Hst Hr. revert HI Hst. induction Hr as [|u v z [e He] _ IH]; [done|].
  intros HI Hst. apply IH; [by eapply exec_inv|by eapply stranded_exec].
Qed.
End Stranded.

(** ** Properties *)

Section Properties.
Context {C : Codec} {L : CodecLaws C}.

(** C1: in every state that handlers reach one after the other, each entry of the session
    table leads to a session with that number, TCP-activated, with a ring of 32 slots and a
    slot index inside it, an ID and a number in the range of their types, and no packet
    received before its UDP handshake. *)
Theorem session_table_invariant w id l :
  reachable w -> w_table w !! id = Some l ->
  exists s, w_heap w !! l = Some s /\ SessionID s = id /\ TCPActivated s = true /\
    length (LastAcks s) = ring_size /\ 0 <= nextAckSlot s < 32 /\
    0 <= SessionID s < 2 ^ 32 /\ 0 <= CurrentID s < 256 /\
    (UDPActivated s = false -> LastRX s = zeroTime).
Proof.
  intros Hr Hl. pose proof (reachable_inv w Hr) as HI.
  destruct (inv_table _ HI _ _ Hl) as (s & Hs & Hid).
  destruct (inv_heap _ HI _ _ Hs) as (? & ? & ? & _ & Hu & ? & _ & ? & _).
  exists s. unfold is_u32, is_u8 in *. by split_and!; lia || done.
Qed.

(** C26: no ping leaves a session before the UDP handshake of that session. *)
Theorem no_ping_before_handshake w d :
  reachable w -> d ∈ w_sent w -> d_kind d = SPing ->
  exists s, w_heap w !! d_loc d = Some s /\ UDPActivated s = true.
Proof. intros Hr. apply (inv_pinged _ (reachable_inv w Hr)). Qed.


(** A session that has received no ping yet is collected by the first pass,
    whatever its age: its last reception is the zero instant. When that pass falls
    between the insertion of the session and the go statement that starts its waiter,
    the go statement dereferences nil and the process dies. *)
Lemma collection_before_spawn_panics w nSes made clock order :
  reachable w -> 0 <= nSes < 2 ^ 32 ->
  (forall id, in_era (fst (clock id))) ->
  let w1 := insert_session WaitForHandshake nSes (server_session nSes made) w in
  NoDup order -> list_to_set order =@{gset Z} dom (w_table w1) ->
  exec (EServerInvite nSes made) w = Some (Ok w1) /\
  exec (EGC clock order) w1 = Some (Ok (sessionGC clock order w1)) /\
  exec (ESpawn (length (w_pending w))) (sessionGC clock order w1) = Some Panic.
Proof.
  intros Hr Hn Hclock w1 Hnd Hord. cbn [exec].
  destruct (sessionGC_frame clock order w1) as (Eh & _ & Ep & _).
  rewrite decide_True by done. rewrite decide_True by done. split_and!; [done|done|].
  assert (Hp : w_pending w1 !! length (w_pending w) = Some (WaitForHandshake, nSes)).
  { unfold w1, insert_session. simpl. by rewrite lookup_app_r, Nat.sub_diag by lia. }
  unfold spawn_waiter. rewrite Ep, Hp.
  pose proof (insert_lookup WaitForHandshake nSes (server_session nSes made) w) as Hl.
  fold w1 in Hl.
  assert (Hin : nSes ∈ order).
  { apply (elem_of_list_to_set (C := gset Z)). rewrite Hord. unfold w1, insert_session.
    simpl. rewrite dom_insert. by apply elem_of_union_l, elem_of_singleton. }
  pose proof (sessionGC_lookup clock order w1 nSes) as Hgc.
  rewrite decide_True in Hgc by done. unfold gc_survives in Hgc. rewrite Hl in Hgc.
  unfold gc_keep in Hgc. rewrite decide_True in Hgc.
  2:{ simpl. rewrite Since_zero by apply Hclock. by vm_compute. }
  unfold lookup_session in Hgc. rewrite Eh in Hgc.
  destruct (w_table (sessionGC clock order w1) !! nSes) as [l'|] eqn:Ht; [|done].
  exfalso.
  assert (Hin1 : w_table w1 !! nSes = Some l').
  { destruct (sessionGC_frame clock order w1) as (_ & _ & _ & _ & _ & Hsub).
    by eapply lookup_weaken. }
  apply lookup_session_Some in Hl as [Hl1 Hl2]. rewrite Hl1 in Hin1.
  apply (inj Some) in Hin1 as <-. cbn [mbind option_bind] in Hgc. by rewrite Hl2 in Hgc.
Qed.

(** C23: what a collector pass does, in any order of the table: a session stays exactly
    when it received a ping within the last minute. The rule that removes sessions
    without a UDP handshake after 20 seconds never decides: such a session has
    received nothing, so the first rule has already removed it. *)
Theorem sessionGC_keeps_recent w clock order id l s :
  reachable w -> (forall id, in_era (fst (clock id))) ->
  NoDup order -> list_to_set order =@{gset Z} dom (w_table w) ->
  lookup_session w id = Some (l, s) ->
  lookup_session (sessionGC clock order w) id
    = if decide (Since (fst (clock id)) (LastRX s) > Minute) then None
      else Some (l, s).
Proof.
  intros Hr Hclock Hnd Hord Hl. rewrite sessionGC_lookup.
  pose proof Hl as Hl'. apply lookup_session_Some in Hl' as [Ht Hs].
  rewrite (decide_True (P := id ∈ order)).
  2:{ apply (elem_of_list_to_set (C := gset Z)). rewrite Hord. apply elem_of_dom. eauto. }
  unfold gc_survives. rewrite Hl. unfold gc_keep. case_decide as Hold; [done|].
  destruct (UDPActivated s) eqn:Hu; [done|]. exfalso. apply Hold.
  destruct (inv_heap _ (reachable_inv w Hr) _ _ Hs) as (_ & _ & _ & _ & _ & _ & _ & Hz & _).
  rewrite Hz by done. rewrite Since_zero by apply Hclock. by vm_compute.
Qed.
End Properties.

(** ** Concrete runs *)

(** Runs a list of events; [None] when one of them is not enabled or does not return. *)
Fixpoint run `{Codec} (es : list event) (w : world) : option world :=
  match es with
  | [] => Some w
  | e :: es => match exec e w with Some (Ok w') => run es w' | _ => None end
  end.

Lemma run_steps `{Codec} es w w' : run es w = Some w' -> rtc step w w'.
Proof.
  revert w. induction es as [|e es IH]; intros w; simpl; [by intros [= ->]|].
  destruct (exec e w) as [[w1| | |]|] eqn:He; try done. intros Hr.
  eapply rtc_l; [by eapply step_exec|by apply IH].
Qed.

Definition a_moment (s : Z) : Time := mkTime (1600000000 * Second + s * Second) (Some (s * Second)).
Definition peer : UDPAddr := mkUDPAddr [10; 0; 0; 2] 6924 [].
Definition hs_of (id : Z) : bytes := [type_handshake; magic; id; 3].
Definition ping_of (id n : Z) : bytes :=
  type_ping :: magic :: id :: n :: 0 :: wall (a_moment n) :: enc_acks zeroAcks.

(** A responder that completes a session, receives a ping and answers. *)
Definition example_events : list event :=
  [EListen 0%nat; EServerInvite 7 (a_moment 0); ESpawn 0; EWaiterSelects 0;
   EPacket (a_moment 1) (hs_of 7) peer; EWaiterWoken 0 (a_moment 1);
   EPacket (a_moment 2) (ping_of 7 2) peer;
   EPing 1 (a_moment 3) (a_moment 3) (a_moment 3) (a_moment 3)].
Definition example_world : world := default empty_world (run example_events empty_world).

Lemma example_reachable : reachable example_world.
Proof. apply (run_steps example_events). vm_compute. reflexivity. Qed.

Lemma session_table_invariant_witness :
  w_table example_world !! 7 = Some 1%positive /\
  exists s, w_heap example_world !! 1%positive = Some s /\ SessionID s = 7 /\
    TCPActivated s = true /\ length (LastAcks s) = ring_size /\ 0 <= nextAckSlot s < 32 /\
    0 <= SessionID s < 2 ^ 32 /\ 0 <= CurrentID s < 256 /\
    (UDPActivated s = false -> LastRX s = zeroTime).
Proof.
  assert (H : w_table example_world !! 7 = Some 1%positive) by (vm_compute; reflexivity).
  split; [exact H|]. exact (session_table_invariant example_world 7 1%positive example_reachable H).
Defined.

Lemma no_ping_before_handshake_witness :
  exists d, d ∈ w_sent example_world /\ d_kind d = SPing /\
    exists s, w_heap example_world !! d_loc d = Some s /\ UDPActivated s = true.
Proof.
  destruct (w_sent example_world) as [|d sent] eqn:Hs; [vm_compute in Hs; discriminate Hs|].
  exists d. assert (Hd : d ∈ d :: sent) by (apply elem_of_cons; by left).
  assert (Hk : d_kind d = SPing).
  { apply (f_equal (map d_kind)) in Hs. vm_compute in Hs. by injection Hs. }
  split; [exact Hd|]. split; [exact Hk|].
  apply (no_ping_before_handshake example_world d example_reachable); [by rewrite Hs|exact Hk].
Defined.

(** The waiter has not reached its select when the handshake arrives. *)
Definition early_world : world :=
  default empty_world (run [EListen 0%nat; EServerInvite 7 (a_moment 0); ESpawn 0] empty_world).

Lemma early_reachable : reachable early_world.
Proof.
  apply (run_steps [EListen 0%nat; EServerInvite 7 (a_moment 0); ESpawn 0]).
  vm_compute. reflexivity.
Qed.


Lemma collection_before_spawn_panics_witness :
  let w1 := insert_session WaitForHandshake 7 (server_session 7 (a_moment 0)) empty_world in
  exec (ESpawn 0) (sessionGC (fun _ => (a_moment 1, a_moment 1)) [7] w1) = Some Panic.
Proof.
  refine (proj2 (proj2 (collection_before_spawn_panics empty_world 7 (a_moment 0)
    (fun _ => (a_moment 1, a_moment 1)) [7] _ _ _ _ _))).
  - apply rtc_refl.
  - lia.
  - intros _. by vm_compute.
  - apply NoDup_singleton.
  - vm_compute. reflexivity.
Defined.

Lemma sessionGC_keeps_recent_witness :
  exists l s, lookup_session example_world 7 = Some (l, s) /\
    lookup_session (sessionGC (fun _ => (a_moment 50, a_moment 50)) [7] example_world) 7
      = if decide (Since (a_moment 50) (LastRX s) > Minute) then None else Some (l, s).
Proof.
  destruct (lookup_session example_world 7) as [[l s]|] eqn:Hl;
    [|vm_compute in Hl; discriminate Hl].
  exists l, s. split; [reflexivity|].
  apply (sessionGC_keeps_recent example_world (fun _ => (a_moment 50, a_moment 50)) [7] 7 l s).
  - exact example_reachable.
  - intros _. by vm_compute.
  - apply NoDup_singleton.
  - vm_compute. reflexivity.
  - exact Hl.
Defined.
