(* ===== verification/Exchange.v ===== *)
(** * Two ends of a session (main.go, sessionhandle.go)

    The UDP handshake and the pings between an initiator and a responder, each a
    world of System.v: a datagram that one end sends is handed to the packet handler
    of the other. *)

From S2P Require Import Prelude Bytes GoTime Acks Session PlainCodec Handshake System.
Local Open Scope Z_scope.

(** A session under number [id] whose waiter, goroutine [g], is blocked in its select. *)
Definition awaiting (k : waiter_kind) (w : world) (id : Z) (l : loc) (s : session) (g : nat)
    (c : conn) : Prop :=
  lookup_session w id = Some (l, s) /\ UDPActivated s = false /\
  w_gor w !! g = Some (Waiter k l WSelecting) /\ w_globalReplyWith w = Some c.

(** A session that may ping [addr]: activated, replies go there, its waiter is woken. *)
Definition handshaken (w : world) (id : Z) (l : loc) (addr : UDPAddr) (c : conn) : Prop :=
  exists s g k, lookup_session w id = Some (l, s) /\ UDPActivated s = true /\
    ReplyTo s = Some addr /\ ReplyWith s = Some c /\
    w_gor w !! g = Some (Waiter k l WNotified).

(** A session whose ping loop runs. *)
Definition pinging (w : world) (id : Z) (l : loc) (addr : UDPAddr) : Prop :=
  exists s g t, lookup_session w id = Some (l, s) /\ UDPActivated s = true /\
    ReplyTo s = Some addr /\ w_gor w !! g = Some (Sender l t true).

(** A datagram that decodes as the handshake of session [id]. *)
Definition is_handshake `{Codec} (b : bytes) (id : Z) : Prop :=
  exists p h, unmarshal_ping b = Some p /\ p_Magic p = magic /\ p_Type p = type_handshake /\
    unmarshal_hs b = Some h /\ hs_Magic h = magic /\ hs_Version h = 3 /\ hs_Session h = id.

Lemma notify_wakes l gs g k :
  gs !! g = Some (Waiter k l WSelecting) ->
  exists g' k', notify l gs !! g' = Some (Waiter k' l WNotified).
Proof.
  revert g. induction gs as [|x gs IH]; intros g Hg; [done|]. simpl.
  destruct (is_selecting l x) eqn:Hs.
  - destruct x as [k0 l0 []|]; try done. simpl in Hs. apply bool_decide_eq_true_1 in Hs as <-.
    by exists 0%nat, k0.
  - destruct g as [|g]; simplify_eq/=.
    + by rewrite bool_decide_eq_true_2 in Hs.
    + destruct (IH g Hg) as (g' & k' & H). by exists (S g'), k'.
Qed.

Section Exchange.
Context {C : Codec} {L : CodecLaws C}.

Lemma handshake_packet_is s b :
  session_ok s -> marshal_hs (handshake_packet s) = Some b -> is_handshake b (SessionID s).
Proof.
  intros (_ & _ & _ & _ & Hid & _) Hb.
  assert (Hwf : wf_hs (handshake_packet s)).
  { unfold wf_hs, handshake_packet. simpl. split_and!; try done; unfold is_u8, is_u16; lia. }
  destruct (marshal_hs_ok _ Hwf) as (b' & p & Hb' & Hh & Hp & Ht & Hm).
  assert (b' = b) as -> by congruence. exists p, (handshake_packet s). by split_and!.
Qed.

(** A waiting session accepts its handshake, answers with the same bytes, and its
    waiter is woken. *)
Lemma packet_handshake k w id l s g c timeRX b rxAddr :
  Inv w -> awaiting k w id l s g c -> is_handshake b id ->
  exists w', exec (EPacket timeRX b rxAddr) w = Some (Ok w') /\
    w_sent w' = mkDatagram SReply l c b rxAddr :: w_sent w /\
    handshaken w' id l rxAddr c.
Proof.
  intros HI (Hl & Hu & Hg & Hc) (p & h & Hp & Hpm & Hpt & Hh & Hhm & Hv & Hid).
  destruct (notify_wakes l (w_gor w) g k Hg) as (g' & k' & Hg').
  eexists. split_and!.
  - cbn [exec]. rewrite Hc. unfold handlePacket. rewrite bind_Ok, Hp.
    rewrite decide_False by (by intros H; apply H). rewrite decide_True by done.
    unfold handleInboundHandshake. rewrite Hh.
    rewrite decide_False by (by intros H; apply H).
    rewrite decide_False by (by intros H; apply H). rewrite Hid, Hl, Hu, Hc. done.
  - done.
  - exists (activate rxAddr c s), g', k'. split_and!; [|done..].
    apply lookup_session_Some in Hl as [Ht Hs]. apply lookup_session_Some. simpl.
    by rewrite lookup_insert_eq.
Qed.

(** The initiator's timer sends the handshake of its session. *)
Lemma tick_sends w id l s g c now ip :
  Inv w -> awaiting SendUDPHandshake w id l s g c -> PeerAddress s = Some ip ->
  Since now (SessionMade s) <= Minute ->
  exists w' b c', exec (EWaiterTick g now) w = Some (Ok w') /\
    w_sent w' = mkDatagram SHandshake l c' b (mkUDPAddr ip sping_port []) :: w_sent w /\
    is_handshake b id /\ awaiting SendUDPHandshake w' id l s g c.
Proof.
  intros HI Haw Hip Hmade. pose proof Haw as (Hl & Hu & Hg & Hc).
  pose proof Hl as Hl'. apply lookup_session_Some in Hl' as [Ht Hs].
  destruct (inv_gor _ HI _ _ Hg) as (t & Hst & Hrw). simpl in Hst, Hrw.
  assert (t = s) as -> by congruence. destruct (Hrw eq_refl) as [c' Hc'].
  pose proof (inv_heap _ HI _ _ Hs) as Hok.
  destruct (inv_table _ HI _ _ Ht) as (t & Ht' & Htid). assert (t = s) as -> by congruence.
  assert (Hwf : wf_hs (handshake_packet s)).
  { destruct Hok as (_ & _ & _ & _ & Hid & _). unfold wf_hs, handshake_packet. simpl.
    split_and!; try done; unfold is_u8, is_u16; lia. }
  destruct (marshal_hs_ok _ Hwf) as (b & p & Hb & _).
  eexists _, b, c'. split_and!.
  - cbn [exec]. rewrite Hg. unfold waiter_tick. rewrite Hs, decide_False by lia.
    rewrite Hb, Hc'. unfold iterate. cbn. by rewrite Hip.
  - done.
  - rewrite <- Htid. by apply handshake_packet_is.
  - by split_and!.
Qed.

(** A woken waiter starts the ping loop. *)
Lemma woken_starts w id l addr c t :
  handshaken w id l addr c ->
  exists g w', exec (EWaiterWoken g t) w = Some (Ok w') /\ pinging w' id l addr.
Proof.
  intros (s & g & k & Hl & Hu & Hto & Hrw & Hg). exists g.
  apply lookup_session_Some in Hl as [Ht Hs].
  eexists. split.
  - cbn [exec]. rewrite Hg. unfold waiter_activated. simpl. by rewrite Hs.
  - exists (set_udp s), (length (w_gor w)), t. split_and!; [|done|done|].
    + apply lookup_session_Some. simpl. by rewrite lookup_insert_eq.
    + simpl. rewrite lookup_app_r by (rewrite length_insert; lia).
      by rewrite length_insert, Nat.sub_diag.
Qed.

(** An iteration of the ping loop that has not given up. *)
Lemma ping_sends w g l t now1 now2 now3 tx s addr :
  Inv w -> w_gor w !! g = Some (Sender l t true) -> w_heap w !! l = Some s ->
  ReplyTo s = Some addr -> ~ (Since now1 (LastRX s) > Second * 60 /\
                               Since now2 t > Second * 10) ->
  exists w' b c, exec (EPing g now1 now2 now3 tx) w = Some (Ok w') /\
    w_sent w' = mkDatagram SPing l c b addr :: w_sent w /\
    unmarshal_ping b
      = Some (strip_ping (ping_packet tx (set_current (ping_id (Unix now3)) s))).
Proof.
  intros HI Hg Hs Hto Hlive. pose proof (inv_heap _ HI _ _ Hs) as Hok.
  assert (Hok' : session_ok (set_current (ping_id (Unix now3)) s)).
  { destruct Hok as (? & ? & ? & ? & ? & ? & ? & ? & ?).
    unfold session_ok. simpl. split_and!; try done; try lia. unfold ping_id. apply u8_range. }
  destruct (marshal_ping_ok _ (ping_packet_wf tx _ Hok')) as (b & Hb & Hdec).
  destruct Hok as (_ & _ & _ & _ & _ & _ & _ & _ & Hrw).
  destruct Hrw as [c Hc]; [by eexists|].
  eexists _, b, c. split_and!.
  - cbn [exec]. rewrite Hg. unfold sendPackets_iter. rewrite Hs, decide_False by done.
    unfold iterate. rewrite bind_Ok, Hb. cbn [ReplyTo ReplyWith set_current]. by rewrite Hto, Hc.
  - done.
  - done.
Qed.

(** The packet handler records a ping of an activated session. *)
Lemma packet_ping w id l s c timeRX b p from :
  Inv w -> lookup_session w id = Some (l, s) -> UDPActivated s = true ->
  w_globalReplyWith w = Some c -> unmarshal_ping b = Some p -> p_Magic p = magic ->
  p_Type p = type_ping -> p_Session p = id ->
  exec (EPacket timeRX b from) w
    = Some (Ok (set_session l (record_ping timeRX p from c (getNextAckSlot (nextAckSlot s)) s) w)).
Proof.
  intros HI Hl Hu Hc Hp Hm Ht Hid. pose proof Hl as Hl'.
  apply lookup_session_Some in Hl' as [_ Hs].
  destruct (inv_heap _ HI _ _ Hs) as (_ & Hlen & Hslot & _).
  cbn [exec]. rewrite Hc. unfold handlePacket. rewrite bind_Ok, Hp.
  rewrite decide_False by (by intros H; apply H).
  rewrite decide_False by (rewrite Ht; done).
  rewrite decide_False by (by intros H; apply H). rewrite Hid, Hl, Hu. cbn [negb andb].
  rewrite decide_True; [done|]. rewrite Hlen, getNextAckSlot_mod by done.
  unfold ring_size. zdiv.
Qed.
End Exchange.

(** ** Properties *)

Section Properties.
Context {C : Codec} {L : CodecLaws C}.

(** C6: the UDP handshake completes. From any states in which both ends wait for the
    handshake of the same session, the initiator's next tick sends it; handed to the
    responder, it activates the responder's session, is echoed, and the echo handed to
    the initiator activates the initiator's; each end has learnt the address to reply
    to, and both ping loops start. *)
Theorem handshake_completes wc ws id lc sc gc cc ip ls ss gs cs now t1 t2 t3 t4
    addrC addrS :
  reachable wc -> reachable ws ->
  awaiting SendUDPHandshake wc id lc sc gc cc -> PeerAddress sc = Some ip ->
  Since now (SessionMade sc) <= Minute ->
  awaiting WaitForHandshake ws id ls ss gs cs ->
  exists b c' wc1 ws1 wc2 gc' gs' wc3 ws3,
    exec (EWaiterTick gc now) wc = Some (Ok wc1) /\
    w_sent wc1 = mkDatagram SHandshake lc c' b (mkUDPAddr ip 6924 []) :: w_sent wc /\
    exec (EPacket t1 b addrC) ws = Some (Ok ws1) /\
    w_sent ws1 = mkDatagram SReply ls cs b addrC :: w_sent ws /\
    exec (EPacket t2 b addrS) wc1 = Some (Ok wc2) /\
    exec (EWaiterWoken gs' t3) ws1 = Some (Ok ws3) /\ pinging ws3 id ls addrC /\
    exec (EWaiterWoken gc' t4) wc2 = Some (Ok wc3) /\ pinging wc3 id lc addrS.
Proof.
  intros Hrc Hrs Hawc Hip Hmade Haws.
  pose proof (reachable_inv _ Hrc) as HIc. pose proof (reachable_inv _ Hrs) as HIs.
  destruct (tick_sends wc id lc sc gc cc now ip HIc Hawc Hip Hmade)
    as (wc1 & b & c' & Htick & Hsent & Hhs & Hawc1).
  pose proof (exec_inv _ _ _ HIc Htick) as HIc1.
  destruct (packet_handshake WaitForHandshake ws id ls ss gs cs t1 b addrC HIs Haws Hhs)
    as (ws1 & Hps & Hreply & Hdone).
  destruct (packet_handshake SendUDPHandshake wc1 id lc sc gc cc t2 b addrS HIc1 Hawc1 Hhs)
    as (wc2 & Hpc & _ & Hdonec).
  destruct (woken_starts ws1 id ls addrC cs t3 Hdone) as (gs' & ws3 & Hws & Hpings).
  destruct (woken_starts wc2 id lc addrS cc t4 Hdonec) as (gc' & wc3 & Hwc & Hpingc).
  exists b, c', wc1, ws1, wc2, gc', gs', wc3, ws3. by split_and!.
Qed.

(** C8: a ping sent by one end and delivered to the other is recorded there: the next
    slot of the ring gets the ID of the second it was sent in, its send time and its
    reception time, the reply address becomes the one it came from, and the sender's
    ring, as it was when the ping left, is kept for the statistics. *)
Theorem ping_recorded_by_peer wa wb g la t sa addr now1 now2 now3 tx lb sb cb timeRX from :
  reachable wa -> reachable wb ->
  w_gor wa !! g = Some (Sender la t true) -> w_heap wa !! la = Some sa ->
  ReplyTo sa = Some addr -> Since now1 (LastRX sa) <= Second * 60 ->
  lookup_session wb (SessionID sa) = Some (lb, sb) -> UDPActivated sb = true ->
  w_globalReplyWith wb = Some cb ->
  exists wa' b c wb' sb',
    exec (EPing g now1 now2 now3 tx) wa = Some (Ok wa') /\
    w_sent wa' = mkDatagram SPing la c b addr :: w_sent wa /\
    exec (EPacket timeRX b from) wb = Some (Ok wb') /\
    lookup_session wb' (SessionID sa) = Some (lb, sb') /\
    (nextAckSlot sb', LastAcks sb')
      = push_ack (nextAckSlot sb, LastAcks sb)
          (mkPingInfo (ping_id (Unix now3)) (strip tx) timeRX) /\
    LastRX sb' = timeRX /\ ReplyTo sb' = Some from /\
    p_TXTime (LastRXPing sb') = strip tx /\
    p_LastAcks (LastRXPing sb') = map strip_info (LastAcks sa).
Proof.
  intros Hra Hrb Hg Hs Hto Hlive Hl Hu Hc.
  pose proof (reachable_inv _ Hra) as HIa. pose proof (reachable_inv _ Hrb) as HIb.
  destruct (ping_sends wa g la t now1 now2 now3 tx sa addr HIa Hg Hs Hto)
    as (wa' & b & c & Hping & Hsent & Hdec); [lia|].
  set (p := strip_ping _) in Hdec.
  pose proof (packet_ping wb (SessionID sa) lb sb cb timeRX b p from HIb Hl Hu Hc Hdec
    eq_refl eq_refl eq_refl) as Hrec.
  apply lookup_session_Some in Hl as [Ht _].
  exists wa', b, c. eexists _, (record_ping timeRX p from cb (getNextAckSlot (nextAckSlot sb)) sb).
  split_and!; [done|done|exact Hrec| |done..].
  apply lookup_session_Some. simpl. by rewrite lookup_insert_eq.
Qed.
End Properties.

(** ** Concrete runs *)

Definition client_events : list event :=
  [EListen 1%nat; EClientInvite 7 [10; 0; 0; 2] (a_moment 0); ESpawn 0; EWaiterSelects 0].
Definition server_events : list event :=
  [EListen 0%nat; EServerInvite 7 (a_moment 0); ESpawn 0; EWaiterSelects 0].
Definition client_world : world := default empty_world (run client_events empty_world).
Definition server_world : world := default empty_world (run server_events empty_world).

Lemma client_reachable : reachable client_world.
Proof. apply (run_steps client_events). vm_compute. reflexivity. Qed.
Lemma server_reachable : reachable server_world.
Proof. apply (run_steps server_events). vm_compute. reflexivity. Qed.

Lemma handshake_completes_witness :
  exists b c' wc1 ws1 wc2 gc' gs' wc3 ws3,
    exec (EWaiterTick 0 (a_moment 1)) client_world = Some (Ok wc1) /\
    w_sent wc1 = mkDatagram SHandshake 1%positive c' b (mkUDPAddr [10; 0; 0; 2] 6924 [])
                   :: w_sent client_world /\
    exec (EPacket (a_moment 1) b peer) server_world = Some (Ok ws1) /\
    w_sent ws1 = mkDatagram SReply 1%positive 0%nat b peer :: w_sent server_world /\
    exec (EPacket (a_moment 1) b peer) wc1 = Some (Ok wc2) /\
    exec (EWaiterWoken gs' (a_moment 2)) ws1 = Some (Ok ws3) /\
    pinging ws3 7 1%positive peer /\
    exec (EWaiterWoken gc' (a_moment 2)) wc2 = Some (Ok wc3) /\
    pinging wc3 7 1%positive peer.
Proof.
  apply (handshake_completes client_world server_world 7 1%positive
    (set_reply_with 1%nat (client_session 7 [10; 0; 0; 2] (a_moment 0))) 0%nat 1%nat
    [10; 0; 0; 2] 1%positive (server_session 7 (a_moment 0)) 0%nat 0%nat
    (a_moment 1) (a_moment 1) (a_moment 1) (a_moment 2) (a_moment 2) peer peer).
  - exact client_reachable.
  - exact server_reachable.
  - split_and!; vm_compute; reflexivity.
  - reflexivity.
  - vm_compute. discriminate.
  - split_and!; vm_compute; reflexivity.
Defined.

Lemma ping_recorded_by_peer_witness :
  exists wa' b c wb' sb',
    exec (EPing 1 (a_moment 4) (a_moment 4) (a_moment 4) (a_moment 4)) example_world
      = Some (Ok wa') /\
    w_sent wa' = mkDatagram SPing 1%positive c b peer :: w_sent example_world /\
    exec (EPacket (a_moment 5) b peer) example_world = Some (Ok wb') /\
    lookup_session wb' 7 = Some (1%positive, sb') /\ LastRX sb' = a_moment 5.
Proof.
  destruct (w_heap example_world !! 1%positive) as [s|] eqn:Hs;
    [|vm_compute in Hs; discriminate Hs].
  assert (Hf : SessionID s = 7 /\ ReplyTo s = Some peer /\ UDPActivated s = true /\
    LastRX s = a_moment 2).
  { apply (f_equal (fun o => match o with
      | Some s => (SessionID s, ReplyTo s, UDPActivated s, LastRX s)
      | None => (0, None, false, zeroTime) end)) in Hs.
    vm_compute in Hs. injection Hs. intros. by split_and!. }
  destruct Hf as (Hid & Hto & Hu & Hrx).
  assert (Ht : w_table example_world !! 7 = Some 1%positive) by (vm_compute; reflexivity).
  destruct (ping_recorded_by_peer example_world example_world 1%nat 1%positive (a_moment 1) s
    peer (a_moment 4) (a_moment 4) (a_moment 4) (a_moment 4) 1%positive s 0%nat (a_moment 5)
    peer example_reachable example_reachable)
    as (wa' & b & c & wb' & sb' & H1 & H2 & H3 & H4 & _ & H5 & _).
  - vm_compute. reflexivity.
  - exact Hs.
  - exact Hto.
  - rewrite Hrx. vm_compute. discriminate.
  - rewrite Hid. apply lookup_session_Some. by split.
  - exact Hu.
  - vm_compute. reflexivity.
  - exists wa', b, c, wb', sb'. rewrite Hid in H4. by split_and!.
Defined.
