(* ===== verification/History.v ===== *)
(** * What a session remembers (main.go)

    An abstract specification of a session's timing data: the list of all pings it ever
    received. The concrete session keeps a ring of 32 slots, an index, and the last
    ping; the refinement shows that every step of the running program either leaves the
    list of a session or appends the ping of one datagram to it, and that what the
    session holds is determined by that list. *)

From S2P Require Import Prelude Bytes GoTime Acks Session PlainCodec Handshake System.
Local Open Scope Z_scope.

(** ** The abstraction *)

(** A received ping: what it said and when it arrived. *)
Record reception := mkReception { rc_ping : pingStruct; rc_time : Time }.

Definition info_of (r : reception) : pingInfo :=
  mkPingInfo (p_ID (rc_ping r)) (p_TXTime (rc_ping r)) (rc_time r).

(** The timing data of a session that received the pings [h], in order. *)
Record remembers (h : list reception) (s : session) : Prop := {
  rem_ring : (nextAckSlot s, LastAcks s) = record_acks (map info_of h);
  rem_last : (LastRX s, LastRXPing s)
    = match last h with None => (zeroTime, zeroPing) | Some r => (rc_time r, rc_ping r) end;
}.

(** The abstract step: nothing is received, or the ping [r]. *)
Definition receives (o : option reception) (h : list reception) : list reception :=
  h ++ option_list o.

Lemma remembers_new_server id made : remembers [] (server_session id made).
Proof. by constructor. Qed.

Lemma remembers_new_client id ip made : remembers [] (client_session id ip made).
Proof. by constructor. Qed.

Lemma remembers_same h s s' :
  remembers h s -> nextAckSlot s' = nextAckSlot s -> LastAcks s' = LastAcks s ->
  LastRX s' = LastRX s -> LastRXPing s' = LastRXPing s -> remembers h s'.
Proof.
  intros [Hr Hl] E1 E2 E3 E4. constructor; [by rewrite E1, E2|by rewrite E3, E4].
Qed.

Lemma record_acks_snoc ps v : record_acks (ps ++ [v]) = push_ack (record_acks ps) v.
Proof. unfold record_acks. by rewrite foldl_app. Qed.

Lemma remembers_record h s timeRX rx rxAddr c :
  remembers h s ->
  remembers (h ++ [mkReception rx timeRX])
    (record_ping timeRX rx rxAddr c (getNextAckSlot (nextAckSlot s)) s).
Proof.
  intros [Hr Hl]. constructor.
  - rewrite map_app. cbn [map]. by rewrite record_acks_snoc, <- Hr.
  - by rewrite last_snoc.
Qed.

(** ** The refinement *)

Section Refinement.
Context {C : Codec} {L : CodecLaws C}.

(** A reception comes from a datagram that holds that ping, at the time it arrived. *)
Definition received_from (e : event) (r : reception) : Prop :=
  exists buf rxAddr, e = EPacket (rc_time r) buf rxAddr /\
    unmarshal_ping buf = Some (rc_ping r) /\ p_Magic (rc_ping r) = magic /\
    p_Type (rc_ping r) = type_ping.

(** What a step does to the session [l], as the specification sees it: its list stays, or
    grows by a ping of the step's datagram that names the session. *)
Definition follows (e : event) (l : loc) (w w' : world) : Prop :=
  forall s h, w_heap w !! l = Some s -> remembers h s ->
  exists s' o, w_heap w' !! l = Some s' /\ remembers (receives o h) s' /\
    (forall r, o = Some r -> received_from e r /\ UDPActivated s = true /\
       p_Session (rc_ping r) = SessionID s).

(** A session that is new after the step has received nothing. *)
Definition begins (l : loc) (w w' : world) : Prop :=
  w_heap w !! l = None -> forall s', w_heap w' !! l = Some s' -> remembers [] s'.

Definition refines (e : event) (l : loc) (w w' : world) : Prop :=
  follows e l w w' /\ begins l w w'.

Lemma refines_heap e l w w' : w_heap w' = w_heap w -> refines e l w w'.
Proof.
  intros Eh. split; [intros s h Hs Hh|intros Hn s'; rewrite Eh; congruence].
  exists s, None. rewrite Eh. unfold receives. simpl. rewrite app_nil_r. by split_and!.
Qed.

(** A change of one session that leaves its timing data. *)
Lemma refines_set e l w w' l' s0 f :
  w_heap w !! l' = Some s0 -> w_heap w' = <[l' := f]> (w_heap w) ->
  nextAckSlot f = nextAckSlot s0 -> LastAcks f = LastAcks s0 ->
  LastRX f = LastRX s0 -> LastRXPing f = LastRXPing s0 -> refines e l w w'.
Proof.
  intros H0 Eh E1 E2 E3 E4. split.
  2:{ intros Hn s'. rewrite Eh, lookup_insert_ne by congruence. congruence. }
  intros s h Hs Hh. rewrite Eh.
  destruct (decide (l' = l)) as [->|Hne].
  - exists f, None. rewrite lookup_insert_eq. unfold receives. simpl. rewrite app_nil_r.
    split_and!; [done| |done]. apply (remembers_same h s); congruence.
  - exists s, None. rewrite lookup_insert_ne by done. unfold receives. simpl.
    rewrite app_nil_r. by split_and!.
Qed.

Lemma refines_insert e l k id s0 w :
  remembers [] s0 -> refines e l w (insert_session k id s0 w).
Proof.
  intros H0. split.
  2:{ intros Hn s'. unfold insert_session. simpl. rewrite lookup_insert_Some.
      intros [[_ <-]|[_ ?]]; [done|congruence]. }
  intros s h Hs Hh. exists s, None. unfold insert_session. simpl.
  rewrite lookup_insert_ne.
  - unfold receives. simpl. rewrite app_nil_r. by split_and!.
  - intros Heq. assert (Hf : fresh (dom (w_heap w)) ∉ dom (w_heap w)) by apply is_fresh.
    apply Hf. rewrite Heq. apply elem_of_dom. eauto.
Qed.

Lemma refines_inbound e l buf rxAddr c w w' :
  handleInboundHandshake buf rxAddr c w = Ok w' -> refines e l w w'.
Proof.
  unfold handleInboundHandshake.
  destruct (unmarshal_hs buf) as [rx|]; [|intros Hw%Ok_inj; subst w'; by apply refines_heap].
  case_decide; [intros Hw%Ok_inj; subst w'; by apply refines_heap|].
  case_decide; [intros Hw%Ok_inj; subst w'; by apply refines_heap|].
  destruct (lookup_session w (hs_Session rx)) as [[l' ses]|] eqn:Hl;
    [|intros Hw%Ok_inj; subst w'; by apply refines_heap].
  apply lookup_session_Some in Hl as [_ Hl].
  case_match; [intros Hw%Ok_inj; subst w'; by apply refines_heap|].
  destruct (w_globalReplyWith w) as [c'|]; [|done]. intros Hw%Ok_inj. subst w'.
  apply (refines_set _ _ _ _ l' ses (activate rxAddr c' ses)); try done.
  by case_match.
Qed.

Lemma refines_packet l timeRX buf rxAddr c w w' :
  Inv w -> handlePacket (Ok timeRX) buf rxAddr c w = Ok w' ->
  refines (EPacket timeRX buf rxAddr) l w w'.
Proof.
  intros HI. unfold handlePacket. rewrite bind_Ok.
  destruct (unmarshal_ping buf) as [rx|] eqn:Hrx;
    [|intros Hw%Ok_inj; subst w'; by apply refines_heap].
  case_decide as Hm; [intros Hw%Ok_inj; subst w'; by apply refines_heap|].
  case_decide as Hh; [by apply refines_inbound|].
  case_decide as Ht; [intros Hw%Ok_inj; subst w'; by apply refines_heap|].
  destruct (lookup_session w (p_Session rx)) as [[l' ses]|] eqn:Hl;
    [|intros Hw%Ok_inj; subst w'; by apply refines_heap].
  apply lookup_session_Some in Hl as [Htab Hl].
  destruct (inv_table _ HI _ _ Htab) as (ses' & Hl' & Hid). rewrite Hl in Hl'.
  apply (inj Some) in Hl' as <-. destruct (inv_heap _ HI _ _ Hl) as (Htcp & _).
  rewrite Htcp, andb_true_r. destruct (UDPActivated ses) eqn:Hu;
    [|intros Hw%Ok_inj; subst w'; by apply refines_heap]. cbn [negb].
  case_decide; [|done]. intros Hw%Ok_inj. subst w'. split.
  2:{ intros Hn s'. simpl. rewrite lookup_insert_ne by congruence. congruence. }
  intros s h Hs Hrem. simpl. destruct (decide (l' = l)) as [->|Hne].
  - rewrite Hl in Hs. apply (inj Some) in Hs as <-. rewrite lookup_insert_eq.
    eexists _, (Some (mkReception rx timeRX)). split; [done|]. split.
    { unfold receives. simpl. by apply remembers_record. }
    intros r [= <-]. split; [|done]. exists buf, rxAddr. simpl.
    by split_and!.
  - exists s, None. rewrite lookup_insert_ne by done. unfold receives. simpl.
    rewrite app_nil_r. by split_and!.
Qed.

Lemma refines_waiter_start e l g k l' w w' :
  waiter_start k l' w = Ok w' -> refines e l w (set_goroutine g (Waiter k l' WSelecting) w').
Proof.
  unfold waiter_start. destruct (w_heap w !! l') as [s|] eqn:Hl; [|done].
  destruct k; [|intros Hw%Ok_inj; subst w'; by apply refines_heap].
  destruct (w_globalReplyWith w) as [c|]; [|done]. intros Hw%Ok_inj. subst w'.
  by apply (refines_set _ _ _ _ l' s (set_reply_with c s)).
Qed.

Lemma refines_tick e l g now k l' w w' :
  iterate g (Waiter k l' WReturned) w (waiter_tick now k l' w) = Ok w' -> refines e l w w'.
Proof.
  unfold iterate, waiter_tick. destruct (w_heap w !! l'); [|done].
  case_decide; [intros Hw%Ok_inj; subst w'; by apply refines_heap|].
  destruct k; [|intros Hw%Ok_inj; subst w'; by apply refines_heap].
  destruct (marshal_hs _); [|done]. destruct (ReplyWith _); [|done].
  intros Hw%Ok_inj. subst w'. by apply refines_heap.
Qed.

Lemma refines_woken e l t l' w w' : waiter_activated t l' w = Ok w' -> refines e l w w'.
Proof.
  unfold waiter_activated. destruct (w_heap w !! l') as [s|] eqn:Hl; [|done].
  intros Hw%Ok_inj. subst w'. by apply (refines_set _ _ _ _ l' s (set_udp s)).
Qed.

Lemma refines_ping e l g now1 now2 now3 tx l' t w w' :
  iterate g (Sender l' t false) w (sendPackets_iter t now1 now2 now3 (Ok tx) l' w) = Ok w' ->
  refines e l w w'.
Proof.
  unfold iterate, sendPackets_iter. destruct (w_heap w !! l') as [s|] eqn:Hl; [|done].
  case_decide; [intros Hw%Ok_inj; subst w'; by apply refines_heap|].
  rewrite bind_Ok. destruct (marshal_ping _); [|done].
  destruct (ReplyTo _); [destruct (ReplyWith _); [|done]|];
    intros Hw%Ok_inj; subst w';
    by apply (refines_set _ _ _ _ l' s (set_current (ping_id (Unix now3)) s)).
Qed.

Lemma refines_heap_goroutine e l g x w w' :
  refines e l (set_goroutine g x w) w' -> refines e l w w'.
Proof. done. Qed.

Lemma exec_refines e w w' l : Inv w -> exec e w = Some (Ok w') -> refines e l w w'.
Proof.
  intros HI. destruct e; cbn [exec].
  - destruct (w_globalReplyWith w); [done|]. intros Hw%(inj Some)%Ok_inj. subst w'.
    by apply refines_heap.
  - destruct (w_globalReplyWith w); [|done]. intros Hw%(inj Some). by eapply refines_packet.
  - case_decide; [|done]. intros Hw%(inj Some)%Ok_inj. subst w'. apply refines_insert, remembers_new_server.
  - case_decide; [|done]. intros Hw%(inj Some)%Ok_inj. subst w'. apply refines_insert, remembers_new_client.
  - unfold spawn_waiter. destruct (w_pending w !! i) as [[k id]|]; [|done].
    destruct (w_table w !! id); [|done]. intros Hw%(inj Some)%Ok_inj. subst w'.
    by apply refines_heap.
  - destruct (w_gor w !! g) as [[k l' []|]|] eqn:Hg; try done. intros Hw%(inj Some).
    apply bind_Ok_inv in Hw as (w1 & Hs & Hw%Ok_inj). subst w'. by eapply refines_waiter_start.
  - destruct (w_gor w !! g) as [[k l' []|]|] eqn:Hg; try done. intros Hw%(inj Some).
    by eapply refines_tick.
  - destruct (w_gor w !! g) as [[k l' []|]|] eqn:Hg; try done. intros Hw%(inj Some).
    by eapply refines_heap_goroutine, refines_woken.
  - destruct (w_gor w !! g) as [[|l' t []]|] eqn:Hg; try done. intros Hw%(inj Some).
    by eapply refines_ping.
  - case_decide; [|done]. intros Hw%(inj Some)%Ok_inj. subst w'.
    apply refines_heap. by destruct (sessionGC_frame clock order w) as (Eh & _).
Qed.

(** Every session of a reachable world is explained by what it received. *)
Lemma reachable_remembers w l s :
  reachable w -> w_heap w !! l = Some s -> exists h, remembers h s.
Proof.
  unfold reachable. intros Hr. revert l s.
  assert (Hind : forall w0 w1, rtc step w0 w1 -> Inv w0 ->
    (forall l s, w_heap w0 !! l = Some s -> exists h, remembers h s) ->
    forall l s, w_heap w1 !! l = Some s -> exists h, remembers h s).
  { induction 1 as [|u v z [e He] _ IH]; [done|]. intros HI Hall.
    apply IH; [by eapply exec_inv|]. intros l s' Hs'.
    destruct (exec_refines e u v l HI He) as [Hf Hb].
    destruct (w_heap u !! l) as [s|] eqn:Hs.
    - destruct (Hall l s Hs) as [h Hh]. destruct (Hf s h Hs Hh) as (t & o & Ht & Hrem & _).
      rewrite Hs' in Ht. apply (inj Some) in Ht as <-. by eexists.
    - exists []. by apply Hb. }
  apply (Hind empty_world w Hr inv_empty). intros l s Hs. discriminate Hs.
Qed.

(** ** Properties *)

(** C9: a session is its list of received pings. Every session of a reachable world
    remembers some list: its ring is that of the list, its last reception is the last of
    the list. And every step of the program refines the list: it keeps the list of a
    session, or appends one ping, which came in the datagram of that step, names that
    session and found it activated. *)
Theorem session_refines_history w l s :
  reachable w -> w_heap w !! l = Some s ->
  exists h, remembers h s /\
  forall e w', exec e w = Some (Ok w') ->
  exists s' o, w_heap w' !! l = Some s' /\ remembers (h ++ option_list o) s' /\
    forall r, o = Some r ->
      (exists buf rxAddr, e = EPacket (rc_time r) buf rxAddr /\
         unmarshal_ping buf = Some (rc_ping r)) /\
      UDPActivated s = true /\ p_Session (rc_ping r) = SessionID s.
Proof.
  intros Hr Hs. destruct (reachable_remembers w l s Hr Hs) as [h Hh]. exists h.
  split; [done|]. intros e w' He.
  destruct (exec_refines e w w' l (reachable_inv w Hr) He) as [Hf _].
  destruct (Hf s h Hs Hh) as (s' & o & Hs' & Hrem & Hsrc). exists s', o.
  split_and!; [done|done|]. intros r Hor.
  destruct (Hsrc r Hor) as ((buf & rxAddr & ? & ? & _) & ? & ?). split_and!; eauto.
Qed.
End Refinement.

(** C10: the statistics of a session are those of what was really lost. For a session whose
    list of receptions is [h], ending in [r]: when both ends have heard at least 32 pings
    of the last 224 seconds, the figures computed within second [u] are the clock
    difference of [r], the number of lost seconds of the receive direction, read off [h],
    and the number of lost seconds of the send direction, read off what the peer had
    received when it sent [r]. *)
Theorem session_statistics clock u h r s ss ss' ps' :
  remembers h s -> last h = Some r ->
  31 <= u -> (forall n, Unix (clock n) = u) ->
  heard u ss (map info_of h) -> heard u ss' ps' ->
  map pi_ID (p_LastAcks (rc_ping r)) = map pi_ID (snd (record_acks ps')) ->
  exists st, getStats clock (LastRX s) (LastRXPing s) (LastAcks s) = Ok st /\
    st_RXLatency st = Sub (rc_time r) (p_TXTime (rc_ping r)) /\
    st_RXLoss st = lost_seconds u (window_len (ping_id u)) ss /\
    st_TXLoss st = lost_seconds u (window_len (ping_id u)) ss' /\
    st_TotalSent st = 32.
Proof.
  intros [Hring Hlast] Hr Hu Hclock Hh Hh' Hids. rewrite Hr in Hlast.
  injection Hlast as -> ->. apply (f_equal snd) in Hring. cbn [snd] in Hring. rewrite Hring.
  unfold getStats. destruct (newest_ack clock 0 _ 0 _) as [n txl].
  rewrite Hclock, (getLoss_heard u _ ss (map info_of h) ss' ps') by done.
  rewrite bind_Ok. eexists. by split_and!.
Qed.

Lemma session_refines_history_witness :
  exists s h, w_heap example_world !! 1%positive = Some s /\ remembers h s.
Proof.
  destruct (w_heap example_world !! 1%positive) as [s|] eqn:Hs;
    [|vm_compute in Hs; discriminate Hs].
  destruct (session_refines_history example_world 1%positive s example_reachable Hs)
    as (h & Hh & _).
  exists s, h. split; [reflexivity|exact Hh].
Defined.

(** The two directions of the example of the losses, as receptions of one end whose last
    ping carries the ring of the other. *)
Definition example_history : list reception :=
  map (fun v => mkReception (mkPing type_ping magic 7 (pi_ID v) (pi_TX v) 0
    (snd (record_acks (pings_at example_seconds')))) (pi_RX v)) (pings_at example_seconds).

Definition example_session : session :=
  foldl (fun s r => record_ping (rc_time r) (rc_ping r) peer 0%nat
                      (getNextAckSlot (nextAckSlot s)) s)
    (server_session 7 (time_Unix 990 0)) example_history.

Lemma example_session_remembers : remembers example_history example_session.
Proof.
  unfold example_session. generalize example_history. intros h.
  induction h as [|r h IH] using rev_ind; [apply remembers_new_server|].
  rewrite foldl_app. destruct r as [rx t]. by apply remembers_record.
Qed.

Lemma session_statistics_witness :
  exists st, getStats (fun _ => time_Unix 1040 500) (LastRX example_session)
      (LastRXPing example_session) (LastAcks example_session) = Ok st /\
    st_RXLoss st = 2 /\ st_TXLoss st = 1.
Proof.
  destruct (session_statistics (fun _ => time_Unix 1040 500) 1040 example_history
    (mkReception (mkPing type_ping magic 7 (ping_id 1040) (time_Unix 1040 0) 0
      (snd (record_acks (pings_at example_seconds')))) (time_Unix 1040 0))
    example_session example_seconds example_seconds' (pings_at example_seconds'))
    as (st & Hst & _ & Hrx & Htx & _).
  - exact example_session_remembers.
  - vm_compute. reflexivity.
  - lia.
  - intros n. reflexivity.
  - replace (map info_of example_history) with (pings_at example_seconds)
      by (vm_compute; reflexivity).
    exact heard_example.
  - exact heard_example'.
  - reflexivity.
  - exists st. split; [exact Hst|]. split.
    + rewrite Hrx. vm_compute. reflexivity.
    + rewrite Htx. vm_compute. reflexivity.
Defined.
