(* ===== verification/Ntp.v ===== *)
(** * Calibration against NTP servers (ntp.go)

    Each server is polled; the answers with the five lowest round trips are kept and
    the median of their offsets is the offset of the clock. Sorting is a parameter
    with the laws of sort.Sort (the order of equal elements is not specified). *)

From Stdlib Require Import Sorting.Permutation Sorting.Sorted.
From stdpp Require Import gmap strings.
From S2P Require Import Prelude GoTime.
Local Open Scope Z_scope.

(** ** Sorting *)

(** [sort.Sort] with a [Less] that compares a key, and [sort.Ints]: a permutation of the
    input in which keys do not decrease. *)
Class Sorter := { sort_by : forall {A : Type}, (A -> Z) -> list A -> list A }.
Class SorterLaws (S : Sorter) := {
  sort_permutation A (key : A -> Z) l : Permutation (sort_by key l) l;
  sort_sorted A (key : A -> Z) l : StronglySorted Z.le (map key (sort_by key l));
}.

(** ** Polling one server *)

(** [ntp.QueryWithOptions]: the clock offset and the round trip of an answer. *)
Record ntpResponse := mkResponse { ClockOffset : Z; RTT_of : Z }.

Record poll := mkPoll { pl_Offset : Z; pl_RTT : Z; pl_failed : Z }.

Section Poll.
Context {S : Sorter}.

(** The two rounds of the loop: [offsets[i]], [rtt[i]] of the arrays of three. *)
Fixpoint poll_loop (i n : nat) (query : nat -> option ntpResponse)
    (offsets rtt : list Z) (failed : Z) : list Z * list Z * Z :=
  match n with
  | O => (offsets, rtt, failed)
  | Datatypes.S n =>
      match query i with
      | None => poll_loop (i + 1) n query offsets rtt (failed + 1)
      | Some r =>
          poll_loop (i + 1) n query (<[i := ClockOffset r]> offsets)
            (<[i := RTT_of r]> rtt) failed
      end
  end.

(** [func ntpTriplePoll(server string) (Offset, RTT time.Duration, failed int)]; the
    answers of the server are given by round. *)
Definition ntpTriplePoll (query : nat -> option ntpResponse) : poll :=
  let '(offsets, rtt, failed) :=
    poll_loop 0 2 query (replicate 3 0) (replicate 3 0) 0 in
  let offsets := sort_by (fun z => z) offsets in
  let rtt := sort_by (fun z => z) rtt in
  mkPoll (default 0 (offsets !! 1%nat)) (default 0 (rtt !! 1%nat)) failed.

(** The test of the goroutine that polls: [failed > 1 || RTT == 0 || offset == 0]. *)
Definition poll_kept (p : poll) : bool :=
  if decide (pl_failed p > 1 \/ pl_RTT p = 0 \/ pl_Offset p = 0) then false else true.
End Poll.

(** ** Calibration *)

(** The servers. *)
Definition ntpServers : list string :=
  ["17.253.82.125"; "17.253.82.253"; "17.253.18.125"; "17.253.18.253"; "17.253.84.125";
   "17.253.84.253"; "17.253.84.123"; "17.253.4.125"; "17.253.4.253"; "17.253.26.125";
   "17.253.26.253"; "17.253.14.125"; "17.253.14.253"; "17.253.14.123"; "17.253.66.125";
   "17.253.66.253"; "17.253.20.125"; "17.253.20.253"; "17.253.108.125";
   "17.253.108.253"; "17.253.34.125"; "17.253.34.253"; "17.253.34.123";
   "17.253.12.125"; "17.253.12.253"; "17.253.6.125"; "17.253.6.253"; "17.253.52.125";
   "17.253.52.253"; "17.253.68.125"; "17.253.68.253"; "17.253.68.123"; "17.253.16.125";
   "17.253.16.253"; "17.253.38.125"; "17.253.38.253"; "17.253.54.125"; "17.253.54.253";
   "17.253.54.123"; "17.253.2.125"; "17.253.2.253"; "17.253.24.125"; "17.253.24.253";
   "17.253.116.125"; "17.253.116.253"; "17.253.114.125"; "17.253.114.253"].

Record ntpResult := mkResult { nr_RTT : Z; nr_Offset : Z; nr_Host : string }.

Definition zeroResult : ntpResult := mkResult 0 0 "".

Section Calibrate.
Context {S : Sorter}.

(** The map [ts.m], as the goroutines fill it: [polls] are the servers whose poll ended
    before the results are read, in the order in which they ended. *)
Definition collect (polls : list (string * poll)) : gmap string ntpResult :=
  foldl (fun m x =>
    if poll_kept (snd x)
    then <[fst x := mkResult (pl_RTT (snd x)) (pl_Offset (snd x)) (fst x)]> m else m)
    ∅ polls.

(** The copy of at most five results into an array of five. *)
Definition fill_five (results : list ntpResult) : list ntpResult :=
  take 5 results ++ replicate (5 - length (take 5 results)) zeroResult.

(** The selection: [results] are the values of the map in iteration order. *)
Definition median_offset (results : list ntpResult) : Z :=
  let NTPresArray := sort_by nr_RTT results in
  let considerable := sort_by nr_Offset (fill_five NTPresArray) in
  nr_Offset (default zeroResult (considerable !! 2%nat)).

(** [func calibrateAgainstApple() int]; it also sets [lastSync] to the instant at
    which it returns. *)
Definition calibrateAgainstApple (flagClockIsPerfect : bool) (results : list ntpResult) : Z :=
  if flagClockIsPerfect then 1 else median_offset results.
End Calibrate.

(** No server is listed twice, so no poll overwrites the result of another. *)
Lemma ntpServers_distinct : NoDup ntpServers.
Proof. apply (bool_decide_unpack _). vm_compute. exact I. Qed.

Lemma collect_lookup polls server r :
  NoDup (map fst polls) ->
  collect polls !! server = Some r <->
  exists p, (server, p) ∈ polls /\ poll_kept p = true /\
    r = mkResult (pl_RTT p) (pl_Offset p) server.
Proof.
  induction polls as [|[s p] polls IH] using rev_ind; intros Hnd.
  - unfold collect. simpl. split; [done|]. intros (p & Hp & _). by apply elem_of_nil in Hp.
  - rewrite map_app in Hnd. apply list.NoDup_app in Hnd as (Hnd & Hs & _). specialize (IH Hnd).
    unfold collect in *. rewrite foldl_app. cbn [foldl fst snd].
    assert (Hnot : forall q, (s, q) ∉ polls).
    { intros q Hq. apply (Hs s); [|apply elem_of_cons; by left].
      apply list_elem_of_fmap. by exists (s, q). }
    destruct (poll_kept p) eqn:Hk.
    + rewrite lookup_insert_Some, IH. split.
      * intros [[-> <-]|[Hne (q & Hq & Hkq & ->)]].
        -- exists p. split_and!; [|done|done]. apply elem_of_app. right.
           apply elem_of_cons. by left.
        -- exists q. split_and!; [|done|done]. apply elem_of_app. by left.
      * intros (q & [Hq|Hq]%elem_of_app & Hkq & ->).
        -- right. split; [|by exists q]. intros ->. by apply (Hnot q).
        -- apply elem_of_cons in Hq as [[= -> ->]|Hq]; [by left|by apply elem_of_nil in Hq].
    + rewrite IH. split; intros (q & Hq & Hkq & ->); exists q; (split_and!; [|done|done]).
      * apply elem_of_app. by left.
      * apply elem_of_app in Hq as [?|Hq]; [done|].
        apply elem_of_cons in Hq as [[= -> ->]|Hq]; [congruence|by apply elem_of_nil in Hq].
Qed.

(** ** The median *)

Definition within (a b z : Z) : bool := (a <=? z) && (z <=? b).

Section Median.
Context {S : Sorter} {L : SorterLaws S}.

Lemma sorted_lookup (l : list Z) (i j : nat) (a b : Z) :
  StronglySorted Z.le l -> (i <= j)%nat -> l !! i = Some a -> l !! j = Some b -> a <= b.
Proof.
  intros Hs. revert i j. induction Hs as [|x l Hs IH Hall]; intros i j Hij Hi Hj; [done|].
  destruct i as [|i], j as [|j]; simplify_eq/=; try lia.
  - by apply (Forall_lookup_1 _ _ _ _ Hall) in Hj.
  - by eapply (IH i j); [lia|..].
Qed.

Lemma count_sorted {A} (p : A -> bool) (key : A -> Z) l :
  count p (sort_by key l) = count p l.
Proof.
  pose proof (sort_permutation A key l) as Hp. revert Hp.
  generalize (sort_by key l) as k. induction 1; simpl; lia.
Qed.

(** In a sorted list of five, an interval that holds three of the keys holds the
    middle one. *)
Lemma middle_of_five (l : list Z) (a b : Z) :
  StronglySorted Z.le l -> length l = 5%nat ->
  (3 <= count (within a b) l)%nat ->
  exists z, l !! 2%nat = Some z /\ a <= z <= b.
Proof.
  intros Hs Hl Hc.
  destruct l as [|x0 [|x1 [|x2 [|x3 [|x4 [|]]]]]]; try done.
  exists x2. split; [done|].
  pose proof (sorted_lookup _ 0 1 x0 x1 Hs ltac:(lia) eq_refl eq_refl).
  pose proof (sorted_lookup _ 1 2 x1 x2 Hs ltac:(lia) eq_refl eq_refl).
  pose proof (sorted_lookup _ 2 3 x2 x3 Hs ltac:(lia) eq_refl eq_refl).
  pose proof (sorted_lookup _ 3 4 x3 x4 Hs ltac:(lia) eq_refl eq_refl).
  cbn [count] in Hc. unfold within in Hc.
  destruct (Z.leb_spec a x0), (Z.leb_spec x0 b), (Z.leb_spec a x1), (Z.leb_spec x1 b),
    (Z.leb_spec a x2), (Z.leb_spec x2 b); simpl in Hc; try lia;
    destruct (Z.leb_spec a x3), (Z.leb_spec x3 b), (Z.leb_spec a x4), (Z.leb_spec x4 b);
    simpl in Hc; lia.
Qed.

Lemma length_fill_five results : length (fill_five results) = 5%nat.
Proof. unfold fill_five. rewrite length_app, length_replicate, length_take. lia. Qed.

Lemma count_map {A B} (p : B -> bool) (f : A -> B) l : count p (map f l) = count (fun x => p (f x)) l.
Proof. induction l as [|x l IH]; simpl; [done|]. by rewrite IH. Qed.

Lemma length_sort {A} (key : A -> Z) l : length (sort_by key l) = length l.
Proof. apply Permutation_length, sort_permutation. Qed.

(** The offset lies wherever three of the five considered offsets lie. *)
Lemma median_in_majority results a b :
  (3 <= count (fun r => within a b (nr_Offset r))
          (fill_five (sort_by nr_RTT results)))%nat ->
  a <= median_offset results <= b.
Proof.
  intros Hc. unfold median_offset.
  set (five := fill_five (sort_by nr_RTT results)) in *.
  assert (H5 : length five = 5%nat) by apply length_fill_five.
  destruct (middle_of_five (map nr_Offset (sort_by nr_Offset five)) a b) as (z & Hz & Hb).
  - apply sort_sorted.
  - by rewrite length_map, length_sort.
  - rewrite count_map, count_sorted. exact Hc.
  - assert (Hm : map nr_Offset (sort_by nr_Offset five) !! 2%nat
      = option_map nr_Offset (sort_by nr_Offset five !! 2%nat)) by apply list_lookup_fmap.
    rewrite Hm in Hz. destruct (sort_by nr_Offset five !! 2%nat) as [r|]; [|done].
    simpl in *. by injection Hz as ->.
Qed.

(** The five considered: with at least five results, the ones of lowest round trip. *)
Lemma fill_five_lowest results :
  (5 <= length results)%nat ->
  fill_five (sort_by nr_RTT results) = take 5 (sort_by nr_RTT results) /\
  forall r x, r ∈ take 5 (sort_by nr_RTT results) -> x ∈ drop 5 (sort_by nr_RTT results) ->
    nr_RTT r <= nr_RTT x.
Proof.
  intros Hl. rewrite <- (length_sort nr_RTT) in Hl.
  pose proof (sort_sorted _ nr_RTT results) as Hs.
  set (arr := sort_by nr_RTT results) in *. split.
  - unfold fill_five. rewrite length_take, Nat.min_l by lia. simpl. apply app_nil_r.
  - intros r x [i Hi]%list_elem_of_lookup [j Hj]%list_elem_of_lookup.
    apply lookup_take_Some in Hi as [Hi Hi5]. rewrite lookup_drop in Hj.
    apply (sorted_lookup (map nr_RTT arr) i (5 + j)); [done|lia| |].
    + rewrite (list_lookup_fmap nr_RTT arr). by rewrite Hi.
    + rewrite (list_lookup_fmap nr_RTT arr). by rewrite Hj.
Qed.
End Median.

(** ** The median of three *)

Section Three.
Context {S : Sorter} {L : SorterLaws S}.

Definition median3 (a b c : Z) : Z := Z.max (Z.min a b) (Z.min (Z.max a b) c).

Lemma middle_of_three a b c :
  default 0 (sort_by (fun z => z) [a; b; c] !! 1%nat) = median3 a b c.
Proof.
  pose proof (sort_permutation Z (fun z => z) [a; b; c]) as Hp.
  pose proof (sort_sorted Z (fun z => z) [a; b; c]) as Hs. rewrite map_id in Hs.
  pose proof (Permutation_length Hp) as Hl.
  destruct (sort_by (fun z => z) [a; b; c]) as [|p [|q [|r [|]]]]; try done. simpl.
  pose proof (sorted_lookup _ 0 1 p q Hs ltac:(lia) eq_refl eq_refl).
  pose proof (sorted_lookup _ 1 2 q r Hs ltac:(lia) eq_refl eq_refl).
  assert (Hsum : forall l k : list Z, Permutation l k -> foldr Z.add 0 l = foldr Z.add 0 k)
    by (induction 1; simpl; lia).
  specialize (Hsum _ _ Hp). simpl in Hsum.
  assert (Hin : forall z, In z [p; q; r] <-> In z [a; b; c]).
  { intros z. split; apply Permutation_in; [done|by symmetry]. }
  pose proof (proj1 (Hin p) (or_introl eq_refl)) as Hip.
  pose proof (proj1 (Hin r) (or_intror (or_intror (or_introl eq_refl)))) as Hir.
  pose proof (proj2 (Hin a) (or_introl eq_refl)) as Hia.
  pose proof (proj2 (Hin b) (or_intror (or_introl eq_refl))) as Hib.
  pose proof (proj2 (Hin c) (or_intror (or_intror (or_introl eq_refl)))) as Hic.
  simpl in Hip, Hir, Hia, Hib, Hic. unfold median3. lia.
Qed.

(** The two rounds of the loop. *)
Lemma ntpTriplePoll_eq query :
  ntpTriplePoll query =
    let val f i := match query i with Some r => f r | None => 0 end in
    let miss i := match query i with Some _ => 0 | None => 1 end in
    mkPoll (median3 (val ClockOffset 0%nat) (val ClockOffset 1%nat) 0)
      (median3 (val RTT_of 0%nat) (val RTT_of 1%nat) 0) (miss 0%nat + miss 1%nat).
Proof.
  unfold ntpTriplePoll. cbn [poll_loop Nat.add].
  destruct (query 0%nat), (query 1%nat); cbn [replicate insert list_insert];
    rewrite !middle_of_three; done.
Qed.
End Three.

(** ** A sorter *)

Fixpoint insert_by {A} (key : A -> Z) (x : A) (l : list A) : list A :=
  match l with
  | [] => [x]
  | y :: l' => if decide (key x <= key y) then x :: l else y :: insert_by key x l'
  end.

#[export] Instance insertion_sorter : Sorter := {
  sort_by A key l := foldr (insert_by key) [] l;
}.

Lemma insert_by_perm {A} (key : A -> Z) x l : Permutation (insert_by key x l) (x :: l).
Proof.
  induction l as [|y l IH]; simpl; [done|]. case_decide; [done|].
  rewrite IH. apply Permutation_swap.
Qed.

Lemma insert_by_sorted {A} (key : A -> Z) x l :
  StronglySorted Z.le (map key l) -> StronglySorted Z.le (map key (insert_by key x l)).
Proof.
  induction l as [|y l IH]; simpl; intros Hs.
  - repeat constructor.
  - inversion Hs as [|? ? Hs' Hall]; subst. case_decide as Hxy; simpl.
    + constructor; [done|]. constructor; [done|].
      eapply Forall_impl; [|exact Hall]. simpl. lia.
    + constructor; [by apply IH|].
      rewrite (Permutation_map key (insert_by_perm key x l)). simpl. constructor; [lia|done].
Qed.

#[export] Instance insertion_sorter_laws : SorterLaws insertion_sorter.
Proof.
  constructor.
  - intros A key l. simpl. induction l as [|x l IH]; simpl; [done|].
    rewrite insert_by_perm. by constructor.
  - intros A key l. simpl. induction l as [|x l IH]; simpl; [constructor|].
    by apply insert_by_sorted.
Qed.

(** ** Properties *)

Section Properties.
Context {S : Sorter} {L : SorterLaws S}.

(** C28: the calibrated offset is the offset of a robust majority: wherever three of the
    five considered offsets lie, the result lies there too, so two wrong servers among
    the five cannot move it out of the range of the other three; and with at least
    five answers the five considered are those of lowest round trip. *)
Theorem calibration_median results (a b : Z) :
  (3 <= count (fun r => within a b (nr_Offset r)) (fill_five (sort_by nr_RTT results)))%nat ->
  a <= calibrateAgainstApple false results <= b /\
  ((5 <= length results)%nat ->
     fill_five (sort_by nr_RTT results) = take 5 (sort_by nr_RTT results) /\
     forall r x, r ∈ take 5 (sort_by nr_RTT results) ->
       x ∈ drop 5 (sort_by nr_RTT results) -> nr_RTT r <= nr_RTT x).
Proof.
  intros Hc. split; [by apply median_in_majority|]. apply fill_five_lowest.
Qed.

(** With answers from at most two servers, three of the five considered slots are
    still zero, and the calibration reports an offset of exactly 0, as if the clock
    were right; nothing reports that the servers did not answer. *)
Lemma calibration_few_answers results :
  (length results <= 2)%nat -> calibrateAgainstApple false results = 0.
Proof.
  intros Hl. unfold calibrateAgainstApple.
  assert (0 <= median_offset results <= 0); [|lia]. apply median_in_majority.
  unfold fill_five. rewrite take_ge, length_sort by (rewrite length_sort; lia).
  rewrite count_app.
  assert (Hz : forall n, count (fun r => within 0 0 (nr_Offset r)) (replicate n zeroResult) = n).
  { induction n as [|n IH]; simpl; [done|]. by rewrite IH. }
  rewrite Hz. lia.
Qed.

(** The poll of a server makes two rounds and takes the middle of three numbers, the
    third being 0. So a server counts exactly when both rounds were answered and the
    two offsets have the same sign, and its offset is then the one nearer to 0; one
    lost answer, or offsets on both sides of 0, discards it. *)
Lemma ntpTriplePoll_kept query :
  (forall i r, query i = Some r -> 0 < RTT_of r) ->
  poll_kept (ntpTriplePoll query) = true <->
  exists r0 r1, query 0%nat = Some r0 /\ query 1%nat = Some r1 /\
    ((0 < ClockOffset r0 /\ 0 < ClockOffset r1 /\
      pl_Offset (ntpTriplePoll query) = Z.min (ClockOffset r0) (ClockOffset r1)) \/
     (ClockOffset r0 < 0 /\ ClockOffset r1 < 0 /\
      pl_Offset (ntpTriplePoll query) = Z.max (ClockOffset r0) (ClockOffset r1))).
Proof.
  intros Hrtt. rewrite ntpTriplePoll_eq. cbn zeta. unfold poll_kept.
  cbn [pl_Offset pl_RTT pl_failed]. unfold median3.
  pose proof (Hrtt 0%nat) as H0. pose proof (Hrtt 1%nat) as H1.
  destruct (query 0%nat) as [r0|], (query 1%nat) as [r1|].
  - specialize (H0 r0 eq_refl). specialize (H1 r1 eq_refl). case_decide as Hd.
    + split; [done|]. intros (s0 & s1 & [= <-] & [= <-] & Hs). lia.
    + split; [|done]. intros _. exists r0, r1. split_and!; [done|done|]. lia.
  - rewrite decide_True by lia. split; [done|]. by intros (? & ? & _ & ? & _).
  - rewrite decide_True by lia. split; [done|]. by intros (? & ? & ? & _).
  - rewrite decide_True by lia. split; [done|]. by intros (? & ? & ? & _).
Qed.
End Properties.

Definition example_results : list ntpResult :=
  [mkResult 30 5000000 "a"; mkResult 10 1200 "b"; mkResult 12 1300 "c"; mkResult 90 7 "d";
   mkResult 11 (-4000000) "e"; mkResult 14 1100 "f"].

Lemma calibration_median_witness :
  calibrateAgainstApple false example_results = 1200 /\
  1100 <= calibrateAgainstApple false example_results <= 1300.
Proof.
  split; [vm_compute; reflexivity|].
  refine (proj1 (calibration_median example_results 1100 1300 _)).
  apply Nat.leb_le. vm_compute. reflexivity.
Defined.

Lemma calibration_few_answers_witness :
  calibrateAgainstApple false [mkResult 10 900000000 "a"; mkResult 11 900000000 "b"] = 0.
Proof. apply calibration_few_answers. simpl. lia. Defined.

Lemma ntpTriplePoll_kept_witness :
  poll_kept (ntpTriplePoll (fun i => if decide (i = 0%nat) then Some (mkResponse (-5) 20)
                                     else Some (mkResponse (-9) 22))) = true.
Proof.
  apply ntpTriplePoll_kept.
  - intros i r. case_decide; intros [= <-]; simpl; lia.
  - eexists _, _. split_and!; [reflexivity|reflexivity|]. right.
    split_and!; [simpl; lia|simpl; lia|vm_compute; reflexivity].
Defined.
