(* ===== verification/Clock.v ===== *)
(** * The corrected clock and the second ticks (timecorrection.go, main.go: main,
    sysClockTicker, ppsClockTicker)

    The offset of the clock is calibrated on demand and cached for half an hour. The
    loops sleep until the next whole second of the corrected clock. *)

From S2P Require Import Prelude Bytes GoTime Acks Session PlainCodec Handshake System Ntp.
Local Open Scope Z_scope.

(** ** The offset *)

(** The variables [timeOffset] and [lastSync]. *)
Record clock_state := mkClock { timeOffset : Z; lastSync : Time }.

Definition initial_clock : clock_state := mkClock 0 zeroTime.

(** A calibration, from outside: the offset it returns and the instant at which it
    ends, when it sets [lastSync]. *)
Record calibration := mkCalibration { cal_offset : Z; cal_end : Time }.

(** [func getTimeOffset() time.Duration]: [now] is the reading of [time.Since], [cal]
    the calibration that would run. The exit is taken when the offset is more than a
    second of positive duration. *)
Definition getTimeOffset (now : Time) (cal : calibration) (st : clock_state)
    : result fatal_error (Z * clock_state) :=
  if decide (IsZero (lastSync st) = true \/ Since now (lastSync st) > Minute * 30) then
    let st := mkClock (cal_offset cal) (cal_end cal) in
    if decide (timeOffset st > Second) then Err Fatal else Ok (timeOffset st, st)
  else Ok (timeOffset st, st).

(** [func timeNowCorrected() time.Time]: [time.Now] is evaluated first, at [now0], then
    the offset. *)
Definition timeNowCorrected (now0 now : Time) (cal : calibration) (st : clock_state)
    : result fatal_error (Time * clock_state) :=
  '(off, st) ← getTimeOffset now cal st; Ok (TimeAdd now0 off, st).

(** [a + 1] as an instant of the uncorrected clock:
    [time.Unix(a+1, 0).Add(timeOffset * -1)]. *)
Definition next_second (corrected : Time) (offset : Z) : Time :=
  TimeAdd (time_Unix (Unix corrected + 1) 0) (offset * -1).

(** How long the loops sleep, at the reading [now]. *)
Definition sleep_time (corrected now : Time) (offset : Z) : Z :=
  Until now (next_second corrected offset).

(** ** The ticks *)

(** [select { case v.pulse <- true: default: }]: whether the value is taken. A send on a
    nil channel is never ready; [ready] tells whether a receiver waits on a made one. *)
Definition pulse_send (v : session) (ready : bool) : bool :=
  match pulse v with None => false | Some _ => ready end.

(** One round of [sysClockTicker] and of [ppsClockTicker] after the wait: the pulses to
    the sessions listed in the round before, and the sessions of the table, in the order
    [order] of its keys, for the next round. *)
Definition ticker_round (ready : loc -> bool) (sessionList : list loc) (order : list Z)
    (w : world) : list bool * list loc :=
  (map (fun l => match w_heap w !! l with
                 | Some v => pulse_send v (ready l)
                 | None => false
                 end) sessionList,
   omap (fun id => w_table w !! id) order).

(** ** The flags of main *)

(** With a pulse-per-second source the clock is assumed to be right. *)
Definition clock_is_perfect (usePPS flagClockIsPerfect : bool) : bool :=
  if usePPS && negb flagClockIsPerfect then true else flagClockIsPerfect.

(** The offset of a calibration under the flags and the answers of the servers. *)
Definition calibrated_offset `{Sorter} (usePPS flag : bool) (results : list ntpResult) : Z :=
  calibrateAgainstApple (clock_is_perfect usePPS flag) results.

(** ** Lemmas *)

Lemma getTimeOffset_cached now cal st :
  IsZero (lastSync st) = false -> Since now (lastSync st) <= Minute * 30 ->
  getTimeOffset now cal st = Ok (timeOffset st, st).
Proof.
  intros Hz Hs. unfold getTimeOffset. rewrite decide_False; [done|].
  intros [H|H]; [congruence|lia].
Qed.

Lemma getTimeOffset_bound now cal st off st' :
  timeOffset st <= Second -> getTimeOffset now cal st = Ok (off, st') ->
  off = timeOffset st' /\ timeOffset st' <= Second.
Proof.
  intros Hst. unfold getTimeOffset. case_decide; [case_decide; [done|]|];
    intros [= <- <-]; (split; [done|]); simpl in *; lia.
Qed.

Lemma sleep_exact a now' o :
  in_era now' -> in_era (next_second a o) ->
  sleep_time a now' o = (Unix a + 1) * Second - o - wall now'.
Proof.
  intros Hn Hs. unfold sleep_time, Until.
  rewrite Sub_wall by (done || (left; done)). unfold next_second, time_Unix. cbn [wall TimeAdd]. lia.
Qed.

(** ** Properties *)

(** The offset is calibrated at the first use and then at most once in half an hour:
    a call within 30 minutes of the last synchronisation returns the cached offset
    without a query and changes nothing; and no call returns an offset of more than a
    second, since the process exits instead. *)
Lemma getTimeOffset_cache_and_bound now cal st :
  timeOffset st <= Second ->
  (IsZero (lastSync st) = false -> Since now (lastSync st) <= Minute * 30 ->
     getTimeOffset now cal st = Ok (timeOffset st, st)) /\
  (forall off st', getTimeOffset now cal st = Ok (off, st') ->
     off = timeOffset st' /\ timeOffset st' <= Second) /\
  (IsZero (lastSync st) = true ->
     getTimeOffset now cal st =
       if decide (cal_offset cal > Second) then Err Fatal
       else Ok (cal_offset cal, mkClock (cal_offset cal) (cal_end cal))).
Proof.
  intros Hst. split_and!.
  - apply getTimeOffset_cached.
  - intros off st' H. by apply (getTimeOffset_bound now cal st).
  - intros Hz. unfold getTimeOffset. rewrite decide_True by (by left). done.
Qed.

Lemma getTimeOffset_cache_and_bound_witness :
  getTimeOffset (a_moment 60) (mkCalibration 77 (a_moment 61)) (mkClock 5 (a_moment 0))
    = Ok (5, mkClock 5 (a_moment 0)).
Proof.
  refine (proj1 (getTimeOffset_cache_and_bound (a_moment 60) (mkCalibration 77 (a_moment 61))
    (mkClock 5 (a_moment 0)) _) _ _).
  - simpl. unfold Second. lia.
  - vm_compute. reflexivity.
  - vm_compute. discriminate.
Defined.

(** The guard on the offset looks at one sign only: a clock that is ahead, by however
    much, is accepted, while one that is behind by more than a second ends the
    process. *)
Lemma getTimeOffset_accepts_negative now cal st :
  IsZero (lastSync st) = true -> cal_offset cal <= 0 ->
  getTimeOffset now cal st = Ok (cal_offset cal, mkClock (cal_offset cal) (cal_end cal)).
Proof.
  intros Hz Hc. unfold getTimeOffset. rewrite decide_True by (by left). simpl.
  rewrite decide_False; [done|]. unfold Second. lia.
Qed.

Lemma getTimeOffset_accepts_negative_witness :
  getTimeOffset (a_moment 1) (mkCalibration (-86400 * Second) (a_moment 6)) initial_clock
    = Ok (-86400 * Second, mkClock (-86400 * Second) (a_moment 6)).
Proof.
  apply (getTimeOffset_accepts_negative (a_moment 1)
    (mkCalibration (-86400 * Second) (a_moment 6)) initial_clock).
  - vm_compute. reflexivity.
  - unfold Second. simpl. lia.
Defined.

(** C27: the ticks fall on the whole seconds of the corrected clock: whatever the time that
    passes between the reading that selects the second and the one that sets the sleep,
    waking up after the computed sleep is waking up exactly when the corrected clock
    shows the next whole second, and the sleep from the first reading is longer than 0
    and at most a second. *)
Theorem tick_on_corrected_second now now' o :
  in_era now' -> in_era (next_second (TimeAdd now o) o) ->
  let woken := wall now' + sleep_time (TimeAdd now o) now' o in
  woken + o = (Unix (TimeAdd now o) + 1) * Second /\
  0 < woken - wall now <= Second.
Proof.
  intros Hn Hs. cbn zeta. rewrite sleep_exact by done. split; [lia|].
  pose proof (Unix_bounds (TimeAdd now o)) as Hu. cbn [wall TimeAdd] in Hu. lia.
Qed.

Lemma tick_on_corrected_second_witness :
  let now := a_moment 3 in
  let woken := wall (a_moment 3) + sleep_time (TimeAdd now 250000000) (a_moment 3) 250000000 in
  woken + 250000000 = (Unix (TimeAdd now 250000000) + 1) * Second /\
  0 < woken - wall now <= Second.
Proof.
  apply (tick_on_corrected_second (a_moment 3) (a_moment 3) 250000000); by vm_compute.
Defined.

(** The tickers never deliver a pulse: the channel [pulse] of a session is never made,
    so in every reachable state each of their sends takes the default case. *)
Lemma pulses_never_delivered {C : Codec} {L : CodecLaws C} w ready sessionList order :
  reachable w -> Forall (fun b => b = false) (fst (ticker_round ready sessionList order w)).
Proof.
  intros Hr. unfold ticker_round. cbn [fst]. apply List.Forall_map, Forall_forall.
  intros l _. destruct (w_heap w !! l) as [v|] eqn:Hl; [|done].
  destruct (inv_heap _ (reachable_inv w Hr) _ _ Hl) as (_ & _ & _ & _ & _ & _ & Hp & _).
  unfold pulse_send. by rewrite Hp.
Qed.

Lemma pulses_never_delivered_witness :
  snd (ticker_round (fun _ => true) [] [7] example_world) = [1%positive] /\
  Forall (fun b => b = false)
    (fst (ticker_round (fun _ => true) [1%positive] [7] example_world)).
Proof.
  split; [vm_compute; reflexivity|].
  exact (pulses_never_delivered example_world (fun _ => true) [1%positive] [7]
           example_reachable).
Defined.
