(* ===== verification/Prom.v ===== *)
(** * The exported metrics (prom.go)

    Each scrape walks the session table and sets, per direction and host, the latency
    and, when there are figures, the loss. A gauge holds the integer that the code
    converts to float64: a duration, or a number of 32nds. The host label is the text of
    the address. *)

From S2P Require Import Prelude Bytes GoTime Acks Iface Session PlainCodec Handshake IPText System.
Local Open Scope Z_scope.

Inductive direction := Rx | Tx.

#[export] Instance direction_eq_dec : EqDecision direction.
Proof. solve_decision. Defined.
#[export] Instance direction_countable : Countable direction.
Proof.
  refine (inj_countable' (fun d => match d with Rx => true | Tx => false end)
            (fun b => if b then Rx else Tx) _). by intros [].
Defined.

(** [PeerAddress.String()]; a nil address is empty. *)
Definition label : Type := bytes.
Definition host_label (a : option bytes) : label := IP_String (default [] a).

Record metrics := mkMetrics {
  promLatency : gmap (direction * label) Z;
  promLoss : gmap (direction * label) Z;
}.

(** The gauges of one session. *)
Definition set_gauges (host : label) (st : stats) (m : metrics) : metrics :=
  let lat := <[(Tx, host) := st_TXLatency st]> (<[(Rx, host) := st_RXLatency st]> (promLatency m)) in
  let loss :=
    if decide (st_TotalSent st = 32)
    then <[(Tx, host) := st_TXLoss st]> (<[(Rx, host) := st_RXLoss st]> (promLoss m))
    else promLoss m in
  mkMetrics lat loss.

(** The body of the range loop of [measure], for the key [id]; [clock id] gives the
    readings of the clock made for that session. *)
Definition measure_one (clock : Z -> nat -> Time) (w : world) (m : metrics) (id : Z)
    : result unit metrics :=
  match lookup_session w id with
  | None => Ok m
  | Some (_, v) =>
      st ← getStats (clock id) (LastRX v) (LastRXPing v) (LastAcks v);
      Ok (set_gauges (host_label (PeerAddress v)) st m)
  end.

(** [func (c Collector) measure() error], over the keys of the table in iteration
    order. *)
Fixpoint measure (clock : Z -> nat -> Time) (order : list Z) (w : world) (m : metrics)
    : result unit metrics :=
  match order with
  | [] => Ok m
  | id :: order => m ← measure_one clock w m id; measure clock order w m
  end.

(** ** Lemmas *)

Lemma getStats_returns clock timeRX rx ours :
  (forall i, in_era (clock i)) ->
  exists st, getStats clock timeRX rx ours = Ok st /\
    (st_TotalSent st = 32 -> 0 <= st_RXLoss st <= 31 /\ 0 <= st_TXLoss st <= 31).
Proof.
  intros He. unfold getStats. destruct (newest_ack clock 0 _ 0 _) as [n txl].
  assert (Hu : 0 <= Unix (clock n)).
  { pose proof (He n) as Hn. unfold in_era in Hn. unfold Unix, Second. zdiv. }
  rewrite getLoss_spec by done.
  assert (Hb : forall acks, 0 <= missing acks (window (ping_id (Unix (clock n)))) <= 31).
  { intros acks. pose proof (missing_bounds acks (window (ping_id (Unix (clock n))))) as Hm.
    rewrite length_window in Hm. unfold window_len in Hm. case_decide; lia. }
  destruct (dumbLastAckSearchForID 0 ours); eexists; (split; [reflexivity|]); simpl; [lia|].
  intros _. split; apply Hb.
Qed.

(** The receive latency is the clock difference of the last ping and its arrival. *)
Lemma getStats_RXLatency clock timeRX rx ours st :
  getStats clock timeRX rx ours = Ok st -> st_RXLatency st = Sub timeRX (p_TXTime rx).
Proof.
  unfold getStats. destruct (newest_ack _ 0 _ 0 _) as [n txl].
  destruct (getLoss _ _ _) as [[[r t] s]| | |]; intros Hst; try discriminate Hst.
  apply Ok_inj in Hst. by subst st.
Qed.

Lemma example_session_7 : exists l v, lookup_session example_world 7 = Some (l, v) /\
  PeerAddress v = Some [10; 0; 0; 2] /\ Sub (LastRX v) (p_TXTime (LastRXPing v)) = 0.
Proof.
  assert (H : match lookup_session example_world 7 with
    | Some (_, v) => bool_decide (PeerAddress v = Some [10; 0; 0; 2]) &&
        (Sub (LastRX v) (p_TXTime (LastRXPing v)) =? 0)
    | None => false end = true) by (vm_compute; reflexivity).
  destruct (lookup_session example_world 7) as [[l v]|]; [|discriminate H].
  apply andb_prop in H as [H1%bool_decide_eq_true H2%Z.eqb_eq]. by exists l, v.
Qed.

(** A gauge of loss never reaches 32 of 32. *)
Definition loss_below (m : metrics) : Prop :=
  forall k n, promLoss m !! k = Some n -> 0 <= n <= 31.

Lemma set_gauges_loss host st m :
  loss_below m ->
  (st_TotalSent st = 32 -> 0 <= st_RXLoss st <= 31 /\ 0 <= st_TXLoss st <= 31) ->
  loss_below (set_gauges host st m).
Proof.
  intros Hm Hst k n. unfold set_gauges. simpl. case_decide as H32; [|apply Hm].
  specialize (Hst H32).
  intros [[_ <-]|[_ [[_ <-]|[_ H]]%lookup_insert_Some]]%lookup_insert_Some; [lia|lia|].
  by apply Hm in H.
Qed.

Lemma measure_returns clock order w m :
  (forall id i, in_era (clock id i)) -> loss_below m ->
  exists m', measure clock order w m = Ok m' /\ loss_below m'.
Proof.
  intros He. revert m. induction order as [|id order IH]; intros m Hm; simpl; [eauto|].
  unfold measure_one. destruct (lookup_session w id) as [[l v]|]; [|by apply IH].
  destruct (getStats_returns (clock id) (LastRX v) (LastRXPing v) (LastAcks v) (He id))
    as (st & -> & Hst). rewrite !bind_Ok. apply IH. by apply set_gauges_loss.
Qed.

(** The sessions of the other keys print another host. *)
Definition label_apart (w : world) (host : label) (id : Z) : Prop :=
  forall l v, lookup_session w id = Some (l, v) -> host_label (PeerAddress v) <> host.

Lemma measure_one_other clock w m m' id host d :
  measure_one clock w m id = Ok m' -> label_apart w host id ->
  promLatency m' !! (d, host) = promLatency m !! (d, host) /\
  promLoss m' !! (d, host) = promLoss m !! (d, host).
Proof.
  unfold measure_one. destruct (lookup_session w id) as [[l v]|] eqn:Hl; [|by intros [= <-]].
  intros H Hap. apply bind_Ok_inv in H as (st & _ & H%Ok_inj). subst m'.
  specialize (Hap l v Hl). unfold set_gauges. simpl.
  rewrite !lookup_insert_ne by congruence. split; [done|].
  case_decide; [|done]. by rewrite !lookup_insert_ne by congruence.
Qed.

Lemma measure_other clock order w m m' host d :
  measure clock order w m = Ok m' -> Forall (label_apart w host) order ->
  promLatency m' !! (d, host) = promLatency m !! (d, host) /\
  promLoss m' !! (d, host) = promLoss m !! (d, host).
Proof.
  revert m. induction order as [|id order IH]; intros m; simpl; [by intros [= <-]|].
  intros H [Hap Hrest]%Forall_cons_1. apply bind_Ok_inv in H as (m1 & Hone & H).
  destruct (measure_one_other _ _ _ _ _ _ d Hone Hap) as [<- <-]. by apply IH.
Qed.

Lemma measure_app clock o1 o2 w m :
  measure clock (o1 ++ o2) w m = (m1 ← measure clock o1 w m; measure clock o2 w m1).
Proof.
  revert m. induction o1 as [|id o1 IH]; intros m; simpl; [done|].
  destruct (measure_one clock w m id); simpl; [apply IH|done..].
Qed.

(** ** Properties *)

(** Every scrape succeeds, and no exported loss ever reaches 1: a gauge of loss is at
    most 31/32, even for a host whose pings are all lost. *)
Lemma measure_loss_below_one clock order w m :
  (forall id i, in_era (clock id i)) -> loss_below m ->
  exists m', measure clock order w m = Ok m' /\
    forall k n, promLoss m' !! k = Some n -> 0 <= n < 32.
Proof.
  intros He Hm. destruct (measure_returns clock order w m He Hm) as (m' & Hr & Hl).
  exists m'. split; [done|]. intros k n Hk. apply Hl in Hk. lia.
Qed.

Definition empty_metrics : metrics := mkMetrics ∅ ∅.

Lemma measure_loss_below_one_witness :
  exists m', measure (fun _ _ => a_moment 9) [7] example_world empty_metrics = Ok m' /\
    forall k n, promLoss m' !! k = Some n -> 0 <= n < 32.
Proof.
  apply measure_loss_below_one.
  - intros _ _. by vm_compute.
  - intros k n Hk. discriminate Hk.
Defined.

(** C34: after a scrape, the gauges of a host that one session of the table has hold the
    statistics of that session: its receive and send latencies, and its losses when 32
    exchanges are known, the loss gauges being left alone otherwise. *)
Theorem measure_exports_session clock o1 id o2 w m l v st :
  (forall id i, in_era (clock id i)) ->
  lookup_session w id = Some (l, v) ->
  Forall (label_apart w (host_label (PeerAddress v))) (o1 ++ o2) ->
  getStats (clock id) (LastRX v) (LastRXPing v) (LastAcks v) = Ok st ->
  exists m', measure clock (o1 ++ id :: o2) w m = Ok m' /\
    let host := host_label (PeerAddress v) in
    promLatency m' !! (Rx, host) = Some (st_RXLatency st) /\
    promLatency m' !! (Tx, host) = Some (st_TXLatency st) /\
    (st_TotalSent st = 32 ->
       promLoss m' !! (Rx, host) = Some (st_RXLoss st) /\
       promLoss m' !! (Tx, host) = Some (st_TXLoss st)) /\
    (st_TotalSent st <> 32 -> forall d, promLoss m' !! (d, host) = promLoss m !! (d, host)).
Proof.
  intros He Hl [Hap1 Hap2]%Forall_app Hst.
  assert (Hok : forall order m0, exists m', measure clock order w m0 = Ok m').
  { intros order. induction order as [|i order IH]; intros m0; simpl; [eauto|].
    unfold measure_one. destruct (lookup_session w i) as [[l' v']|]; [|apply IH].
    destruct (getStats_returns (clock i) (LastRX v') (LastRXPing v') (LastAcks v') (He i))
      as (st' & -> & _). rewrite !bind_Ok. apply IH. }
  destruct (Hok o1 m) as [m1 Hm1].
  set (m2 := set_gauges (host_label (PeerAddress v)) st m1).
  destruct (Hok o2 m2) as [m3 Hm3]. exists m3. split.
  { rewrite measure_app, Hm1, bind_Ok. simpl. unfold measure_one.
    by rewrite Hl, Hst, !bind_Ok. }
  cbn zeta.
  pose proof (fun d => measure_other _ _ _ _ _ (host_label (PeerAddress v)) d Hm1 Hap1) as H1.
  pose proof (fun d => measure_other _ _ _ _ _ (host_label (PeerAddress v)) d Hm3 Hap2) as H3.
  rewrite !(proj1 (H3 _)). unfold m2, set_gauges. simpl.
  rewrite lookup_insert_ne, lookup_insert_eq, lookup_insert_eq by done.
  split_and!; [done|done| |].
  - intros H32. rewrite !(proj2 (H3 _)). unfold m2, set_gauges. simpl.
    rewrite decide_True by done. by rewrite lookup_insert_ne, lookup_insert_eq, lookup_insert_eq.
  - intros H32 d. rewrite (proj2 (H3 d)). unfold m2, set_gauges. simpl.
    rewrite decide_False by done. apply H1.
Qed.

Lemma measure_exports_session_witness :
  exists m', measure (fun _ _ => a_moment 9) [7] example_world empty_metrics = Ok m' /\
    promLatency m' !! (Rx, host_label (Some [10; 0; 0; 2])) = Some 0.
Proof.
  destruct example_session_7 as (l & v & Hl & Hpeer & Hlat0).
  destruct (getStats_returns (fun _ => a_moment 9) (LastRX v) (LastRXPing v) (LastAcks v))
    as (st & Hst & _); [intros _; by vm_compute|].
  destruct (measure_exports_session (fun _ _ => a_moment 9) [] 7 [] example_world empty_metrics
    l v st) as (m' & Hm & Hlat & _).
  - intros _ _. by vm_compute.
  - exact Hl.
  - constructor.
  - exact Hst.
  - exists m'. split; [exact Hm|].
    apply getStats_RXLatency in Hst. rewrite Hpeer in Hlat.
    rewrite Hlat, Hst, Hlat0. reflexivity.
Defined.

(** *** The labels *)

(** Whether a host label already has a gauge of the latency. *)
Definition exported (host : label) (m : metrics) : Prop :=
  forall d, is_Some (promLatency m !! (d, host)).

Lemma set_gauges_keeps host host' st m : exported host m -> exported host (set_gauges host' st m).
Proof.
  intros He d. unfold set_gauges. cbn [promLatency]. rewrite !lookup_insert_is_Some.
  specialize (He d). by destruct (decide ((Tx, host') = (d, host))), (decide ((Rx, host') = (d, host)));
    auto.
Qed.

Lemma measure_keeps clock order w m m' host :
  exported host m -> measure clock order w m = Ok m' -> exported host m'.
Proof.
  revert m. induction order as [|id order IH]; intros m He; simpl; [by intros [= <-]|].
  intros H. apply bind_Ok_inv in H as (m1 & H1 & H). apply (IH m1); [|done].
  unfold measure_one in H1. destruct (lookup_session w id) as [[l v]|]; [|by injection H1 as <-].
  apply bind_Ok_inv in H1 as (st & _ & H1%Ok_inj). subst m1. by apply set_gauges_keeps.
Qed.

(** The scrapes of the program, one after the other, each of its own world. *)
Fixpoint scrapes (rounds : list ((Z -> nat -> Time) * list Z * world)) (m : metrics)
    : result unit metrics :=
  match rounds with
  | [] => Ok m
  | (clock, order, w) :: rounds => m ← measure clock order w m; scrapes rounds m
  end.

(** A host that was exported once is exported for ever: the gauges are never reset, so
    every later scrape still reports it, although the collector has removed its session
    and the table knows no session of that host any more. *)
Lemma stale_hosts_stay rounds m m' host :
  exported host m -> scrapes rounds m = Ok m' -> exported host m'.
Proof.
  revert m. induction rounds as [|[[clock order] w] rounds IH]; intros m He; simpl;
    [by intros [= <-]|].
  intros H. apply bind_Ok_inv in H as (m1 & H1 & H). apply (IH m1); [|done].
  by eapply measure_keeps.
Qed.

Lemma stale_hosts_stay_witness :
  exists m m', measure (fun _ _ => a_moment 9) [7] example_world empty_metrics = Ok m /\
    scrapes [(fun _ _ => a_moment 500, [], empty_world)] m = Ok m' /\
    exported (IP_String [10; 0; 0; 2]) m'.
Proof.
  destruct (measure_returns (fun _ _ => a_moment 9) [7] example_world empty_metrics)
    as (m & Hm & _); [intros _ _; by vm_compute|done|].
  exists m, m. split; [exact Hm|]. split; [reflexivity|].
  apply (stale_hosts_stay [(fun _ _ => a_moment 500, [], empty_world)] m m); [|reflexivity].
  destruct example_session_7 as (l & v & Hl & Hpeer & _).
  destruct (getStats_returns (fun _ => a_moment 9) (LastRX v) (LastRXPing v) (LastAcks v))
    as (st & Hst & _); [intros _; by vm_compute|].
  simpl in Hm. unfold measure_one in Hm. rewrite Hl, Hst, !bind_Ok in Hm.
  apply Ok_inj in Hm. subst m. rewrite Hpeer. intros []; unfold set_gauges; cbn [promLatency].
  - rewrite lookup_insert_ne by done. rewrite lookup_insert_eq. by eexists.
  - rewrite lookup_insert_eq. by eexists.
Defined.

(** The gauges of a host are those of the session the runtime yields last: when both
    ends were told to start a session with each other, each has two sessions with the
    same peer, and the order of iteration, which Go leaves open, decides which of the two
    is exported. *)
Lemma shared_host_last_wins clock w m a b la lb va vb sta stb :
  lookup_session w a = Some (la, va) -> lookup_session w b = Some (lb, vb) ->
  host_label (PeerAddress va) = host_label (PeerAddress vb) ->
  getStats (clock a) (LastRX va) (LastRXPing va) (LastAcks va) = Ok sta ->
  getStats (clock b) (LastRX vb) (LastRXPing vb) (LastAcks vb) = Ok stb ->
  let host := host_label (PeerAddress va) in
  exists mab mba, measure clock [a; b] w m = Ok mab /\ measure clock [b; a] w m = Ok mba /\
    promLatency mab !! (Rx, host) = Some (st_RXLatency stb) /\
    promLatency mba !! (Rx, host) = Some (st_RXLatency sta).
Proof.
  intros Ha Hb Hh Hsa Hsb host. unfold host. clear host.
  simpl. unfold measure_one. rewrite Ha, Hb, Hsa, Hsb, !bind_Ok. simpl.
  eexists _, _. split_and!; [reflexivity|reflexivity| |]; unfold set_gauges; cbn [promLatency].
  - rewrite Hh, lookup_insert_ne by done. by rewrite lookup_insert_eq.
  - rewrite lookup_insert_ne by done. by rewrite lookup_insert_eq.
Qed.

(** Both ends invited each other: session 7 was accepted and session 9 was started. *)
Definition mutual_world : world :=
  default empty_world (run (example_events ++ [EClientInvite 9 [10; 0; 0; 2] (a_moment 3)])
    empty_world).

Lemma shared_host_last_wins_witness :
  exists la va lb vb mab mba,
    lookup_session mutual_world 7 = Some (la, va) /\ lookup_session mutual_world 9 = Some (lb, vb) /\
    measure (fun _ _ => a_moment 9) [7; 9] mutual_world empty_metrics = Ok mab /\
    measure (fun _ _ => a_moment 9) [9; 7] mutual_world empty_metrics = Ok mba.
Proof.
  assert (H : match lookup_session mutual_world 7, lookup_session mutual_world 9 with
    | Some (_, va), Some (_, vb) =>
        bool_decide (host_label (PeerAddress va) = host_label (PeerAddress vb))
    | _, _ => false end = true) by (vm_compute; reflexivity).
  destruct (lookup_session mutual_world 7) as [[la va]|] eqn:Ha; [|discriminate H].
  destruct (lookup_session mutual_world 9) as [[lb vb]|] eqn:Hb; [|discriminate H].
  apply bool_decide_eq_true in H.
  destruct (getStats_returns (fun _ => a_moment 9) (LastRX va) (LastRXPing va) (LastAcks va))
    as (sta & Hsa & _); [intros _; by vm_compute|].
  destruct (getStats_returns (fun _ => a_moment 9) (LastRX vb) (LastRXPing vb) (LastAcks vb))
    as (stb & Hsb & _); [intros _; by vm_compute|].
  destruct (shared_host_last_wins (fun _ _ => a_moment 9) mutual_world empty_metrics 7 9 la lb
    va vb sta stb Ha Hb H Hsa Hsb) as (mab & mba & H1 & H2 & _).
  exists la, va, lb, vb, mab, mba. by split_and!.
Defined.
