(* ===== verification/Statements.v ===== *)
(** * The statements of the goroutines (main.go, sessionhandle.go, prom.go)

    System.v runs a handler in one step. Here every goroutine is a program counter, and a
    step is one statement, or one part of a statement, that makes at most one access to
    the session table, to [sessionLock] or to a field that changes of a session object:
    an increment is a read and a write, and an array is copied slot by slot. Accesses to
    fields are taken to happen one after the other. The one larger step is the scrape of
    one session, which reads the ring several times and writes nothing that is shared
    with the other goroutines. *)

From S2P Require Import Prelude Bytes GoTime Acks Session PlainCodec Handshake System Clock.
From S2P Require Import Prom.
Local Open Scope Z_scope.

(** ** Programs *)

(** Who inserts a session: [handleTCPconnection] or [startSession]. *)
Inductive inserter := ByServer (made : Time) | ByClient (ip : bytes) (made : Time).

Definition session_of (who : inserter) (id : Z) : session :=
  match who with
  | ByServer made => server_session id made
  | ByClient ip made => client_session id ip made
  end.

Definition kind_of (who : inserter) : waiter_kind :=
  match who with ByServer _ => WaitForHandshake | ByClient _ _ => SendUDPHandshake end.

(** *** The handler of a ping *)

(** Its local variables: [timeRX], [rx], [rxAddr], [lSocket] and [ses]. *)
Record packet_job := mkPacketJob {
  pj_timeRX : Time;
  pj_rx : pingStruct;
  pj_from : UDPAddr;
  pj_conn : conn;
  pj_ses : loc;
}.

(** [ses.LastAcks[ses.getNextAckSlot()] = pI] from the test of [getNextAckSlot] on. *)
Inductive slot_pc :=
  | SlotTest                  (* s.nextAckSlot != 31 *)
  | SlotLoad                  (* s.nextAckSlot + 1: the read *)
  | SlotAdd (v : Z)           (* the write *)
  | SlotReset                 (* s.nextAckSlot = 0 *)
  | SlotReturn                (* return s.nextAckSlot *)
  | SlotIndex (slot : Z).     (* ses.LastAcks[slot] = pI *)

(** The assignments after it. *)
Inductive packet_field := FieldReplyWith | FieldReplyTo | FieldLastRX | FieldLastRXPing.

(** *** The handler of a handshake *)

Record inbound_job := mkInboundJob { ij_buf : bytes; ij_from : UDPAddr; ij_ses : loc }.

(** [was] is the variable [wasAlreadyActivated]. *)
Inductive inbound_pc :=
  | InboundTest
  | InboundWas
  | InboundReplyTo (was : bool)
  | InboundReplyWith (was : bool)
  | InboundActivate (was : bool)
  | InboundPeerTest (was : bool)
  | InboundPeer (was : bool)
  | InboundNotify (was : bool)
  | InboundSocket
  | InboundEcho (c : conn).

(** *** The ticks of a waiter and the iterations of a ping loop *)

(** The goroutine by its index, with its session. *)
Record tick_job := mkTickJob { tj_g : nat; tj_kind : waiter_kind; tj_ses : loc }.

Inductive tick_pc := WTest | WPeer | WSocket (b : bytes) (to : UDPAddr).

Record ping_job := mkPingJob { gj_g : nat; gj_ses : loc; gj_started : Time }.

Inductive ping_pc :=
  | PingSleep
  | PingLive
  | PingCurrent
  | PingID
  | PingTX (id : Z)
  | PingCopy (id : Z) (tx : Time) (acks : list pingInfo)
  | PingReplyTo (b : bytes)
  | PingSocket (b : bytes)
  | PingAddr (b : bytes) (c : conn).

(** *** The next statement of a goroutine *)
Inductive pc :=
  (* handlePacket *)
  | PacketClock (buf : bytes) (from : UDPAddr) (c : conn)
  | PacketLookup (timeRX : Time) (rx : pingStruct) (from : UDPAddr) (c : conn)
  | PacketTest (j : packet_job)
  | PacketSlot (j : packet_job) (p : slot_pc)
  | PacketField (j : packet_job) (f : packet_field)
  (* handleInboundHandshake *)
  | InboundLookup (buf : bytes) (rx : handshakeStruct) (from : UDPAddr)
  | Inbound (j : inbound_job) (p : inbound_pc)
  (* handleTCPconnection and startSession: lock, insert, unlock, go statement *)
  | InsLock (who : inserter) (id : Z)
  | InsStore (who : inserter) (id : Z)
  | InsWrite (who : inserter) (id : Z)
  | InsUnlock (who : inserter) (id : Z)
  | InsGo (who : inserter) (id : Z)
  (* startSession: an attempt to connect, and the monitor of the table *)
  | Dial (ip : bytes)
  | MonSleep (ip : bytes) (id : Z)
  | MonLock (ip : bytes) (id : Z)
  | MonLoad (ip : bytes) (id : Z)
  | MonUnlock (ip : bytes) (SessionExists : bool) (id : Z)
  (* sessionGC; [seen] are the keys the range loop has yielded *)
  | GCSleep
  | GCLock
  | GCRange (seen : list Z)
  | GCTest (seen : list Z) (id : Z) (ses : loc)
  | GCTestUDP (seen : list Z) (id : Z) (ses : loc)
  | GCDelete (seen : list Z) (id : Z)
  | GCWrite (seen : list Z) (id : Z)
  | GCUnlock
  (* sysClockTicker and ppsClockTicker *)
  | TickWait (sessionList : list loc)
  | TickLock
  | TickRange (seen : list Z) (sessionList : list loc)
  | TickUnlock (sessionList : list loc)
  (* measure *)
  | MeasLock
  | MeasRange (seen : list Z)
  | MeasStats (seen : list Z) (ses : loc)
  | MeasUnlock
  (* a waiter in the case of its ticker, and a ping loop *)
  | WaiterTick (j : tick_job) (p : tick_pc)
  | Ping (j : ping_job) (p : ping_pc)
  | Returned.

(** Between [sessionLock.Lock()] and [sessionLock.Unlock()]. *)
Definition critical (p : pc) : bool :=
  match p with
  | InsStore _ _ | InsWrite _ _ | InsUnlock _ _ | MonLoad _ _ | MonUnlock _ _ _
  | GCRange _ | GCTest _ _ _ | GCTestUDP _ _ _ | GCDelete _ _ | GCWrite _ _ | GCUnlock
  | TickRange _ _ | TickUnlock _ | MeasRange _ | MeasStats _ _ | MeasUnlock => true
  | _ => false
  end.

(** In the middle of a write of the map. *)
Definition in_write (p : pc) : bool :=
  match p with InsWrite _ _ | GCWrite _ _ => true | _ => false end.

(** What the next statement reads or writes of the shared data. *)
Inductive target := SessionMap | SessionObj (l : loc).
Inductive mode := Read | Write.

Definition access (p : pc) : option (target * mode) :=
  match p with
  | PacketLookup _ _ _ _ | InboundLookup _ _ _ | InsGo _ _ | MonLoad _ _
  | GCRange _ | TickRange _ _ | MeasRange _ => Some (SessionMap, Read)
  | InsStore _ _ | InsWrite _ _ | GCDelete _ _ | GCWrite _ _ => Some (SessionMap, Write)
  | PacketTest j => Some (SessionObj (pj_ses j), Read)
  | PacketSlot j (SlotTest | SlotLoad | SlotReturn) => Some (SessionObj (pj_ses j), Read)
  | PacketSlot j _ | PacketField j _ => Some (SessionObj (pj_ses j), Write)
  | Inbound j (InboundTest | InboundWas | InboundPeerTest _ | InboundSocket | InboundEcho _) =>
      Some (SessionObj (ij_ses j), Read)
  | Inbound j (InboundNotify _) => None
  | Inbound j _ => Some (SessionObj (ij_ses j), Write)
  | GCTest _ _ l | GCTestUDP _ _ l | MeasStats _ l => Some (SessionObj l, Read)
  | WaiterTick j _ => Some (SessionObj (tj_ses j), Read)
  | Ping j PingCurrent => Some (SessionObj (gj_ses j), Write)
  | Ping j (PingSleep | PingTX _) => None
  | Ping j _ => Some (SessionObj (gj_ses j), Read)
  | _ => None
  end.

(** The statements that read the table without the lock: main.go:271 and 325, and the go
    statements of sessionhandle.go:81 and 195. *)
Definition unlocked_lookup (p : pc) : bool :=
  match p with PacketLookup _ _ _ _ | InboundLookup _ _ _ | InsGo _ _ => true | _ => false end.

(** ** The shared data *)

Record shared := mkShared {
  sh_world : world;
  sh_metrics : metrics;
  sh_lock : option nat;    (** the goroutine that holds [sessionLock] *)
  sh_writing : bool;       (** the mark the runtime sets during a write of [sessionMap] *)
}.

Definition with_world (w : world) (s : shared) : shared :=
  mkShared w (sh_metrics s) (sh_lock s) (sh_writing s).
Definition with_metrics (m : metrics) (s : shared) : shared :=
  mkShared (sh_world s) m (sh_lock s) (sh_writing s).
Definition with_lock (k : option nat) (s : shared) : shared :=
  mkShared (sh_world s) (sh_metrics s) k (sh_writing s).
Definition with_writing (b : bool) (s : shared) : shared :=
  mkShared (sh_world s) (sh_metrics s) (sh_lock s) b.

(** What a step takes from outside: nothing, the next key of a range loop or its end,
    readings of the clock, what a call of [timeNowCorrected] finds (the readings of
    [time.Now] and [time.Since], a calibration that may run, and the clock variables as
    the other goroutines left them), the answers of a peer to an attempt. *)
Inductive choice :=
  | Go
  | Key (id : Z)
  | EndRange
  | Reading (now : Time)
  | Readings (now1 now2 : Time)
  | Corrected (now0 now : Time) (cal : calibration) (clk : clock_state)
  | Clock (clock : nat -> Time)
  | Attempt (dial_ok : bool) (rd1 : bytes) (write_ok : bool) (rd2 : bytes) (made : Time).

Definition step_result : Type := option (result fatal_error (pc * shared)).

(** [sessionLock.Lock()] by goroutine [i]: blocked while the lock is held. *)
Definition acquire (i : nat) (p : pc) (s : shared) : step_result :=
  match sh_lock s with
  | None => Some (Ok (p, with_lock (Some i) s))
  | Some _ => None
  end.

(** [sessionLock.Unlock()] *)
Definition release (p : pc) (s : shared) : step_result := Some (Ok (p, with_lock None s)).

(** A read of [sessionMap], and the two halves of a write: the runtime ends the process
    when it finds the mark of a write. *)
Definition map_read {A} (s : shared) (a : A) : result fatal_error A :=
  if sh_writing s then Err ConcurrentMapAccess else Ok a.
Definition begin_write (p : pc) (s : shared) : step_result :=
  Some (if sh_writing s then Err ConcurrentMapAccess else Ok (p, with_writing true s)).
Definition end_write (p : pc) (w : world) (s : shared) : step_result :=
  Some (Ok (p, with_writing false (with_world w s))).

(** A statement on the object [*l]. *)
Definition on_session (l : loc) (s : shared)
    (k : session -> result fatal_error (pc * shared)) : step_result :=
  Some (match w_heap (sh_world s) !! l with None => Panic | Some v => k v end).

(** An assignment to fields of the object [*l]. *)
Definition assign (l : loc) (v : session) (p : pc) (s : shared) : result fatal_error (pc * shared) :=
  Ok (p, with_world (set_session l v (sh_world s)) s).

(** The range loop over [sessionMap] yields each key that is in the table when its turn
    comes, once, and ends when every key of the table was yielded. *)
Definition range_key (seen : list Z) (id : Z) (w : world) : option loc :=
  if decide (id ∈ seen) then None else w_table w !! id.

Definition range_done (seen : list Z) (w : world) : bool :=
  bool_decide (dom (w_table w) ⊆ (list_to_set seen : gset Z)).

(** *** Assignments to one field *)

Definition set_slot (n : Z) (s : session) : session :=
  mkSession (TCPActivated s) (UDPActivated s) (MadeByMe s) (PeerAddress s) (SessionMade s)
    (ReplyWith s) (ReplyTo s) (LastAcks s) (LastRX s) (CurrentID s) (SessionID s)
    n (LastRXPing s) (pulse s).
Definition set_acks (acks : list pingInfo) (s : session) : session :=
  mkSession (TCPActivated s) (UDPActivated s) (MadeByMe s) (PeerAddress s) (SessionMade s)
    (ReplyWith s) (ReplyTo s) acks (LastRX s) (CurrentID s) (SessionID s)
    (nextAckSlot s) (LastRXPing s) (pulse s).
Definition set_reply_to (to : UDPAddr) (s : session) : session :=
  mkSession (TCPActivated s) (UDPActivated s) (MadeByMe s) (PeerAddress s) (SessionMade s)
    (ReplyWith s) (Some to) (LastAcks s) (LastRX s) (CurrentID s) (SessionID s)
    (nextAckSlot s) (LastRXPing s) (pulse s).
Definition set_last_rx (t : Time) (s : session) : session :=
  mkSession (TCPActivated s) (UDPActivated s) (MadeByMe s) (PeerAddress s) (SessionMade s)
    (ReplyWith s) (ReplyTo s) (LastAcks s) t (CurrentID s) (SessionID s)
    (nextAckSlot s) (LastRXPing s) (pulse s).
Definition set_last_ping (rx : pingStruct) (s : session) : session :=
  mkSession (TCPActivated s) (UDPActivated s) (MadeByMe s) (PeerAddress s) (SessionMade s)
    (ReplyWith s) (ReplyTo s) (LastAcks s) (LastRX s) (CurrentID s) (SessionID s)
    (nextAckSlot s) rx (pulse s).
Definition set_peer (ip : bytes) (s : session) : session :=
  mkSession (TCPActivated s) (UDPActivated s) (MadeByMe s) (Some ip) (SessionMade s)
    (ReplyWith s) (ReplyTo s) (LastAcks s) (LastRX s) (CurrentID s) (SessionID s)
    (nextAckSlot s) (LastRXPing s) (pulse s).

(** [sessionMap[id] = &session{...}] *)
Definition store_session (id : Z) (s : session) (w : world) : world :=
  let l := fresh (dom (w_heap w)) in
  mkWorld (<[l := s]> (w_heap w)) (<[id := l]> (w_table w)) (w_globalReplyWith w)
    (w_gor w) (w_pending w) (w_sent w).

(** [go sessionMap[id].sendUDPHandshake()] and [go sessionMap[id].waitForHandshake()] *)
Definition go_waiter (k : waiter_kind) (id : Z) (w : world) : result fatal_error world :=
  match w_table w !! id with
  | None => Panic
  | Some l => Ok (set_gor (w_gor w ++ [Waiter k l WStarting]) w)
  end.

(** What an inserter does after its go statement: the connection ends, and
    [startSession] monitors the table. *)
Definition after_go (who : inserter) (id : Z) : pc :=
  match who with ByServer _ => Returned | ByClient ip _ => MonSleep ip id end.

(** The code [getStats] runs in has no error of its own. *)
Definition no_error {A} (r : result unit A) : result fatal_error A :=
  match r with Ok a => Ok a | Err _ => Err Fatal | Panic => Panic | Diverge => Diverge end.

(** The body of the range loop of [measure]. *)
Definition stats_of (clock : nat -> Time) (l : loc) (s : shared) : result fatal_error shared :=
  match w_heap (sh_world s) !! l with
  | None => Panic
  | Some v =>
      st ← no_error (getStats clock (LastRX v) (LastRXPing v) (LastAcks v));
      Ok (with_metrics (set_gauges (host_label (PeerAddress v)) st (sh_metrics s)) s)
  end.

(** ** Steps *)

(** [ses.LastAcks[ses.getNextAckSlot()] = pI] *)
Definition slot_step (j : packet_job) (p : slot_pc) (s : shared) : step_result :=
  let l := pj_ses j in
  on_session l s (fun v =>
    match p with
    | SlotTest => Ok (PacketSlot j (if decide (nextAckSlot v <> 31) then SlotLoad else SlotReset), s)
    | SlotLoad => Ok (PacketSlot j (SlotAdd (nextAckSlot v)), s)
    | SlotAdd n => assign l (set_slot (n + 1) v) (PacketSlot j SlotReturn) s
    | SlotReset => assign l (set_slot 0 v) (PacketSlot j SlotReturn) s
    | SlotReturn => Ok (PacketSlot j (SlotIndex (nextAckSlot v)), s)
    | SlotIndex slot =>
        if decide (0 <= slot < Z.of_nat (length (LastAcks v))) then
          let pI := mkPingInfo (p_ID (pj_rx j)) (p_TXTime (pj_rx j)) (pj_timeRX j) in
          assign l (set_acks (<[Z.to_nat slot := pI]> (LastAcks v)) v)
            (PacketField j FieldReplyWith) s
        else Panic
    end).

(** The assignments of [handlePacket] to the other fields. *)
Definition field_step (j : packet_job) (f : packet_field) (s : shared) : step_result :=
  let l := pj_ses j in
  on_session l s (fun v =>
    match f with
    | FieldReplyWith => assign l (set_reply_with (pj_conn j) v) (PacketField j FieldReplyTo) s
    | FieldReplyTo => assign l (set_reply_to (pj_from j) v) (PacketField j FieldLastRX) s
    | FieldLastRX => assign l (set_last_rx (pj_timeRX j) v) (PacketField j FieldLastRXPing) s
    | FieldLastRXPing => assign l (set_last_ping (pj_rx j) v) Returned s
    end).

(** [handleInboundHandshake] after the lookup. *)
Definition inbound_step (j : inbound_job) (p : inbound_pc) (s : shared) : step_result :=
  let l := ij_ses j in
  let w := sh_world s in
  on_session l s (fun v =>
    match p with
    | InboundTest =>
        Ok (if UDPActivated v && TCPActivated v then Returned else Inbound j InboundWas, s)
    | InboundWas => Ok (Inbound j (InboundReplyTo (UDPActivated v)), s)
    | InboundReplyTo was =>
        assign l (set_reply_to (ij_from j) v) (Inbound j (InboundReplyWith was)) s
    | InboundReplyWith was =>
        match w_globalReplyWith w with
        | None => Panic
        | Some c => assign l (set_reply_with c v) (Inbound j (InboundActivate was)) s
        end
    | InboundActivate was => assign l (set_udp v) (Inbound j (InboundPeerTest was)) s
    | InboundPeerTest was =>
        Ok (Inbound j (match PeerAddress v with
                       | None => InboundPeer was | Some _ => InboundNotify was end), s)
    | InboundPeer was =>
        assign l (set_peer (ua_IP (ij_from j)) v) (Inbound j (InboundNotify was)) s
    | InboundNotify was =>
        Ok (if negb was then Inbound j InboundSocket else Returned,
            with_world (set_gor (notify l (w_gor w)) w) s)
    | InboundSocket =>
        match ReplyWith v with None => Panic | Some c => Ok (Inbound j (InboundEcho c), s) end
    | InboundEcho c =>
        match ReplyTo v with
        | None => Ok (Returned, s)
        | Some to => Ok (Returned, with_world (send (mkDatagram SReply l c (ij_buf j) to) w) s)
        end
    end).

(** [handleTCPconnection] and [startSession] from the lock to the go statement *)
Definition insert_step (i : nat) (ch : choice) (p : pc) (s : shared) : step_result :=
  let w := sh_world s in
  match p, ch with
  | InsLock who id, Go => acquire i (InsStore who id) s
  | InsStore who id, Go => begin_write (InsWrite who id) s
  | InsWrite who id, Go =>
      end_write (InsUnlock who id) (store_session id (session_of who id) w) s
  | InsUnlock who id, Go => release (InsGo who id) s
  | InsGo who id, Go =>
      Some (w ← map_read s w; w' ← go_waiter (kind_of who) id w;
            Ok (after_go who id, with_world w' s))
  | _, _ => None
  end.

(** The attempts of [startSession] and its monitor of the table *)
Definition monitor_step (i : nat) (ch : choice) (p : pc) (s : shared) : step_result :=
  let w := sh_world s in
  match p, ch with
  | Dial ip, Attempt dial_ok rd1 write_ok rd2 made =>
      match negotiate dial_ok rd1 write_ok rd2 with
      | None => Some (Ok (Dial ip, s))
      | Some invite => Some (Ok (InsLock (ByClient ip made) invite, s))
      end
  | MonSleep ip id, Go => Some (Ok (MonLock ip id, s))
  | MonLock ip id, Go => acquire i (MonLoad ip id) s
  | MonLoad ip id, Go =>
      Some (ses ← map_read s (w_table w !! id);
            Ok (MonUnlock ip (bool_decide (is_Some ses)) id, s))
  | MonUnlock ip SessionExists id, Go =>
      release (if SessionExists then MonSleep ip id else Dial ip) s
  | _, _ => None
  end.

(** [sessionGC] *)
Definition gc_step (i : nat) (ch : choice) (p : pc) (s : shared) : step_result :=
  let w := sh_world s in
  match p, ch with
  | GCSleep, Go => Some (Ok (GCLock, s))
  | GCLock, Go => acquire i (GCRange []) s
  | GCRange seen, Key id =>
      l ← range_key seen id w; Some (l ← map_read s l; Ok (GCTest (id :: seen) id l, s))
  | GCRange seen, EndRange => if range_done seen w then Some (map_read s (GCUnlock, s)) else None
  | GCTest seen id l, Reading now =>
      on_session l s (fun ses =>
        Ok (if decide (Since now (LastRX ses) > Minute) then GCDelete seen id
            else GCTestUDP seen id l, s))
  | GCTestUDP seen id l, Reading now =>
      on_session l s (fun ses =>
        Ok (if negb (UDPActivated ses) && bool_decide (Since now (SessionMade ses) > Second * 20)
            then GCDelete seen id else GCRange seen, s))
  | GCDelete seen id, Go => begin_write (GCWrite seen id) s
  | GCWrite seen id, Go => end_write (GCRange seen) (set_table (delete id (w_table w)) w) s
  | GCUnlock, Go => release GCSleep s
  | _, _ => None
  end.

(** [sysClockTicker], which reads the clock for its sleep, and [ppsClockTicker], which waits for
    a pulse; what they then send to the sessions is in Clock.v. *)
Definition ticker_step (i : nat) (ch : choice) (p : pc) (s : shared) : step_result :=
  let w := sh_world s in
  match p, ch with
  | TickWait sessionList, Corrected now0 now cal clk =>
      Some (_ ← timeNowCorrected now0 now cal clk; Ok (TickLock, s))
  | TickWait sessionList, Go => Some (Ok (TickLock, s))
  | TickLock, Go => acquire i (TickRange [] []) s
  | TickRange seen sessionList, Key id =>
      l ← range_key seen id w;
      Some (l ← map_read s l; Ok (TickRange (id :: seen) (sessionList ++ [l]), s))
  | TickRange seen sessionList, EndRange =>
      if range_done seen w then Some (map_read s (TickUnlock sessionList, s)) else None
  | TickUnlock sessionList, Go => release (TickWait sessionList) s
  | _, _ => None
  end.

(** [measure] *)
Definition measure_step (i : nat) (ch : choice) (p : pc) (s : shared) : step_result :=
  let w := sh_world s in
  match p, ch with
  | MeasLock, Go => acquire i (MeasRange []) s
  | MeasRange seen, Key id =>
      l ← range_key seen id w; Some (l ← map_read s l; Ok (MeasStats (id :: seen) l, s))
  | MeasRange seen, EndRange => if range_done seen w then Some (map_read s (MeasUnlock, s)) else None
  | MeasStats seen l, Clock clock =>
      Some (s' ← stats_of clock l s; Ok (MeasRange seen, s'))
  | MeasUnlock, Go => release Returned s
  | _, _ => None
  end.

Section Codec.
Context {C : Codec}.

(** [handleInboundHandshake] up to the lookup. *)
Definition inbound_start (buf : bytes) (from : UDPAddr) : pc :=
  match unmarshal_hs buf with
  | None => Returned
  | Some rx =>
      if decide (hs_Magic rx <> magic) then Returned else
      if decide (hs_Version rx <> 3) then Returned else InboundLookup buf rx from
  end.

(** [handlePacket] from the reading of the clock to the lookup. *)
Definition packet_start (timeRX : Time) (buf : bytes) (from : UDPAddr) (c : conn) : pc :=
  match unmarshal_ping buf with
  | None => Returned
  | Some rx =>
      if decide (p_Magic rx <> magic) then Returned else
      if decide (p_Type rx = type_handshake) then inbound_start buf from else
      if decide (p_Type rx <> type_ping) then Returned else PacketLookup timeRX rx from c
  end.

(** [handlePacket] and [handleInboundHandshake] *)
Definition packet_step (ch : choice) (p : pc) (s : shared) : step_result :=
  let w := sh_world s in
  match p, ch with
  | PacketClock buf from c, Corrected now0 now cal clk =>
      Some ('(timeRX, _) ← timeNowCorrected now0 now cal clk;
            Ok (packet_start timeRX buf from c, s))
  | PacketLookup timeRX rx from c, Go =>
      Some (ses ← map_read s (w_table w !! p_Session rx);
            Ok (match ses with
                | None => Returned
                | Some l => PacketTest (mkPacketJob timeRX rx from c l)
                end, s))
  | PacketTest j, Go =>
      on_session (pj_ses j) s (fun v =>
        Ok (if negb (UDPActivated v) && TCPActivated v then Returned
            else PacketSlot j SlotTest, s))
  | PacketSlot j p, Go => slot_step j p s
  | PacketField j f, Go => field_step j f s
  | InboundLookup buf rx from, Go =>
      Some (ses ← map_read s (w_table w !! hs_Session rx);
            Ok (match ses with
                | None => Returned
                | Some l => Inbound (mkInboundJob buf from l) InboundTest
                end, s))
  | Inbound j p, Go => inbound_step j p s
  | _, _ => None
  end.

(** The case of the ticker of a waiter; after it the waiter is at its [select] again. *)
Definition waiter_step (ch : choice) (j : tick_job) (p : tick_pc) (s : shared) : step_result :=
  let w := sh_world s in
  let back (st : waiter_state) (w : world) :=
    with_world (set_goroutine (tj_g j) (Waiter (tj_kind j) (tj_ses j) st) w) s in
  match p, ch with
  | WTest, Reading now =>
      on_session (tj_ses j) s (fun v =>
        if decide (Since now (SessionMade v) > Minute /\ UDPActivated v = false)
        then Ok (Returned, back WReturned w) else
        match tj_kind j with
        | WaitForHandshake => Ok (Returned, back WSelecting w)
        | SendUDPHandshake => Ok (WaiterTick j WPeer, s)
        end)
  | WPeer, Go =>
      on_session (tj_ses j) s (fun v =>
        match marshal_hs (handshake_packet v) with
        | None => Err Fatal
        | Some b =>
            Ok (WaiterTick j (WSocket b (mkUDPAddr (default [] (PeerAddress v)) sping_port [])), s)
        end)
  | WSocket b to, Go =>
      on_session (tj_ses j) s (fun v =>
        match ReplyWith v with
        | None => Panic
        | Some c =>
            Ok (Returned, back WSelecting (send (mkDatagram SHandshake (tj_ses j) c b to) w))
        end)
  | _, _ => None
  end.

(** An iteration of [sendPackets], which begins with a reading of the clock for the sleep or
    with a pulse; after it the loop waits for the next second again. *)
Definition ping_step (ch : choice) (j : ping_job) (p : ping_pc) (s : shared) : step_result :=
  let l := gj_ses j in
  let w := sh_world s in
  let back (w : world) := with_world (set_goroutine (gj_g j) (Sender l (gj_started j) true) w) s in
  match p, ch with
  | PingSleep, Corrected now0 now cal clk =>
      Some (_ ← timeNowCorrected now0 now cal clk; Ok (Ping j PingLive, s))
  | PingSleep, Go => Some (Ok (Ping j PingLive, s))
  | PingLive, Readings now1 now2 =>
      on_session l s (fun v =>
        Ok (if decide (Since now1 (LastRX v) > Second * 60 /\
                       Since now2 (gj_started j) > Second * 10)
            then Returned else Ping j PingCurrent, s))
  | PingCurrent, Reading now =>
      on_session l s (fun v => assign l (set_current (ping_id (Unix now)) v) (Ping j PingID) s)
  | PingID, Go => on_session l s (fun v => Ok (Ping j (PingTX (CurrentID v)), s))
  | PingTX id, Corrected now0 now cal clk =>
      Some ('(tx, _) ← timeNowCorrected now0 now cal clk; Ok (Ping j (PingCopy id tx []), s))
  | PingCopy id tx acks, Go =>
      on_session l s (fun v =>
        match LastAcks v !! length acks with
        | Some a => Ok (Ping j (PingCopy id tx (acks ++ [a])), s)
        | None =>
            match marshal_ping (mkPing type_ping magic (SessionID v) id tx 0 acks) with
            | None => Err Fatal
            | Some b => Ok (Ping j (PingReplyTo b), s)
            end
        end)
  | PingReplyTo b, Go =>
      on_session l s (fun v =>
        match ReplyTo v with
        | None => Ok (Returned, back w)
        | Some _ => Ok (Ping j (PingSocket b), s)
        end)
  | PingSocket b, Go =>
      on_session l s (fun v =>
        match ReplyWith v with None => Panic | Some c => Ok (Ping j (PingAddr b c), s) end)
  | PingAddr b c, Go =>
      on_session l s (fun v =>
        match ReplyTo v with
        | None => Ok (Returned, back w)
        | Some to => Ok (Returned, back (send (mkDatagram SPing l c b to) w))
        end)
  | _, _ => None
  end.

(** One statement of goroutine [i]: [None] when it is blocked or the choice is not its. *)
Definition tstep (i : nat) (ch : choice) (p : pc) (s : shared) : step_result :=
  match p with
  | PacketClock _ _ _ | PacketLookup _ _ _ _ | PacketTest _ | PacketSlot _ _ | PacketField _ _
  | InboundLookup _ _ _ | Inbound _ _ => packet_step ch p s
  | InsLock _ _ | InsStore _ _ | InsWrite _ _ | InsUnlock _ _ | InsGo _ _ => insert_step i ch p s
  | Dial _ | MonSleep _ _ | MonLock _ _ | MonLoad _ _ | MonUnlock _ _ _ => monitor_step i ch p s
  | GCSleep | GCLock | GCRange _ | GCTest _ _ _ | GCTestUDP _ _ _ | GCDelete _ _ | GCWrite _ _
  | GCUnlock => gc_step i ch p s
  | TickWait _ | TickLock | TickRange _ _ | TickUnlock _ => ticker_step i ch p s
  | MeasLock | MeasRange _ | MeasStats _ _ | MeasUnlock => measure_step i ch p s
  | WaiterTick j p => waiter_step ch j p s
  | Ping j p => ping_step ch j p s
  | Returned => None
  end.

(** *** The program *)

(** Goroutines that start: a datagram, a connection, a peer of the command line, a
    scrape, the collector, a ticker; and a waiter at its [select] whose ticker fires, a
    ping loop that begins an iteration. *)
Inductive start :=
  | StartPacket (buf : bytes) (from : UDPAddr)
  | StartConnection (write_ok : bool) (rd : bytes) (nSes : Z) (made : Time)
  | StartPeer (ip : bytes)
  | StartScrape
  | StartCollector
  | StartTicker
  | StartTick (g : nat)
  | StartPing (g : nat).

(** [handleTCPconnection] up to the lock. *)
Definition connection_start (write_ok : bool) (rd : bytes) (nSes : Z) (made : Time) : pc :=
  if negb write_ok then Returned else
  if decide (9000 < Z.of_nat (length rd)) then Returned else
  if decide (rd <> invite_request) then Returned else InsLock (ByServer made) nSes.

(** The first statement of a goroutine, and the world it starts in; a datagram comes from
    the open socket, and a session number is a uint32. *)
Definition start_pc (st : start) (w : world) : option (pc * world) :=
  match st with
  | StartPacket buf from =>
      match w_globalReplyWith w with None => None | Some c => Some (PacketClock buf from c, w) end
  | StartConnection write_ok rd nSes made =>
      if decide (0 <= nSes < 2 ^ 32)
      then Some (connection_start write_ok rd nSes made, w) else None
  | StartPeer ip => Some (Dial ip, w)
  | StartScrape => Some (MeasLock, w)
  | StartCollector => Some (GCSleep, w)
  | StartTicker => Some (TickWait [], w)
  | StartTick g =>
      match w_gor w !! g with
      | Some (Waiter k l WSelecting) =>
          Some (WaiterTick (mkTickJob g k l) WTest, set_goroutine g (Waiter k l WTicking) w)
      | _ => None
      end
  | StartPing g =>
      match w_gor w !! g with
      | Some (Sender l t true) =>
          Some (Ping (mkPingJob g l t) PingSleep, set_goroutine g (Sender l t false) w)
      | _ => None
      end
  end.

(** The events of System.v that are one statement: the socket is opened, a waiter takes
    the global socket and comes to its [select], a waiter that was notified activates
    the session and starts the ping loop. *)
Definition local_event (e : event) : bool :=
  match e with EListen _ | EWaiterSelects _ | EWaiterWoken _ _ => true | _ => false end.

Record lstate := mkLState { l_shared : shared; l_threads : list pc }.

Definition l_world (s : lstate) : world := sh_world (l_shared s).
Definition l_lock (s : lstate) : option nat := sh_lock (l_shared s).

Inductive levent :=
  | LStart (st : start)
  | LStep (i : nat) (ch : choice)
  | LWorld (e : event).

Definition lexec (e : levent) (s : lstate) : option (result fatal_error lstate) :=
  match e with
  | LStart st =>
      match start_pc st (l_world s) with
      | None => None
      | Some (p, w) => Some (Ok (mkLState (with_world w (l_shared s)) (l_threads s ++ [p])))
      end
  | LStep i ch =>
      match l_threads s !! i with
      | None => None
      | Some p =>
          match tstep i ch p (l_shared s) with
          | None => None
          | Some r => Some (ps ← r; Ok (mkLState (snd ps) (<[i := fst ps]> (l_threads s))))
          end
      end
  | LWorld e =>
      if local_event e then
        match exec e (l_world s) with
        | None => None
        | Some r => Some (w' ← r; Ok (mkLState (with_world w' (l_shared s)) (l_threads s)))
        end
      else None
  end.

Inductive lstep (s s' : lstate) : Prop :=
  | lstep_exec e : lexec e s = Some (Ok s') -> lstep s s'.

Definition l_empty : lstate := mkLState (mkShared empty_world (mkMetrics ∅ ∅) None false) [].

Definition l_reachable (s : lstate) : Prop := rtc lstep l_empty s.

(** Runs a schedule; [None] when an event of it is not enabled or does not return. *)
Fixpoint lrun (es : list levent) (s : lstate) : option lstate :=
  match es with
  | [] => Some s
  | e :: es => match lexec e s with Some (Ok s') => lrun es s' | _ => None end
  end.
End Codec.
