(* ===== verification/SharedInv.v ===== *)
(** * The invariant of the shared sessions at every interleaving

    What holds of the session objects, the table, the goroutines and the datagrams sent
    between any two statements of Statements.v, and what a goroutine may rely on at each
    of its statements, whatever the others have done since its last one. *)

From S2P Require Import Prelude Bytes GoTime Acks Session PlainCodec Handshake System Clock.
From S2P Require Import Prom Statements.
Local Open Scope Z_scope.

(** ** Case analysis on a statement that was executed *)
Ltac step_cases H :=
  repeat first
    [ discriminate H
    | progress (apply (inj Some) in H)
    | progress (apply Ok_inj in H)
    | let Hb := fresh "Hb" in
      first [apply bind_Ok_inv in H | apply bind_Some in H]; destruct H as (? & Hb & H)
    | match type of H with
      | context [match ?x with _ => _ end] => destruct x eqn:?
      end ];
  try (injection H as H); try subst.

Tactic Notation "tstep_simpl" :=
  cbn [tstep packet_step slot_step field_step inbound_step insert_step monitor_step gc_step
       ticker_step measure_step waiter_step ping_step].
Tactic Notation "tstep_simpl" "in" hyp(H) :=
  cbn [tstep packet_step slot_step field_step inbound_step insert_step monitor_step gc_step
       ticker_step measure_step waiter_step ping_step] in H.

(** The cases of a step, by the statement and its input. *)
Ltac tstep_cases H :=
  match type of H with
  | tstep _ ?ch ?p _ = _ =>
      destruct p, ch; tstep_simpl in H; try discriminate H;
      unfold slot_step, field_step, inbound_step, waiter_step, ping_step, acquire, release, begin_write, end_write,
        on_session, assign, map_read in H;
      simpl in H; step_cases H
  end.

(** ** What only grows *)

(** The goroutine that a statement belongs to, for ticks and iterations. *)
Definition flight (p : pc) : option nat :=
  match p with WaiterTick j _ => Some (tj_g j) | Ping j _ => Some (gj_g j) | _ => None end.

(** A goroutine whose next statement is in the list of statements. *)
Definition busy (x : goroutine) : bool :=
  match x with Waiter _ _ WTicking => true | Sender _ _ false => true | _ => false end.

(** What a statement of the goroutine [f] changes: objects stay and keep what
    [session_le] says, the socket stays open, and no other goroutine that is in a tick
    or an iteration is touched. *)
Record world_le (f : option nat) (w w' : world) : Prop := {
  le_heap l v : w_heap w !! l = Some v -> exists v', w_heap w' !! l = Some v' /\ session_le v v';
  le_global : is_Some (w_globalReplyWith w) -> is_Some (w_globalReplyWith w');
  le_busy g x : w_gor w !! g = Some x -> busy x = true -> f <> Some g ->
    w_gor w' !! g = Some x;
}.

Lemma session_le_refl v : session_le v v.
Proof. by split_and!. Qed.

#[export] Instance world_le_refl f : Reflexive (world_le f).
Proof. intros w. split; eauto using session_le_refl. Qed.

#[export] Instance world_le_trans f : Transitive (world_le f).
Proof.
  intros u v w [H1 H2 H3] [H4 H5 H6]. split; [|by auto|by eauto].
  intros l t Ht. destruct (H1 l t Ht) as (t1 & Ht1 & ? & ? & ?).
  destruct (H4 l t1 Ht1) as (t2 & Ht2 & ? & ? & ?). exists t2. split; [done|].
  split_and!; [congruence|by auto|by auto].
Qed.

Definition alive (w : world) (l : loc) : Prop := is_Some (w_heap w !! l).
Definition has_socket (w : world) (l : loc) : Prop :=
  exists v, w_heap w !! l = Some v /\ is_Some (ReplyWith v).

Section Grows.
Context {f : option nat} {w w' : world} (Hle : world_le f w w').

Lemma alive_le l : alive w l -> alive w' l.
Proof. intros [v Hv]. destruct (le_heap _ _ _ Hle l v Hv) as (v' & Hv' & _). by exists v'. Qed.

Lemma has_socket_le l : has_socket w l -> has_socket w' l.
Proof.
  intros (v & Hv & Hr). destruct (le_heap _ _ _ Hle l v Hv) as (v' & Hv' & _ & _ & H).
  exists v'. by auto.
Qed.

Lemma activated_le l : activated w l -> activated w' l.
Proof.
  intros (v & Hv & Hr). destruct (le_heap _ _ _ Hle l v Hv) as (v' & Hv' & _ & H & _).
  exists v'. by auto.
Qed.

Lemma numbered_le l id :
  (exists v, w_heap w !! l = Some v /\ SessionID v = id) ->
  exists v, w_heap w' !! l = Some v /\ SessionID v = id.
Proof.
  intros (v & Hv & <-). destruct (le_heap _ _ _ Hle l v Hv) as (v' & Hv' & H & _).
  by exists v'.
Qed.
End Grows.

Lemma activated_alive w l : activated w l -> alive w l.
Proof. intros (v & Hv & _). by exists v. Qed.
Lemma has_socket_alive w l : has_socket w l -> alive w l.
Proof. intros (v & Hv & _). by exists v. Qed.

Create HintDb grows.
#[export] Hint Resolve alive_le has_socket_le activated_le activated_alive has_socket_alive
  session_le_refl : grows.

(** ** The invariant of the world *)

(** What holds of every session object. The ring has 32 slots; the index of the next slot
    is not negative, but see Races.v for how it can leave the ring. *)
Record session_fine (v : session) : Prop := {
  sf_tcp : TCPActivated v = true;
  sf_acks : length (LastAcks v) = ring_size;
  sf_slot : 0 <= nextAckSlot v;
  sf_infos : Forall wf_info_ack (LastAcks v);
  sf_id : is_u32 (SessionID v);
  sf_current : is_u8 (CurrentID v);
  sf_pulse : pulse v = None;
  sf_quiet : UDPActivated v = false -> LastRX v = zeroTime;
}.

Definition is_woken (x : goroutine) : bool :=
  match x with Waiter _ _ WNotified => true | Sender _ _ _ => true | _ => false end.

(** The session of a goroutine exists; a waiter of the initiating side that is past its
    start has a socket; and a session whose waiter was woken, or that has a ping loop, is
    activated and has a socket. *)
Definition gor_fine (w : world) (x : goroutine) : Prop :=
  alive w (gor_loc x) /\ (needs_socket x = true -> has_socket w (gor_loc x)) /\
  (is_woken x = true -> activated w (gor_loc x) /\ has_socket w (gor_loc x)).

Record WInv (w : world) : Prop := {
  wi_heap l v : w_heap w !! l = Some v -> session_fine v;
  wi_table id l : w_table w !! id = Some l -> exists v, w_heap w !! l = Some v /\ SessionID v = id;
  wi_gor g x : w_gor w !! g = Some x -> gor_fine w x;
  wi_sent d : d ∈ w_sent w -> d_kind d <> SHandshake -> activated w (d_loc d);
}.

Lemma gor_fine_le f w w' x : world_le f w w' -> gor_fine w x -> gor_fine w' x.
Proof.
  intros Hle (H1 & H2 & H3). split_and!; [by eauto with grows|by eauto with grows|].
  intros Hw. destruct (H3 Hw). by eauto with grows.
Qed.

Lemma wi_table_alive w id l : WInv w -> w_table w !! id = Some l -> alive w l.
Proof. intros HI Hl. destruct (wi_table _ HI _ _ Hl) as (s & Hs & _). by exists s. Qed.

(** A world whose sessions are those of an earlier one or better. *)
Lemma winv_le f w w' :
  WInv w -> world_le f w w' ->
  (forall l v, w_heap w' !! l = Some v -> session_fine v) ->
  (forall id l, w_table w' !! id = Some l ->
     w_table w !! id = Some l \/ exists v, w_heap w' !! l = Some v /\ SessionID v = id) ->
  (forall x, x ∈ w_gor w' -> x ∈ w_gor w \/ gor_fine w' x) ->
  (forall d, d ∈ w_sent w' -> d ∈ w_sent w \/ d_kind d = SHandshake \/ activated w' (d_loc d)) ->
  WInv w'.
Proof.
  intros HI Hle Hh Ht Hg Hs. split; [done| | |].
  - intros id l Hl. destruct (Ht id l Hl) as [H|H]; [|done].
    eapply (numbered_le Hle). by eapply wi_table.
  - intros g x Hx%list_elem_of_lookup_2. destruct (Hg x Hx) as [[i Hi]%list_elem_of_lookup|H]; [|done].
    eapply gor_fine_le; [exact Hle|]. by eapply wi_gor.
  - intros d Hd Hk. destruct (Hs d Hd) as [H|[H|H]]; [|done|done].
    eapply (activated_le Hle). by eapply wi_sent.
Qed.

(** *** The effects of statements *)

Lemma le_set_session f w l v v' :
  w_heap w !! l = Some v -> session_le v v' -> world_le f w (set_session l v' w).
Proof.
  intros Hl Hle. split; [|done|done]. intros l' t Ht. simpl.
  destruct (decide (l = l')) as [<- |Hne].
  - exists v'. rewrite lookup_insert_eq. split; [done|]. congruence.
  - exists t. rewrite lookup_insert_ne by done. split; [done|apply session_le_refl].
Qed.

Lemma winv_set_session w l v v' :
  WInv w -> w_heap w !! l = Some v -> session_fine v' -> session_le v v' ->
  WInv (set_session l v' w).
Proof.
  intros HI Hl Hf Hle. apply (winv_le None w); [done|by eapply le_set_session|..]; simpl; auto.
  intros l' t. rewrite lookup_insert_Some. intros [[_ <-]|[_ Ht]]; [done|by eapply wi_heap].
Qed.

Lemma le_set_gor f w gs :
  (forall g x, w_gor w !! g = Some x -> busy x = true -> f <> Some g -> gs !! g = Some x) ->
  world_le f w (set_gor gs w).
Proof. intros H. split; [|done|done]. intros l v Hv. exists v. by split; [|apply session_le_refl]. Qed.

Lemma winv_set_gor w gs :
  WInv w -> (forall x, x ∈ gs -> x ∈ w_gor w \/ gor_fine w x) -> WInv (set_gor gs w).
Proof.
  intros HI H. destruct HI as [H1 H2 H3 H4]. split; [done|done| |done].
  intros g x Hx%list_elem_of_lookup_2. destruct (H x Hx) as [[i Hi]%list_elem_of_lookup|?]; [|done].
  by eapply H3.
Qed.

Lemma le_append f w x : world_le f w (set_gor (w_gor w ++ [x]) w).
Proof. apply le_set_gor. intros g y Hg _ _. by apply lookup_app_l_Some. Qed.

Lemma winv_append w x : WInv w -> gor_fine w x -> WInv (set_gor (w_gor w ++ [x]) w).
Proof.
  intros HI Hx. apply winv_set_gor; [done|]. intros y [?|Hy]%elem_of_app; [by left|right].
  apply elem_of_cons in Hy as [-> |Hy]; [done|by apply elem_of_nil in Hy].
Qed.

Lemma notify_lookup_busy l gs g x :
  gs !! g = Some x -> busy x = true -> notify l gs !! g = Some x.
Proof.
  revert g. induction gs as [|y gs IH]; intros g; [done|]. simpl.
  destruct (is_selecting l y) eqn:Hs; destruct g as [|g]; simpl; intros Hg Hb; try done.
  - injection Hg as ->. by destruct x as [? ? []|].
  - by apply IH.
Qed.

Lemma le_notify f w l : world_le f w (set_gor (notify l (w_gor w)) w).
Proof. apply le_set_gor. intros g x Hg Hb _. by apply notify_lookup_busy. Qed.

Lemma winv_notify w l :
  WInv w -> activated w l -> has_socket w l -> WInv (set_gor (notify l (w_gor w)) w).
Proof.
  intros HI Ha Hs. apply winv_set_gor; [done|]. intros x Hx.
  destruct (notify_elem _ _ _ Hx) as [?|(k & -> & Hin)]; [by left|right].
  split_and!; [by eauto with grows|done|done].
Qed.

Lemma le_send f w d : world_le f w (send d w).
Proof. split; eauto using session_le_refl. Qed.

Lemma winv_send w d :
  WInv w -> (d_kind d <> SHandshake -> activated w (d_loc d)) -> WInv (send d w).
Proof.
  intros HI Hd. apply (winv_le None w); [done|apply le_send|apply (wi_heap _ HI)|auto|auto|].
  intros d' [-> |?]%elem_of_cons; [right|by left].
  destruct (decide (d_kind d = SHandshake)); [by left|right; by apply Hd].
Qed.

Lemma le_store f id v w : world_le f w (store_session id v w).
Proof.
  split; [|done|done]. intros l t Ht. exists t. split; [|apply session_le_refl]. simpl.
  rewrite lookup_insert_ne; [done|]. intros He.
  assert (H : w_heap w !! fresh (dom (w_heap w)) = None) by (apply not_elem_of_dom, is_fresh).
  rewrite He in H. congruence.
Qed.

Lemma session_fine_new who id : is_u32 id -> session_fine (session_of who id).
Proof.
  intros Hid.
  assert (Hz : Forall wf_info_ack zeroAcks)
    by (apply Forall_replicate; unfold wf_info_ack, is_u8; simpl; lia).
  destruct who; split; simpl; try done; unfold is_u8; lia.
Qed.

Lemma winv_store who id w : WInv w -> is_u32 id -> WInv (store_session id (session_of who id) w).
Proof.
  intros HI Hid. apply (winv_le None w); [done|apply le_store| | |by auto|by auto]; simpl.
  - intros l v [[_ <-]|[_ H]]%lookup_insert_Some; [by apply session_fine_new|by eapply wi_heap].
  - intros id' l [[<- <-]|[_ H]]%lookup_insert_Some; [right|by left].
    exists (session_of who id). rewrite lookup_insert_eq. by destruct who.
Qed.

Lemma winv_delete w id : WInv w -> WInv (set_table (delete id (w_table w)) w).
Proof.
  intros HI. apply (winv_le None w); [done|by split; eauto using session_le_refl
    |exact (wi_heap _ HI)| |by auto|by auto].
  simpl. intros id' l Hl. apply lookup_delete_Some in Hl as [_ ?]. by left.
Qed.

(** A goroutine comes back from its tick or iteration, or begins it. *)
Lemma le_set_goroutine f w g x y :
  w_gor w !! g = Some x -> busy x = false \/ f = Some g -> world_le f w (set_goroutine g y w).
Proof.
  intros Hx Hb. apply le_set_gor. intros g' z Hz Hzb Hf.
  destruct (decide (g = g')) as [<- |Hne]; [|by rewrite list_lookup_insert_ne].
  destruct Hb as [Hb| ->]; [congruence|done].
Qed.

Lemma winv_set_goroutine w g y : WInv w -> gor_fine w y -> WInv (set_goroutine g y w).
Proof.
  intros HI Hy. apply winv_set_gor; [done|]. intros x Hx.
  apply list_elem_of_lookup in Hx as [i Hi].
  apply list_lookup_insert_Some in Hi as [(_ & -> & _)|[_ Hi]]; [by right|left].
  by eapply list_elem_of_lookup_2.
Qed.

(** ** What a goroutine relies on *)

Definition pc_ok (w : world) (p : pc) : Prop :=
  match p with
  | PacketClock _ _ _ => is_Some (w_globalReplyWith w)
  | PacketLookup _ rx _ _ => wf_ping rx
  | PacketTest j => wf_ping (pj_rx j) /\ alive w (pj_ses j)
  | PacketSlot j p =>
      wf_ping (pj_rx j) /\ activated w (pj_ses j) /\
      match p with SlotAdd n | SlotIndex n => 0 <= n | _ => True end
  | PacketField j _ => wf_ping (pj_rx j) /\ activated w (pj_ses j)
  | InboundLookup _ _ _ => is_Some (w_globalReplyWith w)
  | Inbound j p =>
      is_Some (w_globalReplyWith w) /\ alive w (ij_ses j) /\
      match p with
      | InboundActivate _ => has_socket w (ij_ses j)
      | InboundPeerTest _ | InboundPeer _ | InboundNotify _ | InboundSocket | InboundEcho _ =>
          activated w (ij_ses j) /\ has_socket w (ij_ses j)
      | _ => True
      end
  | InsLock _ id | InsStore _ id | InsWrite _ id | InsUnlock _ id | InsGo _ id => is_u32 id
  | GCTest seen id l | GCTestUDP seen id l => id ∈ seen /\ alive w l
  | GCDelete seen id | GCWrite seen id => id ∈ seen
  | MeasStats _ l => alive w l
  | WaiterTick j p =>
      w_gor w !! tj_g j = Some (Waiter (tj_kind j) (tj_ses j) WTicking) /\ alive w (tj_ses j) /\
      (tj_kind j = SendUDPHandshake -> has_socket w (tj_ses j)) /\
      (p <> WTest -> tj_kind j = SendUDPHandshake)
  | Ping j p =>
      w_gor w !! gj_g j = Some (Sender (gj_ses j) (gj_started j) false) /\
      activated w (gj_ses j) /\ has_socket w (gj_ses j) /\
      match p with
      | PingTX id => is_u8 id
      | PingCopy id _ acks => is_u8 id /\ Forall wf_info_ack acks /\ (length acks <= ring_size)%nat
      | _ => True
      end
  | _ => True
  end.

Lemma pc_ok_le f w w' p :
  world_le f w w' -> (flight p = None \/ flight p <> f) -> pc_ok w p -> pc_ok w' p.
Proof.
  intros Hle Hf. pose proof (le_global _ _ _ Hle).
  assert (Hb : forall g x, w_gor w !! g = Some x -> busy x = true -> flight p = Some g ->
    w_gor w' !! g = Some x).
  { intros g x Hg Hx Hfl. apply (le_busy _ _ _ Hle); [done|done|]. intros ->.
    destruct Hf; congruence. }
  destruct p; simpl in *; try done; intros Hok; destruct_and?; split_and?;
    eauto with grows; try (repeat case_match; destruct_and?; split_and?; eauto with grows; done).
Qed.

(** ** Every statement keeps the invariant *)

(** A step of the goroutine [f] from [w] to [w'], after which it is at [p']. *)
Record keeps (f : option nat) (w w' : world) (p' : pc) : Prop := mkKeeps {
  keeps_inv : WInv w';
  keeps_le : world_le f w w';
  keeps_pc : pc_ok w' p';
  keeps_flight : flight p' = None \/ flight p' = f;
}.

Lemma keeps_same f w p' :
  WInv w -> pc_ok w p' -> flight p' = None \/ flight p' = f -> keeps f w w p'.
Proof. intros. by split. Qed.

Lemma keeps_assign f w l v v' p' :
  WInv w -> w_heap w !! l = Some v -> session_fine v' -> session_le v v' ->
  flight p' = None \/ flight p' = f ->
  (world_le f w (set_session l v' w) -> w_heap (set_session l v' w) !! l = Some v' ->
     pc_ok (set_session l v' w) p') ->
  keeps f w (set_session l v' w) p'.
Proof.
  intros HI Hl Hf Hle Hfl Hp. pose proof (le_set_session f w l v v' Hl Hle) as Hw.
  split; [by eapply winv_set_session|done| |done]. apply Hp; [done|]. simpl. by rewrite lookup_insert_eq.
Qed.

(** The assignments of the handlers to a session. *)
Section Assignments.
Context (v : session) (Hv : session_fine v).

Lemma fine_slot n : 0 <= n -> session_fine (set_slot n v).
Proof. destruct Hv. by split. Qed.
Lemma fine_acks k a :
  wf_info_ack a -> session_fine (set_acks (<[k := a]> (LastAcks v)) v).
Proof. destruct Hv. split; try done; simpl; [by rewrite length_insert|by apply Forall_insert]. Qed.
Lemma fine_reply_with c : session_fine (set_reply_with c v).
Proof. destruct Hv. by split. Qed.
Lemma fine_reply_to to : session_fine (set_reply_to to v).
Proof. destruct Hv. by split. Qed.
Lemma fine_last_rx t : UDPActivated v = true -> session_fine (set_last_rx t v).
Proof. destruct Hv. split; try done. simpl. congruence. Qed.
Lemma fine_last_ping rx : session_fine (set_last_ping rx v).
Proof. destruct Hv. by split. Qed.
Lemma fine_udp : session_fine (set_udp v).
Proof. destruct Hv. by split. Qed.
Lemma fine_peer ip : session_fine (set_peer ip v).
Proof. destruct Hv. by split. Qed.
Lemma fine_current u : session_fine (set_current (ping_id u) v).
Proof. destruct Hv. split; try done. simpl. apply u8_range. Qed.
End Assignments.

Lemma session_le_id v v' :
  SessionID v' = SessionID v -> UDPActivated v' = UDPActivated v ->
  ReplyWith v' = ReplyWith v -> session_le v v'.
Proof. intros H1 H2 H3. split_and!; congruence. Qed.

Lemma activated_at w l v : activated w l -> w_heap w !! l = Some v -> UDPActivated v = true.
Proof. intros (u & Hu & Ha) Hl. congruence. Qed.

Section Steps.
Context {C : Codec} {L : CodecLaws C}.

Lemma packet_start_ok w timeRX buf from c :
  is_Some (w_globalReplyWith w) -> pc_ok w (packet_start timeRX buf from c).
Proof.
  intros Hg. unfold packet_start. destruct (unmarshal_ping buf) as [rx|] eqn:Hrx; [|done].
  case_decide; [done|]. case_decide.
  - unfold inbound_start. by repeat case_match.
  - case_decide; [done|]. by eapply unmarshal_ping_wf.
Qed.

Lemma packet_start_flight timeRX buf from c : flight (packet_start timeRX buf from c) = None.
Proof. unfold packet_start, inbound_start. by repeat case_match. Qed.

(** The statements of the ping handler on its session. *)
Lemma slot_step_keeps j p s p' s' :
  WInv (sh_world s) -> pc_ok (sh_world s) (PacketSlot j p) ->
  slot_step j p s = Some (Ok (p', s')) -> keeps None (sh_world s) (sh_world s') p'.
Proof.
  intros HI (Hrx & Ha & Hp) H. unfold slot_step, on_session, assign in H.
  destruct (w_heap (sh_world s) !! pj_ses j) as [v|] eqn:Hv; [|done].
  pose proof (wi_heap _ HI _ _ Hv) as Hf. pose proof (sf_slot _ Hf).
  assert (Hinfo : wf_info_ack (mkPingInfo (p_ID (pj_rx j)) (p_TXTime (pj_rx j)) (pj_timeRX j)))
    by (destruct Hrx as (_ & _ & _ & ? & _); done).
  destruct p; step_cases H; simpl;
    first
      [ apply keeps_same; [done|by split_and!|by left]
      | eapply keeps_assign; [done|exact Hv| |by apply session_le_id|by left|
          intros Hle Hl; simpl; split_and?; eauto with grows; lia] ];
    first [apply fine_slot; (done || lia) | by apply fine_acks].
Qed.

Lemma field_step_keeps j f s p' s' :
  WInv (sh_world s) -> pc_ok (sh_world s) (PacketField j f) ->
  field_step j f s = Some (Ok (p', s')) -> keeps None (sh_world s) (sh_world s') p'.
Proof.
  intros HI (Hrx & Ha) H. unfold field_step, on_session, assign in H.
  destruct (w_heap (sh_world s) !! pj_ses j) as [v|] eqn:Hv; [|done].
  pose proof (wi_heap _ HI _ _ Hv) as Hf. pose proof (activated_at _ _ _ Ha Hv).
  destruct f; step_cases H; simpl;
    (eapply keeps_assign; [done|exact Hv| | |by left|
      intros Hle Hl; simpl; split_and?; eauto with grows; done]);
    first [by apply session_le_id|by split_and!|by apply fine_reply_with|by apply fine_reply_to
          |by apply fine_last_rx|by apply fine_last_ping].
Qed.

Lemma inbound_step_keeps j p s p' s' :
  WInv (sh_world s) -> pc_ok (sh_world s) (Inbound j p) ->
  inbound_step j p s = Some (Ok (p', s')) -> keeps None (sh_world s) (sh_world s') p'.
Proof.
  intros HI (Hg & Hal & Hp) H. unfold inbound_step, on_session, assign in H.
  destruct (w_heap (sh_world s) !! ij_ses j) as [v|] eqn:Hv; [|done].
  pose proof (wi_heap _ HI _ _ Hv) as Hf.
  assert (Hsock : forall c, session_le v (set_reply_with c v))
    by (intros c; split_and!; [done|done|by intros _; eexists]).
  destruct p; simpl in Hp; step_cases H; simpl;
    try (apply keeps_same; [done|by split_and?|by left]).
  all: try (eapply keeps_assign; [done|exact Hv|
      first [by apply fine_reply_with|by apply fine_reply_to|by apply fine_udp|by apply fine_peer]
     |first [by apply session_le_id|by split_and!|done]|by left|]; intros Hle Hl; simpl;
     destruct_and?; split_and?; eauto with grows).
  all: try (by eexists).
  all: try (eexists; split; [exact Hl|by eexists]).
  all: try (eexists; split; [exact Hl|done]).
  all: destruct Hp as [Ha Hs].
  all: try (split; [by apply winv_notify|apply le_notify|by split_and?|by left]).
  split; [by apply winv_send|apply le_send|done|by left].
Qed.

(** A goroutine that is back from its tick or iteration. *)
Lemma keeps_back w w' g x y :
  WInv w' -> world_le (Some g) w w' -> w_gor w' !! g = Some x -> gor_fine w' y ->
  keeps (Some g) w (set_goroutine g y w') Returned.
Proof.
  intros HI Hle Hx Hy. split; [by apply winv_set_goroutine| |done|by left].
  etrans; [exact Hle|]. eapply le_set_goroutine; [exact Hx|by right].
Qed.

Lemma waiter_step_keeps ch j p s p' s' :
  WInv (sh_world s) -> pc_ok (sh_world s) (WaiterTick j p) ->
  waiter_step ch j p s = Some (Ok (p', s')) ->
  keeps (Some (tj_g j)) (sh_world s) (sh_world s') p'.
Proof.
  intros HI (Hg & Hal & Hk & Hpast) H. unfold waiter_step, on_session in H.
  assert (Hback : forall st d, st <> WNotified ->
    (d = None \/ exists d', d = Some d' /\ d_kind d' = SHandshake) ->
    keeps (Some (tj_g j)) (sh_world s)
      (set_goroutine (tj_g j) (Waiter (tj_kind j) (tj_ses j) st)
         (match d with None => sh_world s | Some d => send d (sh_world s) end)) Returned).
  { intros st d Hst Hd.
    assert (Hy : gor_fine (sh_world s) (Waiter (tj_kind j) (tj_ses j) st)).
    { split_and!; [done| |by destruct st]. simpl. intros Hn. apply Hk. by destruct (tj_kind j), st. }
    destruct Hd as [-> |(d' & -> & Hd')].
    - eapply keeps_back; [done|done|exact Hg|done].
    - eapply keeps_back; [by apply winv_send|apply le_send|exact Hg|exact Hy]. }
  destruct (tj_kind j) eqn:Hkind; destruct p, ch; try discriminate H; try discriminate (Hpast ltac:(done));
    step_cases H; simpl; try (apply keeps_same; [done|simpl; rewrite Hkind; by split_and!|by right]).
  - by apply (Hback WReturned None); [|left].
  - apply (Hback WSelecting (Some (mkDatagram SHandshake (tj_ses j) c b to))); [done|right].
    by eexists.
  - by apply (Hback WReturned None); [|left].
  - by apply (Hback WSelecting None); [|left].
Qed.

Lemma ping_step_keeps ch j p s p' s' :
  WInv (sh_world s) -> pc_ok (sh_world s) (Ping j p) ->
  ping_step ch j p s = Some (Ok (p', s')) ->
  keeps (Some (gj_g j)) (sh_world s) (sh_world s') p'.
Proof.
  intros HI (Hg & Ha & Hs & Hp) H. unfold ping_step, on_session, assign in H.
  assert (Hy : forall w' b, world_le (Some (gj_g j)) (sh_world s) w' ->
    gor_fine w' (Sender (gj_ses j) (gj_started j) b)).
  { intros w' b Hle. split_and!; [by eauto with grows|done|]. eauto with grows. }
  destruct p, ch; try discriminate H; step_cases H; simpl;
    try (apply keeps_same; [done|simpl; by split_and?|(by left) || by right]).
  - eapply keeps_assign; [done|eassumption|apply fine_current; by eapply wi_heap
      |by apply session_le_id|by right|].
    intros Hle Hl. simpl. split_and!; eauto with grows.
  - apply keeps_same; [done|split_and!; try done|by right].
    by eapply sf_current, wi_heap.
  - apply keeps_same; [done|split_and!; try done|by right]. simpl. lia.
  - apply keeps_same; [done| |by right]. destruct Hp as (Hid & Hac & Hlen).
    match goal with Hv : w_heap _ !! _ = Some _, Hl : LastAcks _ !! _ = Some _ |- _ =>
      pose proof (wi_heap _ HI _ _ Hv) as Hf; pose proof (lookup_lt_Some _ _ _ Hl) as Hlt;
      pose proof (Forall_lookup_1 _ _ _ _ (sf_infos _ Hf) Hl); rewrite (sf_acks _ Hf) in Hlt end.
    split_and!; try done.
    + apply Forall_app. split; [done|]. by constructor.
    + rewrite length_app. simpl. lia.
  - eapply keeps_back; [done|done|exact Hg|by apply Hy].
  - eapply keeps_back; [by apply winv_send|apply le_send|exact Hg|apply Hy, le_send].
  - eapply keeps_back; [done|done|exact Hg|by apply Hy].
Qed.

Lemma go_waiter_keeps k id s w' p' :
  WInv (sh_world s) -> go_waiter k id (sh_world s) = Ok w' -> pc_ok w' p' -> flight p' = None ->
  keeps None (sh_world s) w' p'.
Proof.
  intros HI H Hp Hfl. unfold go_waiter in H.
  destruct (w_table (sh_world s) !! id) as [l|] eqn:Hl; [|done]. apply Ok_inj in H. subst w'.
  split; [|apply le_append|done|by left]. apply winv_append; [done|].
  split_and!; [by eapply wi_table_alive|by destruct k|done].
Qed.
End Steps.

(** A session number that an attempt accepts is a uint32. *)
Lemma parse_digits_range acc t n :
  is_u32 acc -> parse_digits acc t = Some n -> is_u32 n.
Proof.
  revert acc. induction t as [|c t IH]; intros acc Ha; simpl; [by intros [= <-]|].
  destruct (is_digit c) eqn:Hd; [|done]. case_decide; [|done]. apply IH.
  unfold is_digit in Hd. apply andb_prop in Hd. unfold is_u32 in *. lia.
Qed.

Lemma negotiate_range dial_ok rd1 write_ok rd2 n :
  negotiate dial_ok rd1 write_ok rd2 = Some n -> is_u32 n.
Proof.
  unfold negotiate. repeat case_match; try done. unfold ParseUint.
  case_match; [done|]. apply parse_digits_range. unfold is_u32. lia.
Qed.

Lemma range_key_Some seen id w l :
  range_key seen id w = Some l <-> (id ∉ seen) /\ w_table w !! id = Some l.
Proof.
  unfold range_key. case_decide as Hin; [split; [done|intros [? _]; done]|].
  split; [by split|by intros [_ ?]].
Qed.

Lemma map_read_Ok {A} s (a b : A) : map_read s a = Ok b -> b = a /\ sh_writing s = false.
Proof. unfold map_read. destruct (sh_writing s); [done|]. by intros ->%Ok_inj. Qed.

Lemma stats_of_frame clock l s s' :
  stats_of clock l s = Ok s' ->
  sh_world s' = sh_world s /\ sh_lock s' = sh_lock s /\ sh_writing s' = sh_writing s.
Proof.
  unfold stats_of. destruct (w_heap (sh_world s) !! l); [|done].
  intros (st & _ & H%Ok_inj)%bind_Ok_inv. by subst s'.
Qed.

Section Program.
Context {C : Codec} {L : CodecLaws C}.

(** A statement of the handlers of datagrams. *)
Definition in_packet (p : pc) : bool :=
  match p with
  | PacketClock _ _ _ | PacketLookup _ _ _ _ | PacketTest _ | PacketSlot _ _ | PacketField _ _
  | InboundLookup _ _ _ | Inbound _ _ => true
  | _ => false
  end.

(** The goroutines that use the lock. *)
Lemma table_step_keeps i ch p s p' s' :
  flight p = None -> in_packet p = false ->
  WInv (sh_world s) -> pc_ok (sh_world s) p -> tstep i ch p s = Some (Ok (p', s')) ->
  keeps None (sh_world s) (sh_world s') p'.
Proof.
  intros Hfl Hnp HI Hp H. destruct p; try discriminate Hfl; try discriminate Hnp;
    tstep_simpl in H; try discriminate H.
  all: unfold insert_step, monitor_step, gc_step, ticker_step, measure_step, acquire, release,
         begin_write, end_write, on_session in H; destruct ch; try discriminate H; simpl in *.
  all: step_cases H; repeat match goal with
    | Hm : map_read _ _ = Ok _ |- _ => apply map_read_Ok in Hm as [-> _]
    | Hm : map_read _ _ = Ok (_, _) |- _ => apply map_read_Ok in Hm as [[= -> ->] _]
    | Hs : stats_of _ _ _ = _ |- _ => apply stats_of_frame in Hs as [-> _]
    | Hk : range_key _ _ _ = Some _ |- _ => apply range_key_Some in Hk as [? Hk]
    end; simpl; try (apply keeps_same; [done|done|by left]).
  all: try (split; [by apply winv_store|apply le_store|done|by left]).
  all: try (split; [by apply winv_delete|by split; eauto using session_le_refl|done|by left]).
  all: try (eapply go_waiter_keeps; [done|eassumption|by destruct who|by destruct who]).
  all: apply keeps_same; [done| |by left]; simpl.
  all: try (by eapply negotiate_range).
  all: try (split; [apply elem_of_cons; by left|]).
  all: try (by eapply wi_table_alive).
  all: by destruct Hp.
Qed.

Lemma tstep_keeps i ch p s p' s' :
  WInv (sh_world s) -> pc_ok (sh_world s) p -> tstep i ch p s = Some (Ok (p', s')) ->
  keeps (flight p) (sh_world s) (sh_world s') p'.
Proof.
  intros HI Hp H.
  assert (Ht : flight p = None -> in_packet p = false -> keeps None (sh_world s) (sh_world s') p')
    by (intros; by eapply table_step_keeps).
  destruct p; try exact (Ht eq_refl eq_refl); clear Ht; tstep_simpl in H.
  - destruct ch; try discriminate H. step_cases H.
    apply keeps_same; [done| |left; apply packet_start_flight]. by apply packet_start_ok.
  - destruct ch; try discriminate H. step_cases H; apply map_read_Ok in Hb as [Hb _]; symmetry in Hb;
      (apply keeps_same; [done| |by left]); simpl in *; [|done].
    split; [done|by eapply wi_table_alive].
  - destruct ch; try discriminate H. simpl in *. destruct Hp as [Hrx Hal]. unfold on_session in H.
    destruct (w_heap (sh_world s) !! pj_ses j) as [v|] eqn:Hv; [|done].
    rewrite (sf_tcp _ (wi_heap _ HI _ _ Hv)), andb_true_r in H.
    destruct (UDPActivated v) eqn:Hu; cbn [negb] in H; step_cases H;
      (apply keeps_same; [done| |by left]); [|done].
    split_and!; [done|by exists v|done].
  - destruct ch; try discriminate H. by eapply slot_step_keeps.
  - destruct ch; try discriminate H. by eapply field_step_keeps.
  - destruct ch; try discriminate H. step_cases H; apply map_read_Ok in Hb as [Hb _]; symmetry in Hb;
      (apply keeps_same; [done| |by left]); simpl in *; [|done].
    split_and!; [done|by eapply wi_table_alive|done].
  - destruct ch; try discriminate H. by eapply inbound_step_keeps.
  - by eapply waiter_step_keeps.
  - by eapply ping_step_keeps.
Qed.

(** ** The program *)

(** A goroutine that starts; [flight] is new, since it was not busy. *)
Lemma start_keeps st w p w' :
  WInv w -> start_pc st w = Some (p, w') ->
  WInv w' /\ world_le None w w' /\ pc_ok w' p /\
  (forall g, flight p = Some g -> exists x, w_gor w !! g = Some x /\ busy x = false).
Proof.
  intros HI. destruct st; simpl; intros H.
  - destruct (w_globalReplyWith w) eqn:Hg; simplify_eq. split_and!; [done|done| |done].
    simpl. by rewrite Hg.
  - case_decide; simplify_eq. unfold connection_start. split_and!; [done|done| |];
      by repeat case_match.
  - by simplify_eq.
  - by simplify_eq.
  - by simplify_eq.
  - by simplify_eq.
  - destruct (w_gor w !! g) as [[k l []|]|] eqn:Hg; simplify_eq.
    destruct (wi_gor _ HI _ _ Hg) as (Hal & Hn & _).
    split_and!; [apply winv_set_goroutine; [done|split_and!; [done|by destruct k|done]]
      |eapply le_set_goroutine; [done|by left]| |intros g' [= <-]; by eexists].
    simpl. split_and!; [by apply list_lookup_insert_eq, (lookup_lt_Some _ _ _ Hg)|done| |done].
    intros ->. by apply Hn.
  - destruct (w_gor w !! g) as [[|l t []]|] eqn:Hg; simplify_eq.
    destruct (wi_gor _ HI _ _ Hg) as (Hal & _ & Hw). destruct (Hw eq_refl) as [Ha Hs].
    split_and!; [by apply winv_set_goroutine|eapply le_set_goroutine; [done|by left]| |
      intros g' [= <-]; by eexists].
    simpl. split_and!; [by apply list_lookup_insert_eq, (lookup_lt_Some _ _ _ Hg)|done|done|done].
Qed.

Lemma local_keeps e w w' :
  WInv w -> local_event e = true -> exec e w = Some (Ok w') -> WInv w' /\ world_le None w w'.
Proof.
  intros HI He. destruct e; try discriminate He; cbn [exec].
  - destruct (w_globalReplyWith w); [done|]. intros H%(inj Some)%Ok_inj. subst w'.
    destruct HI. by split; split; eauto using session_le_refl.
  - destruct (w_gor w !! g) as [[k l []|]|] eqn:Hg; try done. intros H%(inj Some).
    destruct (wi_gor _ HI _ _ Hg) as ((v & Hv) & _). simpl in Hv. unfold waiter_start in H.
    rewrite Hv in H. destruct k; [destruct (w_globalReplyWith w) as [c|]; [|done]|];
      rewrite bind_Ok in H; apply Ok_inj in H; subst w'.
    + pose proof (wi_heap _ HI _ _ Hv) as Hf.
      assert (Hle : session_le v (set_reply_with c v)) by (split_and!; [done|done|by eexists]).
      pose proof (le_set_session None w l v _ Hv Hle) as Hw. split.
      * apply winv_set_goroutine; [eapply winv_set_session; [done|done|by apply fine_reply_with|done]|].
        assert (Hs : has_socket (set_session l (set_reply_with c v) w) l)
          by (eexists; split; [apply lookup_insert_eq|by eexists]).
        split_and!; [by eauto with grows|done|done].
      * etrans; [exact Hw|]. eapply le_set_goroutine; [exact Hg|by left].
    + split; [apply winv_set_goroutine; [done|by split_and!; [exists v|..]]|].
      eapply le_set_goroutine; [exact Hg|by left].
  - destruct (w_gor w !! g) as [[k l []|]|] eqn:Hg; try done. intros H%(inj Some).
    destruct (wi_gor _ HI _ _ Hg) as (Hal & Hn & Hw). destruct (Hw eq_refl) as [Ha Hs].
    simpl in *. unfold waiter_activated in H. simpl in H.
    destruct (w_heap w !! l) as [v|] eqn:Hv; [|done]. apply Ok_inj in H. subst w'.
    set (w1 := set_goroutine g (Waiter k l WReturned) w).
    assert (HI1 : WInv w1).
    { apply winv_set_goroutine; [done|]. split_and!; [done| |done]. intros Hk. apply Hn. by destruct k. }
    assert (Hle1 : world_le None w w1) by (eapply le_set_goroutine; [exact Hg|by left]).
    assert (Hle2 : world_le None w1 (set_session l (set_udp v) w1))
      by (eapply le_set_session; [exact Hv|by split_and!]).
    assert (HI2 : WInv (set_session l (set_udp v) w1)).
    { eapply winv_set_session; [done|exact Hv|by eapply fine_udp, wi_heap|by split_and!]. }
    split; [|by etrans; [exact Hle1|etrans; [exact Hle2|apply le_append]]].
    apply (winv_append _ (Sender l timeStarted true) HI2).
    assert (Hle : world_le None w (set_session l (set_udp v) w1)) by (by etrans).
    split_and!; [by eauto with grows|done|by eauto with grows].
Qed.

(** The invariant of the interleaved program; a tick or an iteration is executed by one
    list of statements. *)
Record LInv (s : lstate) : Prop := {
  linv_world : WInv (l_world s);
  linv_pc i p : l_threads s !! i = Some p -> pc_ok (l_world s) p;
  linv_flight i j p q g : l_threads s !! i = Some p -> l_threads s !! j = Some q ->
    flight p = Some g -> flight q = Some g -> i = j;
}.

Lemma flight_busy w p g :
  pc_ok w p -> flight p = Some g -> exists x, w_gor w !! g = Some x /\ busy x = true.
Proof. destruct p; try done; intros (Hg & _) [= <-]; by eexists. Qed.

Lemma lexec_inv e s s' : LInv s -> lexec e s = Some (Ok s') -> LInv s'.
Proof.
  intros [HI Hp Hf]. destruct e as [st|i ch|e]; cbn [lexec]; intros H.
  - destruct (start_pc st (l_world s)) as [[p w]|] eqn:Hs; [|done].
    apply (inj Some), Ok_inj in H. subst s'.
    destruct (start_keeps _ _ _ _ HI Hs) as (HI' & Hle & Hpo & Hfl). split; simpl; [done| |].
    + intros j q [Hq|[_ Hq]]%lookup_app_Some.
      * eapply pc_ok_le; [exact Hle| |by eapply Hp]. destruct (flight q); [by right|by left].
      * apply list_lookup_singleton_Some in Hq as [_ <-]. done.
    + assert (Hnew : forall j q g, l_threads s !! j = Some q -> flight q = Some g ->
        flight p = Some g -> False).
      { intros j q g Hq Hg1 Hg2. destruct (flight_busy _ _ _ (Hp _ _ Hq) Hg1) as (x & Hx & Hb).
        destruct (Hfl g Hg2) as (y & Hy & Hyb). congruence. }
      intros j k q r g [Hq|[Hj Hq]]%lookup_app_Some [Hr|[Hk Hr]]%lookup_app_Some Hg1 Hg2;
        [by eapply Hf| | |];
        repeat match goal with
        | Ht : [_] !! _ = Some _ |- _ => apply list_lookup_singleton_Some in Ht as [? <-]
        end; [by edestruct (Hnew j q g)|by edestruct (Hnew k r g)|lia].
  - destruct (l_threads s !! i) as [p|] eqn:Hpi; [|done].
    destruct (tstep i ch p (l_shared s)) as [r|] eqn:Hr; [|done].
    apply (inj Some) in H. apply bind_Ok_inv in H as ([p' sh'] & -> & H%Ok_inj). subst s'.
    destruct (tstep_keeps _ _ _ _ _ _ HI (Hp _ _ Hpi) Hr) as [HI' Hle Hpo Hfl].
    split; simpl; [done| |].
    + intros j q [(-> & <- & _)|[Hne Hq]]%list_lookup_insert_Some; [done|].
      eapply pc_ok_le; [exact Hle| |by eapply Hp]. destruct (flight q) as [g|] eqn:Hg; [right|by left].
      intros Heq. apply Hne. by eapply Hf.
    + assert (Hkeep : forall g, flight p' = Some g -> flight p = Some g)
        by (intros g Hg; destruct Hfl; congruence).
      intros j k q r g [(-> & <- & _)|[Hne Hq]]%list_lookup_insert_Some
        [(-> & <- & _)|[Hne' Hr']]%list_lookup_insert_Some Hg1 Hg2; [done| | |by eapply Hf].
      * eapply (Hf j k p r g); by auto.
      * eapply (Hf j k q p g); by auto.
  - destruct (local_event e) eqn:He; [|done].
    destruct (exec e (l_world s)) as [r|] eqn:Hr; [|done].
    apply (inj Some) in H. apply bind_Ok_inv in H as (w' & -> & H%Ok_inj). subst s'.
    destruct (local_keeps _ _ _ HI He Hr) as [HI' Hle].
    split; simpl; [done| |done]. intros j q Hq.
    eapply pc_ok_le; [exact Hle| |by eapply Hp]. destruct (flight q); [by right|by left].
Qed.

Lemma l_reachable_ind (P : lstate -> Prop) :
  P l_empty -> (forall e s s', P s -> lexec e s = Some (Ok s') -> P s') ->
  forall s, l_reachable s -> P s.
Proof.
  intros H0 Hs s Hr. unfold l_reachable in Hr. revert H0.
  induction Hr as [|u v z [e He] _ IH]; intros Hu; [done|]. by eapply IH, Hs.
Qed.

Lemma l_reachable_inv s : l_reachable s -> LInv s.
Proof.
  revert s. apply l_reachable_ind; [|intros; by eapply lexec_inv].
  split; [|intros i p Hp; by destruct i|intros i j p q g Hp; by destruct i].
  split; [done|done|intros g x Hx; by destruct g|intros d Hd; by apply elem_of_nil in Hd].
Qed.

Lemma lrun_steps es s s' : lrun es s = Some s' -> rtc lstep s s'.
Proof.
  revert s. induction es as [|e es IH]; intros s; simpl; [by intros [= ->]|].
  destruct (lexec e s) as [[s1| | |]|] eqn:He; try done. intros Hr.
  eapply rtc_l; [by eapply lstep_exec|by apply IH].
Qed.
End Program.
