(* ===== verification/Locking.v ===== *)
(** * The session lock (main.go, sessionhandle.go, prom.go)

    Of the statements of Statements.v, those between [sessionLock.Lock()] and
    [sessionLock.Unlock()] exclude each other and end; what the lock does not cover are
    the reads of the session table in the handlers of datagrams and in the go
    statements. *)

From S2P Require Import Prelude Bytes GoTime Acks Session PlainCodec Handshake System Clock.
From S2P Require Import Prom Statements SharedInv.
Local Open Scope Z_scope.

(** ** Mutual exclusion *)

(** The lock is held by the one goroutine that is between Lock and Unlock. *)
Definition lock_inv (s : lstate) : Prop :=
  forall i, l_lock s = Some i <-> exists p, l_threads s !! i = Some p /\ critical p = true.

(** The mark of a write is set exactly while some goroutine is in the middle of one. *)
Definition write_inv (s : lstate) : Prop :=
  sh_writing (l_shared s) = true <->
    exists i p, l_threads s !! i = Some p /\ in_write p = true.

(** What a step does to the lock: nothing, and the goroutine stays inside or outside;
    or it enters a free critical section; or it leaves its own. *)
Inductive lock_effect (i : nat) (p p' : pc) (k k' : option nat) : Prop :=
  | lock_same : critical p' = critical p -> k' = k -> lock_effect i p p' k k'
  | lock_enter : critical p = false -> critical p' = true -> k = None -> k' = Some i ->
      lock_effect i p p' k k'
  | lock_leave : critical p = true -> critical p' = false -> k' = None ->
      lock_effect i p p' k k'.

Section Exclusion.
Context {C : Codec} {L : CodecLaws C}.

Lemma packet_start_outside timeRX buf from c :
  critical (packet_start timeRX buf from c) = false /\
  in_write (packet_start timeRX buf from c) = false.
Proof. unfold packet_start, inbound_start. by repeat case_match. Qed.

Lemma tstep_lock i ch p s p' s' :
  tstep i ch p s = Some (Ok (p', s')) -> lock_effect i p p' (sh_lock s) (sh_lock s').
Proof.
  intros H. tstep_cases H;
    first
      [ by apply lock_same
      | by apply lock_enter
      | by apply lock_leave
      | by destruct who; apply lock_same
      | (apply lock_same; [apply packet_start_outside|done])
      | (apply lock_same; [done|by eapply stats_of_frame]) ].
Qed.

(** A write begins only when none is going on. *)
Lemma tstep_writing i ch p s p' s' :
  tstep i ch p s = Some (Ok (p', s')) ->
  (sh_writing s' = sh_writing s /\ in_write p = false /\ in_write p' = false) \/
  (sh_writing s = false /\ sh_writing s' = true /\ in_write p' = true) \/
  (in_write p = true /\ sh_writing s' = false /\ in_write p' = false).
Proof.
  intros H. tstep_cases H;
    first
      [ left; by split_and!
      | right; left; by split_and!
      | right; right; by split_and!
      | left; by destruct who
      | (left; split_and!; [done|done|apply packet_start_outside])
      | (left; split_and!; [by eapply stats_of_frame|done|done]) ].
Qed.

Lemma write_critical p : in_write p = true -> critical p = true.
Proof. by destruct p. Qed.

Lemma start_outside st w p w' :
  start_pc st w = Some (p, w') -> critical p = false /\ in_write p = false.
Proof.
  destruct st; simpl; intros H; repeat case_match; simplify_eq/=; try done;
    unfold connection_start; by repeat case_match.
Qed.

Lemma lexec_lock_inv e s s' : lock_inv s -> lexec e s = Some (Ok s') -> lock_inv s'.
Proof.
  intros HI. destruct e as [st|i ch|e]; cbn [lexec]; intros H.
  - destruct (start_pc st (l_world s)) as [[p w]|] eqn:Hp; [|done].
    apply (inj Some), Ok_inj in H. subst s'.
    destruct (start_outside _ _ _ _ Hp) as [Hc _]. intros j. unfold l_lock. simpl.
    rewrite (HI j). split; intros (q & Hq & Hcq).
    + exists q. split; [by apply lookup_app_l_Some|done].
    + exists q. split; [|done]. apply lookup_app_Some in Hq as [Hq|[_ Hq]]; [done|].
      apply list_lookup_singleton_Some in Hq as [_ <-]. congruence.
  - destruct (l_threads s !! i) as [p|] eqn:Hp; [|done].
    destruct (tstep i ch p (l_shared s)) as [r|] eqn:Hr; [|done].
    apply (inj Some) in H. apply bind_Ok_inv in H as ([p' sh'] & -> & H%Ok_inj). subst s'.
    apply tstep_lock in Hr. intros j. unfold l_lock in *. simpl.
    pose proof (HI i) as Hi. pose proof (HI j) as Hj. unfold l_lock in *.
    assert (Hlt : (i < length (l_threads s))%nat) by (by eapply lookup_lt_Some).
    destruct (decide (i = j)) as [<- |Hne].
    + rewrite list_lookup_insert_eq by done.
      destruct Hr as [Hc ->|Hc Hc' Hk ->|Hc Hc' ->].
      * rewrite Hi. split; intros (q & Hq & Hcq); simplify_eq; eexists; (split; [done|congruence]).
      * split; [|done]. intros _. by exists p'.
      * split; [done|]. intros (q & [= <-] & Hcq). congruence.
    + rewrite list_lookup_insert_ne by done. rewrite <- Hj.
      destruct Hr as [Hc ->|Hc Hc' Hk ->|Hc Hc' ->]; [done| |].
      * rewrite Hk. split; intros; simplify_eq.
      * assert (Hown : sh_lock (l_shared s) = Some i) by (apply Hi; eauto).
        rewrite Hown. split; intros; simplify_eq.
  - destruct (local_event e); [|done].
    destruct (exec e (l_world s)) as [r|]; [|done].
    apply (inj Some) in H. apply bind_Ok_inv in H as (w' & _ & H%Ok_inj). by subst s'.
Qed.

(** While the lock is held by the one goroutine that may write, the mark follows it. *)
Lemma lexec_write_inv e s s' :
  lock_inv s -> write_inv s -> lexec e s = Some (Ok s') -> write_inv s'.
Proof.
  intros HL HW. destruct e as [st|i ch|e]; cbn [lexec]; intros H.
  - destruct (start_pc st (l_world s)) as [[p w]|] eqn:Hp; [|done].
    apply (inj Some), Ok_inj in H. subst s'. destruct (start_outside _ _ _ _ Hp) as [_ Hc].
    unfold write_inv in *. simpl. rewrite HW. split; intros (j & q & Hq & Hcq); exists j, q.
    + split; [by apply lookup_app_l_Some|done].
    + split; [|done]. apply lookup_app_Some in Hq as [Hq|[_ Hq]]; [done|].
      apply list_lookup_singleton_Some in Hq as [_ <-]. congruence.
  - destruct (l_threads s !! i) as [p|] eqn:Hp; [|done].
    destruct (tstep i ch p (l_shared s)) as [r|] eqn:Hr; [|done].
    apply (inj Some) in H. apply bind_Ok_inv in H as ([p' sh'] & -> & H%Ok_inj). subst s'.
    assert (Hlt : (i < length (l_threads s))%nat) by (by eapply lookup_lt_Some).
    assert (Hown : forall j q, l_threads s !! j = Some q -> in_write q = true ->
      in_write p = true -> j = i).
    { intros j q Hq Hcq Hcp. apply write_critical in Hcq, Hcp.
      assert (l_lock s = Some j) by (apply HL; eauto).
      assert (l_lock s = Some i) by (apply HL; eauto). congruence. }
    unfold write_inv in *. simpl. apply tstep_writing in Hr as
      [(-> & Hc & Hc')|[(Hk & -> & Hc')|(Hc & -> & Hc')]].
    + rewrite HW. split; intros (j & q & Hq & Hcq); exists j, q; (split; [|done]).
      * rewrite list_lookup_insert_ne; [done|]. intros ->. congruence.
      * apply list_lookup_insert_Some in Hq as [(-> & <- & _)|[_ Hq]]; [congruence|done].
    + split; [intros _|done]. exists i, p'. by rewrite list_lookup_insert_eq.
    + split; [done|]. intros (j & q & Hq & Hcq).
      apply list_lookup_insert_Some in Hq as [(-> & <- & _)|[Hne Hq]]; [congruence|].
      destruct Hne. symmetry. by eapply Hown.
  - destruct (local_event e); [|done].
    destruct (exec e (l_world s)) as [r|]; [|done].
    apply (inj Some) in H. apply bind_Ok_inv in H as (w' & _ & H%Ok_inj). by subst s'.
Qed.

Lemma l_reachable_lock s : l_reachable s -> lock_inv s /\ write_inv s.
Proof.
  revert s. apply l_reachable_ind; [|intros e s s' [] He; split;
    [by eapply lexec_lock_inv|by eapply lexec_write_inv]].
  split; [intros i; split; [done|]|split; [done|]].
  - intros (p & Hp & _). by destruct i.
  - intros (i & p & Hp & _). by destruct i.
Qed.

(** Inside a critical section the mark is the goroutine's own. *)
Lemma critical_not_writing s i p :
  l_reachable s -> l_threads s !! i = Some p -> critical p = true -> in_write p = false ->
  sh_writing (l_shared s) = false.
Proof.
  intros Hr Hp Hc Hw. destruct (l_reachable_lock s Hr) as [HL HW].
  destruct (sh_writing (l_shared s)) eqn:Hs; [|done].
  destruct (proj1 HW Hs) as (j & q & Hq & Hcq).
  assert (l_lock s = Some j) by (apply HL; eauto using write_critical).
  assert (l_lock s = Some i) by (apply HL; eauto). simplify_eq. congruence.
Qed.
End Exclusion.

(** ** The length of a critical section *)

(** How many keys the range loop has still to yield. *)
Definition keys_left (seen : list Z) (w : world) : nat :=
  size (dom (w_table w) ∖ (list_to_set seen : gset Z)).

(** How many statements its holder executes at most before the lock is free. *)
Definition statements_left (p : pc) (w : world) : nat :=
  match p with
  | InsStore _ _ => 3
  | InsWrite _ _ | MonLoad _ _ => 2
  | InsUnlock _ _ | MonUnlock _ _ _ | GCUnlock | TickUnlock _ | MeasUnlock => 1
  | GCRange seen | TickRange seen _ | MeasRange seen => 5 * keys_left seen w + 2
  | GCWrite seen _ | MeasStats seen _ => 5 * keys_left seen w + 3
  | GCDelete seen _ => 5 * keys_left seen w + 4
  | GCTestUDP seen _ _ => 5 * keys_left seen w + 5
  | GCTest seen _ _ => 5 * keys_left seen w + 6
  | _ => 0
  end.

Lemma keys_left_key seen id w l :
  range_key seen id w = Some l -> keys_left seen w = S (keys_left (id :: seen) w).
Proof.
  intros [Hni Hl]%range_key_Some. unfold keys_left.
  assert (Heq : dom (w_table w) ∖ list_to_set seen
    ≡ {[ id ]} ∪ (dom (w_table w) ∖ list_to_set (id :: seen) : gset Z)).
  { intros x. rewrite list_to_set_cons.
    assert (Hx : id ∈ dom (w_table w)) by (apply elem_of_dom; eauto).
    rewrite elem_of_union, !elem_of_difference, elem_of_union, elem_of_singleton.
    destruct (decide (x = id)) as [-> |Hne]; [|tauto].
    split; [by left|]. intros _. split; [done|]. by rewrite elem_of_list_to_set. }
  rewrite Heq, size_union, size_singleton; [done|].
  rewrite list_to_set_cons. set_solver.
Qed.

Lemma keys_left_delete seen id w :
  id ∈ seen -> keys_left seen (set_table (delete id (w_table w)) w) = keys_left seen w.
Proof.
  intros Hin. unfold keys_left. simpl. rewrite dom_delete_L. f_equal.
  apply (elem_of_list_to_set (C := gset Z)) in Hin. set_solver.
Qed.

Lemma keys_left_bound seen w : (keys_left seen w <= size (w_table w))%nat.
Proof.
  unfold keys_left. rewrite <- size_dom. apply subseteq_size. set_solver.
Qed.

Lemma range_done_keys seen w : range_done seen w = true <-> keys_left seen w = 0%nat.
Proof.
  unfold range_done, keys_left. rewrite bool_decide_eq_true, size_empty_iff.
  split; intros H x; specialize (H x); set_solver.
Qed.

(** A key that the loop has not yielded. *)
Lemma range_next seen w :
  keys_left seen w <> 0%nat -> exists id l, range_key seen id w = Some l.
Proof.
  unfold keys_left. intros H.
  destruct (size_pos_elem_of (dom (w_table w) ∖ (list_to_set seen : gset Z))) as [id Hid]; [lia|].
  apply elem_of_difference in Hid as [[l Hl]%elem_of_dom Hni].
  exists id, l. apply range_key_Some. split; [|done]. by rewrite elem_of_list_to_set in Hni.
Qed.

Section Length.
Context {C : Codec} {L : CodecLaws C}.

(** Each statement of the holder brings the release closer. *)
Lemma tstep_statements_left i ch p s p' s' :
  pc_ok (sh_world s) p -> critical p = true -> tstep i ch p s = Some (Ok (p', s')) ->
  (statements_left p' (sh_world s') < statements_left p (sh_world s))%nat.
Proof.
  intros Hp Hc H. destruct p; try discriminate Hc; tstep_simpl in H; destruct ch; try discriminate H;
    unfold release, begin_write, end_write, on_session in H; step_cases H;
    repeat match goal with
    | Hm : map_read _ _ = Ok _ |- _ => apply map_read_Ok in Hm as [Hm _]; simplify_eq
    end; simpl in *;
    try match goal with
      | Hk : range_key _ _ _ = Some _ |- _ => rewrite (keys_left_key _ _ _ _ Hk)
      | Hd : range_done _ _ = true |- _ => apply range_done_keys in Hd
      | Hs : stats_of _ _ _ = _ |- _ => apply stats_of_frame in Hs as [-> _]
      end; try lia.
  rewrite keys_left_delete by done. lia.
Qed.

(** The other goroutines leave the table alone while the lock is held. *)
Lemma tstep_table i ch p s p' s' :
  critical p = false -> tstep i ch p s = Some (Ok (p', s')) ->
  w_table (sh_world s') = w_table (sh_world s).
Proof.
  intros Hc H. tstep_cases H; try discriminate Hc; try done.
  apply map_read_Ok in Hb as [-> _]. unfold go_waiter in Hb0. by step_cases Hb0.
Qed.

Lemma statements_left_table p w w' :
  w_table w' = w_table w -> statements_left p w' = statements_left p w.
Proof. intros H. unfold statements_left, keys_left. by rewrite H. Qed.

Lemma start_table st w p w' : start_pc st w = Some (p, w') -> w_table w' = w_table w.
Proof. destruct st; simpl; intros H; repeat case_match; by simplify_eq/=. Qed.

Lemma local_event_table e w w' :
  local_event e = true -> exec e w = Some (Ok w') -> w_table w' = w_table w.
Proof.
  intros He. destruct e; try discriminate He; cbn [exec].
  - destruct (w_globalReplyWith w); [done|]. intros H%(inj Some)%Ok_inj. by subst w'.
  - unfold waiter_start. intros H. step_cases H. by repeat case_match; simplify_eq.
  - unfold waiter_activated. intros H. by step_cases H.
Qed.

(** The readings of the clock that a scrape makes are between 1970 and 2200. *)
Definition choice_in_era (ch : choice) : Prop :=
  match ch with Clock clock => forall n, in_era (clock n) | _ => True end.

Lemma stats_of_ok clock l s :
  is_Some (w_heap (sh_world s) !! l) -> (forall n, in_era (clock n)) ->
  returns_ok (stats_of clock l s).
Proof.
  intros [v Hv] He. unfold stats_of, returns_ok. rewrite Hv.
  destruct (getStats_returns clock (LastRX v) (LastRXPing v) (LastAcks v) He) as (st & -> & _).
  by eexists.
Qed.

(** The holder of the lock is never blocked. *)
Lemma tstep_progress i p s :
  pc_ok (sh_world s) p -> critical p = true -> (in_write p = false -> sh_writing s = false) ->
  exists ch p' s', tstep i ch p s = Some (Ok (p', s')).
Proof.
  intros Hp Hc Hw.
  assert (Hrange : forall seen, range_done seen (sh_world s) = true \/
    exists id l, range_key seen id (sh_world s) = Some l).
  { intros seen. destruct (decide (keys_left seen (sh_world s) = 0%nat)) as [H0|H0].
    - left. by apply range_done_keys.
    - right. by apply range_next. }
  destruct p; try discriminate Hc; simpl in Hp, Hw; try specialize (Hw eq_refl);
    try (exists Go; tstep_simpl; unfold release, begin_write, end_write, map_read; rewrite ?Hw;
         by do 2 eexists).
  2,3: exists (Reading zeroTime); tstep_simpl; unfold on_session;
       destruct Hp as [_ [v ->]]; by do 2 eexists.
  4: { exists (Clock (fun _ => a_moment 0)). tstep_simpl.
       destruct (stats_of_ok (fun _ => a_moment 0) ses s Hp) as [s' ->]; [by intros|].
       by do 2 eexists. }
  all: destruct (Hrange seen) as [Hd|(id & l & Hk)];
    [exists EndRange; tstep_simpl; rewrite Hd|exists (Key id); tstep_simpl; rewrite Hk];
    unfold map_read; rewrite Hw; by do 2 eexists.
Qed.
End Length.

(** What remains of the critical section that is being executed. *)
Definition section_left (s : lstate) : nat :=
  match l_lock s with
  | None => 0
  | Some i =>
      match l_threads s !! i with Some p => statements_left p (l_world s) | None => 0 end
  end.

Lemma statements_left_bound p w : (statements_left p w <= 5 * size (w_table w) + 6)%nat.
Proof. destruct p; simpl; try lia; pose proof (keys_left_bound seen w); lia. Qed.

Lemma statements_left_pos p w : critical p = true -> (0 < statements_left p w)%nat.
Proof. destruct p; simpl; try done; lia. Qed.

Section Properties.
Context {C : Codec} {L : CodecLaws C}.

Lemma lexec_thread i ch p s :
  l_threads s !! i = Some p ->
  lexec (LStep i ch) s = match tstep i ch p (l_shared s) with
    | None => None
    | Some r => Some (ps ← r; Ok (mkLState (snd ps) (<[i := fst ps]> (l_threads s))))
    end.
Proof. intros Hp. cbn [lexec]. by rewrite Hp. Qed.

Lemma lexec_thread_Ok i ch s s' :
  lexec (LStep i ch) s = Some (Ok s') ->
  exists p p' sh, l_threads s !! i = Some p /\ tstep i ch p (l_shared s) = Some (Ok (p', sh)) /\
    s' = mkLState sh (<[i := p']> (l_threads s)).
Proof.
  cbn [lexec]. destruct (l_threads s !! i) as [p|]; [|done].
  destruct (tstep i ch p (l_shared s)) as [r|] eqn:Hr; [|done].
  intros H%(inj Some). apply bind_Ok_inv in H as ([p' sh] & -> & H%Ok_inj).
  exists p, p', sh. by split_and!.
Qed.

(** An event that is not a statement of the holder leaves its section as it is. *)
Lemma section_left_other i e s s' :
  l_reachable s -> l_lock s = Some i -> lexec e s = Some (Ok s') ->
  (forall ch, e <> LStep i ch) -> l_lock s' = Some i /\ section_left s' = section_left s.
Proof.
  intros Hr Hi He Hne. destruct (l_reachable_lock s Hr) as [HI _]. unfold section_left.
  pose proof (proj1 (HI i) Hi) as (p & Hp & Hc). rewrite Hi, Hp.
  destruct e as [st|j ch|e].
  - cbn [lexec] in He. destruct (start_pc st (l_world s)) as [[q w]|] eqn:Hs; [|done].
    apply (inj Some), Ok_inj in He. subst s'.
    unfold l_lock, l_world in *. simpl. rewrite Hi. split; [done|].
    rewrite (lookup_app_l_Some _ _ _ _ Hp). by eapply statements_left_table, start_table.
  - apply lexec_thread_Ok in He as (q & q' & sh & Hq & Hs & ->).
    assert (Hji : j <> i) by (intros ->; by eapply Hne).
    assert (Hcq : critical q = false).
    { destruct (critical q) eqn:Hcq; [|done].
      assert (Hj : l_lock s = Some j) by (apply HI; eauto). congruence. }
    pose proof (tstep_lock _ _ _ _ _ _ Hs) as Hl. unfold l_lock, l_world in *. simpl.
    destruct Hl as [_ ->|_ _ Hk _|Hcq' _ _]; [|congruence|congruence].
    rewrite Hi, list_lookup_insert_ne, Hp by done. split; [done|]. apply statements_left_table.
    by eapply tstep_table.
  - cbn [lexec] in He. destruct (local_event e) eqn:Hle; [|done].
    destruct (exec e (l_world s)) as [r|] eqn:Hx; [|done].
    apply (inj Some) in He. apply bind_Ok_inv in He as (w' & -> & He%Ok_inj). subst s'.
    unfold l_lock, l_world in *. simpl. rewrite Hi, Hp. split; [done|].
    apply statements_left_table. by eapply local_event_table.
Qed.

(** C5: mutual exclusion and what remains of the races: at every interleaving the lock is
    held exactly when some goroutine is inside a critical section, and by that goroutine,
    so that no two are ever inside; and when a goroutine is about to write the session
    table, or in the middle of it, any other goroutine about to use the table holds no
    lock and is at one of the reads without it: the lookups of the two datagram handlers
    and the go statements after an insertion. No two writes ever meet. *)
Theorem table_races_are_unlocked_reads s :
  l_reachable s ->
  (forall i, l_lock s = Some i <-> exists p, l_threads s !! i = Some p /\ critical p = true) /\
  (forall i j p q, l_threads s !! i = Some p -> l_threads s !! j = Some q ->
     critical p = true -> critical q = true -> i = j) /\
  (forall i j p q t m, i <> j -> l_threads s !! i = Some p -> l_threads s !! j = Some q ->
     access p = Some (SessionMap, Write) -> access q = Some (t, m) ->
     l_lock s = Some i /\ critical q = false /\
     (t = SessionMap -> m = Read /\ unlocked_lookup q = true)).
Proof.
  intros Hr. destruct (l_reachable_lock s Hr) as [HI _]. split; [exact HI|].
  assert (Hone : forall i j p q, l_threads s !! i = Some p -> l_threads s !! j = Some q ->
    critical p = true -> critical q = true -> i = j).
  { intros i j p q Hp Hq Hcp Hcq. assert (l_lock s = Some i) by (apply HI; eauto).
    assert (l_lock s = Some j) by (apply HI; eauto). congruence. }
  split; [exact Hone|]. intros i j p q t m Hne Hp Hq Ha Hb.
  assert (Hcp : critical p = true).
  { destruct p; simpl in Ha; repeat case_match; simplify_eq/=; done. }
  assert (Hcq : critical q = false).
  { destruct (critical q) eqn:Hcq; [|done]. destruct Hne. by eapply Hone. }
  split_and!; [apply HI; eauto|done|]. intros ->.
  destruct q; simpl in Hb; repeat case_match; by simplify_eq/=.
Qed.

(** C7: no deadlock and short critical sections: whenever the lock is held, its holder has
    a next statement that is enabled and returns; each statement of the holder brings
    the release nearer, no other goroutine changes how far it is, and it is never
    farther than five statements per session of the table and six more. *)
Theorem critical_section_ends s i :
  l_reachable s -> l_lock s = Some i ->
  (exists ch s', lexec (LStep i ch) s = Some (Ok s')) /\
  (0 < section_left s <= 5 * size (w_table (l_world s)) + 6)%nat /\
  (forall ch s', lexec (LStep i ch) s = Some (Ok s') ->
     l_lock s' = None \/ (l_lock s' = Some i /\ (section_left s' < section_left s)%nat)) /\
  (forall e s', lexec e s = Some (Ok s') -> (forall ch, e <> LStep i ch) ->
     l_lock s' = Some i /\ section_left s' = section_left s).
Proof.
  intros Hr Hi. destruct (l_reachable_lock s Hr) as [HI _]. pose proof (l_reachable_inv s Hr) as HL.
  pose proof (proj1 (HI i) Hi) as (p & Hp & Hc). pose proof (linv_pc _ HL _ _ Hp) as Hok.
  assert (Hsl : section_left s = statements_left p (l_world s))
    by (unfold section_left; by rewrite Hi, Hp).
  rewrite Hsl. split_and!.
  - destruct (tstep_progress i p (l_shared s) Hok Hc) as (ch & p' & sh & Hs);
      [by intros; eapply critical_not_writing|].
    exists ch. rewrite (lexec_thread _ _ _ _ Hp), Hs. by eexists.
  - by apply statements_left_pos.
  - apply statements_left_bound.
  - intros ch s' He. apply lexec_thread_Ok in He as (q & p' & sh & Hq & Hs & ->). simplify_eq.
    pose proof (tstep_lock _ _ _ _ _ _ Hs) as Hl. unfold l_lock in *. simpl.
    destruct Hl as [_ Hk|_ _ Hk _|_ _ ->]; [right|congruence|by left]. rewrite Hk.
    split; [done|]. unfold section_left, l_lock. simpl. rewrite Hk, Hi.
    rewrite list_lookup_insert_eq by (by eapply lookup_lt_Some).
    by eapply tstep_statements_left.
  - intros e s' He Hne. rewrite <- Hsl. by eapply section_left_other.
Qed.

End Properties.

(** ** Concrete schedules *)

(** The state a schedule leads to from the start. *)
Definition l_state (es : list levent) : lstate := default l_empty (lrun es l_empty).

Lemma l_state_reachable es : is_Some (lrun es l_empty) -> l_reachable (l_state es).
Proof. intros [s Hs]. unfold l_state. rewrite Hs. by apply (lrun_steps es). Qed.

(** [timeNowCorrected] at the reading [t] of a clock without an offset. *)
Definition exactly (t : Time) : choice := Corrected t t (mkCalibration 0 t) (mkClock 0 t).

(** The statements of a handler of a handshake that activates the session, and of a ping,
    on thread [i]. *)
Definition handshake_steps (i : nat) (t : Time) : list levent :=
  LStep i (exactly t) :: replicate 11 (LStep i Go).
Definition ping_steps (i : nat) (t : Time) : list levent :=
  LStep i (exactly t) :: replicate 11 (LStep i Go).

(** A session is invited and completes its handshake. *)
Definition invited : list levent :=
  [LWorld (EListen 0%nat); LStart (StartConnection true invite_request 7 (a_moment 0))] ++
  replicate 5 (LStep 0 Go) ++ [LStart (StartPacket (hs_of 7) peer)] ++
  handshake_steps 1 (a_moment 1).

(** The collector has tested the session, while a handler is about to read the table. *)
Definition collecting : list levent :=
  invited ++ [LStart StartCollector; LStep 2 Go; LStep 2 Go; LStep 2 (Key 7);
    LStep 2 (Reading (a_moment 2)); LStart (StartPacket (ping_of 7 2) peer);
    LStep 3 (exactly (a_moment 2))].

Lemma invited_reachable : l_reachable (l_state invited).
Proof. apply l_state_reachable. vm_compute. by eexists. Qed.

Lemma collecting_reachable : l_reachable (l_state collecting).
Proof. apply l_state_reachable. vm_compute. by eexists. Qed.

Definition example_ping : pingStruct := mkPing type_ping magic 7 2 (strip (a_moment 2)) 0 zeroAcks.

Lemma table_races_are_unlocked_reads_witness :
  l_lock (l_state collecting) = Some 2%nat /\
  critical (PacketLookup (a_moment 2) example_ping peer 0%nat) = false /\
  (SessionMap = SessionMap -> Read = Read /\
     unlocked_lookup (PacketLookup (a_moment 2) example_ping peer 0%nat) = true).
Proof.
  refine (proj2 (proj2 (table_races_are_unlocked_reads (l_state collecting) collecting_reachable))
    2%nat 3%nat (GCDelete [7] 7) (PacketLookup (a_moment 2) example_ping peer 0%nat) SessionMap Read
    _ _ _ _ _).
  - lia.
  - vm_compute. reflexivity.
  - vm_compute. reflexivity.
  - reflexivity.
  - reflexivity.
Defined.

Lemma critical_section_ends_witness :
  section_left (l_state collecting) = 4%nat /\
  exists ch s', lexec (LStep 2 ch) (l_state collecting) = Some (Ok s').
Proof.
  split; [vm_compute; reflexivity|].
  refine (proj1 (critical_section_ends (l_state collecting) 2 collecting_reachable _)).
  vm_compute. reflexivity.
Defined.
