(* ===== verification/Safety.v ===== *)
(** * What can go wrong at an interleaving (main.go, sessionhandle.go, prom.go,
    timecorrection.go)

    In every state that the statements can reach, in any order, the invariant of
    SharedInv.v holds, and a statement that is executed returns, unless it is one of
    five: they are listed with the states in which they fail. *)

From S2P Require Import Prelude Bytes GoTime Acks Session PlainCodec Handshake System Clock.
From S2P Require Import Prom Statements SharedInv Locking.
Local Open Scope Z_scope.

(** A statement that calls [timeNowCorrected]. *)
Definition reads_clock (p : pc) : bool :=
  match p with
  | PacketClock _ _ _ | TickWait _ | Ping _ PingSleep | Ping _ (PingTX _) => true
  | _ => false
  end.

(** The statements that fail, with the states in which they do. *)
Inductive failure (s : lstate) : levent -> result fatal_error lstate -> Prop :=
  (* the go statement of a session that has been collected: a method call on nil *)
  | fail_collected i who id :
      l_threads s !! i = Some (InsGo who id) -> sh_writing (l_shared s) = false ->
      w_table (l_world s) !! id = None -> failure s (LStep i Go) Panic
  (* the waiter of the initiating side starts before the UDP socket is open *)
  | fail_no_socket g l :
      w_gor (l_world s) !! g = Some (Waiter SendUDPHandshake l WStarting) ->
      w_globalReplyWith (l_world s) = None -> failure s (LWorld (EWaiterSelects g)) Panic
  (* the slot has left the ring *)
  | fail_slot i j n :
      l_threads s !! i = Some (PacketSlot j (SlotIndex n)) -> 32 <= n ->
      failure s (LStep i Go) Panic
  (* a read of the table without the lock meets a write *)
  | fail_map i p :
      l_threads s !! i = Some p -> unlocked_lookup p = true -> sh_writing (l_shared s) = true ->
      failure s (LStep i Go) (Err ConcurrentMapAccess)
  (* the clock is calibrated again, and found to be more than a second off *)
  | fail_clock i p now0 now cal clk :
      l_threads s !! i = Some p -> reads_clock p = true ->
      IsZero (lastSync clk) = true \/ Since now (lastSync clk) > Minute * 30 ->
      cal_offset cal > Second -> failure s (LStep i (Corrected now0 now cal clk)) (Err Fatal).

(** The part of [failure] that is about a goroutine. *)
Definition step_fails {A} (ch : choice) (p : pc) (s : shared) (r : result fatal_error A) : Prop :=
  (ch = Go /\ r = Panic /\ sh_writing s = false /\
     exists who id, p = InsGo who id /\ w_table (sh_world s) !! id = None) \/
  (ch = Go /\ r = Panic /\ exists j n, p = PacketSlot j (SlotIndex n) /\ 32 <= n) \/
  (ch = Go /\ r = Err ConcurrentMapAccess /\ unlocked_lookup p = true /\ sh_writing s = true) \/
  (r = Err Fatal /\ reads_clock p = true /\ exists now0 now cal clk,
     ch = Corrected now0 now cal clk /\
     (IsZero (lastSync clk) = true \/ Since now (lastSync clk) > Minute * 30) /\
     cal_offset cal > Second).

Lemma timeNowCorrected_cases now0 now cal clk :
  returns_ok (timeNowCorrected now0 now cal clk) \/
  (timeNowCorrected now0 now cal clk = Err Fatal /\
   (IsZero (lastSync clk) = true \/ Since now (lastSync clk) > Minute * 30) /\
   cal_offset cal > Second).
Proof.
  unfold timeNowCorrected, getTimeOffset. destruct (decide (_ \/ _)) as [Hr|Hr].
  - simpl. destruct (decide (cal_offset cal > Second)); [by right|left]. by eexists.
  - left. by eexists.
Qed.

Lemma timeNowCorrected_fails now0 now cal clk :
  IsZero (lastSync clk) = true \/ Since now (lastSync clk) > Minute * 30 ->
  cal_offset cal > Second -> timeNowCorrected now0 now cal clk = Err Fatal.
Proof.
  intros Hr Hc. unfold timeNowCorrected, getTimeOffset. rewrite (decide_True _ _ Hr). simpl.
  by rewrite decide_True.
Qed.

Section Safety.
Context {C : Codec} {L : CodecLaws C}.

(** A call of [timeNowCorrected] in a statement. *)
Lemma corrected_returns {A} now0 now cal clk p (s : shared)
    (k : Time * clock_state -> result fatal_error A) :
  reads_clock p = true -> (forall t, returns_ok (k t)) ->
  returns_ok (timeNowCorrected now0 now cal clk ≫= k) \/
  step_fails (Corrected now0 now cal clk) p s (timeNowCorrected now0 now cal clk ≫= k).
Proof.
  intros Hp Hk. destruct (timeNowCorrected_cases now0 now cal clk) as [[t ->]|(-> & Hr & Hc)].
  - left. apply Hk.
  - right. right. right. right. split_and!; [done|done|]. by exists now0, now, cal, clk.
Qed.

(** A read of the table without the lock. *)
Lemma lookup_returns {A B} p (s : shared) (a : A) (k : A -> result fatal_error B) :
  unlocked_lookup p = true -> returns_ok (k a) ->
  returns_ok (map_read s a ≫= k) \/ step_fails Go p s (map_read s a ≫= k).
Proof.
  intros Hp Hk. unfold map_read. destruct (sh_writing s) eqn:Hs; [|by left].
  right. right. right. left. by split_and!.
Qed.

Lemma alive_returns {A} l w (k : session -> result fatal_error A) :
  alive w l -> (forall v, w_heap w !! l = Some v -> returns_ok (k v)) ->
  returns_ok (match w_heap w !! l with None => Panic | Some v => k v end).
Proof. intros [v Hv] Hk. rewrite Hv. by apply Hk. Qed.

Lemma packet_step_returns ch p s r :
  in_packet p = true -> WInv (sh_world s) -> pc_ok (sh_world s) p ->
  packet_step ch p s = Some r -> returns_ok r \/ step_fails ch p s r.
Proof.
  intros Hin HI Hp H.
  destruct p; try discriminate Hin; destruct ch; try discriminate H;
    cbn [packet_step] in H; apply (inj Some) in H; subst r; simpl in Hp.
  - apply corrected_returns; [done|]. intros [t clk']. by eexists.
  - apply lookup_returns; [done|]. by eexists.
  - left. apply alive_returns; [by destruct Hp|]. intros v Hv. by eexists.
  - destruct Hp as (Hrx & [v [Hv Ha]] & Hn). rewrite Hv.
    pose proof (wi_heap _ HI _ _ Hv) as Hf. destruct p; try (left; by eexists).
    rewrite (sf_acks _ Hf). unfold ring_size. case_decide as Hd; [left; by eexists|right].
    right. left. split_and!; [done|done|]. exists j, slot. split; [done|lia].
  - left. destruct Hp as [Hrx Ha]. apply alive_returns; [by apply activated_alive|].
    intros v Hv. destruct f; by eexists.
  - apply lookup_returns; [done|]. by eexists.
  - left. destruct Hp as (Hg & Hal & Hp). apply alive_returns; [done|]. intros v Hv.
    destruct p; try (by eexists).
    + destruct Hg as [c ->]. by eexists.
    + destruct Hp as (_ & u & Hu & c & Hc). simplify_eq. rewrite Hc. by eexists.
    + destruct (ReplyTo v); by eexists.
Qed.

Lemma waiter_step_returns ch j p s r :
  WInv (sh_world s) -> pc_ok (sh_world s) (WaiterTick j p) -> waiter_step ch j p s = Some r -> returns_ok r.
Proof.
  intros HI (Hg & Hal & Hk & Hkind) H. unfold waiter_step, on_session in H.
  destruct p, ch; try discriminate H; apply (inj Some) in H; subst r;
    (apply alive_returns; [done|]); intros v Hv.
  - repeat case_match; by eexists.
  - assert (Hwf : wf_hs (handshake_packet v)).
    { pose proof (sf_id _ (wi_heap _ HI _ _ Hv)). unfold wf_hs, handshake_packet. simpl.
      split_and!; try done; unfold is_u8, is_u16; lia. }
    destruct (marshal_hs_ok _ Hwf) as (b & q & -> & _). by eexists.
  - destruct (Hk (Hkind ltac:(done))) as (u & Hu & c & Hc). simplify_eq.
    rewrite Hc. by eexists.
Qed.

Lemma ping_step_returns ch j p s r :
  WInv (sh_world s) -> pc_ok (sh_world s) (Ping j p) -> ping_step ch j p s = Some r ->
  returns_ok r \/ step_fails ch (Ping j p) s r.
Proof.
  intros HI (Hg & Ha & Hs & Hp) H. unfold ping_step, on_session in H.
  destruct p, ch; try discriminate H; apply (inj Some) in H; subst r;
    try (by apply corrected_returns; [|intros []; eexists]); try (left; by eexists);
    left; (apply alive_returns; [by apply activated_alive|]); intros v Hv; try (by eexists).
  - destruct Hp as (Hid & Hac & Hlen). pose proof (wi_heap _ HI _ _ Hv) as Hf.
    destruct (LastAcks v !! length acks) as [a|] eqn:Hl; [by eexists|].
    apply lookup_ge_None in Hl. rewrite (sf_acks _ Hf) in Hl.
    destruct (marshal_ping_ok (mkPing type_ping magic (SessionID v) id tx 0 acks)) as (b & -> & _);
      [|by eexists].
    pose proof (sf_id _ Hf). unfold wf_ping. simpl.
    split_and!; try done; unfold is_u8, is_u16 in *; lia.
  - destruct (ReplyTo v); by eexists.
  - destruct Hs as (u & Hu & c & Hc). simplify_eq. rewrite Hc. by eexists.
  - destruct (ReplyTo v); by eexists.
Qed.
(** The goroutines that use the lock. *)
Lemma table_step_returns i ch p s r :
  flight p = None -> in_packet p = false -> pc_ok (sh_world s) p -> choice_in_era ch ->
  (critical p = true -> in_write p = false -> sh_writing s = false) ->
  tstep i ch p s = Some r -> returns_ok r \/ step_fails ch p s r.
Proof.
  intros Hfl Hnp Hp Hera Hw H.
  assert (Hgo : forall who id, p = InsGo who id -> ch = Go -> returns_ok r \/ step_fails ch p s r).
  { intros who id -> ->. cbn [tstep insert_step] in H. apply (inj Some) in H. subst r.
    unfold map_read. destruct (sh_writing s) eqn:Hs.
    - right. right. right. left. by split_and!.
    - rewrite bind_Ok. unfold go_waiter. destruct (w_table (sh_world s) !! id) eqn:Hl; [by left; eexists|].
      right. left. split_and!; [done..|]. by exists who, id. }
  assert (Htick : forall l now0 now cal clk, p = TickWait l -> ch = Corrected now0 now cal clk ->
    returns_ok r \/ step_fails ch p s r).
  { intros l now0 now cal clk -> ->. cbn [tstep ticker_step] in H. apply (inj Some) in H. subst r.
    apply corrected_returns; [done|]. intros _. by eexists. }
  destruct p; try discriminate Hfl; try discriminate Hnp; tstep_simpl in H; try discriminate H;
    destruct ch; try discriminate H; try exact (Hgo _ _ eq_refl eq_refl);
    try exact (Htick _ _ _ _ _ eq_refl eq_refl); left; clear Hgo Htick;
    unfold acquire, release, begin_write, end_write, on_session, map_read in H; simpl in Hw, Hp;
    try rewrite (Hw eq_refl eq_refl) in H;
    try (destruct Hp as (_ & v & Hv); rewrite Hv in H);
    try (destruct (stats_of_ok clock ses s Hp Hera) as [s' Hs]; rewrite Hs in H).
  all: repeat first
    [ apply (inj Some) in H; subst r
    | apply bind_Some in H as (? & ? & H)
    | match type of H with context [match ?x with _ => _ end] => destruct x; try discriminate H end ];
    by eexists.
Qed.

Lemma tstep_returns i ch p s r :
  WInv (sh_world s) -> pc_ok (sh_world s) p -> choice_in_era ch ->
  (critical p = true -> in_write p = false -> sh_writing s = false) ->
  tstep i ch p s = Some r -> returns_ok r \/ step_fails ch p s r.
Proof.
  intros HI Hp Hera Hw H. destruct (in_packet p) eqn:Hin.
  { assert (Hpk : tstep i ch p s = packet_step ch p s) by (by destruct p).
    rewrite Hpk in H. by apply packet_step_returns. }
  destruct (flight p) eqn:Hfl; [|by eapply table_step_returns].
  destruct p; try discriminate Hfl; cbn [tstep] in H.
  - left. by eapply waiter_step_returns.
  - by apply ping_step_returns.
Qed.

(** The statements that are not of one of the modelled goroutines' bodies. *)
Lemma local_event_returns e w r :
  WInv w -> local_event e = true -> exec e w = Some r ->
  returns_ok r \/
  (r = Panic /\ exists g l, e = EWaiterSelects g /\
     w_gor w !! g = Some (Waiter SendUDPHandshake l WStarting) /\ w_globalReplyWith w = None).
Proof.
  intros HI He H. destruct e; try discriminate He; cbn [exec] in H.
  - destruct (w_globalReplyWith w); simplify_eq. left. by eexists.
  - destruct (w_gor w !! g) as [[k l []|]|] eqn:Hg; simplify_eq.
    destruct (wi_gor _ HI _ _ Hg) as ([v Hv] & _). simpl in Hv. unfold waiter_start. rewrite Hv.
    destruct k; [|left; by eexists].
    destruct (w_globalReplyWith w) eqn:Hs; [left; by eexists|right]. split; [done|]. by exists g, l.
  - destruct (w_gor w !! g) as [[k l []|]|] eqn:Hg; simplify_eq.
    destruct (wi_gor _ HI _ _ Hg) as ([v Hv] & _). simpl in Hv. unfold waiter_activated.
    left. simpl. rewrite Hv. by eexists.
Qed.

(** The readings of the clock of a scrape are between 1970 and 2200. *)
Definition event_in_era (e : levent) : Prop :=
  match e with LStep _ ch => choice_in_era ch | _ => True end.

(** A goroutine's failing statement ends the program. *)
Lemma step_fails_failure s i ch p (r : result fatal_error (pc * shared)) :
  l_threads s !! i = Some p -> step_fails ch p (l_shared s) r ->
  failure s (LStep i ch) (ps ← r; Ok (mkLState (snd ps) (<[i := fst ps]> (l_threads s)))).
Proof.
  intros Hp [(-> & -> & Hs & who & id & -> & Hl)|[(-> & -> & j & n & -> & Hn)|
    [(-> & -> & Hu & Hs)|(-> & Hc & now0 & now & cal & clk & -> & Hr & Hcal)]]].
  - by eapply fail_collected.
  - by eapply fail_slot.
  - by eapply fail_map.
  - by eapply fail_clock.
Qed.

(** And each of the failures is one. *)
Lemma failure_executes s e r : WInv (l_world s) -> LInv s -> failure s e r -> lexec e s = Some r.
Proof.
  intros HW HL [i who id Hp Hs Hl|g l Hg Hs|i j n Hp Hn|i p Hp Hu Hs|i p now0 now cal clk Hp Hc Hr Hcal].
  - rewrite (lexec_thread _ _ _ _ Hp). cbn [tstep insert_step]. unfold map_read, go_waiter.
    rewrite Hs, bind_Ok. unfold l_world in Hl. by rewrite Hl.
  - destruct (wi_gor _ HW _ _ Hg) as ([v Hv] & _). cbn [lexec local_event exec]. rewrite Hg.
    unfold waiter_start. simpl in Hv. by rewrite Hv, Hs.
  - destruct (linv_pc _ HL _ _ Hp) as (_ & [v [Hv _]] & _).
    rewrite (lexec_thread _ _ _ _ Hp). cbn [tstep packet_step]. unfold slot_step, on_session.
    unfold l_world in Hv. rewrite Hv, (sf_acks _ (wi_heap _ HW _ _ Hv)), decide_False; [done|].
    unfold ring_size. lia.
  - rewrite (lexec_thread _ _ _ _ Hp). destruct p; try discriminate Hu;
      cbn [tstep packet_step insert_step]; unfold map_read; by rewrite Hs.
  - rewrite (lexec_thread _ _ _ _ Hp).
    assert (Hf := timeNowCorrected_fails now0 now cal clk Hr Hcal).
    destruct p; try discriminate Hc; [| |destruct p; try discriminate Hc];
      cbn [tstep packet_step ticker_step ping_step]; by rewrite Hf.
Qed.

End Safety.

(** The collector is in the middle of its write. *)
Definition racing : list levent := collecting ++ [LStep 2 Go].

