(* ===== verification/Races.v ===== *)
(** * Overlapping handlers (main.go, sessionhandle.go)

    [listenAndRoute] starts a goroutine per datagram, and the handlers on one session
    take no lock. What of the intended behaviour is left when they overlap, and what
    holds when they do not: echoes of handshakes, ping loops, and the slot of the ring. *)

From S2P Require Import Prelude Bytes GoTime Acks Session PlainCodec Handshake System Clock.
From S2P Require Import Prom Statements SharedInv Locking Safety.
Local Open Scope Z_scope.

(** ** What a statement does to the goroutines and the datagrams sent *)

(** The goroutines are the same; or one is back from its tick or iteration; or the
    waiters of a session are notified; or a waiter starts. *)
Inductive gor_effect (p : pc) (w w' : world) : Prop :=
  | gor_same : w_gor w' = w_gor w -> gor_effect p w w'
  | gor_back g x y : flight p = Some g -> w_gor w !! g = Some x -> busy x = true ->
      gor_loc y = gor_loc x -> is_woken y = is_woken x -> w_heap w' = w_heap w ->
      w_gor w' = <[g := y]> (w_gor w) -> gor_effect p w w'
  | gor_notified j was : p = Inbound j (InboundNotify was) -> w_heap w' = w_heap w ->
      w_gor w' = notify (ij_ses j) (w_gor w) -> gor_effect p w w'
  | gor_started who id l : p = InsGo who id -> w_table w !! id = Some l ->
      w_heap w' = w_heap w -> w_gor w' = w_gor w ++ [Waiter (kind_of who) l WStarting] ->
      gor_effect p w w'.

(** Nothing is sent, or one datagram: by a waiter, a ping loop, or as an echo. *)
Inductive sent_effect (p : pc) (w w' : world) : Prop :=
  | sent_same : w_sent w' = w_sent w -> sent_effect p w w'
  | sent_other d : d_kind d <> SReply -> w_sent w' = d :: w_sent w -> sent_effect p w w'
  | sent_echo j c to : p = Inbound j (InboundEcho c) ->
      w_sent w' = mkDatagram SReply (ij_ses j) c (ij_buf j) to :: w_sent w -> sent_effect p w w'.

(** The session object that the handler of a datagram has in hand. *)
Definition works_on (p : pc) : option loc :=
  match p with
  | PacketTest j | PacketSlot j _ | PacketField j _ => Some (pj_ses j)
  | Inbound j _ => Some (ij_ses j)
  | _ => None
  end.

(** The heap is the same, has a new object, or one object has changed: that of a handler,
    or the identifier in that of a ping loop. *)
Inductive heap_effect (p : pc) (w w' : world) : Prop :=
  | heap_same : w_heap w' = w_heap w -> heap_effect p w w'
  | heap_new who id : p = InsWrite who id -> w_gor w' = w_gor w ->
      w_heap w' = <[fresh (dom (w_heap w)) := session_of who id]> (w_heap w) -> heap_effect p w w'
  | heap_set l v v' : works_on p = Some l -> w_heap w !! l = Some v ->
      w_heap w' = <[l := v']> (w_heap w) -> heap_effect p w w'
  | heap_current l v n : w_heap w !! l = Some v ->
      w_heap w' = <[l := set_current n v]> (w_heap w) -> heap_effect p w w'.

Section Effects.
Context {C : Codec} {L : CodecLaws C}.

Lemma tstep_gor i ch p s p' s' :
  pc_ok (sh_world s) p -> tstep i ch p s = Some (Ok (p', s')) ->
  gor_effect p (sh_world s) (sh_world s').
Proof.
  intros Hp H. tstep_cases H; try (by apply gor_same); try (by eapply gor_notified);
    try (destruct Hp as [Hg _]; eapply gor_back; [reflexivity|exact Hg|reflexivity| | | |reflexivity]; reflexivity).
  - apply map_read_Ok in Hb as [-> _]. unfold go_waiter in Hb0. step_cases Hb0. by eapply gor_started.
  - apply gor_same. by apply stats_of_frame in Hb as [-> _].
Qed.

Lemma tstep_sent i ch p s p' s' :
  tstep i ch p s = Some (Ok (p', s')) -> sent_effect p (sh_world s) (sh_world s').
Proof.
  intros H. tstep_cases H; try (by apply sent_same); try (eapply sent_other; [|reflexivity]; done);
    try (by eapply sent_echo).
  - apply map_read_Ok in Hb as [-> _]. unfold go_waiter in Hb0. step_cases Hb0. by apply sent_same.
  - apply sent_same. by apply stats_of_frame in Hb as [-> _].
Qed.

Lemma tstep_heap i ch p s p' s' :
  tstep i ch p s = Some (Ok (p', s')) -> heap_effect p (sh_world s) (sh_world s').
Proof.
  intros H. tstep_cases H; try (by apply heap_same); try (by eapply heap_new);
    try (eapply heap_set; [reflexivity|eassumption|reflexivity]);
    try (eapply heap_current; [eassumption|reflexivity]).
  - apply map_read_Ok in Hb as [-> _]. unfold go_waiter in Hb0. step_cases Hb0. by apply heap_same.
  - apply heap_same. by apply stats_of_frame in Hb as [-> _].
Qed.
End Effects.

(** ** Echoes of handshakes *)

(** A handler of a handshake of [l] that will echo it: it has found the session not
    activated. *)
Definition echoing (l : loc) (p : pc) : bool :=
  match p with
  | Inbound j q =>
      bool_decide (ij_ses j = l) &&
      match q with
      | InboundReplyTo was | InboundReplyWith was | InboundActivate was
      | InboundPeerTest was | InboundPeer was | InboundNotify was => negb was
      | InboundSocket | InboundEcho _ => true
      | InboundTest | InboundWas => false
      end
  | _ => false
  end.

Definition echoes_due (l : loc) (s : lstate) : nat := count (echoing l) (l_threads s).

Section Echoes.
Context {C : Codec} {L : CodecLaws C}.

Lemma packet_start_silent l timeRX buf from c : echoing l (packet_start timeRX buf from c) = false.
Proof. unfold packet_start, inbound_start. by repeat case_match. Qed.

(** No handler finds an activated session not activated. *)
Lemma echoing_step l i ch p s p' s' :
  activated (sh_world s) l -> tstep i ch p s = Some (Ok (p', s')) ->
  echoing l p' = true -> echoing l p = true.
Proof.
  intros (v & Hv & Ha) H. tstep_cases H; simpl; try done; try congruence.
  - by rewrite packet_start_silent.
  - by rewrite andb_false_r.
  - case_bool_decide; [|done]. subst. simplify_eq. by rewrite Ha.
  - by destruct who.
Qed.

Lemma replies_cons l d w : replies l (send d w) = ((if is_reply l d then 1 else 0) + replies l w)%nat.
Proof. done. Qed.

Lemma tstep_echo l i ch p s p' s' :
  activated (sh_world s) l -> tstep i ch p s = Some (Ok (p', s')) ->
  (replies l (sh_world s') + (if echoing l p' then 1 else 0)
    <= replies l (sh_world s) + if echoing l p then 1 else 0)%nat.
Proof.
  intros Ha H. pose proof (echoing_step l _ _ _ _ _ _ Ha H) as He.
  assert (Hle : ((if echoing l p' then 1 else 0) <= if echoing l p then 1 else 0)%nat)
    by (destruct (echoing l p'); [rewrite He by done; lia|destruct (echoing l p); lia]).
  destruct (tstep_sent _ _ _ _ _ _ H) as [Hs|d Hd Hs|j c to -> Hs]; unfold replies; rewrite Hs; simpl.
  - lia.
  - unfold is_reply at 1. rewrite bool_decide_eq_false_2 by (by intros []). lia.
  - assert (Hp : p' = Returned).
    { destruct ch; tstep_simpl in H; try discriminate H. unfold on_session in H. step_cases H; done. }
    subst p'. unfold is_reply at 1. simpl. rewrite andb_true_r. repeat case_bool_decide; try lia; tauto.
Qed.

(** What starts or is one statement of System sends nothing. *)
Lemma start_sent st w p w' : start_pc st w = Some (p, w') -> w_sent w' = w_sent w.
Proof. destruct st; simpl; intros H; repeat case_match; by simplify_eq/=. Qed.

Lemma local_event_sent e w w' :
  local_event e = true -> exec e w = Some (Ok w') -> w_sent w' = w_sent w.
Proof.
  intros He. destruct e; try discriminate He; cbn [exec].
  - destruct (w_globalReplyWith w); [done|]. intros H%(inj Some)%Ok_inj. by subst w'.
  - unfold waiter_start. intros H. step_cases H. by repeat case_match; simplify_eq.
  - unfold waiter_activated. intros H. by step_cases H.
Qed.

Lemma start_silent l st w p w' : start_pc st w = Some (p, w') -> echoing l p = false.
Proof.
  destruct st; simpl; intros H; repeat case_match; simplify_eq/=; try done;
    unfold connection_start; by repeat case_match.
Qed.

(** An activated session stays activated at every interleaving. *)
Lemma lexec_le e s s' : LInv s -> lexec e s = Some (Ok s') -> exists f, world_le f (l_world s) (l_world s').
Proof.
  intros [HI Hp _]. destruct e as [st|i ch|e]; intros H.
  - cbn [lexec] in H. destruct (start_pc st (l_world s)) as [[p w]|] eqn:Hs; [|done].
    apply (inj Some), Ok_inj in H. subst s'. exists None. by apply (start_keeps _ _ _ _ HI Hs).
  - apply lexec_thread_Ok in H as (p & p' & sh & Hpi & Hs & ->). exists (flight p).
    by apply (tstep_keeps _ _ _ _ _ _ HI (Hp _ _ Hpi) Hs).
  - cbn [lexec] in H. destruct (local_event e) eqn:He; [|done].
    destruct (exec e (l_world s)) as [r|] eqn:Hr; [|done].
    apply (inj Some) in H. apply bind_Ok_inv in H as (w' & -> & H%Ok_inj). subst s'.
    exists None. by apply (local_keeps _ _ _ HI He Hr).
Qed.

Lemma lexec_echo l e s s' :
  activated (l_world s) l -> lexec e s = Some (Ok s') ->
  (replies l (l_world s') + echoes_due l s' <= replies l (l_world s) + echoes_due l s)%nat.
Proof.
  intros Ha. unfold echoes_due. destruct e as [st|i ch|e]; intros H.
  - cbn [lexec] in H. destruct (start_pc st (l_world s)) as [[p w]|] eqn:Hs; [|done].
    apply (inj Some), Ok_inj in H. subst s'. unfold replies, l_world in *. simpl.
    rewrite (start_sent _ _ _ _ Hs), count_app. simpl. rewrite (start_silent l _ _ _ _ Hs). lia.
  - apply lexec_thread_Ok in H as (p & p' & sh & Hpi & Hs & ->).
    pose proof (tstep_echo l _ _ _ _ _ _ Ha Hs).
    pose proof (count_replace (echoing l) _ _ _ p' Hpi). unfold l_world in *. simpl. lia.
  - cbn [lexec] in H. destruct (local_event e) eqn:He; [|done].
    destruct (exec e (l_world s)) as [r|] eqn:Hr; [|done].
    apply (inj Some) in H. apply bind_Ok_inv in H as (w' & -> & H%Ok_inj). subst s'.
    unfold replies, l_world in *. simpl. by rewrite (local_event_sent _ _ _ He Hr).
Qed.
End Echoes.

(** ** Ping loops *)

(** A goroutine that is a ping loop of a session with number [id], or a waiter of one that
    can still become one. *)
Definition serves (id : Z) (w : world) (x : goroutine) : bool :=
  match x with Waiter _ _ WReturned => false | _ => true end &&
  bool_decide (SessionID <$> w_heap w !! gor_loc x = Some id).

Definition ping_loop (id : Z) (w : world) (x : goroutine) : bool :=
  match x with Sender _ _ _ => true | _ => false end &&
  bool_decide (SessionID <$> w_heap w !! gor_loc x = Some id).

(** A goroutine on its way from an invite to the go statement of its waiter. *)
Definition inserting (id : Z) (p : pc) : bool :=
  match p with
  | InsLock _ n | InsStore _ n | InsWrite _ n | InsUnlock _ n | InsGo _ n => bool_decide (n = id)
  | _ => false
  end.

(** An event with which the number [id] is given out or accepted in an invite. *)
Definition offers (id : Z) (e : levent) : bool :=
  match e with
  | LStart (StartConnection write_ok rd nSes made) =>
      inserting id (connection_start write_ok rd nSes made)
  | LStep _ (Attempt dial_ok rd1 write_ok rd2 _) =>
      bool_decide (negotiate dial_ok rd1 write_ok rd2 = Some id)
  | _ => false
  end.

Definition one (b : bool) : nat := if b then 1 else 0.

Section Loops.
Context {C : Codec} {L : CodecLaws C} (id : Z).

(** The number of a session does not change. *)
Lemma number_le f w w' l :
  world_le f w w' -> alive w l -> SessionID <$> w_heap w' !! l = SessionID <$> w_heap w !! l.
Proof.
  intros Hle [v Hv]. destruct (le_heap _ _ _ Hle l v Hv) as (v' & Hv' & Hid & _).
  rewrite Hv, Hv'. simpl. by rewrite Hid.
Qed.

Lemma serves_le f w w' gs :
  world_le f w w' -> (forall x, x ∈ gs -> alive w (gor_loc x)) ->
  count (serves id w') gs = count (serves id w) gs.
Proof.
  intros Hle Hgs. apply count_ext. intros x Hx. unfold serves.
  by rewrite (number_le _ _ _ _ Hle (Hgs x Hx)).
Qed.

Lemma winv_gor_alive w x : WInv w -> x ∈ w_gor w -> alive w (gor_loc x).
Proof. intros HI [g Hg]%list_elem_of_lookup. by apply (wi_gor _ HI _ _ Hg). Qed.

Lemma serves_notify w l gs : count (serves id w) (notify l gs) = count (serves id w) gs.
Proof.
  induction gs as [|x gs IH]; [done|]. simpl. destruct (is_selecting l x) eqn:Hs; simpl.
  - by destruct x as [k l' []|].
  - by rewrite IH.
Qed.

(** Goroutines that replace each other on the same session. *)
Lemma serves_replace w gs g x y :
  gs !! g = Some x -> gor_loc y = gor_loc x ->
  match x with Waiter _ _ WReturned => False | _ => True end ->
  (count (serves id w) (<[g := y]> gs) <= count (serves id w) gs)%nat.
Proof.
  intros Hg Hl Hx. pose proof (count_replace (serves id w) _ _ _ y Hg) as Hc.
  assert (Hyx : serves id w y = true -> serves id w x = true).
  { unfold serves. rewrite Hl. intros [_ ->]%andb_prop. rewrite andb_true_r. by destruct x as [k l []|]. }
  destruct (serves id w y); [rewrite Hyx in Hc by done; lia|]. destruct (serves id w x); lia.
Qed.

Lemma serves_heap w w' gs :
  w_heap w' = w_heap w -> count (serves id w') gs = count (serves id w) gs.
Proof. intros Hh. apply count_ext. intros x _. unfold serves. by rewrite Hh. Qed.

Lemma packet_start_inserting timeRX buf from c : inserting id (packet_start timeRX buf from c) = false.
Proof. unfold packet_start, inbound_start. by repeat case_match. Qed.

Lemma inserting_step i ch p s p' s' :
  tstep i ch p s = Some (Ok (p', s')) ->
  (one (inserting id p') <= one (inserting id p) + one (offers id (LStep i ch)))%nat.
Proof.
  intros H. tstep_cases H; simpl; try lia.
  - by rewrite packet_start_inserting.
  - destruct who; simpl; lia.
  - match goal with Hn : negotiate _ _ _ _ = _ |- _ => rewrite Hn end.
    repeat case_bool_decide; simplify_eq; simpl; lia.
Qed.

Lemma tstep_serves i ch p s p' s' :
  WInv (sh_world s) -> pc_ok (sh_world s) p -> tstep i ch p s = Some (Ok (p', s')) ->
  (count (serves id (sh_world s')) (w_gor (sh_world s')) + one (inserting id p')
    <= count (serves id (sh_world s)) (w_gor (sh_world s)) + one (inserting id p)
       + one (offers id (LStep i ch)))%nat.
Proof.
  intros HI Hp H. pose proof (inserting_step _ _ _ _ _ _ H) as Hins.
  destruct (tstep_gor _ _ _ _ _ _ Hp H) as
    [Hg|g x y Hfl Hg Hb Hl Hw Hh Hg'|j was -> Hh Hg|who n l -> Ht Hh Hg].
  - rewrite Hg. rewrite (serves_le (flight p) (sh_world s)); [lia|by eapply keeps_le, tstep_keeps|].
    intros x. by apply winv_gor_alive.
  - rewrite Hg', (serves_heap _ _ _ Hh).
    pose proof (serves_replace (sh_world s) _ _ _ y Hg Hl). destruct x as [k l []|l t b]; try done; simpl in *; lia.
  - rewrite Hg, (serves_heap _ _ _ Hh), serves_notify. lia.
  - rewrite Hg, (serves_heap _ _ _ Hh), count_app.
    destruct (wi_table _ HI _ _ Ht) as (v & Hv & Hid).
    assert (Hp' : inserting id p' = false).
    { destruct ch; tstep_simpl in H; try discriminate H. step_cases H. by destruct who. }
    rewrite Hp'. simpl. unfold serves at 2. simpl. rewrite Hv. simpl.
    repeat case_bool_decide; simplify_eq; simpl; lia.
Qed.

Lemma start_serves st w p w' :
  start_pc st w = Some (p, w') ->
  (count (serves id w') (w_gor w') + one (inserting id p)
    <= count (serves id w) (w_gor w) + one (offers id (LStart st)))%nat.
Proof.
  destruct st; cbn [start_pc offers]; intros H; repeat case_match; simplify_eq; simpl; try lia.
  all: match goal with
  | Hg : w_gor ?w !! ?g = Some ?x |- context [<[?g := ?y]> _] =>
      rewrite (serves_heap w) by done; pose proof (serves_replace w _ g x y Hg eq_refl I); simpl; lia
  end.
Qed.

Lemma local_serves e w w' :
  WInv w -> local_event e = true -> exec e w = Some (Ok w') ->
  (count (serves id w') (w_gor w') <= count (serves id w) (w_gor w))%nat.
Proof.
  intros HI He H. pose proof (proj2 (local_keeps _ _ _ HI He H)) as Hle.
  assert (Hc : count (serves id w') (w_gor w) = count (serves id w) (w_gor w))
    by (apply (serves_le None); [done|]; intros x; by apply winv_gor_alive).
  destruct e; try discriminate He; cbn [exec] in H.
  - destruct (w_globalReplyWith w); [done|]. apply (inj Some), Ok_inj in H. by subst w'.
  - destruct (w_gor w !! g) as [[k l []|]|] eqn:Hg; try done. apply (inj Some) in H.
    assert (Hgor : w_gor w' = <[g := Waiter k l WSelecting]> (w_gor w)).
    { unfold waiter_start in H. by step_cases H; repeat case_match; simplify_eq. }
    rewrite Hgor, <- Hc. by apply (serves_replace w' _ _ _ _ Hg).
  - destruct (w_gor w !! g) as [[k l []|]|] eqn:Hg; try done. apply (inj Some) in H.
    assert (Hgor : w_gor w' = <[g := Waiter k l WReturned]> (w_gor w) ++ [Sender l timeStarted true]).
    { unfold waiter_activated in H. by step_cases H. }
    rewrite Hgor, <- Hc, count_app.
    pose proof (count_replace (serves id w') _ _ _ (Waiter k l WReturned) Hg) as Hr.
    unfold serves at 2 4 in Hr. unfold serves at 2. simpl in *. lia.
Qed.

(** The ping loops of a number and the goroutines that may still become one, against the
    invites of the number. *)
Definition candidates (s : lstate) : nat :=
  (count (serves id (l_world s)) (w_gor (l_world s)) + count (inserting id) (l_threads s))%nat.

Lemma lexec_candidates e s s' :
  LInv s -> lexec e s = Some (Ok s') -> (candidates s' <= candidates s + one (offers id e))%nat.
Proof.
  intros [HI Hp _]. unfold candidates, l_world in *. destruct e as [st|i ch|e]; intros H.
  - cbn [lexec] in H. destruct (start_pc st (l_world s)) as [[p w]|] eqn:Hs; [|done].
    apply (inj Some), Ok_inj in H. subst s'. simpl. rewrite count_app. simpl.
    pose proof (start_serves _ _ _ _ Hs) as Hst. unfold one, l_world in *. simpl in Hst. lia.
  - apply lexec_thread_Ok in H as (p & p' & sh & Hpi & Hs & ->). simpl.
    pose proof (tstep_serves _ _ _ _ _ _ HI (Hp _ _ Hpi) Hs) as Hst.
    pose proof (count_replace (inserting id) _ _ _ p' Hpi). unfold one in *. simpl in Hst. lia.
  - cbn [lexec] in H. destruct (local_event e) eqn:He; [|done].
    destruct (exec e (l_world s)) as [r|] eqn:Hr; [|done].
    apply (inj Some) in H. apply bind_Ok_inv in H as (w' & -> & H%Ok_inj). subst s'. simpl.
    pose proof (local_serves _ _ _ HI He Hr). unfold l_world in *. lia.
Qed.

Lemma lrun_candidates es s s' :
  LInv s -> lrun es s = Some s' -> (candidates s' <= candidates s + count (offers id) es)%nat.
Proof.
  revert s. induction es as [|e es IH]; intros s HI; simpl; [intros [= ->]; lia|].
  destruct (lexec e s) as [[s1| | |]|] eqn:He; try done. intros Hr.
  pose proof (lexec_candidates _ _ _ HI He). pose proof (IH s1 (lexec_inv _ _ _ HI He) Hr).
  unfold one in *. lia.
Qed.

Lemma ping_loops_serve w gs : (count (ping_loop id w) gs <= count (serves id w) gs)%nat.
Proof.
  induction gs as [|x gs IH]; simpl; [lia|]. unfold ping_loop at 1, serves at 1.
  destruct x as [k l []|l t b]; simpl; try case_bool_decide; lia.
Qed.
End Loops.

(** ** Handlers that do not overlap *)

(** No two handlers have the same session in hand. *)
Definition serial (s : lstate) : Prop :=
  forall i j p q l, l_threads s !! i = Some p -> l_threads s !! j = Some q ->
    works_on p = Some l -> works_on q = Some l -> i = j.

(** What nobody else changes of the session [l] while a handler has it in hand. *)
Record untouched (l : loc) (w w' : world) : Prop := {
  un_heap v : w_heap w !! l = Some v -> exists v', w_heap w' !! l = Some v' /\
    nextAckSlot v' = nextAckSlot v /\ UDPActivated v' = UDPActivated v;
  un_activations : activations l w' = activations l w;
  un_replies : replies l w' = replies l w;
}.

Lemma woken_is_woken l x : woken l x = is_woken x && bool_decide (l = gor_loc x).
Proof. by destruct x as [k l' []|]. Qed.

Lemma count_woken_notify l l' gs :
  l <> l' -> count (woken l') (notify l gs) = count (woken l') gs.
Proof.
  intros Hne. induction gs as [|x gs IH]; [done|]. simpl. destruct (is_selecting l x) eqn:Hs; simpl.
  - destruct x as [k l0 []|]; try done. simpl in *. apply bool_decide_eq_true_1 in Hs as <-.
    by rewrite bool_decide_eq_false_2.
  - by rewrite IH.
Qed.

Lemma count_woken_same l gs g x y :
  gs !! g = Some x -> gor_loc y = gor_loc x -> is_woken y = is_woken x ->
  count (woken l) (<[g := y]> gs) = count (woken l) gs.
Proof. intros Hg Hl Hw. apply (count_insert _ _ _ x); [done|]. by rewrite !woken_is_woken, Hl, Hw. Qed.

(** A session that is not activated has no ping loop and was not answered. *)
Lemma quiet_unanswered w l v :
  WInv w -> w_heap w !! l = Some v -> UDPActivated v = false ->
  activations l w = 0%nat /\ replies l w = 0%nat.
Proof.
  intros HI Hv Hu. split; apply count_zero; intros x Hx.
  - destruct (woken l x) eqn:Hw; [|done]. rewrite woken_is_woken in Hw.
    apply andb_prop in Hw as [Hw Hl%bool_decide_eq_true]. apply list_elem_of_lookup in Hx as [g Hg].
    destruct (wi_gor _ HI _ _ Hg) as (_ & _ & H). destruct (H Hw) as [(u & Hu1 & Hu2) _]. congruence.
  - unfold is_reply. case_bool_decide as Hd; [|done]. destruct Hd as [Hk <-].
    destruct (wi_sent _ HI x Hx) as (u & Hu1 & Hu2); congruence.
Qed.

Section Serial.
Context {C : Codec} {L : CodecLaws C}.

Lemma untouched_same l w w' :
  w_heap w' = w_heap w -> w_gor w' = w_gor w -> w_sent w' = w_sent w -> untouched l w w'.
Proof.
  intros Hh Hg Hs. split; unfold activations, replies; rewrite ?Hh, ?Hg, ?Hs; [|done|done].
  intros v Hv. by exists v.
Qed.

Lemma tstep_untouched l i ch p s p' s' :
  WInv (sh_world s) -> pc_ok (sh_world s) p -> tstep i ch p s = Some (Ok (p', s')) ->
  works_on p <> Some l -> untouched l (sh_world s) (sh_world s').
Proof.
  intros HI Hp H Hw. split.
  - intros v Hv. destruct (tstep_heap _ _ _ _ _ _ H) as
      [Hh|who id -> _ Hh|l' u v' Hw' Hu Hh|l' u n Hu Hh]; rewrite Hh.
    + by exists v.
    + exists v. rewrite lookup_insert_ne; [done|]. intros He.
      assert (Hf : w_heap (sh_world s) !! fresh (dom (w_heap (sh_world s))) = None)
        by (apply not_elem_of_dom, is_fresh). rewrite He in Hf. congruence.
    + exists v. rewrite lookup_insert_ne; [done|congruence].
    + destruct (decide (l' = l)) as [-> |Hne].
      * exists (set_current n u). rewrite lookup_insert_eq. split; [done|]. by simplify_eq.
      * exists v. by rewrite lookup_insert_ne.
  - unfold activations. destruct (tstep_gor _ _ _ _ _ _ Hp H) as
      [Hg|g x y _ Hg _ Hl Hy _ Hg'|j was -> _ Hg|who n l' -> _ _ Hg].
    + by rewrite Hg.
    + rewrite Hg'. by apply (count_woken_same l _ _ x).
    + rewrite Hg. apply count_woken_notify. simpl in Hw. congruence.
    + rewrite Hg, count_app. simpl. lia.
  - unfold replies. destruct (tstep_sent _ _ _ _ _ _ H) as [Hs|d Hd Hs|j c to -> Hs]; rewrite Hs; [done| |].
    + simpl. unfold is_reply at 1. by rewrite bool_decide_eq_false_2 by (by intros []).
    + simpl. unfold is_reply at 1. rewrite bool_decide_eq_false_2; [done|].
      simpl in *. intros []. congruence.
Qed.

Lemma start_untouched l st w p w' : start_pc st w = Some (p, w') -> untouched l w w'.
Proof.
  intros H. destruct st; simpl in H; repeat case_match; simplify_eq; try (by apply untouched_same).
  all: split; [intros v Hv; by exists v| |done]; unfold activations; by eapply count_woken_same.
Qed.

Lemma local_untouched l e w w' :
  WInv w -> local_event e = true -> exec e w = Some (Ok w') -> untouched l w w'.
Proof.
  intros HI He H. destruct e; try discriminate He; cbn [exec] in H.
  - destruct (w_globalReplyWith w); [done|]. apply (inj Some), Ok_inj in H. subst w'.
    by apply untouched_same.
  - destruct (w_gor w !! g) as [[k l' []|]|] eqn:Hg; try done. apply (inj Some) in H.
    unfold waiter_start in H. destruct (w_heap w !! l') as [v|] eqn:Hv; [|done].
    destruct k; [destruct (w_globalReplyWith w); [|done]|]; rewrite bind_Ok in H;
      apply Ok_inj in H; subst w'; split; try done;
      try (unfold activations; simpl; by eapply count_woken_same); intros u Hu; simpl; [|by exists u].
    destruct (decide (l' = l)) as [-> |Hne].
    + eexists. rewrite lookup_insert_eq. split; [done|]. by simplify_eq.
    + exists u. by rewrite lookup_insert_ne.
  - destruct (w_gor w !! g) as [[k l' []|]|] eqn:Hg; try done. apply (inj Some) in H.
    destruct (wi_gor _ HI _ _ Hg) as (_ & _ & Hw). destruct (Hw eq_refl) as [(v & Hv & Ha) _].
    simpl in Hv. unfold waiter_activated in H. simpl in H. rewrite Hv in H. apply Ok_inj in H. subst w'.
    split; [|unfold activations; simpl; rewrite count_app|done].
    + intros u Hu. simpl. destruct (decide (l' = l)) as [-> |Hne].
      * eexists. rewrite lookup_insert_eq. split; [done|]. by simplify_eq.
      * exists u. by rewrite lookup_insert_ne.
    + pose proof (count_replace (woken l) _ _ _ (Waiter k l' WReturned) Hg) as Hr. simpl in *. lia.
Qed.
(** What a handler that has its session to itself relies on. *)
Definition alone (w : world) (p : pc) : Prop :=
  match p with
  | PacketSlot j SlotLoad => forall v, w_heap w !! pj_ses j = Some v -> nextAckSlot v < 31
  | PacketSlot j (SlotAdd n) => n < 31
  | PacketSlot j (SlotIndex n) => n < 32
  | Inbound j InboundWas => forall v, w_heap w !! ij_ses j = Some v -> UDPActivated v = false
  | Inbound j (InboundReplyTo was | InboundReplyWith was | InboundActivate was) =>
      was = false /\ forall v, w_heap w !! ij_ses j = Some v -> UDPActivated v = false
  | Inbound j (InboundPeerTest was | InboundPeer was | InboundNotify was) =>
      was = false /\ activations (ij_ses j) w = 0%nat /\ replies (ij_ses j) w = 0%nat
  | Inbound j (InboundSocket | InboundEcho _) => replies (ij_ses j) w = 0%nat
  | _ => True
  end.

(** The counts of a session. *)
Record session_alone (l : loc) (w : world) : Prop := {
  sa_slot v : w_heap w !! l = Some v -> nextAckSlot v < 32;
  sa_activations : (activations l w <= 1)%nat;
  sa_replies : (replies l w <= 1)%nat;
}.

Lemma alone_untouched l w w' p :
  works_on p = Some l -> alive w l -> untouched l w w' -> alone w p -> alone w' p.
Proof.
  intros Hw [v Hv] [Hh Ha Hr]. destruct (Hh v Hv) as (v' & Hv' & Hs & Hu).
  assert (Hquiet : (forall u, w_heap w !! l = Some u -> UDPActivated u = false) ->
    forall u, w_heap w' !! l = Some u -> UDPActivated u = false).
  { intros H u Hu'. simplify_eq. rewrite Hu. by apply H. }
  destruct p; simpl in *; try done; apply (inj Some) in Hw; subst l.
  - destruct p; try done. intros H u Hu'. simplify_eq. rewrite Hs. by apply H.
  - destruct p; rewrite ?Ha, ?Hr; try done; intros [-> H]; (split; [done|by apply Hquiet]).
Qed.

Lemma session_untouched l w w' :
  alive w l -> untouched l w w' -> session_alone l w -> session_alone l w'.
Proof.
  intros [v Hv] [Hh Ha Hr] [Hs H1 H2]. destruct (Hh v Hv) as (v' & Hv' & Hn & _).
  split; [|by rewrite Ha|by rewrite Hr]. intros u Hu. simplify_eq. rewrite Hn. by apply Hs.
Qed.

Lemma alone_outside w p : works_on p = None -> alone w p.
Proof. by destruct p. Qed.

(** The first statement of a handler on its session. *)
Lemma alone_new i ch p s p' s' :
  works_on p = None -> tstep i ch p s = Some (Ok (p', s')) -> alone (sh_world s') p'.
Proof.
  intros Hw H. tstep_cases H; try discriminate Hw; try done.
  - unfold packet_start, inbound_start. by repeat case_match.
  - by destruct who.
Qed.

Lemma slot_step_alone j q s p' s' :
  alone (sh_world s) (PacketSlot j q) -> session_alone (pj_ses j) (sh_world s) ->
  slot_step j q s = Some (Ok (p', s')) ->
  alone (sh_world s') p' /\ session_alone (pj_ses j) (sh_world s').
Proof.
  intros Ha [Hs H1 H2] H. unfold slot_step, on_session, assign in H.
  destruct (w_heap (sh_world s) !! pj_ses j) as [v|] eqn:Hv; [|done]. specialize (Hs v eq_refl).
  destruct q; step_cases H; simpl in *; split; try done; try lia;
    try (split; [|done|done]; simpl; intros u Hu; rewrite ?lookup_insert_eq in Hu; simplify_eq; simpl; lia).
  - intros u Hu. simplify_eq. lia.
  - by apply Ha.
Qed.
Lemma field_step_alone j f s p' s' :
  session_alone (pj_ses j) (sh_world s) -> field_step j f s = Some (Ok (p', s')) ->
  alone (sh_world s') p' /\ session_alone (pj_ses j) (sh_world s').
Proof.
  intros [Hs H1 H2] H. unfold field_step, on_session, assign in H.
  destruct (w_heap (sh_world s) !! pj_ses j) as [v|] eqn:Hv; [|done]. specialize (Hs v eq_refl).
  destruct f; step_cases H; (split; [done|]); (split; [|done|done]); simpl;
    intros u Hu; rewrite lookup_insert_eq in Hu; by simplify_eq.
Qed.

Lemma inbound_step_alone j q s p' s' :
  WInv (sh_world s) -> alone (sh_world s) (Inbound j q) -> session_alone (ij_ses j) (sh_world s) ->
  inbound_step j q s = Some (Ok (p', s')) ->
  alone (sh_world s') p' /\ session_alone (ij_ses j) (sh_world s').
Proof.
  intros HI Ha Hal H. pose proof Hal as [Hs H1 H2]. unfold inbound_step, on_session, assign in H.
  destruct (w_heap (sh_world s) !! ij_ses j) as [v|] eqn:Hv; [|done]. specialize (Hs v eq_refl).
  assert (Hset : forall v', nextAckSlot v' = nextAckSlot v ->
    session_alone (ij_ses j) (set_session (ij_ses j) v' (sh_world s))).
  { intros v' Hn. split; [|done|done]. simpl. intros u Hu. rewrite lookup_insert_eq in Hu.
    simplify_eq. by rewrite Hn. }
  assert (Hq : forall v', UDPActivated v' = UDPActivated v -> UDPActivated v = false ->
    forall u, <[ij_ses j := v']> (w_heap (sh_world s)) !! ij_ses j = Some u -> UDPActivated u = false).
  { intros v' H3 H4 u Hu. rewrite lookup_insert_eq in Hu. congruence. }
  assert (Hnot : activations (ij_ses j) (sh_world s) = 0%nat ->
    session_alone (ij_ses j) (set_gor (notify (ij_ses j) (w_gor (sh_world s))) (sh_world s))).
  { intros H0. split; [simpl; intros u Hu; by simplify_eq| |done]. unfold activations in *. simpl.
    pose proof (count_notify (ij_ses j) (ij_ses j) (w_gor (sh_world s))) as Hc.
    rewrite bool_decide_eq_true_2 in Hc by done. lia. }
  assert (Hsend : forall c to, replies (ij_ses j) (sh_world s) = 0%nat ->
    session_alone (ij_ses j) (send (mkDatagram SReply (ij_ses j) c (ij_buf j) to) (sh_world s))).
  { intros c to H0. split; [simpl; intros u Hu; by simplify_eq|done|].
    rewrite replies_cons, H0. destruct (is_reply _ _); simpl; lia. }
  destruct q; simpl in Ha; step_cases H; simpl; split; try done; try (by apply Hset);
    try (by apply Hnot, Ha); try (by apply Hsend).
  - rewrite (sf_tcp _ (wi_heap _ HI _ _ Hv)), andb_true_r in Heqb. intros u Hu. by simplify_eq.
  - split; [by apply Ha|done].
  - destruct Ha as [-> Ha]. split; [done|]. apply Hq; [done|by apply Ha].
  - destruct Ha as [-> Ha]. split; [done|]. apply Hq; [done|by apply Ha].
  - destruct Ha as [-> Ha]. split; [done|].
    by apply (quiet_unanswered (sh_world s) _ v); [| |apply Ha].
  - by destruct Ha as (_ & _ & Ha).
Qed.

(** ** Runs in which no handlers overlap *)

Definition s_reachable (s : lstate) : Prop := rtc (fun s s' => lstep s s' /\ serial s') l_empty s.

Record SInv (s : lstate) : Prop := {
  si_session l : alive (l_world s) l -> session_alone l (l_world s);
  si_handler i p : l_threads s !! i = Some p -> alone (l_world s) p;
}.

Lemma works_on_alive w p l : pc_ok w p -> works_on p = Some l -> alive w l.
Proof.
  destruct p; try done; simpl; intros Hok [= <-]; destruct_and?; eauto with grows.
Qed.

(** A session that was just inserted. *)
Lemma session_alone_new i ch p s p' s' l :
  WInv (sh_world s') -> tstep i ch p s = Some (Ok (p', s')) ->
  w_heap (sh_world s) !! l = None -> alive (sh_world s') l -> session_alone l (sh_world s').
Proof.
  intros HI H Hl [v Hv]. pose proof Hv as Hv'.
  destruct (tstep_heap _ _ _ _ _ _ H) as [Hh|who id -> _ Hh|l' u v' _ Hu Hh|l' u n Hu Hh];
    rewrite Hh in Hv'; [congruence| | |].
  - apply lookup_insert_Some in Hv' as [[_ Hw]|[_ ?]]; [|congruence].
    destruct (quiet_unanswered _ l v HI Hv) as [Ha Hr]; [by subst; destruct who|].
    split; [|lia|lia]. intros u Hu. simplify_eq. destruct who; simpl; lia.
  - apply lookup_insert_Some in Hv' as [[-> _]|[_ ?]]; congruence.
  - apply lookup_insert_Some in Hv' as [[-> _]|[_ ?]]; congruence.
Qed.

(** The step of a handler that has its session to itself. *)
Lemma tstep_alone i ch p s p' s' l :
  WInv (sh_world s) -> works_on p = Some l -> alone (sh_world s) p ->
  session_alone l (sh_world s) -> tstep i ch p s = Some (Ok (p', s')) ->
  alone (sh_world s') p' /\ session_alone l (sh_world s').
Proof.
  intros HI Hw Ha Hs H. destruct p; try discriminate Hw; apply (inj Some) in Hw; subst l;
    destruct ch; cbn [tstep packet_step] in H; try discriminate H.
  - unfold on_session in H. step_cases H; by split.
  - by eapply slot_step_alone.
  - by eapply field_step_alone.
  - by eapply inbound_step_alone.
Qed.

Lemma local_alive e w w' l :
  local_event e = true -> exec e w = Some (Ok w') -> alive w' l -> alive w l.
Proof.
  intros He H. destruct e; try discriminate He; cbn [exec] in H.
  - destruct (w_globalReplyWith w); [done|]. apply (inj Some), Ok_inj in H. by subst w'.
  - unfold waiter_start, alive in *. step_cases H; repeat case_match; simplify_eq; try done.
    all: simpl; intros [u Hu]; apply lookup_insert_Some in Hu as [[<- _]|[_ Hu]]; by eexists.
  - unfold waiter_activated, alive in *. step_cases H. simpl in *.
    intros [v Hv]. apply lookup_insert_Some in Hv as [[<- _]|[_ Hv]]; by eexists.
Qed.

Lemma lexec_sinv e s s' : LInv s -> serial s -> SInv s -> lexec e s = Some (Ok s') -> SInv s'.
Proof.
  intros HL Hser [Hses Hhan] H. pose proof (linv_world _ (lexec_inv _ _ _ HL H)) as HW'.
  destruct HL as [HI Hp _]. destruct e as [st|i ch|e].
  - cbn [lexec] in H. destruct (start_pc st (l_world s)) as [[p w]|] eqn:Hs; [|done].
    apply (inj Some), Ok_inj in H. subst s'. unfold l_world in *. simpl.
    pose proof (fun l => start_untouched l _ _ _ _ Hs) as Hun.
    assert (Hal : forall l, alive w l -> alive (sh_world (l_shared s)) l).
    { intros l [v Hv]. exists v. destruct st; simpl in Hs; repeat case_match; by simplify_eq. }
    split; [intros l Hl; apply (session_untouched _ _ _ (Hal l Hl) (Hun l)); auto|].
    intros j q [Hq|[_ Hq]]%lookup_app_Some.
    + destruct (works_on q) as [l|] eqn:Hw; [|by apply alone_outside].
      eapply alone_untouched; [exact Hw|by eapply works_on_alive; [eapply Hp|]|apply Hun|by eapply Hhan].
    + apply list_lookup_singleton_Some in Hq as [_ <-]. apply alone_outside.
      destruct st; simpl in Hs; repeat case_match; simplify_eq; try done;
        unfold connection_start; by repeat case_match.
  - apply lexec_thread_Ok in H as (p & p' & sh & Hpi & Hs & ->). unfold l_world in *. simpl in *.
    pose proof (fun l => tstep_untouched l _ _ _ _ _ _ HI (Hp _ _ Hpi) Hs) as Hun.
    split.
    + intros l Hl. destruct (w_heap (sh_world (l_shared s)) !! l) as [v|] eqn:Hv;
        [|by eapply session_alone_new].
      assert (Hal : alive (sh_world (l_shared s)) l) by (by exists v).
      destruct (decide (works_on p = Some l)) as [Hw|Hw].
      * by apply (tstep_alone _ _ _ _ _ _ _ HI Hw (Hhan _ _ Hpi) (Hses l Hal) Hs).
      * by eapply session_untouched; [exact Hal|apply Hun|apply Hses].
    + intros j q [(-> & <- & _)|[Hne Hq]]%list_lookup_insert_Some.
      * destruct (works_on p) as [l|] eqn:Hw; [|by eapply alone_new].
        by apply (tstep_alone _ _ _ _ _ _ _ HI Hw (Hhan _ _ Hpi)
          (Hses l (works_on_alive _ _ _ (Hp _ _ Hpi) Hw)) Hs).
      * destruct (works_on q) as [l|] eqn:Hw; [|by apply alone_outside].
        eapply alone_untouched; [exact Hw|by eapply works_on_alive; [eapply Hp|]| |by eapply Hhan].
        apply Hun. intros Hwp. apply Hne. by eapply Hser.
  - cbn [lexec] in H. destruct (local_event e) eqn:He; [|done].
    destruct (exec e (l_world s)) as [r|] eqn:Hr; [|done].
    apply (inj Some) in H. apply bind_Ok_inv in H as (w' & -> & H%Ok_inj). subst s'.
    pose proof (fun l => local_untouched l _ _ _ HI He Hr) as Hun. unfold l_world in *. simpl in *.
    split.
    + intros l Hl. apply (session_untouched _ _ _ (local_alive _ _ _ _ He Hr Hl) (Hun l)); auto.
      apply Hses. by eapply local_alive.
    + intros j q Hq. destruct (works_on q) as [l|] eqn:Hw; [|by apply alone_outside].
      eapply alone_untouched; [exact Hw|by eapply works_on_alive; [eapply Hp|]|apply Hun|by eapply Hhan].
Qed.
Lemma s_reachable_inv s : s_reachable s -> LInv s /\ serial s /\ SInv s.
Proof.
  intros Hr. unfold s_reachable in Hr.
  assert (H0 : LInv l_empty /\ serial l_empty /\ SInv l_empty).
  { split_and!; [by apply l_reachable_inv, rtc_refl|intros i j p q l Hp; by destruct i|].
    split; [intros l [v Hv]; done|intros i p Hp; by destruct i]. }
  revert H0. induction Hr as [|s s1 s2 [[e He] Hs] _ IH]; [done|].
  intros (HL & Hser & HS). apply IH.
  split_and!; [by eapply lexec_inv|done|by eapply lexec_sinv].
Qed.
End Serial.

(** *** The slot of the ring when two pings overlap *)

Section Overlap.
Context {C : Codec} {L : CodecLaws C}.

(** The next statement of [getNextAckSlot], and what the session is after this one. *)
Definition slot_next (q : slot_pc) (v : session) : option (slot_pc * session) :=
  match q with
  | SlotTest => Some (if decide (nextAckSlot v <> 31) then SlotLoad else SlotReset, v)
  | SlotLoad => Some (SlotAdd (nextAckSlot v), v)
  | SlotAdd n => Some (SlotReturn, set_slot (n + 1) v)
  | SlotReset => Some (SlotReturn, set_slot 0 v)
  | SlotReturn => Some (SlotIndex (nextAckSlot v), v)
  | SlotIndex _ => None
  end.

Lemma slot_go s i j q v q' v' :
  l_threads s !! i = Some (PacketSlot j q) -> w_heap (l_world s) !! pj_ses j = Some v ->
  slot_next q v = Some (q', v') ->
  exists s', lexec (LStep i Go) s = Some (Ok s') /\
    l_threads s' = <[i := PacketSlot j q']> (l_threads s) /\
    w_heap (l_world s') !! pj_ses j = Some v'.
Proof.
  intros Hp Hv Hn. rewrite (lexec_thread _ _ _ _ Hp). cbn [tstep packet_step].
  unfold slot_step, on_session, l_world in *. rewrite Hv.
  destruct q; cbn [slot_next] in Hn; simplify_eq;
    (eexists; split; [reflexivity|]; split; [done|]); [done|done| | |done]; apply lookup_insert_eq.
Qed.

(** The order of the statements in which two handlers leave the ring. *)
Definition overlap (i j : nat) : list levent :=
  [LStep i Go; LStep j Go; LStep i Go; LStep i Go; LStep j Go; LStep j Go; LStep j Go].

Lemma overlap_run s i j ji jj l v :
  i <> j -> l_threads s !! i = Some (PacketSlot ji SlotTest) ->
  l_threads s !! j = Some (PacketSlot jj SlotTest) -> pj_ses ji = l -> pj_ses jj = l ->
  w_heap (l_world s) !! l = Some v -> nextAckSlot v = 30 ->
  exists s', lrun (overlap i j) s = Some s' /\ l_threads s' !! j = Some (PacketSlot jj (SlotIndex 32)).
Proof.
  intros Hij Hi Hj Hli Hlj Hv Hn.
  assert (Bi := lookup_lt_Some _ _ _ Hi). assert (Bj := lookup_lt_Some _ _ _ Hj).
  assert (Hl : forall (ts : list pc) x, (<[i := x]> ts) !! j = ts !! j)
    by (intros; by apply list_lookup_insert_ne).
  assert (Hr : forall (ts : list pc) x, (<[j := x]> ts) !! i = ts !! i)
    by (intros; by apply list_lookup_insert_ne).
  unfold overlap. cbn [lrun].
  destruct (slot_go s i ji SlotTest v SlotLoad v) as (s1 & -> & T1 & V1);
    [done|by rewrite Hli|simpl; by rewrite decide_True by lia|].
  destruct (slot_go s1 j jj SlotTest v SlotLoad v) as (s2 & -> & T2 & V2);
    [by rewrite T1, Hl|by rewrite Hlj, <- Hli|simpl; by rewrite decide_True by lia|].
  destruct (slot_go s2 i ji SlotLoad v (SlotAdd 30) v) as (s3 & -> & T3 & V3);
    [rewrite T2, Hr, T1; by apply list_lookup_insert_eq|by rewrite Hli, <- Hlj|simpl; by rewrite Hn|].
  destruct (slot_go s3 i ji (SlotAdd 30) v SlotReturn (set_slot 31 v)) as (s4 & -> & T4 & V4);
    [rewrite T3; apply list_lookup_insert_eq; by rewrite T2, T1, !length_insert|done|done|].
  destruct (slot_go s4 j jj SlotLoad (set_slot 31 v) (SlotAdd 31) (set_slot 31 v)) as (s5 & -> & T5 & V5);
    [rewrite T4, T3, !Hl, T2; apply list_lookup_insert_eq; by rewrite T1, length_insert
    |by rewrite Hlj, <- Hli|done|].
  destruct (slot_go s5 j jj (SlotAdd 31) (set_slot 31 v) SlotReturn (set_slot 32 v)) as (s6 & -> & T6 & V6);
    [rewrite T5; apply list_lookup_insert_eq; by rewrite T4, T3, T2, T1, !length_insert|done|done|].
  destruct (slot_go s6 j jj SlotReturn (set_slot 32 v) (SlotIndex 32) (set_slot 32 v))
    as (s7 & -> & T7 & V7);
    [rewrite T6; apply list_lookup_insert_eq; by rewrite T5, T4, T3, T2, T1, !length_insert|done|done|].
  exists s7. split; [done|]. rewrite T7. apply list_lookup_insert_eq.
  by rewrite T6, T5, T4, T3, T2, T1, !length_insert.
Qed.
End Overlap.

(** ** Properties *)

Section Properties.
Context {C : Codec} {L : CodecLaws C}.

(** C3: ping loops at any interleaving: for every session number there are never more ping
    loops, together with the waiters that can still become one and the goroutines that
    are about to start one, than there were invites with that number; so a number that
    was offered or accepted once has at most one ping loop, however many handshakes
    arrive at the same time. *)
Theorem one_ping_loop_per_invite id es s :
  lrun es l_empty = Some s ->
  (count (ping_loop id (l_world s)) (w_gor (l_world s)) <= candidates id s
    <= count (offers id) es)%nat.
Proof.
  intros Hr. split.
  - unfold candidates. pose proof (ping_loops_serve id (l_world s) (w_gor (l_world s))). lia.
  - assert (HL : LInv l_empty) by (apply l_reachable_inv, rtc_refl).
    pose proof (lrun_candidates id es l_empty s HL Hr) as Hc.
    change (candidates id l_empty) with 0%nat in Hc. lia.
Qed.

(** C25: from the moment a session is activated no further handler will echo a handshake of
    it: at any interleaving, the echoes sent and the handlers that have still to send
    one, because they found it not activated, do not become more. So two ends do not keep
    each other busy with echoes, and what a forged handshake is worth is bounded by the
    handlers that overlapped before the activation. *)
Theorem no_echo_after_activation s s' l :
  l_reachable s -> activated (l_world s) l -> rtc lstep s s' ->
  activated (l_world s') l /\
  (replies l (l_world s') + echoes_due l s' <= replies l (l_world s) + echoes_due l s)%nat.
Proof.
  intros Hr Ha Hs. pose proof (l_reachable_inv s Hr) as HL. clear Hr. revert HL Ha.
  induction Hs as [s|s s1 s2 [e He] _ IH]; intros HL Ha; [by split|].
  destruct (lexec_le _ _ _ HL He) as [f Hle].
  destruct (IH (lexec_inv _ _ _ HL He) (activated_le Hle _ Ha)) as [Ha2 Hc].
  split; [done|]. pose proof (lexec_echo l _ _ _ Ha He). lia.
Qed.

(** C11: what holds when handlers do not overlap: in every state that is reached by
    statements of all goroutines in any order, as long as no two handlers of datagrams have
    the same session in hand, every session has a slot inside its ring, at most one ping
    loop or woken waiter, and was echoed at most one handshake; and no handler is about
    to store outside the ring. *)
Theorem serial_handlers_exact s :
  s_reachable s ->
  (forall l v, w_heap (l_world s) !! l = Some v ->
     0 <= nextAckSlot v < 32 /\ (activations l (l_world s) <= 1)%nat /\
     (replies l (l_world s) <= 1)%nat) /\
  (forall i j n, l_threads s !! i = Some (PacketSlot j (SlotIndex n)) -> 0 <= n < 32).
Proof.
  intros Hr. destruct (s_reachable_inv s Hr) as (HL & _ & [Hs Hh]). split.
  - intros l v Hv. destruct (Hs l) as [Hn Ha Hrep]; [by exists v|].
    pose proof (sf_slot _ (wi_heap _ (linv_world _ HL) _ _ Hv)). specialize (Hn v Hv).
    split_and!; (done || lia).
  - intros i j n Hp. pose proof (Hh _ _ Hp) as Hn.
    destruct (linv_pc _ HL _ _ Hp) as (_ & _ & H0). simpl in *. lia.
Qed.

(** C29: two overlapping pings of one session can end the process: when two handlers are
    about to advance the slot and it is 30, there is an order of their next statements in
    which both pass the test against 31 before either increments, so that the second one
    indexes the ring of 32 with 32. *)
Theorem overlapping_pings_crash s i j ji jj l v :
  l_reachable s -> i <> j ->
  l_threads s !! i = Some (PacketSlot ji SlotTest) -> pj_ses ji = l ->
  l_threads s !! j = Some (PacketSlot jj SlotTest) -> pj_ses jj = l ->
  w_heap (l_world s) !! l = Some v -> nextAckSlot v = 30 ->
  exists s', lrun (overlap i j) s = Some s' /\ lexec (LStep j Go) s' = Some Panic.
Proof.
  intros Hr Hij Hi Hli Hj Hlj Hv Hn.
  destruct (overlap_run s i j ji jj l v) as (s' & Hrun & Hp); [done..|].
  exists s'. split; [done|].
  assert (Hr' : l_reachable s') by (unfold l_reachable in *; etrans; [exact Hr|by eapply lrun_steps]).
  pose proof (l_reachable_inv s' Hr') as HL.
  apply (failure_executes s'); [apply HL|done|]. by apply (fail_slot s' j jj 32).
Qed.
End Properties.

(** ** Concrete schedules *)

(** Two handlers of a handshake of the same session, of which the first has activated it. *)
Definition two_handshakes : list levent :=
  [LWorld (EListen 0%nat); LStart (StartConnection true invite_request 7 (a_moment 0))] ++
  replicate 5 (LStep 0 Go) ++
  [LWorld (EWaiterSelects 0); LStart (StartPacket (hs_of 7) peer); LStart (StartPacket (hs_of 7) peer);
   LStep 1 (exactly (a_moment 1)); LStep 2 (exactly (a_moment 1))] ++
  replicate 3 (LStep 1 Go) ++ replicate 3 (LStep 2 Go) ++ replicate 3 (LStep 1 Go).

(** Both go on to their end, and the waiter wakes up. *)
Definition both_echo : list levent :=
  replicate 5 (LStep 1 Go) ++ replicate 7 (LStep 2 Go) ++ [LWorld (EWaiterWoken 0 (a_moment 2))].

(** The test of [ses.UDPActivated] and its assignment are not one step: two handshakes that
    overlap are both echoed. *)
Lemma overlapping_handshakes_echo_twice :
  exists s, lrun (two_handshakes ++ both_echo) l_empty = Some s /\
    replies 1%positive (l_world s) = 2%nat.
Proof. eexists. split; vm_compute; reflexivity. Qed.

Lemma one_ping_loop_per_invite_witness :
  exists s, lrun (two_handshakes ++ both_echo) l_empty = Some s /\
    count (offers 7) (two_handshakes ++ both_echo) = 1%nat /\
    (count (ping_loop 7 (l_world s)) (w_gor (l_world s)) <= candidates 7 s <= 1)%nat.
Proof.
  destruct (lrun (two_handshakes ++ both_echo) l_empty) as [s|] eqn:Hr; [|vm_compute in Hr; discriminate Hr].
  exists s. split; [reflexivity|]. split; [vm_compute; reflexivity|].
  exact (one_ping_loop_per_invite 7 (two_handshakes ++ both_echo) s Hr).
Defined.

Lemma no_echo_after_activation_witness :
  echoes_due 1%positive (l_state two_handshakes) = 2%nat /\
  exists s', lrun both_echo (l_state two_handshakes) = Some s' /\
    (replies 1%positive (l_world s') + echoes_due 1%positive s'
      <= replies 1%positive (l_world (l_state two_handshakes))
         + echoes_due 1%positive (l_state two_handshakes))%nat.
Proof.
  split; [vm_compute; reflexivity|].
  destruct (lrun both_echo (l_state two_handshakes)) as [s'|] eqn:Hs;
    [|vm_compute in Hs; discriminate Hs].
  exists s'. split; [reflexivity|].
  refine (proj2 (no_echo_after_activation (l_state two_handshakes) s' 1%positive _ _ _)).
  - apply l_state_reachable. vm_compute. by eexists.
  - unfold activated. vm_compute. eexists. split; reflexivity.
  - exact (lrun_steps _ _ _ Hs).
Defined.

(** A decision procedure for runs in which no handlers overlap. *)
Definition serialb (s : lstate) : bool := bool_decide (NoDup (omap works_on (l_threads s))).

Fixpoint srun (es : list levent) (s : lstate) : option lstate :=
  match es with
  | [] => Some s
  | e :: es =>
      match lexec e s with
      | Some (Ok s') => if serialb s' then srun es s' else None
      | _ => None
      end
  end.

Lemma omap_position {A B} (f : A -> option B) (l : list A) i x y :
  l !! i = Some x -> f x = Some y -> omap f l !! length (omap f (take i l)) = Some y.
Proof.
  revert i. induction l as [|z l IH]; intros [|i] Hi Hf; simplify_eq/=; [by rewrite Hf|].
  destruct (f z); simpl; by apply IH.
Qed.

Lemma serialb_sound s : serialb s = true -> serial s.
Proof.
  intros Hn%bool_decide_eq_true i j p q l Hi Hj Hp Hq.
  assert (Hlt : forall i j p, l_threads s !! i = Some p -> works_on p = Some l -> (i < j)%nat ->
    (length (omap works_on (take i (l_threads s))) < length (omap works_on (take j (l_threads s))))%nat).
  { intros i' j' p' Hi' Hp' Hlt. replace j' with (i' + S (j' - i' - 1))%nat by lia.
    rewrite <- take_take_drop, omap_app, length_app, (drop_S _ _ _ Hi'). simpl. rewrite Hp'. simpl. lia. }
  pose proof (omap_position works_on _ _ _ _ Hi Hp) as H1.
  pose proof (omap_position works_on _ _ _ _ Hj Hq) as H2.
  pose proof (NoDup_lookup _ _ _ _ Hn H1 H2) as He.
  destruct (lt_eq_lt_dec i j) as [[Hij| ->]|Hij]; [|done|].
  - specialize (Hlt i j p Hi Hp Hij). lia.
  - specialize (Hlt j i q Hj Hq Hij). lia.
Qed.

Lemma srun_reachable es s s' :
  s_reachable s -> srun es s = Some s' -> s_reachable s'.
Proof.
  revert s. induction es as [|e es IH]; intros s Hs; simpl; [by intros [= <-]|].
  destruct (lexec e s) as [[s1| | |]|] eqn:He; try done. destruct (serialb s1) eqn:Hb; [|done].
  apply IH. eapply rtc_r; [exact Hs|]. split; [by eapply lstep_exec|by apply serialb_sound].
Qed.

(** The session completes its handshake and receives 34 pings, one after the other. *)
Definition pings_from (i : nat) (ks : list nat) : list levent :=
  concat (map (fun k => LStart (StartPacket (ping_of 7 (Z.of_nat k)) peer) ::
    ping_steps (i + k) (a_moment (2 + Z.of_nat k))) ks).

(** The ping after slot 31 takes one statement less. *)
Definition one_at_a_time : list levent :=
  invited ++ pings_from 2 (seq 0 31) ++
  [LStart (StartPacket (ping_of 7 31) peer); LStep 33 (exactly (a_moment 33))] ++
  replicate 10 (LStep 33 Go) ++ pings_from 2 [32; 33]%nat.

Lemma serial_handlers_exact_witness :
  exists s, srun one_at_a_time l_empty = Some s /\
    forall l v, w_heap (l_world s) !! l = Some v -> 0 <= nextAckSlot v < 32.
Proof.
  destruct (srun one_at_a_time l_empty) as [s|] eqn:Hs; [|vm_compute in Hs; discriminate Hs].
  exists s. split; [reflexivity|]. intros l v Hv.
  refine (proj1 (proj1 (serial_handlers_exact s _) l v Hv)).
  apply (srun_reachable one_at_a_time l_empty); [apply rtc_refl|exact Hs].
Defined.

(** Thirty pings have been recorded when two handlers come to the slot at the same time. *)
Definition at_slot (i k : nat) : list levent :=
  [LStart (StartPacket (ping_of 7 (Z.of_nat k)) peer); LStep i (exactly (a_moment (2 + Z.of_nat k)));
   LStep i Go; LStep i Go].
Definition crowded : list levent :=
  invited ++ pings_from 2 (seq 0 30) ++ at_slot 32 30 ++ at_slot 33 31.

Definition crowded_job (k : Z) : packet_job :=
  mkPacketJob (a_moment (2 + k)) (mkPing type_ping magic 7 k (strip (a_moment k)) 0 zeroAcks)
    peer 0%nat 1%positive.

Lemma overlapping_pings_crash_witness :
  exists s', lrun (overlap 32 33) (l_state crowded) = Some s' /\ lexec (LStep 33 Go) s' = Some Panic.
Proof.
  assert (Hn : match w_heap (l_world (l_state crowded)) !! 1%positive with
    | Some v => nextAckSlot v =? 30 | None => false end = true) by (vm_compute; reflexivity).
  destruct (w_heap (l_world (l_state crowded)) !! 1%positive) as [v|] eqn:Hv; [|discriminate Hn].
  refine (overlapping_pings_crash (l_state crowded) 32 33 (crowded_job 30) (crowded_job 31)
    1%positive v _ _ _ _ _ _ Hv _).
  - apply l_state_reachable. vm_compute. by eexists.
  - discriminate.
  - vm_compute. reflexivity.
  - reflexivity.
  - vm_compute. reflexivity.
  - reflexivity.
  - by apply Z.eqb_eq.
Defined.
