(* ===== verification/Interleaving.v ===== *)
(** * The handlers as schedules of their statements (System.v and Statements.v)

    Every run of the model whose handlers are single steps is a schedule of the
    statements of Statements.v; and the schedules show what the lock does not prevent: the
    race on the session table, and the removal of a session that was just heard. *)

From S2P Require Import Prelude Bytes GoTime Acks Session PlainCodec Handshake System Clock.
From S2P Require Import Prom Statements SharedInv Locking.
Local Open Scope Z_scope.

(** ** Every run of System.v is an interleaving *)

Definition set_pending (l : list (waiter_kind * Z)) (w : world) : world :=
  mkWorld (w_heap w) (w_table w) (w_globalReplyWith w) (w_gor w) l (w_sent w).

(** The go statements that are about to be executed. *)
Definition pending_of (p : pc) : option (waiter_kind * Z) :=
  match p with InsGo who id => Some (kind_of who, id) | _ => None end.

(** A state of the interleaving between two handlers, and the world of System.v. *)
Definition between (w : world) (s : lstate) : Prop :=
  l_lock s = None /\ sh_writing (l_shared s) = false /\
  w = set_pending (omap pending_of (l_threads s)) (l_world s).

(** An element that a partial map keeps, and its removal. *)
Lemma omap_lookup_delete {A B} (f : A -> option B) (k : list A) n y :
  omap f k !! n = Some y ->
  exists i x, k !! i = Some x /\ f x = Some y /\
    forall z, f z = None -> omap f (<[i := z]> k) = delete n (omap f k).
Proof.
  revert n. induction k as [|x k IH]; intros n; [done|]. simpl.
  destruct (f x) as [b|] eqn:Hx.
  - destruct n as [|n]; simpl.
    + intros [= ->]. exists 0%nat, x. split_and!; [done|done|]. intros z Hz. simpl. by rewrite Hz.
    + intros H. destruct (IH n H) as (i & x' & Hi & Hf & Hz).
      exists (S i), x'. split_and!; [done|done|]. intros z Hfz. simpl. rewrite Hx. f_equal. by apply Hz.
  - intros H. destruct (IH n H) as (i & x' & Hi & Hf & Hz).
    exists (S i), x'. split_and!; [done|done|]. intros z Hfz. simpl. rewrite Hx. by apply Hz.
Qed.

(** The statements of one goroutine in a row. *)
Section Runs.
Context {C : Codec} {L : CodecLaws C}.

Definition statement (n : nat) (x y : pc * shared) : Prop :=
  exists ch, tstep n ch (fst x) (snd x) = Some (Ok y).

Definition runs (n : nat) (p : pc) (sh : shared) (p' : pc) (sh' : shared) : Prop :=
  rtc (statement n) (p, sh) (p', sh').

Lemma runs_step n ch p sh p1 sh1 p' sh' :
  tstep n ch p sh = Some (Ok (p1, sh1)) -> runs n p1 sh1 p' sh' -> runs n p sh p' sh'.
Proof. intros H Hr. eapply rtc_l; [|exact Hr]. by exists ch. Qed.

Lemma runs_trans n p sh p1 sh1 p' sh' :
  runs n p sh p1 sh1 -> runs n p1 sh1 p' sh' -> runs n p sh p' sh'.
Proof. unfold runs. intros H1 H2. by etrans. Qed.

Lemma runs_refl n p sh : runs n p sh p sh.
Proof. apply rtc_refl. Qed.

(** A statement of the last goroutine. *)
Lemma lstep_last ts ch p p' sh sh' :
  tstep (length ts) ch p sh = Some (Ok (p', sh')) ->
  lstep (mkLState sh (ts ++ [p])) (mkLState sh' (ts ++ [p'])).
Proof.
  intros Hs. apply (lstep_exec _ _ (LStep (length ts) ch)). cbn [lexec l_threads l_shared].
  rewrite list_lookup_middle by done. rewrite Hs. rewrite bind_Ok. cbn [fst snd].
  by rewrite insert_app_r_alt, Nat.sub_diag by lia.
Qed.

Lemma runs_last ts p sh p' sh' :
  runs (length ts) p sh p' sh' ->
  rtc lstep (mkLState sh (ts ++ [p])) (mkLState sh' (ts ++ [p'])).
Proof.
  unfold runs. intros H. remember (p, sh) as x eqn:Hx. remember (p', sh') as y eqn:Hy.
  revert p sh Hx. induction H as [x|x [p1 sh1] z [ch Hs] _ IH]; intros p sh Hx; subst.
  - by injection Hx as -> ->.
  - eapply rtc_l; [by eapply lstep_last|by apply IH].
Qed.

Lemma lstep_start st p w s :
  start_pc st (l_world s) = Some (p, w) ->
  lstep s (mkLState (with_world w (l_shared s)) (l_threads s ++ [p])).
Proof. intros Hs. apply (lstep_exec _ _ (LStart st)). cbn [lexec]. by rewrite Hs. Qed.

Lemma omap_last ts p :
  omap pending_of (ts ++ [p]) =
    omap pending_of ts ++ match pending_of p with Some x => [x] | None => [] end.
Proof. rewrite omap_app. by destruct p. Qed.

Lemma set_session_twice l v v' w : set_session l v' (set_session l v w) = set_session l v' w.
Proof. unfold set_session. simpl. by rewrite insert_insert_eq. Qed.

(** A call of [timeNowCorrected] that finds the clock right returns the reading. *)
Definition clock_right (t : Time) : choice :=
  Corrected t (a_moment 0) (mkCalibration 0 t) (mkClock 0 (a_moment 0)).

Lemma clock_right_reads t :
  exists clk, timeNowCorrected t (a_moment 0) (mkCalibration 0 t) (mkClock 0 (a_moment 0)) = Ok (t, clk).
Proof.
  eexists. unfold timeNowCorrected, getTimeOffset.
  rewrite decide_False by (intros [H|H]; vm_compute in H; discriminate H).
  rewrite bind_Ok. do 2 f_equal. destruct t as [wl [m|]]; unfold TimeAdd; simpl; by rewrite ?Z.add_0_r.
Qed.

(** *** The handler of a ping *)

(** The next statement is one on the session [*l], which is [v]. *)
Ltac on_session_step Hv :=
  eapply (runs_step _ Go);
    [tstep_simpl; unfold slot_step, field_step, inbound_step, on_session, assign; cbn [sh_world with_world w_heap set_session];
     first [rewrite lookup_insert_eq|rewrite Hv]; reflexivity|];
  rewrite ?set_session_twice.

Lemma slot_runs n j sh v :
  w_heap (sh_world sh) !! pj_ses j = Some v ->
  let slot := getNextAckSlot (nextAckSlot v) in
  runs n (PacketSlot j SlotTest) sh (PacketSlot j (SlotIndex slot))
    (with_world (set_session (pj_ses j) (set_slot slot v) (sh_world sh)) sh).
Proof.
  intros Hv slot. eapply (runs_step _ Go).
  { tstep_simpl. unfold slot_step, on_session. rewrite Hv. reflexivity. }
  unfold slot, getNextAckSlot. case_decide as Hd.
  - on_session_step Hv. on_session_step Hv. on_session_step Hv. apply runs_refl.
  - on_session_step Hv. on_session_step Hv. apply runs_refl.
Qed.
Lemma record_runs n j sh v :
  w_heap (sh_world sh) !! pj_ses j = Some v -> length (LastAcks v) = ring_size ->
  0 <= nextAckSlot v < 32 -> UDPActivated v = true ->
  runs n (PacketTest j) sh Returned
    (with_world (set_session (pj_ses j)
       (record_ping (pj_timeRX j) (pj_rx j) (pj_from j) (pj_conn j) (getNextAckSlot (nextAckSlot v)) v)
       (sh_world sh)) sh).
Proof.
  intros Hv Hlen Hslot Hu. set (slot := getNextAckSlot (nextAckSlot v)).
  assert (Hin : 0 <= slot < Z.of_nat (length (LastAcks v))).
  { rewrite Hlen. unfold slot. rewrite getNextAckSlot_mod by done. unfold ring_size. zdiv. }
  eapply (runs_step _ Go).
  { tstep_simpl. unfold on_session. rewrite Hv, Hu. reflexivity. }
  eapply runs_trans; [by apply slot_runs|]. fold slot.
  eapply (runs_step _ Go).
  { tstep_simpl. unfold slot_step, on_session, assign. cbn [sh_world with_world w_heap set_session].
    rewrite lookup_insert_eq. cbn [LastAcks set_slot]. rewrite decide_True by done. reflexivity. }
  rewrite set_session_twice.
  on_session_step Hv. on_session_step Hv. on_session_step Hv. on_session_step Hv. apply runs_refl.
Qed.

(** *** The handler of a handshake *)
Lemma activate_runs n j sh v c :
  w_heap (sh_world sh) !! ij_ses j = Some v -> session_ok v -> UDPActivated v = false ->
  w_globalReplyWith (sh_world sh) = Some c ->
  let w := set_session (ij_ses j) (activate (ij_from j) c v) (sh_world sh) in
  runs n (Inbound j InboundTest) sh Returned
    (with_world (send (mkDatagram SReply (ij_ses j) c (ij_buf j) (ij_from j))
                   (set_gor (notify (ij_ses j) (w_gor w)) w)) sh).
Proof.
  intros Hv (Htcp & _) Hu Hc w.
  apply (runs_step _ Go _ _ (Inbound j InboundWas) sh).
  { tstep_simpl. unfold inbound_step, on_session. rewrite Hv, Hu. reflexivity. }
  apply (runs_step _ Go _ _ (Inbound j (InboundReplyTo false)) sh).
  { tstep_simpl. unfold inbound_step, on_session. rewrite Hv, Hu. reflexivity. }
  on_session_step Hv.
  eapply (runs_step _ Go).
  { tstep_simpl. unfold inbound_step, on_session, assign.
    cbn [sh_world with_world w_heap w_globalReplyWith set_session].
    rewrite lookup_insert_eq, Hc. reflexivity. }
  on_session_step Hv.
  assert (Hend : forall v', v' = activate (ij_from j) c v ->
    runs n (Inbound j (InboundNotify false)) (with_world (set_session (ij_ses j) v' (sh_world sh)) sh)
      Returned (with_world (send (mkDatagram SReply (ij_ses j) c (ij_buf j) (ij_from j))
                   (set_gor (notify (ij_ses j) (w_gor w)) w)) sh)).
  { intros v' ->. do 3 (eapply (runs_step _ Go);
      [cbn [negb]; tstep_simpl; unfold inbound_step, on_session;
       cbn [sh_world with_world w_heap set_session set_gor]; rewrite lookup_insert_eq; reflexivity|]).
    apply runs_refl. }
  eapply (runs_step _ Go).
  { tstep_simpl. unfold inbound_step, on_session. cbn [sh_world with_world w_heap set_session].
    rewrite lookup_insert_eq. reflexivity. }
  rewrite ?set_session_twice. cbn [PeerAddress set_udp set_reply_with set_reply_to].
  destruct (PeerAddress v) as [a|] eqn:Ha.
  - apply Hend. unfold activate. rewrite Ha. unfold set_udp, set_reply_with, set_reply_to. simpl.
    by rewrite Ha.
  - on_session_step Hv. apply Hend. unfold activate. by rewrite Ha.
Qed.

(** *** A tick of a waiter and an iteration of a ping loop *)

Lemma set_goroutine_back g x y w :
  w_gor w !! g = Some x -> set_goroutine g x (set_goroutine g y w) = w.
Proof.
  intros Hg. unfold set_goroutine, set_gor. simpl. rewrite list_insert_insert_eq, list_insert_id by done.
  by destruct w.
Qed.
Lemma set_goroutine_twice g x y w : set_goroutine g x (set_goroutine g y w) = set_goroutine g x w.
Proof. unfold set_goroutine, set_gor. simpl. by rewrite list_insert_insert_eq. Qed.

Lemma tick_runs n g k l now sh w o :
  w_gor w !! g = Some (Waiter k l WSelecting) -> waiter_tick now k l w = Ok o ->
  runs n (WaiterTick (mkTickJob g k l) WTest) (with_world (set_goroutine g (Waiter k l WTicking) w) sh)
    Returned (with_world (match o with Some w' => w' | None => set_goroutine g (Waiter k l WReturned) w end) sh).
Proof.
  intros Hg H. unfold waiter_tick in H. destruct (w_heap w !! l) as [v|] eqn:Hv; [|done].
  set (w0 := set_goroutine g (Waiter k l WTicking) w).
  assert (Hv0 : w_heap w0 !! l = Some v) by done.
  destruct (decide (Since now (SessionMade v) > Minute /\ UDPActivated v = false)) as [Hd|Hd].
  { apply Ok_inj in H. subst o. eapply (runs_step _ (Reading now)); [|apply runs_refl].
    tstep_simpl. unfold waiter_step, on_session. cbn [sh_world with_world tj_ses].
    rewrite Hv0, decide_True by done. cbn [tj_g tj_kind]. unfold w0. by rewrite set_goroutine_twice. }
  destruct k.
  - destruct (marshal_hs (handshake_packet v)) as [b|] eqn:Hb; [|done].
    destruct (ReplyWith v) as [c|] eqn:Hc; [|done]. apply Ok_inj in H. subst o.
    eapply (runs_step _ (Reading now)).
    { tstep_simpl. unfold waiter_step, on_session. cbn [sh_world with_world tj_ses].
      rewrite Hv0, decide_False by done. reflexivity. }
    eapply (runs_step _ Go).
    { tstep_simpl. unfold waiter_step, on_session. cbn [sh_world with_world tj_ses].
      rewrite Hv0, Hb. reflexivity. }
    eapply (runs_step _ Go); [|apply runs_refl].
    tstep_simpl. unfold waiter_step, on_session. cbn [sh_world with_world tj_ses].
    rewrite Hv0, Hc. cbn [tj_g tj_kind].
    assert (Hs : forall d, set_goroutine g (Waiter SendUDPHandshake l WSelecting) (send d w0) = send d w)
      by (intros d; exact (f_equal (send d) (set_goroutine_back g _ _ w Hg))).
    by rewrite Hs.
  - apply Ok_inj in H. subst o. eapply (runs_step _ (Reading now)); [|apply runs_refl].
    tstep_simpl. unfold waiter_step, on_session. cbn [sh_world with_world tj_ses].
    rewrite Hv0, decide_False by done. cbn [tj_g tj_kind]. unfold w0. by rewrite set_goroutine_back.
Qed.

(** The copy of the ring into the packet. *)
Lemma copy_runs n j id tx sh v b acks rest :
  w_heap (sh_world sh) !! gj_ses j = Some v -> LastAcks v = acks ++ rest ->
  marshal_ping (mkPing type_ping magic (SessionID v) id tx 0 (LastAcks v)) = Some b ->
  runs n (Ping j (PingCopy id tx acks)) sh (Ping j (PingReplyTo b)) sh.
Proof.
  intros Hv. revert acks. induction rest as [|a rest IH]; intros acks Hr Hb.
  - rewrite app_nil_r in Hr. rewrite Hr in Hb. eapply (runs_step _ Go); [|apply runs_refl].
    tstep_simpl. unfold ping_step, on_session. rewrite Hv, Hr.
    rewrite lookup_ge_None_2 by lia. by rewrite Hb.
  - eapply (runs_step _ Go); [|apply (IH (acks ++ [a])); [by rewrite <- app_assoc|done]].
    tstep_simpl. unfold ping_step, on_session. rewrite Hv, Hr.
    by rewrite list_lookup_middle.
Qed.

(** From the test of [s.ReplyTo] on; [w] is the world with the loop back at its wait. *)
Lemma send_runs n j sh v b w :
  w_heap (sh_world sh) !! gj_ses j = Some v -> (is_Some (ReplyTo v) -> is_Some (ReplyWith v)) ->
  set_goroutine (gj_g j) (Sender (gj_ses j) (gj_started j) true) (sh_world sh) = w ->
  runs n (Ping j (PingReplyTo b)) sh Returned
    (with_world match ReplyTo v, ReplyWith v with
                | Some to, Some c => send (mkDatagram SPing (gj_ses j) c b to) w
                | _, _ => w
                end sh).
Proof.
  intros Hv Hsock Hback.
  assert (Hsend : forall d, set_goroutine (gj_g j) (Sender (gj_ses j) (gj_started j) true)
    (send d (sh_world sh)) = send d w) by (intros d; exact (f_equal (send d) Hback)).
  destruct (ReplyTo v) as [to|] eqn:Hto.
  - destruct Hsock as [c Hc]; [by eexists|]. rewrite Hc.
    do 2 (eapply (runs_step _ Go);
      [tstep_simpl; unfold ping_step, on_session; rewrite Hv, ?Hto, ?Hc; reflexivity|]).
    eapply (runs_step _ Go); [|apply runs_refl].
    tstep_simpl. unfold ping_step, on_session. by rewrite Hv, Hto, Hsend.
  - eapply (runs_step _ Go); [|apply runs_refl].
    tstep_simpl. unfold ping_step, on_session. by rewrite Hv, Hto, Hback.
Qed.

Lemma ping_runs n g l t now1 now2 now3 tx sh w o :
  w_gor w !! g = Some (Sender l t true) ->
  sendPackets_iter t now1 now2 now3 (Ok tx) l w = Ok o ->
  runs n (Ping (mkPingJob g l t) PingSleep) (with_world (set_goroutine g (Sender l t false) w) sh)
    Returned (with_world (match o with Some w' => w' | None => set_goroutine g (Sender l t false) w end) sh).
Proof.
  intros Hg H. unfold sendPackets_iter in H. destruct (w_heap w !! l) as [v|] eqn:Hv; [|done].
  set (w0 := set_goroutine g (Sender l t false) w).
  assert (Hv0 : w_heap w0 !! l = Some v) by done.
  eapply (runs_step _ (clock_right tx)).
  { tstep_simpl. unfold ping_step, clock_right. destruct (clock_right_reads tx) as [clk ->]. reflexivity. }
  eapply (runs_step _ (Readings now1 now2)).
  { tstep_simpl. unfold ping_step, on_session. cbn [sh_world with_world gj_ses gj_started].
    rewrite Hv0. reflexivity. }
  case_decide; [apply Ok_inj in H; subst o; apply runs_refl|].
  rewrite bind_Ok in H. set (v1 := set_current (ping_id (Unix now3)) v) in *.
  destruct (marshal_ping (ping_packet tx v1)) as [b|] eqn:Hb; [|done].
  set (w1 := set_session l v1 w0). set (sh1 := with_world w1 sh).
  assert (Hv1 : w_heap (sh_world sh1) !! l = Some v1) by apply lookup_insert_eq.
  apply (runs_step _ (Reading now3) _ _ (Ping (mkPingJob g l t) PingID) sh1).
  { tstep_simpl. unfold ping_step, on_session, assign. cbn [sh_world with_world gj_ses]. by rewrite Hv0. }
  eapply (runs_step _ Go).
  { tstep_simpl. unfold ping_step, on_session. cbn [gj_ses]. rewrite Hv1. reflexivity. }
  eapply (runs_step _ (clock_right tx)).
  { tstep_simpl. unfold ping_step, clock_right. destruct (clock_right_reads tx) as [clk ->]. reflexivity. }
  eapply runs_trans; [by apply (copy_runs n _ _ tx _ v1 b [] (LastAcks v1))|].
  assert (Hback : set_goroutine g (Sender l t true) w1 = set_session l v1 w).
  { change w1 with (set_goroutine g (Sender l t false) (set_session l v1 w)).
    by rewrite set_goroutine_back. }
  assert (Hend : o = Some match ReplyTo v1, ReplyWith v1 with
      | Some to, Some c => send (mkDatagram SPing l c b to) (set_session l v1 w)
      | _, _ => set_session l v1 w end /\ (is_Some (ReplyTo v1) -> is_Some (ReplyWith v1))).
  { destruct (ReplyTo v1) as [to|]; [destruct (ReplyWith v1) as [c|]; [|done]|];
      apply Ok_inj in H; (split; [done|]); [by eexists|by intros []]. }
  destruct Hend as [-> Hsock]. by apply (send_runs n (mkPingJob g l t) sh1 v1 b).
Qed.
End Runs.

Section Refinement.
Context {C : Codec} {L : CodecLaws C}.

(** *** The handlers do not look at the go statements that are waiting *)

Definition keeps_pending (e : event) : bool :=
  match e with EServerInvite _ _ | EClientInvite _ _ _ | ESpawn _ | EGC _ _ => false | _ => true end.

Lemma exec_pending e l w :
  keeps_pending e = true ->
  exec e (set_pending l w) = (r ← exec e w; Some (w' ← r; Ok (set_pending l w'))).
Proof.
  intros He. destruct e; try discriminate He; cbn [exec].
  - simpl. by destruct (w_globalReplyWith w).
  - simpl. destruct (w_globalReplyWith w); [|done]. unfold handlePacket.
    unfold handleInboundHandshake, lookup_session. simpl. by repeat case_match.
  - simpl. destruct (w_gor w !! g) as [[k l' []|]|]; try done. unfold waiter_start. simpl.
    by repeat case_match.
  - simpl. destruct (w_gor w !! g) as [[k l' []|]|]; try done. unfold waiter_tick, iterate. simpl.
    by repeat case_match.
  - simpl. destruct (w_gor w !! g) as [[k l' []|]|]; try done. unfold waiter_activated. simpl.
    by repeat case_match.
  - simpl. destruct (w_gor w !! g) as [[|l' t []]|]; try done. unfold sendPackets_iter, iterate.
    simpl. by repeat case_match.
Qed.
Lemma inv_pending l w : Inv w <-> Inv (set_pending l w).
Proof. split; intros HI; destruct HI; by constructor. Qed.

Lemma inv_table_heap w id l : Inv w -> w_table w !! id = Some l -> exists v, w_heap w !! l = Some v.
Proof. intros HI Hl. destruct (inv_table _ HI _ _ Hl) as (v & Hv & _). by exists v. Qed.

Lemma inv_delete w id : Inv w -> Inv (set_table (delete id (w_table w)) w).
Proof.
  intros [Hh Ht Hg Ha Hr Hw Hrd Hpg]. constructor; try done.
  intros id' l Hl. apply (Ht id' l). simpl in Hl. by apply lookup_delete_Some in Hl as [_ ?].
Qed.

Lemma with_world_same sh : with_world (sh_world sh) sh = sh.
Proof. by destruct sh. Qed.

(** *** A whole handler as a goroutine *)

Lemma returned_same n sh v' :
  Ok (E := fatal_error) (sh_world sh) = Ok v' -> runs n Returned sh Returned (with_world v' sh).
Proof. intros Hv%Ok_inj. subst v'. rewrite with_world_same. apply runs_refl. Qed.

Lemma inbound_runs n buf from c sh v' :
  Inv (sh_world sh) -> sh_writing sh = false -> w_globalReplyWith (sh_world sh) = Some c ->
  handleInboundHandshake buf from c (sh_world sh) = Ok v' ->
  runs n (inbound_start buf from) sh Returned (with_world v' sh).
Proof.
  intros HI Hw Hc H. unfold handleInboundHandshake in H. unfold inbound_start.
  pose proof (returned_same n sh v') as Hsame.
  destruct (unmarshal_hs buf) as [rx|]; [|by apply Hsame].
  case_decide; [by apply Hsame|]. case_decide; [by apply Hsame|].
  destruct (w_table (sh_world sh) !! hs_Session rx) as [l|] eqn:Hl.
  - destruct (inv_table_heap _ _ _ HI Hl) as [v Hv]. rewrite (proj2 (lookup_session_Some _ _ l v)) in H by done.
    pose proof (inv_heap _ HI _ _ Hv) as Hok. pose proof Hok as (Htcp & _).
    eapply (runs_step _ Go).
    { tstep_simpl. unfold map_read. rewrite Hw, bind_Ok, Hl. reflexivity. }
    set (j := mkInboundJob buf from l). rewrite Htcp, andb_true_r in H.
    destruct (UDPActivated v) eqn:Hu.
    + eapply (runs_step _ Go); [|by apply Hsame].
      tstep_simpl. unfold inbound_step, on_session. cbn [ij_ses j]. by rewrite Hv, Hu, Htcp.
    + rewrite Hc in H. apply Ok_inj in H. subst v'. by apply (activate_runs n j sh v c).
  - unfold lookup_session in H. rewrite Hl in H.
    eapply (runs_step _ Go); [|by apply Hsame].
    tstep_simpl. unfold map_read. by rewrite Hw, bind_Ok, Hl.
Qed.

Lemma packet_runs n timeRX buf from c sh v' :
  Inv (sh_world sh) -> sh_writing sh = false -> w_globalReplyWith (sh_world sh) = Some c ->
  handlePacket (Ok timeRX) buf from c (sh_world sh) = Ok v' ->
  runs n (PacketClock buf from c) sh Returned (with_world v' sh).
Proof.
  intros HI Hw Hc H. unfold handlePacket in H. rewrite bind_Ok in H.
  apply (runs_step _ (clock_right timeRX) _ _ (packet_start timeRX buf from c) sh).
  { tstep_simpl. unfold clock_right. by destruct (clock_right_reads timeRX) as [clk ->]. }
  unfold packet_start.
  pose proof (returned_same n sh v') as Hsame.
  destruct (unmarshal_ping buf) as [rx|] eqn:Hrx; [|by apply Hsame].
  case_decide; [by apply Hsame|]. case_decide; [by apply (inbound_runs n _ _ c)|].
  case_decide; [by apply Hsame|].
  destruct (w_table (sh_world sh) !! p_Session rx) as [l|] eqn:Hl.
  - destruct (inv_table_heap _ _ _ HI Hl) as [v Hv]. rewrite (proj2 (lookup_session_Some _ _ l v)) in H by done.
    pose proof (inv_heap _ HI _ _ Hv) as Hok. pose proof Hok as (Htcp & _).
    eapply (runs_step _ Go).
    { tstep_simpl. unfold map_read. rewrite Hw, bind_Ok, Hl. reflexivity. }
    set (j := mkPacketJob timeRX rx from c l). rewrite Htcp, andb_true_r in H.
    destruct (UDPActivated v) eqn:Hu; cbn [negb] in H.
    + case_decide; [|done]. apply Ok_inj in H. subst v'. destruct Hok as (_ & ? & ? & _).
      by apply (record_runs n j sh v).
    + eapply (runs_step _ Go); [|by apply Hsame].
      tstep_simpl. unfold on_session. cbn [pj_ses j]. by rewrite Hv, Hu, Htcp.
  - unfold lookup_session in H. rewrite Hl in H.
    eapply (runs_step _ Go); [|by apply Hsame].
    tstep_simpl. unfold map_read. by rewrite Hw, bind_Ok, Hl.
Qed.

(** *** The simulation *)

(** A goroutine that starts, and makes all its statements in a row. *)
Lemma simulate_goroutine e st p0 w0 w w' s :
  between w s -> keeps_pending e = true -> exec e w = Some (Ok w') ->
  start_pc st (l_world s) = Some (p0, w0) ->
  (forall v', exec e (l_world s) = Some (Ok v') ->
     runs (length (l_threads s)) p0 (with_world w0 (l_shared s)) Returned (with_world v' (l_shared s))) ->
  exists s', rtc lstep s s' /\ between w' s'.
Proof.
  intros (Hlock & Hwr & Hw) He Hx Hst Hruns. rewrite Hw, exec_pending in Hx by done.
  apply bind_Some in Hx as (r & Hr & Hx%(inj Some)).
  apply bind_Ok_inv in Hx as (v' & -> & Hx%Ok_inj). subst w'.
  exists (mkLState (with_world v' (l_shared s)) (l_threads s ++ [Returned])). split.
  - eapply rtc_l; [by eapply lstep_start|]. by apply runs_last, Hruns.
  - split_and!; [done|done|]. cbn [l_threads]. by rewrite omap_last, app_nil_r.
Qed.

Lemma simulate_local e w w' s :
  between w s -> local_event e = true -> exec e w = Some (Ok w') ->
  exists s', rtc lstep s s' /\ between w' s'.
Proof.
  intros (Hlock & Hwr & Hw) He Hx. rewrite Hw, exec_pending in Hx by (by destruct e).
  apply bind_Some in Hx as (r & Hr & Hx%(inj Some)).
  apply bind_Ok_inv in Hx as (v' & -> & Hx%Ok_inj). subst w'.
  exists (mkLState (with_world v' (l_shared s)) (l_threads s)). split; [|by split].
  apply rtc_once, (lstep_exec _ _ (LWorld e)). cbn [lexec]. by rewrite He, Hr.
Qed.

(** A goroutine that takes the lock inserts its session. *)
Lemma insert_runs n who id v m :
  runs n (InsLock who id) (mkShared v m None false)
    (InsGo who id) (mkShared (store_session id (session_of who id) v) m None false).
Proof. do 4 (eapply (runs_step _ Go); [reflexivity|]). apply runs_refl. Qed.

Lemma between_insert who id v m ts :
  between
    (insert_session (kind_of who) id (session_of who id) (set_pending (omap pending_of ts) v))
    (mkLState (mkShared (store_session id (session_of who id) v) m None false) (ts ++ [InsGo who id])).
Proof. split_and!; [done|done|]. cbn [l_threads]. by rewrite omap_last. Qed.

Lemma simulate_server nSes made w s :
  between w s -> 0 <= nSes < 2 ^ 32 ->
  exists s', rtc lstep s s' /\
    between (insert_session WaitForHandshake nSes (server_session nSes made) w) s'.
Proof.
  intros (Hlock & Hwr & ->) Hn. destruct s as [[v m k b] ts]. unfold l_lock, l_world in *.
  simpl in *. subst k b. eexists. split; [|exact (between_insert (ByServer made) nSes v m ts)].
  eapply rtc_l; [apply (lstep_start (StartConnection true invite_request nSes made))|
    apply runs_last, insert_runs].
  cbn [start_pc]. by rewrite decide_True.
Qed.

Lemma simulate_client invite ip made w s :
  between w s -> 0 <= invite < 2 ^ 32 ->
  exists s', rtc lstep s s' /\
    between (insert_session SendUDPHandshake invite (client_session invite ip made) w) s'.
Proof.
  intros (Hlock & Hwr & ->) Hn. destruct s as [[v m k b] ts]. unfold l_lock, l_world in *.
  simpl in *. subst k b. eexists. split; [|exact (between_insert (ByClient ip made) invite v m ts)].
  eapply rtc_l; [exact (lstep_start (StartPeer ip) _ _ _ eq_refl)|]. apply runs_last.
  eapply (runs_step _ (Attempt true banner true (sprint_uint32 invite) made)); [|apply insert_runs].
  tstep_simpl. by rewrite negotiate_ok.
Qed.

Lemma simulate_spawn i w w' s :
  between w s -> is_Some (w_pending w !! i) -> spawn_waiter i w = Ok w' ->
  exists s', rtc lstep s s' /\ between w' s'.
Proof.
  intros (Hlock & Hwr & Hw) [[k id] Hp] Hs. unfold spawn_waiter in Hs. rewrite Hp in Hs.
  rewrite Hw in Hp. simpl in Hp.
  destruct (omap_lookup_delete _ _ _ _ Hp) as (j & p & Hj & Hpj & Hdel).
  destruct p; simplify_eq/=.
  destruct (w_table (l_world s) !! id) as [l|] eqn:Hl; [|done]. apply Ok_inj in Hs. subst w'.
  eexists. split.
  - apply rtc_once, (lstep_exec _ _ (LStep j Go)). rewrite (lexec_thread _ _ _ _ Hj).
    tstep_simpl. unfold map_read, go_waiter. unfold l_world in Hl.
    rewrite Hwr, bind_Ok, Hl. reflexivity.
  - split_and!; [done|done|]. simpl. rewrite <- (Hdel (after_go who id)) by (by destruct who). done.
Qed.

(** A pass of the collector does not look at the go statements either. *)
Lemma sessionGC_pending clock order l w :
  sessionGC clock order (set_pending l w) = set_pending l (sessionGC clock order w).
Proof.
  revert w. induction order as [|id order IH]; intros w; [done|].
  change (sessionGC clock (id :: order) w) with (sessionGC clock order (gc_one clock w id)).
  rewrite <- IH. change (sessionGC clock (id :: order) (set_pending l w))
    with (sessionGC clock order (gc_one clock (set_pending l w) id)).
  f_equal. unfold gc_one, lookup_session. simpl. by repeat case_match.
Qed.

(** The iterations of the collector over the keys [order]. *)
Lemma gc_loop_runs n clock order seen w m k :
  Inv w -> NoDup order -> (forall id, id ∈ order -> (id ∉ seen) /\ id ∈ dom (w_table w)) ->
  runs n (GCRange seen) (mkShared w m k false)
    (GCRange (rev order ++ seen)) (mkShared (sessionGC clock order w) m k false).
Proof.
  revert seen w. induction order as [|id order IH]; intros seen w HI Hnd Hin; [apply runs_refl|].
  apply NoDup_cons in Hnd as [Hni Hnd].
  destruct (Hin id) as [Hs [l Hl]%elem_of_dom]; [apply elem_of_cons; by left|].
  destruct (inv_table_heap _ _ _ HI Hl) as [v Hv].
  assert (Hlk : lookup_session w id = Some (l, v)) by (by apply lookup_session_Some).
  change (sessionGC clock (id :: order) w) with (sessionGC clock order (gc_one clock w id)).
  cbn [rev]. rewrite <- app_assoc. unfold gc_one. rewrite Hlk. unfold gc_keep.
  apply (runs_step _ (Key id) _ _ (GCTest (id :: seen) id l) (mkShared w m k false)).
  { tstep_simpl. cbn [sh_world]. by rewrite (proj2 (range_key_Some seen id w l)). }
  assert (Hdel : runs n (GCDelete (id :: seen) id) (mkShared w m k false) (GCRange (rev order ++ id :: seen))
    (mkShared (sessionGC clock order (set_table (delete id (w_table w)) w)) m k false)).
  { do 2 (eapply (runs_step _ Go); [reflexivity|]).
    apply IH; [by apply inv_delete|done|]. intros x Hx.
    destruct (Hin x) as [Hxs Hxd]; [apply elem_of_cons; by right|]. simpl.
    assert (Hne : x <> id) by (by intros ->).
    split; [intros [-> |?]%elem_of_cons; done|]. rewrite dom_delete_L. set_solver. }
  assert (Hkeep : runs n (GCRange (id :: seen)) (mkShared w m k false) (GCRange (rev order ++ id :: seen))
    (mkShared (sessionGC clock order w) m k false)).
  { apply IH; [done|done|]. intros x Hx. destruct (Hin x) as [Hxs Hxd]; [apply elem_of_cons; by right|].
    split; [|done]. intros [He|?]%elem_of_cons; [by subst x|done]. }
  eapply (runs_step _ (Reading (fst (clock id)))).
  { tstep_simpl. unfold on_session. cbn [sh_world]. rewrite Hv. reflexivity. }
  case_decide; [exact Hdel|].
  eapply (runs_step _ (Reading (snd (clock id)))).
  { tstep_simpl. unfold on_session. cbn [sh_world]. rewrite Hv. reflexivity. }
  destruct (UDPActivated v); cbn [negb andb]; [exact Hkeep|].
  destruct (decide _); [rewrite bool_decide_eq_true_2 by done|rewrite bool_decide_eq_false_2 by done]; done.
Qed.

Lemma simulate_gc clock order w s :
  Inv w -> between w s -> NoDup order -> list_to_set order =@{gset Z} dom (w_table w) ->
  exists s', rtc lstep s s' /\ between (sessionGC clock order w) s'.
Proof.
  intros HI (Hlock & Hwr & Hw) Hnd Hord.
  assert (Hdom : w_table w = w_table (l_world s)) by (by rewrite Hw). rewrite Hdom in Hord.
  assert (HIv : Inv (l_world s)) by (rewrite Hw in HI; by apply inv_pending in HI).
  destruct s as [[v m k b] ts]. unfold l_lock, l_world in *. simpl in *. subst k b.
  exists (mkLState (mkShared (sessionGC clock order v) m None false) (ts ++ [GCSleep])). split.
  - eapply rtc_l; [exact (lstep_start StartCollector _ _ _ eq_refl)|]. apply runs_last.
    do 2 (eapply (runs_step _ Go); [reflexivity|]). eapply runs_trans.
    { apply (gc_loop_runs _ clock order [] v m (Some (length ts))); [done|done|].
      intros id Hid. split; [by intros ?%elem_of_nil|]. rewrite <- Hord.
      by apply elem_of_list_to_set. }
    eapply (runs_step _ EndRange).
    { tstep_simpl. cbn [sh_world].
      assert (Hd : range_done (rev order ++ []) (sessionGC clock order v) = true); [|by rewrite Hd].
      apply bool_decide_eq_true_2. rewrite app_nil_r.
      destruct (sessionGC_frame clock order v) as (_ & _ & _ & _ & _ & Hsub).
      apply subseteq_dom in Hsub. rewrite <- Hord in Hsub. intros x Hx. apply Hsub in Hx.
      apply elem_of_list_to_set in Hx. apply elem_of_list_to_set.
      apply list_elem_of_In. apply -> in_rev. by apply list_elem_of_In. }
    eapply (runs_step _ Go); [reflexivity|]. apply runs_refl.
  - split_and!; [done|done|]. cbn [l_threads l_world l_shared sh_world]. rewrite omap_last, app_nil_r.
    rewrite Hw. apply sessionGC_pending.
Qed.
End Refinement.

Section Theorems.
Context {C : Codec} {L : CodecLaws C}.

Lemma simulate_exec e w w' s :
  Inv w -> between w s -> exec e w = Some (Ok w') ->
  exists s', rtc lstep s s' /\ between w' s'.
Proof.
  intros HI Hb Hx. pose proof Hb as (Hlock & Hwr & Hw).
  assert (HIv : Inv (l_world s)) by (rewrite Hw in HI; by apply inv_pending in HI).
  assert (Hgor : w_gor w = w_gor (l_world s)) by (by rewrite Hw).
  assert (Hgl : w_globalReplyWith w = w_globalReplyWith (l_world s)) by (by rewrite Hw).
  destruct e; try (by eapply simulate_local; [done|..|exact Hx]).
  - destruct (w_globalReplyWith w) as [c|] eqn:Hc; [|cbn [exec] in Hx; by rewrite Hc in Hx].
    eapply (simulate_goroutine _ (StartPacket buf rxAddr)); [exact Hb| |exact Hx| |]; [done| |].
    + cbn [start_pc]. by rewrite <- Hgl.
    + intros v' Hv. unfold l_world in *. rewrite with_world_same. cbn [exec] in Hv. rewrite <- Hgl in Hv.
      apply (inj Some) in Hv. by apply (packet_runs _ timeRX).
  - cbn [exec] in Hx. case_decide; [|done]. apply (inj Some), Ok_inj in Hx. subst w'.
    by apply simulate_server.
  - cbn [exec] in Hx. case_decide; [|done]. apply (inj Some), Ok_inj in Hx. subst w'.
    by apply simulate_client.
  - cbn [exec] in Hx. destruct (w_pending w !! i) eqn:Hp; [|done]. apply (inj Some) in Hx.
    eapply simulate_spawn; [done|by rewrite Hp|done].
  - destruct (w_gor w !! g) as [[k l []|]|] eqn:Hg; try (cbn [exec] in Hx; rewrite Hg in Hx; done).
    eapply (simulate_goroutine _ (StartTick g)); [exact Hb| |exact Hx| |]; [done| |].
    + cbn [start_pc]. rewrite <- Hgor, Hg. reflexivity.
    + intros v' Hv. cbn [exec] in Hv. rewrite Hgor in Hg. rewrite Hg in Hv.
      apply (inj Some) in Hv. apply bind_Ok_inv in Hv as (o & Ho & Hv%Ok_inj). subst v'.
      by apply (tick_runs _ g k l now).
  - destruct (w_gor w !! g) as [[|l t []]|] eqn:Hg; try (cbn [exec] in Hx; rewrite Hg in Hx; done).
    eapply (simulate_goroutine _ (StartPing g)); [exact Hb| |exact Hx| |]; [done| |].
    + cbn [start_pc]. rewrite <- Hgor, Hg. reflexivity.
    + intros v' Hv. cbn [exec] in Hv. rewrite Hgor in Hg. rewrite Hg in Hv.
      apply (inj Some) in Hv. apply bind_Ok_inv in Hv as (o & Ho & Hv%Ok_inj). subst v'.
      by apply (ping_runs _ g l t now1 now2 now3 txTime).
  - cbn [exec] in Hx. case_decide as Ho; [|done]. destruct Ho.
    apply (inj Some), Ok_inj in Hx. subst w'. by apply simulate_gc.
Qed.

(** C4: every run of the atomic model is an interleaving: each world that System.v reaches,
    with its handlers in one step, is reached by a schedule of the statements, in a state
    where nobody holds the lock and the go statements that wait are those of the
    inserters that released it. *)
Theorem atomic_runs_are_interleavings w :
  reachable w ->
  exists s, l_reachable s /\ l_lock s = None /\
    w = mkWorld (w_heap (l_world s)) (w_table (l_world s)) (w_globalReplyWith (l_world s))
          (w_gor (l_world s)) (omap pending_of (l_threads s)) (w_sent (l_world s)).
Proof.
  assert (Hgen : forall u v, rtc step u v -> Inv u -> forall s, l_reachable s -> between u s ->
    exists s', l_reachable s' /\ between v s').
  { induction 1 as [|u v z [e He] _ IH]; intros HI s Hr Hb; [by exists s|].
    destruct (simulate_exec e u v s HI Hb He) as (s' & Hs & Hb').
    apply (IH (exec_inv _ _ _ HI He) s'); [unfold l_reachable in *; by etrans|done]. }
  intros Hr. destruct (Hgen empty_world w Hr inv_empty l_empty) as (s & Hs & Hl & _ & Hw);
    [by apply rtc_refl|by split|]. by exists s.
Qed.

(** Nobody writes the table while the lock is free. *)
Lemma free_not_writing s : l_reachable s -> l_lock s = None -> sh_writing (l_shared s) = false.
Proof.
  intros Hr Hl. destruct (l_reachable_lock s Hr) as [HL HW].
  destruct (sh_writing (l_shared s)) eqn:Hs; [|done].
  destruct (proj1 HW Hs) as (i & p & Hp & Hw).
  assert (Hi : l_lock s = Some i) by (apply HL; eauto using write_critical). congruence.
Qed.

(** The statements of goroutine [i] alone. *)
Lemma runs_at i ts p sh p' sh' :
  ts !! i = Some p -> runs i p sh p' sh' ->
  rtc lstep (mkLState sh ts) (mkLState sh' (<[i := p']> ts)).
Proof.
  intros Hi H. unfold runs in H. remember (p, sh) as x eqn:Hx. remember (p', sh') as y eqn:Hy.
  revert ts p sh Hx Hi. induction H as [x|x [p1 sh1] z [ch Hs] _ IH]; intros ts p sh Hx Hi; subst.
  - injection Hx as -> ->. by rewrite list_insert_id.
  - eapply rtc_l.
    + apply (lstep_exec _ _ (LStep i ch)). cbn [lexec l_threads l_shared]. rewrite Hi.
      cbn [fst snd] in Hs. rewrite Hs. reflexivity.
    + cbn [fst snd]. rewrite <- (list_insert_insert_eq ts i p' p1). apply (IH eq_refl _ p1 sh1 eq_refl).
      apply list_lookup_insert_eq. by eapply lookup_lt_Some.
Qed.

Lemma packet_start_ping timeRX buf from c rx :
  unmarshal_ping buf = Some rx -> p_Magic rx = magic -> p_Type rx = type_ping ->
  packet_start timeRX buf from c = PacketLookup timeRX rx from c.
Proof.
  intros Hu Hm Ht. unfold packet_start. rewrite Hu, Hm, Ht.
  by rewrite !decide_False by (try done; by intros H; apply H).
Qed.

(** The collector may remove a session that has just been heard: a ping that is handled
    between the test of a session and its removal is recorded in the session object,
    and the session is removed all the same. *)
Lemma collected_despite_fresh_ping s i seen id l ses timeRX buf (from : UDPAddr) rx :
  l_reachable s -> l_threads s !! i = Some (GCDelete seen id) ->
  is_Some (w_globalReplyWith (l_world s)) ->
  w_table (l_world s) !! id = Some l -> w_heap (l_world s) !! l = Some ses ->
  UDPActivated ses = true -> nextAckSlot ses < 32 ->
  unmarshal_ping buf = Some rx -> p_Magic rx = magic -> p_Type rx = type_ping ->
  p_Session rx = id ->
  exists s' ses', rtc lstep s s' /\ w_heap (l_world s') !! l = Some ses' /\
    LastRX ses' = timeRX /\ w_table (l_world s') !! id = None.
Proof.
  intros Hr Hi [c Hc] Hl Hs Hu Hslot Hb Hm Ht Hid. pose proof (l_reachable_inv s Hr) as HL.
  pose proof (wi_heap _ (linv_world _ HL) _ _ Hs) as Hf.
  assert (Hwr : sh_writing (l_shared s) = false) by (by eapply critical_not_writing).
  destruct s as [sh ts]. unfold l_world in *. simpl in *.
  set (ses' := record_ping timeRX rx from c (getNextAckSlot (nextAckSlot ses)) ses).
  set (v' := set_session l ses' (sh_world sh)). set (sh1 := with_world v' sh).
  exists (mkLState (with_writing false (with_world (set_table (delete id (w_table v')) v') sh1))
            (<[i := GCRange seen]> (ts ++ [Returned]))), ses'.
  split_and!; [|simpl; by rewrite lookup_insert_eq|done|simpl; by rewrite lookup_delete_eq].
  etrans; [|apply (runs_at i _ (GCDelete seen id) sh1)].
  - eapply rtc_l; [apply (lstep_start (StartPacket buf from)); cbn [start_pc]; by unfold l_world; simpl; rewrite Hc|].
    unfold l_world. cbn [l_shared l_threads]. rewrite with_world_same. apply runs_last.
    apply (runs_step _ (clock_right timeRX) _ _ (PacketLookup timeRX rx from c) sh).
    { tstep_simpl. unfold clock_right. destruct (clock_right_reads timeRX) as [clk ->]. rewrite bind_Ok.
      by rewrite (packet_start_ping timeRX buf from c rx). }
    apply (runs_step _ Go _ _ (PacketTest (mkPacketJob timeRX rx from c l)) sh).
    { tstep_simpl. unfold map_read. by rewrite Hwr, bind_Ok, Hid, Hl. }
    apply (record_runs _ (mkPacketJob timeRX rx from c l) sh ses); [done|apply Hf|split; [apply Hf|done]|done].
  - by apply lookup_app_l_Some.
  - apply (runs_step _ Go _ _ (GCWrite seen id) (with_writing true sh1)).
    { tstep_simpl. unfold begin_write. simpl. by rewrite Hwr. }
    eapply (runs_step _ Go); [reflexivity|]. apply runs_refl.
Qed.

(** C12: a session that is gone is started again: when the session that [startSession] watches
    is no longer in the table, its goroutine alone, once the lock is free, comes to dial
    the peer, and if the peer answers with a number, a session of that number with that
    peer is in the table and its waiter has been started. *)
Theorem lost_session_restarted s i ip id n made :
  l_reachable s -> l_lock s = None -> l_threads s !! i = Some (MonSleep ip id) ->
  w_table (l_world s) !! id = None -> is_u32 n ->
  exists s' l, rtc lstep s s' /\ l_lock s' = None /\ l_threads s' !! i = Some (MonSleep ip n) /\
    w_table (l_world s') !! n = Some l /\
    w_heap (l_world s') !! l = Some (client_session n ip made) /\
    Waiter SendUDPHandshake l WStarting ∈ w_gor (l_world s').
Proof.
  intros Hr Hlock Hi Hid Hn. pose proof (free_not_writing s Hr Hlock) as Hwr. clear Hr.
  destruct s as [[w m k b] ts]. unfold l_lock, l_world in *. simpl in *. subst k b.
  set (l := fresh (dom (w_heap w))).
  set (w1 := store_session n (client_session n ip made) w).
  set (w2 := set_gor (w_gor w1 ++ [Waiter SendUDPHandshake l WStarting]) w1).
  assert (Hgo : go_waiter SendUDPHandshake n w1 = Ok w2)
    by (unfold go_waiter, w1; simpl; by rewrite lookup_insert_eq).
  exists (mkLState (mkShared w2 m None false) (<[i := MonSleep ip n]> ts)), l. split_and!.
  - apply (runs_at i ts _ _ _ _ Hi).
    do 2 (eapply (runs_step _ Go); [reflexivity|]).
    apply (runs_step _ Go _ _ (MonUnlock ip false id) (mkShared w m (Some i) false)).
    { tstep_simpl. unfold map_read. cbn [with_lock sh_world sh_writing]. by rewrite Hid. }
    eapply (runs_step _ Go); [reflexivity|].
    eapply (runs_step _ (Attempt true banner true (sprint_uint32 n) made)).
    { tstep_simpl. rewrite negotiate_ok by done. reflexivity. }
    eapply runs_trans; [apply (insert_runs i (ByClient ip made) n w m)|].
    eapply (runs_step _ Go); [|apply runs_refl]. tstep_simpl. unfold map_read.
    cbn [sh_world sh_writing kind_of session_of after_go]. fold w1.
    by rewrite bind_Ok, Hgo.
  - done.
  - simpl. apply list_lookup_insert_eq. by eapply lookup_lt_Some.
  - simpl. by rewrite lookup_insert_eq.
  - simpl. by rewrite lookup_insert_eq.
  - simpl. apply elem_of_app. right. apply elem_of_cons. by left.
Qed.
End Theorems.

(** ** Concrete schedules *)

Lemma atomic_runs_are_interleavings_witness :
  exists s, l_reachable s /\ l_lock s = None /\
    example_world = mkWorld (w_heap (l_world s)) (w_table (l_world s))
      (w_globalReplyWith (l_world s)) (w_gor (l_world s)) (omap pending_of (l_threads s))
      (w_sent (l_world s)).
Proof. exact (atomic_runs_are_interleavings example_world example_reachable). Defined.

Lemma collected_despite_fresh_ping_witness :
  exists s' ses', rtc lstep (l_state collecting) s' /\
    w_heap (l_world s') !! 1%positive = Some ses' /\
    LastRX ses' = a_moment 2 /\ w_table (l_world s') !! 7 = None.
Proof.
  destruct (w_heap (l_world (l_state collecting)) !! 1%positive) as [ses|] eqn:Hs;
    [|vm_compute in Hs; discriminate Hs].
  apply (collected_despite_fresh_ping (l_state collecting) 2 [7] 7 1%positive ses (a_moment 2)
    (ping_of 7 2) peer example_ping collecting_reachable).
  - vm_compute. reflexivity.
  - vm_compute. by eexists.
  - vm_compute. reflexivity.
  - exact Hs.
  - assert (H : match w_heap (l_world (l_state collecting)) !! 1%positive with
      | Some v => UDPActivated v | None => false end = true) by (vm_compute; reflexivity).
    by rewrite Hs in H.
  - assert (H : match w_heap (l_world (l_state collecting)) !! 1%positive with
      | Some v => nextAckSlot v <? 32 | None => false end = true) by (vm_compute; reflexivity).
    rewrite Hs in H. by apply Z.ltb_lt.
  - vm_compute. reflexivity.
  - reflexivity.
  - reflexivity.
  - reflexivity.
Defined.

(** A session was started with a peer and collected before its handshake. *)
Definition client_collected : list levent :=
  [LWorld (EListen 0%nat); LStart (StartPeer [10; 0; 0; 2]);
   LStep 0 (Attempt true banner true (sprint_uint32 9) (a_moment 0));
   LStep 0 Go; LStep 0 Go; LStep 0 Go; LStep 0 Go; LStep 0 Go;
   LStart StartCollector; LStep 1 Go; LStep 1 Go; LStep 1 (Key 9);
   LStep 1 (Reading (a_moment 1)); LStep 1 Go; LStep 1 Go; LStep 1 EndRange; LStep 1 Go].

Lemma lost_session_restarted_witness :
  exists s' l, rtc lstep (l_state client_collected) s' /\ l_lock s' = None /\
    l_threads s' !! 0%nat = Some (MonSleep [10; 0; 0; 2] 11) /\
    w_table (l_world s') !! 11 = Some l /\
    w_heap (l_world s') !! l = Some (client_session 11 [10; 0; 0; 2] (a_moment 13)) /\
    Waiter SendUDPHandshake l WStarting ∈ w_gor (l_world s').
Proof.
  apply (lost_session_restarted (l_state client_collected) 0 [10; 0; 0; 2] 9 11 (a_moment 13)).
  - apply l_state_reachable. vm_compute. by eexists.
  - vm_compute. reflexivity.
  - vm_compute. reflexivity.
  - vm_compute. reflexivity.
  - unfold is_u32. lia.
Defined.
