(* ===== verification/Cadence.v ===== *)
(** * When a session sends (main.go: sendPackets with its wait for the second)

    The loop of [sendPackets] reads the clock, sleeps until the next whole second of the
    corrected clock, and sends a ping whose time stamp is corrected and whose identifier
    is not. A sleep may end late but not early, the clock does not go back during the
    loop, and no calibration lowers the offset: from this follows how often a session
    sends, and what the order of the identifiers is. *)

From Stdlib Require Import Sorted.
From S2P Require Import Prelude Bytes GoTime Acks Session PlainCodec Handshake System Ntp Clock.
Local Open Scope Z_scope.

(** ** The readings of one iteration *)

(** In the order of the code: [time.Now] and the offset for [a := timeNowCorrected().Unix()],
    [timeOffset] and [time.Now] for [time.Until], when the sleep has ended, [time.Now] for
    [s.CurrentID], and [time.Now] and the offset for [TXTime]. The offset is a global that
    any goroutine may calibrate again between two of them. *)
Record iteration := mkIteration {
  it_read : Time;
  it_offset : Z;
  it_timeOffset : Z;
  it_until : Time;
  it_woken : Time;
  it_id : Time;
  it_tx : Time;
  it_tx_offset : Z;
}.

(** [a] is in this second, the loop waits for the next one. *)
Definition it_corrected (it : iteration) : Time := TimeAdd (it_read it) (it_offset it).
Definition it_second (it : iteration) : Z := Unix (it_corrected it) + 1.

(** The time stamp, the identifier and the second it is taken from. *)
Definition it_TXTime (it : iteration) : Time := TimeAdd (it_tx it) (it_tx_offset it).
Definition it_id_second (it : iteration) : Z := Unix (it_id it).
Definition it_ID (it : iteration) : Z := ping_id (it_id_second it).

(** [u := time.Until(time.Unix(a+1, 0).Add(timeOffset * -1))] *)
Definition it_sleep (it : iteration) : Z :=
  sleep_time (it_corrected it) (it_until it) (it_timeOffset it).

(** The system clock during an iteration: the readings are ordered, and the sleep lasts at
    least as long as asked. *)
Record timed (it : iteration) : Prop := {
  timed_eras : in_era (it_until it) /\ in_era (next_second (it_corrected it) (it_timeOffset it));
  timed_until : wall (it_read it) <= wall (it_until it);
  timed_sleep : wall (it_until it) + Z.max 0 (it_sleep it) <= wall (it_woken it);
  timed_id : wall (it_woken it) <= wall (it_id it);
  timed_tx : wall (it_id it) <= wall (it_tx it);
}.

(** Successive iterations: the next one starts after the send of the last. *)
Inductive loop_timed : list iteration -> Prop :=
  | loop_nil : loop_timed []
  | loop_one it : timed it -> loop_timed [it]
  | loop_cons it it' its :
      timed it -> wall (it_tx it) <= wall (it_read it') ->
      loop_timed (it' :: its) -> loop_timed (it :: it' :: its).

(** No calibration during the loop lowers the offset: what the iterations read of it, in
    their order, does not decrease. A clock that is not calibrated again is one case. *)
Definition offsets_read (its : list iteration) : list Z :=
  flat_map (fun it => [it_offset it; it_timeOffset it; it_tx_offset it]) its.
Definition never_lowered (its : list iteration) : Prop := StronglySorted Z.le (offsets_read its).

(** ** The loop *)

Section Loop.
Context {C : Codec}.

(** An iteration of [sendPackets] at these readings, for session [l]. *)
Definition send_iteration (timeStarted : Time) (it : iteration) (l : loc)
    (w : world) : result fatal_error (option world) :=
  sendPackets_iter timeStarted (it_woken it) (it_woken it) (it_id it) (Ok (it_TXTime it)) l w.

(** The ping an iteration sends, when the session goes on and has heard from its peer. *)
Lemma send_iteration_ping timeStarted it l w w' s :
  w_heap w !! l = Some s -> send_iteration timeStarted it l w = Ok (Some w') ->
  is_Some (ReplyTo s) ->
  exists b d, marshal_ping (ping_packet (it_TXTime it) (set_current (it_ID it) s)) = Some b /\
    w_sent w' = d :: w_sent w /\ d_buf d = b /\ d_loc d = l /\ d_kind d = SPing.
Proof.
  intros Hl. unfold send_iteration, sendPackets_iter. rewrite Hl. case_decide; [done|].
  rewrite bind_Ok. fold (it_id_second it). fold (it_ID it).
  destruct (marshal_ping _) as [b|]; [|done]. intros Hw [to Hto]. simpl in Hw.
  rewrite Hto in Hw. destruct (ReplyWith s) as [c|]; [|done].
  apply Ok_inj in Hw. injection Hw as <-. eexists b, _. by split_and!.
Qed.
End Loop.

(** ** Lemmas *)

(** The corrected clock has reached the second of the iteration when the sleep ends. *)
Lemma woken_second it :
  timed it -> it_second it * Second - it_timeOffset it <= wall (it_woken it).
Proof.
  intros [[He1 He2] _ Hs _ _]. unfold it_sleep in Hs. rewrite sleep_exact in Hs by done.
  unfold it_second. lia.
Qed.

Lemma tx_second it :
  timed it -> it_timeOffset it <= it_tx_offset it -> it_second it <= Unix (it_TXTime it).
Proof.
  intros Ht Ho. pose proof (woken_second it Ht) as Hw. destruct Ht as [_ _ _ Hi Hx].
  pose proof (Unix_bounds (it_TXTime it)) as Hb. cbn [wall it_TXTime TimeAdd] in Hb.
  unfold Second in *. lia.
Qed.

(** The next iteration waits for a later second than any this one has seen. *)
Lemma next_iteration_second it it' :
  wall (it_tx it) <= wall (it_read it') -> it_tx_offset it <= it_offset it' ->
  Unix (it_TXTime it) < it_second it'.
Proof.
  intros H Ho. unfold it_second, it_corrected, it_TXTime, Unix. cbn [wall TimeAdd].
  assert ((wall (it_tx it) + it_tx_offset it) / Second
    <= (wall (it_read it') + it_offset it') / Second); [|lia].
  apply Z.div_le_mono; unfold Second; lia.
Qed.

Lemma loop_timed_inv it its :
  loop_timed (it :: its) ->
  timed it /\ loop_timed its /\
  Forall (fun it' => wall (it_tx it) <= wall (it_read it')) its.
Proof.
  revert it. induction its as [|it' its IH]; intros it H.
  - inversion H; subst. split_and!; [done|constructor|constructor].
  - inversion H as [| |? ? ? Ht Hle Hl]; subst. split_and!; [done|done|].
    destruct (IH it' Hl) as (Ht' & _ & Hall). constructor; [done|].
    eapply Forall_impl; [exact Hall|]. intros x Hx. cbn beta in *.
    destruct Ht' as [_ H1 H2 H3 H4]. lia.
Qed.

Lemma loop_timed_elem it its : loop_timed its -> it ∈ its -> timed it.
Proof.
  induction its as [|x its IH]; intros Hl Hin; [by apply elem_of_nil in Hin|].
  apply loop_timed_inv in Hl as (Hx & Hl & _).
  apply elem_of_cons in Hin as [-> |Hin]; [done|]. by apply IH.
Qed.

Lemma never_lowered_inv it its :
  never_lowered (it :: its) ->
  it_timeOffset it <= it_tx_offset it /\ never_lowered its /\
  Forall (fun it' => it_tx_offset it <= it_offset it') its.
Proof.
  unfold never_lowered. simpl. intros H. inversion H as [|? ? H1 _]; subst.
  inversion H1 as [|? ? H2 Hb]; subst. inversion H2 as [|? ? H3 Hc]; subst.
  apply Forall_cons in Hb as [Hb _]. split_and!; [done|done|].
  apply Forall_forall. intros x Hx. rewrite Forall_forall in Hc. apply Hc.
  apply list_elem_of_In, in_flat_map. exists x. split; [by apply list_elem_of_In|by left].
Qed.

Lemma never_lowered_elem it its :
  never_lowered its -> it ∈ its -> it_timeOffset it <= it_tx_offset it.
Proof.
  induction its as [|x its IH]; intros Hl Hin; [by apply elem_of_nil in Hin|].
  apply never_lowered_inv in Hl as (Hx & Hl & _).
  apply elem_of_cons in Hin as [-> |Hin]; [done|]. by apply IH.
Qed.

(** A value that grows strictly from each iteration to every later one. *)
Lemma loop_sorted (f : iteration -> Z) its :
  loop_timed its -> never_lowered its ->
  (forall it it', it ∈ its -> it' ∈ its -> Unix (it_TXTime it) < it_second it' -> f it < f it') ->
  StronglySorted Z.lt (map f its).
Proof.
  induction its as [|it its IH]; intros Hl Ho Hf; [constructor|].
  apply loop_timed_inv in Hl as (_ & Hl & Hall). apply never_lowered_inv in Ho as (_ & Ho & Hoff).
  constructor.
  - apply IH; [done|done|]. intros x y Hx Hy. apply Hf; apply elem_of_cons; by right.
  - apply List.Forall_map, Forall_forall. intros y Hy. rewrite Forall_forall in Hall, Hoff.
    apply Hf; [apply elem_of_cons; by left|apply elem_of_cons; by right|].
    apply next_iteration_second; auto.
Qed.

Lemma sorted_bounds (l : list Z) lo hi :
  StronglySorted Z.lt l -> Forall (fun x => lo <= x < hi) l ->
  Z.of_nat (length l) <= Z.max 0 (hi - lo).
Proof.
  intros Hs. revert lo. induction Hs as [|x l Hs IH Hx]; intros lo Hf; simpl; [lia|].
  apply Forall_cons in Hf as [Hxb Hf].
  assert (Hl : Z.of_nat (length l) <= Z.max 0 (hi - (x + 1))); [|lia].
  apply IH. apply Forall_forall. intros y Hy. rewrite Forall_forall in Hf, Hx.
  specialize (Hf y Hy). specialize (Hx y Hy). lia.
Qed.

Lemma sublist_Forall {A} (P : A -> Prop) l k : l `sublist_of` k -> Forall P k -> Forall P l.
Proof.
  induction 1 as [|x l k Hs IH|x l k Hs IH]; intros H; [done| |];
    apply Forall_cons in H as [Hx H]; [constructor; [done|by apply IH]|by apply IH].
Qed.

Lemma sublist_sorted {A} (R : A -> A -> Prop) l k :
  l `sublist_of` k -> StronglySorted R k -> StronglySorted R l.
Proof.
  induction 1 as [|x l k Hs IH|x l k Hs IH]; intros H; [constructor| |];
    inversion H as [|? ? Hk Hx]; subst; [|by apply IH].
  constructor; [by apply IH|]. by eapply sublist_Forall.
Qed.

Lemma filter_sublist {A} (P : A -> Prop) `{!forall x, Decision (P x)} (l : list A) :
  filter P l `sublist_of` l.
Proof.
  induction l as [|x l IH]; [done|]. rewrite filter_cons.
  case_decide; [by apply sublist_skip|by apply sublist_cons].
Qed.

Lemma map_eq_Forall2 {A B D} (f : A -> D) (g : B -> D) l k :
  map f l = map g k -> Forall2 (fun b a => f a = g b) k l.
Proof.
  revert k. induction l as [|x l IH]; intros [|y k] H; try discriminate H; [constructor|].
  injection H as Hx H. constructor; [done|by apply IH].
Qed.

(** ** Properties *)

(** C19: a session sends at most one ping per second of the corrected clock, as long as no
    calibration lowers the offset: the seconds the iterations wait for, and the seconds of
    the time stamps they send, are strictly increasing, each stamp being taken in or after
    the second waited for; so at most [hi - lo] pings carry a stamp of the seconds from
    [lo] to [hi]. *)
Theorem at_most_one_ping_per_second its lo hi :
  loop_timed its -> never_lowered its ->
  StronglySorted Z.lt (map it_second its) /\
  StronglySorted Z.lt (map (fun it => Unix (it_TXTime it)) its) /\
  Forall (fun it => it_second it <= Unix (it_TXTime it)) its /\
  Z.of_nat (length (filter (fun it => lo <= Unix (it_TXTime it) < hi) its))
    <= Z.max 0 (hi - lo).
Proof.
  intros H Ho.
  assert (Hin : forall it, it ∈ its -> it_second it <= Unix (it_TXTime it)).
  { intros it Hit. apply tx_second; [by eapply loop_timed_elem|by eapply never_lowered_elem]. }
  assert (Htx : StronglySorted Z.lt (map (fun it => Unix (it_TXTime it)) its)).
  { apply loop_sorted; [done|done|]. intros it it' Hit Hit'. specialize (Hin it' Hit'). lia. }
  split_and!; [|done|by apply Forall_forall|].
  - apply loop_sorted; [done|done|]. intros it it' Hit Hit'. specialize (Hin it Hit). lia.
  - rewrite <- (length_map (fun it => Unix (it_TXTime it))). apply (sorted_bounds _ lo hi).
    + eapply sublist_sorted; [|exact Htx].
      apply (fmap_sublist (fun it => Unix (it_TXTime it))), filter_sublist.
    + apply List.Forall_map, Forall_forall. intros y Hy. by apply list_elem_of_filter in Hy as [? _].
Qed.

(** *** Two loops and what the network does to their pings *)

(** Every iteration takes its identifier at the same distance [k] of seconds from the second
    it waits for: with [k = 0], what a small offset and a sleep of less than a second too
    long give. *)
Definition prompt (k : Z) (it : iteration) : Prop := it_id_second it = it_second it + k.

(** What a receiver has heard of a loop: the identifiers [ps] of the pings that arrived,
    a part [delivered] of those [sent], in their order. *)
Record heard_of_loop (u : Z) (sent delivered : list iteration) (ps : list pingInfo) : Prop := {
  hl_timed : loop_timed sent;
  hl_offsets : never_lowered sent;
  hl_prompt : exists k, Forall (prompt k) sent;
  hl_sub : delivered `sublist_of` sent;
  hl_ids : map pi_ID ps = map it_ID delivered;
  hl_enough : (32 <= length delivered)%nat;
  hl_recent : Forall (fun it => u - 224 < it_id_second it <= u)
                (drop (length delivered - 32) delivered);
  hl_era : Forall (fun it => 0 <= it_id_second it) delivered;
}.

(** The seconds that [getLoss] looks at when it runs in second [u], and the pings of these
    seconds. *)
Definition in_window (u : Z) (s : Z) : Prop := u - Z.of_nat (window_len (ping_id u)) <= s < u.
#[export] Instance in_window_dec u s : Decision (in_window u s).
Proof. unfold in_window. apply _. Defined.

Definition pings_in_window (u : Z) (its : list iteration) : Z :=
  Z.of_nat (length (filter (in_window u) (map it_id_second its))).

(** The pings of the window that were sent and not delivered, and the seconds of it in which
    the loop sent nothing. *)
Definition undelivered (u : Z) (sent delivered : list iteration) : Z :=
  pings_in_window u sent - pings_in_window u delivered.
Definition idle_seconds (u : Z) (sent : list iteration) : Z :=
  lost_seconds u (window_len (ping_id u)) (map it_id_second sent).

Lemma sorted_NoDup (l : list Z) : StronglySorted Z.lt l -> NoDup l.
Proof.
  induction 1 as [|x l Hs IH Hx]; constructor; [|done]. intros Hin.
  rewrite Forall_forall in Hx. specialize (Hx x Hin). lia.
Qed.

Lemma filter_not_length {A} (P : A -> Prop) `{!forall x, Decision (P x)} (l : list A) :
  (length (filter (fun x => ~ P x) l) + length (filter P l) = length l)%nat.
Proof.
  induction l as [|x l IH]; [done|]. rewrite !filter_cons.
  destruct (decide (P x)), (decide (~ P x)); simpl; try lia; tauto.
Qed.

(** The seconds of a window are in the list or lost. *)
Lemma lost_complement u ss :
  NoDup ss ->
  lost_seconds u (window_len (ping_id u)) ss + Z.of_nat (length (filter (in_window u) ss))
    = Z.of_nat (window_len (ping_id u)).
Proof.
  intros Hnd. unfold lost_seconds. set (n := window_len (ping_id u)).
  pose proof (filter_not_length (fun k => (u - Z.of_nat k)%Z ∈ ss) (seq 1 n)) as Hl.
  rewrite length_seq in Hl.
  assert (Hp : map (fun k => u - Z.of_nat k) (filter (fun k => (u - Z.of_nat k)%Z ∈ ss) (seq 1 n))
    ≡ₚ filter (in_window u) ss).
  { apply NoDup_Permutation.
    - apply (NoDup_fmap_2_strong (fun k => u - Z.of_nat k)); [intros x y _ _; lia|].
      apply NoDup_filter, NoDup_ListNoDup, seq_NoDup.
    - by apply NoDup_filter.
    - intros s. unfold in_window. fold n. rewrite list_elem_of_In, in_map_iff, list_elem_of_filter. split.
      + intros (k & <- & Hk). apply list_elem_of_In, list_elem_of_filter in Hk as [Hin Hk].
        apply list_elem_of_In, in_seq in Hk. split; [lia|done].
      + intros [Hs Hin]. exists (Z.to_nat (u - s)).
        assert (He : u - Z.of_nat (Z.to_nat (u - s)) = s) by lia. split; [done|].
        apply list_elem_of_In, list_elem_of_filter. rewrite He. split; [done|].
        apply list_elem_of_In, in_seq. lia. }
  apply Permutation_length in Hp. rewrite length_map in Hp. lia.
Qed.

Lemma loop_identifiers u sent delivered ps :
  heard_of_loop u sent delivered ps -> StronglySorted Z.lt (map it_id_second sent).
Proof.
  intros [Hl Ho [k Hp] _ _ _ _ _]. rewrite Forall_forall in Hp.
  apply loop_sorted; [done|done|]. intros it it' Hit Hit' Hlt.
  rewrite (Hp it Hit), (Hp it' Hit').
  pose proof (tx_second it (loop_timed_elem _ _ Hl Hit) (never_lowered_elem _ _ Ho Hit)). lia.
Qed.

Lemma heard_of_loop_heard u sent delivered ps :
  heard_of_loop u sent delivered ps -> heard u (map it_id_second delivered) ps.
Proof.
  intros H. pose proof (loop_identifiers _ _ _ _ H) as Hs.
  destruct H as [_ _ _ Hsub Hids Hlen Hrec Hera]. constructor.
  - unfold pings_of. apply map_eq_Forall2. by rewrite Hids, map_map.
  - eapply sublist_sorted; [|exact Hs]. by apply (fmap_sublist it_id_second).
  - by apply List.Forall_map.
  - by rewrite length_map.
  - rewrite length_map, skipn_map. by apply List.Forall_map.
Qed.

Lemma lost_of_loop u sent delivered ps :
  heard_of_loop u sent delivered ps ->
  lost_seconds u (window_len (ping_id u)) (map it_id_second delivered)
    = undelivered u sent delivered + idle_seconds u sent.
Proof.
  intros H. pose proof (loop_identifiers _ _ _ _ H) as Hs.
  assert (Hd : StronglySorted Z.lt (map it_id_second delivered)).
  { eapply sublist_sorted; [|exact Hs]. apply (fmap_sublist it_id_second), (hl_sub _ _ _ _ H). }
  pose proof (lost_complement u _ (sorted_NoDup _ Hs)) as H1.
  pose proof (lost_complement u _ (sorted_NoDup _ Hd)) as H2.
  unfold undelivered, idle_seconds, pings_in_window. lia.
Qed.


(** An iteration at wall clock readings and an offset; the two readings before the sleep are
    the same, and so are the three after it. *)
Definition iteration_at (o read woken : Z) : iteration :=
  mkIteration (mkTime read None) o o (mkTime read None) (mkTime woken None) (mkTime woken None)
    (mkTime woken None) o.

Lemma timed_iteration_at o read woken :
  0 <= read < 7000000000 * Second -> - Second <= o <= Second -> Second <= read ->
  ((read + o) / Second + 1) * Second - o <= woken -> timed (iteration_at o read woken).
Proof.
  intros Hr Ho Hr1 Hw. unfold Second in *.
  assert (Hread : read < ((read + o) / 1000000000 + 1) * 1000000000 - o) by zdiv.
  assert (Hera : in_era (mkTime read None)) by (unfold in_era, Second; simpl; lia).
  assert (Hnext : in_era (next_second (TimeAdd (mkTime read None) o) o)).
  { unfold in_era, next_second, time_Unix, Unix, Second. cbn [wall TimeAdd].
    Z.div_mod_to_equations. lia. }
  constructor; cbn [it_read it_until it_woken it_id it_tx iteration_at wall]; try lia; [by split|].
  unfold it_sleep. cbn [it_timeOffset it_until iteration_at]. unfold it_corrected.
  cbn [it_read it_offset iteration_at].
  rewrite sleep_exact by done. unfold Unix, Second. cbn [wall TimeAdd]. lia.
Qed.

(** An offset that stays. *)
Lemma never_lowered_constant o its :
  Forall (fun it => it_offset it = o /\ it_timeOffset it = o /\ it_tx_offset it = o) its ->
  never_lowered its.
Proof.
  intros H.
  assert (Hall : Forall (eq o) (offsets_read its)).
  { induction H as [|it its (H1 & H2 & H3) _ IH]; [done|]. simpl. by repeat constructor. }
  unfold never_lowered. induction Hall as [|x l <- Hall IH]; constructor; [done|].
  eapply Forall_impl; [exact Hall|]. by intros ? <-.
Qed.

(** With an offset that is not 0 the identifiers can repeat, although every iteration
    sends within the corrected second it waits for: at any offset of less than a second
    there are two successive pings with different time stamps, a second apart, and the
    same identifier, since the identifier is taken from the uncorrected clock. *)
Lemma identifiers_repeat o :
  0 < o < Second ->
  exists it it', loop_timed [it; it'] /\ offsets_read [it; it'] = replicate 6 o /\
    Unix (it_TXTime it) = it_second it /\ Unix (it_TXTime it') = it_second it' /\
    it_second it' = it_second it + 1 /\ it_ID it = it_ID it'.
Proof.
  intros Ho. set (B := 1600000000 * Second).
  exists (iteration_at o (B - o - 1) B), (iteration_at o B (B + Second - o)).
  assert (H1 : (B - o - 1 + o) / Second = 1599999999) by (unfold B, Second in *; zdiv).
  assert (H2 : (B + o) / Second = 1600000000) by (unfold B, Second in *; zdiv).
  unfold it_ID, it_id_second, it_second, it_corrected, it_TXTime, Unix.
  cbn [it_read it_offset it_id it_tx it_tx_offset iteration_at wall TimeAdd].
  rewrite H1, H2. split_and!.
  - constructor; [|simpl; lia|constructor]; apply timed_iteration_at; rewrite ?H1, ?H2;
      unfold B, Second in *; lia.
  - done.
  - done.
  - unfold B, Second in *. zdiv.
  - done.
  - f_equal. unfold B, Second in *. zdiv.
Qed.

(** Three seconds of a loop with the offset that is set when no server answers and a
    calibration after the second ping. *)
Definition example_loop : list iteration :=
  [iteration_at 1 (1600000000 * Second + 250000000) (1600000001 * Second);
   iteration_at 1 (1600000001 * Second + 1000) (1600000002 * Second + 90000000);
   iteration_at 4000 (1600000002 * Second + 91000000) (1600000003 * Second + 5)].

Lemma example_loop_timed : loop_timed example_loop.
Proof.
  unfold example_loop.
  apply loop_cons; [| |apply loop_cons; [| |apply loop_one]];
    try (apply timed_iteration_at; vm_compute; by repeat split); by vm_compute.
Qed.

Lemma at_most_one_ping_per_second_witness :
  StronglySorted Z.lt (map it_second example_loop) /\
  StronglySorted Z.lt (map (fun it => Unix (it_TXTime it)) example_loop) /\
  Forall (fun it => it_second it <= Unix (it_TXTime it)) example_loop /\
  Z.of_nat (length (filter (fun it => 1600000001 <= Unix (it_TXTime it) < 1600000003) example_loop))
    <= Z.max 0 (1600000003 - 1600000001).
Proof.
  apply (at_most_one_ping_per_second example_loop); [exact example_loop_timed|].
  unfold never_lowered, offsets_read. simpl. repeat constructor; lia.
Defined.

(** A loop of 40 seconds from second 1600000001 at an offset of a nanosecond that is
    blocked in second 1600000025, and what was delivered of it: all but the pings of the
    seconds 1600000020 and 1600000030. *)
Definition second_iteration (s : Z) : iteration :=
  iteration_at 1 ((s - 1) * Second + 1000) (s * Second + 50).
Definition long_loop : list iteration :=
  map second_iteration (seqZ 1600000001 24 ++ seqZ 1600000026 15).
Definition delivered_part : list iteration :=
  map second_iteration
    (seqZ 1600000001 19 ++ seqZ 1600000021 4 ++ seqZ 1600000026 4 ++ seqZ 1600000031 10).
Definition received_part : list pingInfo :=
  map (fun it => mkPingInfo (it_ID it) (it_TXTime it) (it_TXTime it)) delivered_part.

(** A decision procedure for the timing of a loop. *)
Definition timedb (it : iteration) : bool :=
  bool_decide ((0 <= wall (it_until it) < 7258118400 * Second) /\
    (0 <= wall (next_second (it_corrected it) (it_timeOffset it)) < 7258118400 * Second) /\
    wall (it_read it) <= wall (it_until it) /\
    wall (it_until it) + Z.max 0 (it_sleep it) <= wall (it_woken it) /\
    wall (it_woken it) <= wall (it_id it) /\ wall (it_id it) <= wall (it_tx it)).

Fixpoint loop_timedb (its : list iteration) : bool :=
  match its with
  | [] => true
  | it :: its =>
      timedb it && match its with
                   | [] => true
                   | it' :: _ => bool_decide (wall (it_tx it) <= wall (it_read it'))
                   end && loop_timedb its
  end.

Lemma loop_timedb_sound its : loop_timedb its = true -> loop_timed its.
Proof.
  assert (Ht : forall it, timedb it = true -> timed it).
  { intros it H%bool_decide_eq_true. destruct H as (? & ? & ? & ? & ? & ?). by constructor. }
  induction its as [|it its IH]; intros H; [constructor|]. cbn [loop_timedb] in H.
  apply andb_prop in H as [[H1 H2]%andb_prop H3]. destruct its as [|it' its].
  - apply loop_one. by apply Ht.
  - constructor; [by apply Ht| |by apply IH]. by apply bool_decide_eq_true in H2.
Qed.

Lemma heard_example_loop : heard_of_loop 1600000041 long_loop delivered_part received_part.
Proof.
  constructor.
  - apply loop_timedb_sound. vm_compute. reflexivity.
  - apply (never_lowered_constant 1). apply Forall_forall. intros it Hit.
    by apply list_elem_of_In, in_map_iff in Hit as (s & <- & _).
  - exists 0. unfold prompt. apply (bool_decide_unpack _). vm_compute. exact I.
  - unfold delivered_part, long_loop. apply (fmap_sublist second_iteration).
    change (seqZ 1600000001 24) with (seqZ 1600000001 19 ++ [1600000020] ++ seqZ 1600000021 4).
    change (seqZ 1600000026 15) with (seqZ 1600000026 4 ++ [1600000030] ++ seqZ 1600000031 10).
    rewrite <- !app_assoc. apply sublist_app; [done|]. apply sublist_cons, sublist_app; [done|].
    apply sublist_app; [done|]. by apply sublist_cons.
  - unfold received_part. by rewrite map_map.
  - apply (bool_decide_unpack _). vm_compute. exact I.
  - apply (bool_decide_unpack _). vm_compute. exact I.
  - apply (bool_decide_unpack _). vm_compute. exact I.
Qed.

