(* ===== verification/Pps.v ===== *)
(** * The pulse-per-second source (pps.go, pps_linux.go, pps_other.go)

    With the flag -use.pps the loops wait for a pulse of a device instead of sleeping. The
    device is a file on which three ioctls are made; the kernel's answers are arguments,
    and the ioctls made and the failures printed are a log. *)

From S2P Require Import Prelude Bytes GoTime Session.
Local Open Scope Z_scope.

(** ** Data *)

(** The structures of the ioctls, as far as the code sets or reads them. *)
Record PPSKTime := mkPPSKTime { pt_Sec : Z; pt_Nsec : Z; pt_Flags : Z }.
Record PPSKParams := mkPPSKParams {
  pp_Api_version : Z;
  pp_Mode : Z;
  pp_Assert_off_tu : PPSKTime;
  pp_Clear_off_tu : PPSKTime;
}.

Definition zeroPPSKTime : PPSKTime := mkPPSKTime 0 0 0.
Definition zeroParams : PPSKParams := mkPPSKParams 0 0 zeroPPSKTime zeroPPSKTime.

(** The ioctls, and the line that is printed when a fetch fails. *)
Inductive pps_event :=
  | PPS_GETPARAMS (fd : Z)
  | PPS_SETPARAMS (fd : Z) (p : PPSKParams)
  | PPS_FETCH (fd : Z) (timeout : PPSKTime)
  | PulseFailed (errno fd : Z).

(** [ppsFD] and [ppsFile], and what has been done so far, the newest first. *)
Record pps_state := mkPps {
  ppsFD : option Z;
  ppsFile : option Z;
  pps_log : list pps_event;
}.

Definition initial_pps : pps_state := mkPps None None [].

(** The build tags select pps_linux.go or pps_other.go. *)
Inductive platform := Linux | NotLinux.

(** What the system answers to [setupPPS]: the descriptor of the device or an error; the
    parameters the structure holds after PPS_GETPARAMS, whose error is not looked at; and
    the error number of PPS_SETPARAMS. *)
Record setup_answers := mkSetup {
  sa_open : option Z;
  sa_params : PPSKParams;
  sa_errno : Z;
}.

(** What PPS_FETCH returns: its error number, and the time of the last assert event that the
    structure holds after the call. *)
Record fetch_answer := mkFetch { fa_errno : Z; fa_assert : PPSKTime }.

(** ** Operations *)

Definition PPS_CAPTUREASSERT : Z := 1.
Definition PPS_OFFSETASSERT : Z := 16.

(** The parameters the code sets in the structure it has read. *)
Definition setup_params (p : PPSKParams) : PPSKParams :=
  mkPPSKParams (pp_Api_version p) (Z.lor PPS_CAPTUREASSERT PPS_OFFSETASSERT)
    (mkPPSKTime 0 0 (pt_Flags (pp_Assert_off_tu p))) (pp_Clear_off_tu p).

(** pps_other.go: both functions end the process. *)
Definition setupPPS_other : result fatal_error pps_state := Err Fatal.
Definition waitForPPSPulse_other : result fatal_error (Time * pps_state) := Err Fatal.

(** [func setupPPS()] *)
Definition setupPPS (plat : platform) (a : setup_answers) (st : pps_state)
    : result fatal_error pps_state :=
  match plat with
  | NotLinux => setupPPS_other
  | Linux =>
      match sa_open a with
      | None => Err Fatal
      | Some FD =>
          let PP := setup_params (sa_params a) in
          let st := mkPps (Some FD) (Some FD) (PPS_SETPARAMS FD PP :: PPS_GETPARAMS FD :: pps_log st) in
          if decide (sa_errno a <> 0) then Err Fatal else Ok st
      end
  end.

(** The fetch and the test of its error, which is printed. *)
Definition fetch_events (FD : Z) (f : fetch_answer) : list pps_event :=
  (if decide (fa_errno f <> 0) then [PulseFailed (fa_errno f) FD] else []) ++
  [PPS_FETCH FD (mkPPSKTime 3 0 0)].

(** [func waitForPPSPulse() time.Time]: on the other platforms it ends the process. *)
Definition waitForPPSPulse (plat : platform) (a : setup_answers) (f : fetch_answer)
    (st : pps_state) : result fatal_error (Time * pps_state) :=
  match plat with
  | NotLinux => waitForPPSPulse_other
  | Linux =>
      st ← match ppsFD st with None => setupPPS plat a st | Some _ => Ok st end;
      match ppsFD st with
      | None => Panic
      | Some FD =>
          Ok (time_Unix (pt_Sec (fa_assert f)) (pt_Nsec (fa_assert f)),
              mkPps (ppsFD st) (ppsFile st) (fetch_events FD f ++ pps_log st))
      end
  end.

(** ** Properties *)

(** Once the device is open, no wait opens it again or makes any ioctl but the fetch. *)
Lemma wait_open plat a f st fd :
  plat = Linux -> ppsFD st = Some fd ->
  waitForPPSPulse plat a f st
    = Ok (time_Unix (pt_Sec (fa_assert f)) (pt_Nsec (fa_assert f)),
          mkPps (Some fd) (ppsFile st) (fetch_events fd f ++ pps_log st)).
Proof. intros -> Hf. unfold waitForPPSPulse. rewrite Hf, bind_Ok. cbn beta. by rewrite Hf. Qed.

(** The device is set up once and for assert events: the first wait opens it, or uses
    what is open, and sets exactly the mode bits for capturing assert events with an
    offset of 0, the other parameters as the device had them; each wait makes one fetch
    with a timeout of three seconds, prints a failure, and returns the second of the event
    when there was one. An open that fails, a refused mode and any other platform end the process. *)
Lemma pps_setup_and_wait a f st :
  waitForPPSPulse NotLinux a f st = Err Fatal /\
  (ppsFD st = None ->
     waitForPPSPulse Linux a f st =
       match sa_open a with
       | Some fd =>
           if decide (sa_errno a = 0) then
             Ok (time_Unix (pt_Sec (fa_assert f)) (pt_Nsec (fa_assert f)),
                 mkPps (Some fd) (Some fd)
                   (fetch_events fd f
                    ++ PPS_SETPARAMS fd (mkPPSKParams (pp_Api_version (sa_params a)) 17
                         (mkPPSKTime 0 0 (pt_Flags (pp_Assert_off_tu (sa_params a))))
                         (pp_Clear_off_tu (sa_params a)))
                    :: PPS_GETPARAMS fd :: pps_log st))
           else Err Fatal
       | None => Err Fatal
       end) /\
  (forall fd, ppsFD st = Some fd ->
     exists t, waitForPPSPulse Linux a f st
       = Ok (t, mkPps (Some fd) (ppsFile st) (fetch_events fd f ++ pps_log st)) /\
       (0 <= pt_Nsec (fa_assert f) < Second -> Unix t = pt_Sec (fa_assert f))).
Proof.
  split_and!; [done| |].
  - intros Hn. unfold waitForPPSPulse, setupPPS. rewrite Hn.
    destruct (sa_open a) as [fd|]; [|done].
    destruct (decide (sa_errno a = 0)) as [He|He];
      [rewrite decide_False by (by intros H)|rewrite decide_True by done]; reflexivity.
  - intros fd Hf. eexists. split; [by apply wait_open|]. apply Unix_time.
Qed.

(** A fetch that fails is only printed: the wait returns, with whatever time the structure
    holds, as after a pulse. *)
Lemma failed_fetch_returns a e t st fd :
  e <> 0 -> ppsFD st = Some fd ->
  waitForPPSPulse Linux a (mkFetch e t) st
    = Ok (time_Unix (pt_Sec t) (pt_Nsec t),
          mkPps (Some fd) (ppsFile st)
            (PulseFailed e fd :: PPS_FETCH fd (mkPPSKTime 3 0 0) :: pps_log st)).
Proof.
  intros He Hf. rewrite (wait_open Linux a _ st fd) by done. unfold fetch_events.
  cbn [fa_errno fa_assert]. by rewrite decide_True.
Qed.

(** A device that answers. *)
Definition example_setup : setup_answers := mkSetup (Some 5) (mkPPSKParams 1 2 (mkPPSKTime 9 9 4) zeroPPSKTime) 0.

Lemma pps_setup_and_wait_witness :
  waitForPPSPulse Linux example_setup (mkFetch 0 (mkPPSKTime 1600000000 12 0)) initial_pps
    = Ok (time_Unix 1600000000 12,
          mkPps (Some 5) (Some 5)
            [PPS_FETCH 5 (mkPPSKTime 3 0 0);
             PPS_SETPARAMS 5 (mkPPSKParams 1 17 (mkPPSKTime 0 0 4) zeroPPSKTime);
             PPS_GETPARAMS 5]).
Proof.
  rewrite (proj1 (proj2 (pps_setup_and_wait example_setup (mkFetch 0 (mkPPSKTime 1600000000 12 0))
    initial_pps)) eq_refl). reflexivity.
Defined.
