(* ===== verification/Daemon.v ===== *)
(** * The start of the daemon and its receive loop (main.go: main, listenAndRoute;
    sessionhandle.go: newSessionID, the address startSession dials; prom.go:
    handlePrometheus)

    What [main] starts for given flags, what the receive loop does with what it reads,
    the random session numbers, and the routes and pages of the web server. *)

From Stdlib Require Import String.
From S2P Require Import Prelude Bytes GoTime Acks Iface Session PlainCodec Handshake IPText System Ntp.
From S2P Require Import Clock Prom Statements.
Local Open Scope Z_scope.

(** ** The flags and the goroutines *)

Record flags := mkFlags {
  udpPPSin : Z;
  peers : bytes;
  usePPS : bool;
  flagClockIsPerfect : bool;
}.

(** The go statements of [main]. *)
Inductive go_statement :=
  | GoListenOnTCP
  | GoListenAndRoute
  | GoStartSession (ip : bytes)
  | GoSessionGC
  | GoPpsClockTicker
  | GoSysClockTicker
  | GoHandlePrometheus.

#[export] Instance go_statement_eq_dec : EqDecision go_statement.
Proof. solve_decision. Defined.

Definition comma : Z := 44.

(** [strings.Split(s, sep)] for a separator of one byte. *)
Fixpoint Split (s : bytes) (sep : Z) : list bytes :=
  match s with
  | [] => [[]]
  | c :: s =>
      if decide (c = sep) then [] :: Split s sep
      else match Split s sep with p :: ps => (c :: p) :: ps | [] => [[c]] end
  end.

(** The sessions the flag -peers asks for; what is no address is passed over. *)
Definition peer_sessions (strict : bool) (peers : bytes) : list go_statement :=
  if decide (peers = []) then []
  else omap (fun v => ip ← ParseIP strict v; Some (GoStartSession ip)) (Split peers comma).

(** What [main] has set up when it reaches its loop: the flag of the clock, the limit and
    the burst of the packet limiter, the clock, and the goroutines in their order. *)
Record started := mkStarted {
  st_ClockIsPerfect : bool;
  st_limit : Z;
  st_burst : Z;
  st_clock : clock_state;
  st_gos : list go_statement;
}.

(** [func main()] up to its loop; [cal] is the calibration that would run, given the flag. *)
Definition main_start (strict : bool) (f : flags) (now : Time) (cal : bool -> calibration)
    : result fatal_error started :=
  let perfect := clock_is_perfect (usePPS f) (flagClockIsPerfect f) in
  '(_, clk) ← getTimeOffset now (cal perfect) initial_clock;
  Ok (mkStarted perfect (udpPPSin f) (udpPPSin f * 3) clk
        ([GoListenOnTCP; GoListenAndRoute] ++ peer_sessions strict (peers f) ++ [GoSessionGC] ++
         [if usePPS f then GoPpsClockTicker else GoSysClockTicker] ++ [GoHandlePrometheus])).

(** [net.JoinHostPort(ip.String(), "6924")], the address [startSession] dials. *)
Definition JoinHostPort (host port : bytes) : bytes :=
  if decide (colon ∈ host) then [91] ++ host ++ [93; colon] ++ port else host ++ [colon] ++ port.
Definition dial_address (ip : bytes) : bytes := JoinHostPort (IP_String ip) (str "6924").

(** [func newSessionID() uint32]: [binary.Read] of four random bytes; when the source
    fails, the error is dropped and the number stays 0. *)
Definition newSessionID (random : option bytes) : Z :=
  match random with
  | Some b => match uint32 (E := unit) b with Ok n => n | _ => 0 end
  | None => 0
  end.

(** ** The receive loop *)

(** One [uListener.ReadFrom]: an error, or the datagram and its source. *)
Inductive read_from := ReadError | Datagram (data : bytes) (rxAddr : UDPAddr).

Definition packet_buffer : nat := Z.to_nat 10000.

(** One iteration of [listenAndRoute] once the socket is open: [allow] is the answer of the
    limiter. The handler is a goroutine that gets the part of a fresh buffer that was
    filled. *)
Definition route (rd : read_from) (allow : bool) : result fatal_error (option start) :=
  match rd with
  | ReadError => Err Fatal
  | Datagram data rxAddr =>
      if negb allow then Ok None else Ok (Some (StartPacket (take packet_buffer data) rxAddr))
  end.

(** ** The web server *)

(** The patterns registered on the default mux with what they serve. *)
Inductive page := Metrics | Index.

(** [http.Handle]: an empty pattern and one that is taken panic. *)
Definition handle (pattern : bytes) (p : page) (mux : gmap bytes page)
    : result fatal_error (gmap bytes page) :=
  if decide (pattern = []) then Panic else
  match mux !! pattern with
  | Some _ => Panic
  | None => Ok (<[pattern := p]> mux)
  end.

Definition slash : Z := 47.

(** The routes of [handlePrometheus]. *)
Definition routes (metricsPath : bytes) : result fatal_error (gmap bytes page) :=
  mux ← handle metricsPath Metrics ∅; handle [slash] Index mux.

Definition default_path : bytes := str "/metrics".

Definition index_head : bytes :=
  str "<html>" ++ [10] ++ str "			<head><title>split-ping</title></head>" ++ [10] ++
  str "			<body>" ++ [10] ++ str "			<h1>split-ping</h1>" ++ [10].
Definition index_foot : bytes := str "			</body>" ++ [10] ++ str "			</html>".

(** The index page. *)
Definition index_page (metricsPath : bytes) : bytes :=
  if decide (metricsPath = default_path)
  then index_head ++ [9; 9; 9] ++ str "<p><a href=" ++ [34] ++ metricsPath ++ [34] ++
       str ">Metrics</a></p>" ++ [10] ++ index_foot
  else index_head ++ index_foot.

(** ** Lemmas *)

(** The pieces, joined by the separator, are the text. *)
Fixpoint join (sep : Z) (ps : list bytes) : bytes :=
  match ps with [] => [] | [p] => p | p :: ps => p ++ sep :: join sep ps end.

Lemma Split_nonempty s sep : Split s sep <> [].
Proof. destruct s as [|c s]; simpl; [done|]. case_decide; [done|]. by destruct (Split s sep). Qed.

Lemma join_cons sep p ps : ps <> [] -> join sep (p :: ps) = p ++ sep :: join sep ps.
Proof. by destruct ps. Qed.

Lemma Split_spec s sep :
  join sep (Split s sep) = s /\ Forall (fun p => sep ∉ p) (Split s sep).
Proof.
  induction s as [|c s [IH1 IH2]]; simpl.
  - split; [done|]. constructor; [|constructor]. by intros ?%elem_of_nil.
  - pose proof (Split_nonempty s sep) as Hne. case_decide as Hc.
    + subst c. rewrite join_cons, IH1 by done. split; [done|].
      constructor; [by intros ?%elem_of_nil|done].
    + destruct (Split s sep) as [|p ps]; [done|]. split.
      * rewrite <- IH1. by destruct ps.
      * apply Forall_cons in IH2 as [Hp Hps]. constructor; [|done].
        intros [-> |?]%elem_of_cons; done.
Qed.

Lemma Split_plain s sep : sep ∉ s -> Split s sep = [s].
Proof.
  induction s as [|c s IH]; intros H; simpl; [done|].
  apply not_elem_of_cons in H as [Hc Hs]. rewrite decide_False by congruence. by rewrite IH.
Qed.

Lemma Split_join ps sep :
  ps <> [] -> Forall (fun p => sep ∉ p) ps -> Split (join sep ps) sep = ps.
Proof.
  intros Hne Hf. induction Hf as [|p ps Hp Hf IH]; [done|].
  destruct (decide (ps = [])) as [-> |Hps]; [by apply Split_plain|].
  rewrite join_cons by done. clear Hne.
  induction p as [|c p IHp]; cbn [app Split].
  - rewrite decide_True by done. by rewrite IH.
  - apply not_elem_of_cons in Hp as [Hc Hp]. rewrite decide_False by congruence.
    by rewrite IHp.
Qed.

Lemma peer_sessions_texts strict ips :
  Forall is_ip ips ->
  omap (fun v => ip ← ParseIP strict v; Some (GoStartSession ip)) (map IP_String ips)
    = map (fun ip => GoStartSession (default [] (To16 ip))) ips.
Proof.
  induction 1 as [|ip ips Hip Hips IH]; [done|]. cbn [map omap list_omap].
  destruct (To16_is_Some ip Hip) as [b Hb]. rewrite (ParseIP_String strict ip Hip), Hb. simpl.
  by rewrite IH.
Qed.

(** A list of peers that are the texts of addresses starts a session with each. *)
Lemma peer_sessions_join strict ips :
  Forall is_ip ips -> ips <> [] ->
  peer_sessions strict (join comma (map IP_String ips))
    = map (fun ip => GoStartSession (default [] (To16 ip))) ips.
Proof.
  intros Hips Hne. assert (Hne' : map IP_String ips <> []) by (by destruct ips).
  unfold peer_sessions. rewrite Split_join; [|done|].
  - rewrite peer_sessions_texts by done. apply decide_False.
    destruct ips as [|ip ips]; [done|]. apply Forall_cons in Hips as [Hip _]. intros Hnil.
    assert (Hh : IP_String ip = []).
    { cbn [map] in Hnil. destruct (decide (map IP_String ips = [])) as [E|E].
      - by rewrite E in Hnil.
      - rewrite join_cons in Hnil by done. by destruct (IP_String ip). }
    destruct (To16_is_Some ip Hip) as [b Hb]. pose proof (ParseIP_String strict ip Hip) as Hrt.
    rewrite Hh, Hb in Hrt. discriminate Hrt.
  - apply List.Forall_map. eapply Forall_impl; [exact Hips|]. intros ip Hip.
    apply comma_free_IP_String in Hip. intros Hin. rewrite Forall_forall in Hip.
    by apply (Hip comma Hin).
Qed.

(** With the brackets, the host can be read off the address to dial. *)
Lemma JoinHostPort_inj host host' port :
  JoinHostPort host port = JoinHostPort host' port -> host = host'.
Proof.
  unfold JoinHostPort. intros H.
  destruct (decide (colon ∈ host)) as [Hc|Hc], (decide (colon ∈ host')) as [Hc'|Hc'].
  - by apply (inj (app [91])), (inj (.++ _)) in H.
  - exfalso. apply Hc'. change ([93; colon] ++ port) with ([93] ++ [colon] ++ port) in H.
    rewrite !app_assoc in H. rewrite <- (app_assoc host') in H. rewrite (app_assoc host') in H.
    apply (inj (.++ port)), (inj (.++ [colon])) in H. rewrite <- H. set_solver.
  - exfalso. apply Hc. change ([93; colon] ++ port) with ([93] ++ [colon] ++ port) in H.
    rewrite !app_assoc in H. rewrite <- (app_assoc host) in H. rewrite (app_assoc host) in H.
    apply (inj (.++ port)), (inj (.++ [colon])) in H. rewrite H. set_solver.
  - by apply (inj (.++ _)) in H.
Qed.

(** ** Properties *)

(** C36: the texts of a peer name the peer: an address that is given to -peers in the form of
    the host label of the metrics starts one session with exactly that address, whether
    or not the parser is strict about leading zeros; and two peers have the same label,
    and are dialled at the same address, exactly when they are the same address in its 4
    or 16 byte form. *)
Theorem peer_text_round_trip strict ip ip' :
  is_ip ip -> is_ip ip' ->
  (exists a, To16 ip = Some a /\
     peer_sessions strict (host_label (Some ip)) = [GoStartSession a]) /\
  (host_label (Some ip) = host_label (Some ip') <-> To16 ip = To16 ip') /\
  (dial_address ip = dial_address ip' <-> To16 ip = To16 ip').
Proof.
  intros Hip Hip'. destruct (ip_text_round_trip strict ip ip' Hip Hip') as (_ & [a Ha] & Hl).
  split_and!; [|exact Hl|].
  - exists a. split; [done|].
    pose proof (peer_sessions_join strict [ip]) as Hj. cbn [map join] in Hj.
    change (host_label (Some ip)) with (IP_String ip). rewrite Hj by (done || by constructor). by rewrite Ha.
  - rewrite <- Hl. unfold dial_address. split; [apply JoinHostPort_inj|by intros ->].
Qed.

Lemma peer_text_round_trip_witness :
  (exists a, To16 [10; 0; 0; 2] = Some a /\
     peer_sessions true (host_label (Some [10; 0; 0; 2])) = [GoStartSession a]) /\
  (host_label (Some [10; 0; 0; 2]) = host_label (Some (zeros 15 ++ [1])) <->
     To16 [10; 0; 0; 2] = To16 (zeros 15 ++ [1])) /\
  (dial_address [10; 0; 0; 2] = dial_address (zeros 15 ++ [1]) <->
     To16 [10; 0; 0; 2] = To16 (zeros 15 ++ [1])).
Proof.
  apply (peer_text_round_trip true); (split; [|by (left + right)]); unfold is_bytes;
    apply (bool_decide_unpack _); vm_compute; exact I.
Defined.

(** C35: what the daemon starts: for a flag -peers that lists the texts of addresses, [main]
    starts the TCP listener, the receive loop, one session per address, in their order,
    the collector, one ticker, the one of the pulse source exactly when it is used, and
    the metrics server; with a pulse source the clock is taken to be perfect, and the only
    way not to get there is a calibrated offset of more than a second. *)
Theorem main_starts strict f now cal ips :
  Forall is_ip ips -> ips <> [] -> peers f = join comma (map IP_String ips) ->
  let perfect := usePPS f || flagClockIsPerfect f in
  main_start strict f now cal =
    if decide (cal_offset (cal perfect) > Second) then Err Fatal else
    Ok (mkStarted perfect (udpPPSin f) (udpPPSin f * 3)
          (mkClock (cal_offset (cal perfect)) (cal_end (cal perfect)))
          ([GoListenOnTCP; GoListenAndRoute] ++
           map (fun ip => GoStartSession (default [] (To16 ip))) ips ++ [GoSessionGC] ++
           [if usePPS f then GoPpsClockTicker else GoSysClockTicker] ++ [GoHandlePrometheus])).
Proof.
  intros Hips Hne Hp. cbn zeta. unfold main_start.
  assert (Hc : clock_is_perfect (usePPS f) (flagClockIsPerfect f)
    = usePPS f || flagClockIsPerfect f)
    by (unfold clock_is_perfect; by destruct (usePPS f), (flagClockIsPerfect f)).
  rewrite Hc. unfold getTimeOffset. rewrite decide_True by (by left). cbn [timeOffset].
  case_decide; [done|]. rewrite bind_Ok. do 3 f_equal.
  by rewrite Hp, peer_sessions_join.
Qed.

Lemma main_starts_witness :
  main_start true (mkFlags 100 (str "10.0.0.2,2001:db8::1") false true) (a_moment 0)
    (fun _ => mkCalibration 1 (a_moment 0))
  = Ok (mkStarted true 100 300 (mkClock 1 (a_moment 0))
      [GoListenOnTCP; GoListenAndRoute;
       GoStartSession (v4InV6Prefix ++ [10; 0; 0; 2]);
       GoStartSession ([32; 1; 13; 184] ++ zeros 11 ++ [1]);
       GoSessionGC; GoSysClockTicker; GoHandlePrometheus]).
Proof.
  rewrite (main_starts true _ (a_moment 0) (fun _ => mkCalibration 1 (a_moment 0))
    [[10; 0; 0; 2]; [32; 1; 13; 184] ++ zeros 11 ++ [1]]).
  - vm_compute. reflexivity.
  - apply List.Forall_cons; [|apply List.Forall_cons; [|apply List.Forall_nil]];
      (split; [|by (left + right)]); unfold is_bytes; apply (bool_decide_unpack _);
      vm_compute; exact I.
  - discriminate.
  - vm_compute. reflexivity.
Defined.

(** The web server: it starts exactly when the path of the metrics is neither empty nor
    the path of the index page; the metrics are then at that path and the index page at
    the other, and the index page is the same for every path that is not the default, so
    it does not disclose a path that was chosen. *)
Lemma web_routes_and_index path :
  (path = [] \/ path = [slash] -> routes path = Panic) /\
  (path <> [] -> path <> [slash] ->
     exists mux, routes path = Ok mux /\ mux !! path = Some Metrics /\
       mux !! [slash] = Some Index /\
       forall p, p <> path -> p <> [slash] -> mux !! p = None) /\
  (forall path', path <> default_path -> path' <> default_path ->
     index_page path = index_page path') /\
  index_page default_path <> index_page [].
Proof.
  split_and!.
  - intros [-> | ->]; vm_compute; reflexivity.
  - intros Hne Hsl. unfold routes, handle. rewrite decide_False by done. rewrite lookup_empty, bind_Ok.
    rewrite decide_False by done. rewrite lookup_insert_ne by done. rewrite lookup_empty.
    eexists. split_and!; [reflexivity| | |].
    + rewrite lookup_insert_ne by done. by rewrite lookup_insert_eq.
    + by rewrite lookup_insert_eq.
    + intros p Hp Hp'. by rewrite !lookup_insert_ne by done.
  - intros path' H H'. unfold index_page. by rewrite !decide_False.
  - vm_compute. discriminate.
Qed.

Section Sessions.
Context {C : Codec} {L : CodecLaws C}.

(** The session numbers: the four random bytes are taken as they are, so every number
    is drawn by exactly one of the byte strings, and a source that fails gives number 0;
    a number that is in use is not drawn again: its session is replaced in the table, and
    no number leads to the old session any more. *)
Lemma session_numbers_not_checked w id l made n :
  reachable w -> w_table w !! id = Some l -> is_u32 n ->
  newSessionID (Some (be32 n)) = n /\
  (forall b, is_bytes b -> length b = 4%nat -> newSessionID (Some b) = n -> b = be32 n) /\
  newSessionID None = 0 /\
  let w' := insert_session WaitForHandshake id (server_session id made) w in
  (exists l', l' <> l /\ w_table w' !! id = Some l') /\
  forall id', w_table w' !! id' <> Some l.
Proof.
  intros Hr Hl Hn. pose proof (reachable_inv w Hr) as HI. cbn zeta. split_and!.
  - unfold newSessionID. by rewrite uint32_be32_small.
  - intros b Hb Hlen. do 5 (destruct b as [|? b]; try discriminate Hlen).
    repeat (apply Forall_cons in Hb as [? Hb]). unfold newSessionID. simpl. intros <-.
    symmetry. by apply be32_uint32.
  - done.
  - destruct (inv_table _ HI _ _ Hl) as (s & Hs & _). exists (fresh (dom (w_heap w))).
    split; [|simpl; by rewrite lookup_insert_eq].
    intros He. assert (H : w_heap w !! fresh (dom (w_heap w)) = None)
      by (apply not_elem_of_dom, is_fresh). rewrite He in H. congruence.
  - intros id'. simpl. rewrite lookup_insert_Some.
    destruct (inv_table _ HI _ _ Hl) as (s & Hs & Hid).
    intros [[<- He]|[Hne Hl']].
    + assert (H : w_heap w !! fresh (dom (w_heap w)) = None) by (apply not_elem_of_dom, is_fresh).
      rewrite He in H. congruence.
    + destruct (inv_table _ HI _ _ Hl') as (s' & Hs' & Hid'). congruence.
Qed.

(** Only an error of the socket ends the receive loop; a datagram that the limiter refuses
    starts nothing, and any other starts a handler that begins with the reading of the
    clock and knows the socket and at most the first 10000 bytes. *)
Lemma route_starts rd allow c w :
  w_globalReplyWith w = Some c ->
  (rd = ReadError /\ route rd allow = Err Fatal) \/
  (exists data rxAddr, rd = Datagram data rxAddr /\
     match route rd allow with
     | Ok None => allow = false
     | Ok (Some st) => start_pc st w = Some (PacketClock (take packet_buffer data) rxAddr c, w)
     | _ => False
     end).
Proof.
  intros Hc. destruct rd as [|data rxAddr]; [by left|right]. exists data, rxAddr.
  split; [done|]. destruct allow; [|done]. cbn [route negb start_pc]. by rewrite Hc.
Qed.
End Sessions.

Lemma session_numbers_not_checked_witness :
  exists l', l' <> 1%positive /\
    w_table (insert_session WaitForHandshake 7 (server_session 7 (a_moment 5)) example_world) !! 7
      = Some l'.
Proof.
  refine (proj1 (proj2 (proj2 (proj2 (session_numbers_not_checked example_world 7 1%positive
    (a_moment 5) 7 example_reachable _ _))))).
  - vm_compute. reflexivity.
  - unfold is_u32. lia.
Defined.
